(** * The network animation engine (nn-animation-final-prod.js)

A shallow embedding of the generative and simulation core of
[src/final-prod/nn-animation-final-prod.js]: the Poisson-disc sampler,
the two greedy graph builders, the responsive layout, the orbital motion
step and the pooled pulse scheduler.

JavaScript numbers are modelled by the real numbers: every arithmetic
operation is the exact one, so statements made "within floating-point
tolerance" are statements about exact values here.  Integer-valued
quantities that the source keeps in typed arrays or uses as array
indices are integers ([Z], [nat]).  [Math.random] is a stream of draws
from [0, 1) threaded through the code; a [TypeError] or a [RangeError]
is the outcome [Throw]; canvas drawing has no effect on the simulation state and is
left out. *)

From Stdlib Require Import Reals Lra Lia ZArith List Permutation.
From stdpp Require Import base option list gmap.

Local Open Scope R_scope.

(** ** JavaScript numerics *)

Module JS.

Definition ltb (a b : R) : bool := if Rlt_dec a b then true else false.
Definition leb (a b : R) : bool := if Rle_dec a b then true else false.
Definition eqb (a b : R) : bool := if Req_dec_T a b then true else false.

(** [x || d] on numbers: [0] is the only falsy real. *)
Definition or_else (x d : R) : R := if eqb x 0 then d else x.

(** [x || d] where the key [x] may be absent from its object. *)
Definition or_default (x : option R) (d : R) : R :=
  match x with
  | Some v => or_else v d
  | None => d
  end.

(** [clamp], line 108. *)
Definition clamp (v a b : R) : R :=
  if ltb v a then a else if ltb b v then b else v.

(** [lerp], line 109. *)
Definition lerp (a b t : R) : R := a + (b - a) * t.

(** [Math.round]: the nearest integer, ties towards positive infinity. *)
Definition round (x : R) : Z := Zfloor (x + / 2).

(** Truncation towards zero, the first half of [x | 0] and the quotient
    of [%]. *)
Definition trunc (x : R) : Z := if ltb x 0 then Zceil x else Zfloor x.

(** 32-bit two's complement wrap-around. *)
Definition wrap32 (z : Z) : Z := ((z + 2 ^ 31) mod 2 ^ 32 - 2 ^ 31)%Z.

(** [x | 0]. *)
Definition to_int32 (x : R) : Z := wrap32 (trunc x).

(** 16-bit wrap-around of an [Int16Array] cell. *)
Definition wrap16 (z : Z) : Z := ((z + 2 ^ 15) mod 2 ^ 16 - 2 ^ 15)%Z.

(** [a % b]: the remainder has the sign of the dividend. *)
Definition rem (a b : R) : R := a - b * IZR (trunc (a / b)).

(** [Math.hypot] of two arguments. *)
Definition hypot (dx dy : R) : R := sqrt (dx * dx + dy * dy).

(** [Math.pow] for a positive base. *)
Definition pow (b e : R) : R := Rpower b e.

(** [arr[i]] for an integer-valued index that may be negative. *)
Definition nth_Z {A : Type} (l : list A) (i : Z) : option A :=
  if (i <? 0)%Z then None else l !! Z.to_nat i.

(** [arr[i] = v] on an ordinary array: a write past the end extends the
    array, leaving holes. *)
Definition array_set {A : Type} (l : list (option A)) (i : nat)
    (v : option A) : list (option A) :=
  if (i <? length l)%nat then <[i := v]> l
  else l ++ replicate (i - length l) None ++ [v].

End JS.

(** ** Effects: random draws, exceptions and running out of fuel *)

Inductive result (A : Type) : Type :=
  | Ok (a : A)
  | Throw
  | Timeout.
Arguments Ok {A} a.
Arguments Throw {A}.
Arguments Timeout {A}.

(** One value of [Math.random()]. *)
Record unit_draw := mkDraw { draw_val :> R; draw_range : 0 <= draw_val < 1 }.

(** The stream of values [Math.random()] is going to return. *)
Definition Rng : Type := nat -> unit_draw.

Definition M (A : Type) : Type := Rng -> result (A * Rng).

Definition ret {A : Type} (a : A) : M A := fun g => Ok (a, g).

Definition bind {A B : Type} (m : M A) (f : A -> M B) : M B :=
  fun g =>
    match m g with
    | Ok (a, g') => f a g'
    | Throw => Throw
    | Timeout => Timeout
    end.

Definition throw {A : Type} : M A := fun _ => Throw.
Definition timeout {A : Type} : M A := fun _ => Timeout.

(** [Math.random()]. *)
Definition random : M R :=
  fun g => Ok (draw_val (g 0%nat), fun n => g (S n)).

Definition zero_draw : unit_draw := mkDraw 0 (conj (Rle_refl 0) Rlt_0_1).

(** The stream whose every draw is [0]. *)
Definition zero_rng : Rng := fun _ => zero_draw.

(** Reading a field of [undefined] throws. *)
Definition defined {A : Type} (o : option A) : M A :=
  match o with
  | Some a => ret a
  | None => throw
  end.

(** [new Array(n)] and [arr.length = n] for an integer [n]: a [RangeError]
    unless [n] is an array length, a whole number from [0] to
    [2 ^ 32 - 1]. *)
Definition array_length (n : Z) : M unit :=
  if ((0 <=? n) && (n <? 2 ^ 32))%Z then ret tt else throw.

Notation "'let*' x ':=' m 'in' k" := (bind m (fun x => k))
  (at level 10, x pattern, m at level 100, k at level 200).

Fixpoint foldM {A S : Type} (f : S -> A -> M S) (l : list A) (s : S) : M S :=
  match l with
  | [] => ret s
  | a :: l' => let* s' := f s a in foldM f l' s'
  end.

(** ** Poisson-disc sampling, lines 136-188 *)

Module Poisson.

Record Point := mkPoint { x : R; y : R }.

Record St := mkSt {
  grid : gmap Z Point;
  active : list Point;
  samples : list Point
}.

Section Sampler.
  Variables (width height r : R) (k : nat).

Definition cell : R := r / sqrt 2.
Definition gridW : Z := Zceil (width / cell).
Definition gridH : Z := Zceil (height / cell).

Definition inBounds (x y : R) : bool :=
  JS.leb 0 x && JS.ltb x width && JS.leb 0 y && JS.ltb y height.

Definition gridIndex (x y : R) : Z :=
  (Zfloor (y / cell) * gridW + Zfloor (x / cell))%Z.

(** The integers [lo, lo + 1, ..., hi] of a [for] loop. *)
Definition zrange (lo hi : Z) : list Z :=
  map (fun n => (lo + Z.of_nat n)%Z) (seq 0 (Z.to_nat (hi - lo + 1))).

Definition farEnough (grid : gmap Z Point) (x y : R) : bool :=
  let gi := Zfloor (x / cell) in
  let gj := Zfloor (y / cell) in
  forallb (fun j =>
    forallb (fun i =>
      match grid !! (j * gridW + i)%Z with
      | None => true
      | Some s =>
          let dx := s.(Poisson.x) - x in
          let dy := s.(Poisson.y) - y in
          negb (JS.ltb (dx * dx + dy * dy) (r * r))
      end)
      (zrange (Z.max 0 (gi - 2)) (Z.min (gridW - 1) (gi + 2))))
    (zrange (Z.max 0 (gj - 2)) (Z.min (gridH - 1) (gj + 2))).

Definition addSample (st : St) (x y : R) : St :=
  let s := mkPoint x y in
  {| grid := <[gridIndex x y := s]> (grid st);
     active := active st ++ [s];
     samples := samples st ++ [s] |}.

(** The [for (let n = 0; n < k; n++)] loop around one frontier point:
    [Some] of the new state when a candidate was placed. *)
Fixpoint attempts (n : nat) (s : Point) (st : St) : M (option St) :=
  match n with
  | O => ret None
  | S n' =>
      let* u1 := random in
      let a := u1 * PI * 2 in
      let* u2 := random in
      let rr := r * (1 + u2) in
      let x := s.(Poisson.x) + cos a * rr in
      let y := s.(Poisson.y) + sin a * rr in
      if inBounds x y && farEnough (grid st) x y
      then ret (Some (addSample st x y))
      else attempts n' s st
  end.

(** The [while (active.length)] loop; [fuel] bounds its iterations. *)
Fixpoint loop (fuel : nat) (st : St) : M (list Point) :=
  match active st with
  | [] => ret (samples st)
  | _ :: _ =>
      match fuel with
      | O => timeout
      | S fuel' =>
          let* u := random in
          let idx := JS.to_int32 (u * INR (length (active st))) in
          let* s := defined (JS.nth_Z (active st) idx) in
          let* placed := attempts k s st in
          match placed with
          | Some st' => loop fuel' st'
          | None =>
              loop fuel'
                {| grid := grid st;
                   active := delete (Z.to_nat idx) (active st);
                   samples := samples st |}
          end
      end
  end.

(** [new Array(gridW * gridH)] raises a [RangeError] unless the length
    is an array length. *)
Definition poisson (fuel : nat) : M (list Point) :=
  if ((0 <=? gridW * gridH) && (gridW * gridH <? 2 ^ 32))%Z
  then loop fuel (addSample (mkSt ∅ [] []) (width / 2) (height / 2))
  else throw.

End Sampler.

End Poisson.

(** ** Configuration, lines 15-101 *)

Record Band := mkBand { zMin : R; zMax : R; move : bool; headingDeg : R }.

(** The keys of [CONFIG] the simulation reads.  Degree caps and the pulse
    cap count things and are whole numbers; the pool size is an array
    length. *)
Record Config := mkConfig {
  UPDATE_HZ : R;
  BASE_WIDTH : R;
  BASE_HEIGHT : R;
  BASE_NODE_COUNT : R;
  BASE_BG_NODE_COUNT : R;
  BASE_MAX_LINK_DISTANCE : R;
  BASE_PULSE_MAX_ACTIVE : R;
  NODE_COUNT : R;
  BG_NODE_COUNT : R;
  MOBILE_SCALE : R;
  MAX_LINK_DISTANCE : R;
  MAX_LINKS_DYNAMIC : Z;
  MAX_LINKS_STATIC : Z;
  BG_LINK_MAX_DEGREE : Z;
  BG_LINK_MAX_DISTANCE : R;
  PARALLAX_BANDS : list Band;
  PULSE_MAX_ACTIVE : Z;
  PULSE_POOL_SIZE : nat;
  PULSE_SPEED : R;
  PULSE_SPAWN_EVERY_MS : R;
  LOOP_DURATION_MS : R;
  ELLIPSE_NEAR_CYCLES : R;
  ELLIPSE_MID_CYCLES : R;
  ELLIPSE_RADIUS_NEAR_X : R;
  ELLIPSE_RADIUS_NEAR_Y : R;
  ELLIPSE_RADIUS_MID_X : R;
  ELLIPSE_RADIUS_MID_Y : R;
  RANDOMIZE_NODE_PHASES : bool;
  STARTING_PHASE_RANDOMIZER : R;
  GLOBAL_DRIFT_RATIO : R;
  BG_DRIFT_RATIO : R;
  BG_DRIFT_SPEED_MULT : R;
  BG_DRIFT_HEADING_DEG : R;
  BG_DRIFT_PHASE : R
}.

(** The configuration the source ships. *)
Definition CONFIG : Config := {|
  UPDATE_HZ := 30;
  BASE_WIDTH := 1440;
  BASE_HEIGHT := 900;
  BASE_NODE_COUNT := 70;
  BASE_BG_NODE_COUNT := 70;
  BASE_MAX_LINK_DISTANCE := 500;
  BASE_PULSE_MAX_ACTIVE := 1;
  NODE_COUNT := 100;
  BG_NODE_COUNT := 60;
  MOBILE_SCALE := 9 / 10;
  MAX_LINK_DISTANCE := 350;
  MAX_LINKS_DYNAMIC := 6;
  MAX_LINKS_STATIC := 5;
  BG_LINK_MAX_DEGREE := 4;
  BG_LINK_MAX_DISTANCE := 400;
  PARALLAX_BANDS :=
    [ mkBand 0 (4 / 10) true 20;
      mkBand (4 / 10) (75 / 100) true 160;
      mkBand (70 / 100) 1 false 180 ];
  PULSE_MAX_ACTIVE := 4;
  PULSE_POOL_SIZE := 12;
  PULSE_SPEED := 500;
  PULSE_SPAWN_EVERY_MS := 1000;
  LOOP_DURATION_MS := 28000;
  ELLIPSE_NEAR_CYCLES := 1;
  ELLIPSE_MID_CYCLES := 1;
  ELLIPSE_RADIUS_NEAR_X := 80;
  ELLIPSE_RADIUS_NEAR_Y := 30;
  ELLIPSE_RADIUS_MID_X := 40;
  ELLIPSE_RADIUS_MID_Y := 15;
  RANDOMIZE_NODE_PHASES := true;
  STARTING_PHASE_RANDOMIZER := 15 / 100;
  GLOBAL_DRIFT_RATIO := 0;
  BG_DRIFT_RATIO := 0;
  BG_DRIFT_SPEED_MULT := 0;
  BG_DRIFT_HEADING_DEG := -100;
  BG_DRIFT_PHASE := -1
|}.

(** Keys the source reads but [CONFIG] does not define: each read yields
    [undefined] and the [||] beside it supplies the value. *)
Definition ELLIPSE_NEAR_DIRECTION : option R := None.
Definition ELLIPSE_MID_DIRECTION : option R := None.
Definition NEAR_PHASE_OFFSET_TURNS : option R := None.
Definition MID_PHASE_OFFSET_TURNS : option R := None.
Definition INITIAL_GLOBAL_PHASE_TURNS : option R := None.

(** [band.headingRad], lines 130-132. *)
Definition headingRad (b : Band) : R := headingDeg b * PI / 180.

(** [CONFIG.BG_DRIFT_HEADING_RAD], line 133. *)
Definition BG_DRIFT_HEADING_RAD (cfg : Config) : R :=
  BG_DRIFT_HEADING_DEG cfg * PI / 180.

(** ** Data model *)

(** Foreground nodes, links and link candidates. *)
Module Fg.
Record Node := mkNode {
  id : nat; x : R; y : R; z : R; ox : R; oy : R; seedPhase : R
}.
Record Link := mkLink { ai : nat; bi : nat; d : R }.
Record Cand := mkCand { j : nat; dist : R; weight : R }.
End Fg.

(** Background nodes and edges. *)
Module Bg.
Record Node := mkNode { x : R; y : R; z : R }.
Record Edge := mkEdge { ai : nat; bi : nat; weight : R }.
End Bg.

Record Pulse := mkPulse { linkIndex : Z; t : R; active : bool; dist : R }.

(** [ObjectPool], lines 191-211.  The pooled objects live in the engine's
    store of pulse objects; the pool holds their addresses, [None] being
    [null] or a hole. *)
Record ObjectPool := mkPool { _pool : list (option nat); _len : nat }.

(** The fields of the engine the simulation reads and writes.  [store]
    holds the pulse objects ever created, addressed by position; [pulses]
    and the pool refer to them by address, as the source's arrays refer to
    shared objects. *)
Record Engine := mkEngine {
  width : R;
  height : R;
  _resizePrevW : R;
  _resizePrevH : R;
  nodes : list Fg.Node;
  bgNodes : list Bg.Node;
  links : list Fg.Link;
  dynamicLinks : list nat;
  staticLinks : list nat;
  bgLinks : list Bg.Edge;
  movingFlags : list bool;
  nodeMax : R;
  bgNodeMax : R;
  linkDistanceMax : R;
  bgLinkDistanceMax : R;
  pulseMaxActive : R;
  store : list Pulse;
  pulsePool : ObjectPool;
  pulses : list (option nat);
  pulsesLen : nat;
  _lastPulseSpawn : R;
  _globalOffsetX : R;
  _globalOffsetY : R;
  _bgOffsetX : R;
  _bgOffsetY : R;
  _loopStart : R;
  _startPhase : R
}.

(** ** Helpers, lines 108-116 *)

(** [[arr[i], arr[j]] = [arr[j], arr[i]]].  Both positions are indices of
    the array wherever the source swaps (see [shuffle_from_total]); the
    model stops otherwise instead of following the source into an array
    with holes. *)
Definition swap (arr : list nat) (i : nat) (j : Z) : M (list nat) :=
  let* a := defined (arr !! i) in
  let* b := defined (JS.nth_Z arr j) in
  ret (<[Z.to_nat j := a]> (<[i := b]> arr)).

(** The loop of [shuffleArray] from index [i] down to [1]. *)
Fixpoint shuffle_from (i : nat) (arr : list nat) : M (list nat) :=
  match i with
  | O => ret arr
  | S i' =>
      let* u := random in
      let j := JS.to_int32 (u * INR (i + 1)) in
      let* arr' := swap arr i j in
      shuffle_from i' arr'
  end.

Definition shuffleArray (arr : list nat) : M (list nat) :=
  shuffle_from (length arr - 1) arr.

(** [Array.prototype.sort] with the comparator [(a, b) => w(b) - w(a)]:
    a stable sort by decreasing [w]. *)
Fixpoint insert_desc {A : Type} (w : A -> R) (c : A) (l : list A) : list A :=
  match l with
  | [] => [c]
  | h :: tl =>
      if JS.leb (w h) (w c) then c :: h :: tl else h :: insert_desc w c tl
  end.

Definition sort_desc {A : Type} (w : A -> R) (l : list A) : list A :=
  foldr (insert_desc w) [] l.

(** ** Graph construction, lines 497-580 *)

(** A cell of an [Int16Array] compared with a cap: [undefined >= cap] is
    false. *)
Definition deg_ge (degrees : list Z) (i : nat) (cap : Z) : bool :=
  match degrees !! i with
  | Some v => (cap <=? v)%Z
  | None => false
  end.

(** [degrees[i]++] on an [Int16Array]: the cell wraps, and a write outside
    the array is dropped. *)
Definition deg_incr (degrees : list Z) (i : nat) : list Z :=
  match degrees !! i with
  | Some v => <[i := JS.wrap16 (v + 1)]> degrees
  | None => degrees
  end.

(** The string [`${min}-${max}`], as the pair it spells. *)
Definition key (i j : nat) : nat * nat :=
  if (i <? j)%nat then (i, j) else (j, i).

(** [this.movingFlags[i] ? MAX_LINKS_DYNAMIC : MAX_LINKS_STATIC]. *)
Definition cap_of (cfg : Config) (flags : list bool) (i : nat) : Z :=
  if default false (flags !! i) then MAX_LINKS_DYNAMIC cfg
  else MAX_LINKS_STATIC cfg.

Record BuildSt := mkBuildSt {
  b_links : list Fg.Link;
  b_seen : gset (nat * nat);
  b_degrees : list Z
}.

(** One iteration of the candidate loop, lines 512-525. *)
Definition candidate_step (cfg : Config) (nds : list Fg.Node)
    (flags : list bool) (maxDist : R) (st : BuildSt) (i : nat)
    (cands : list Fg.Cand) (j : nat) : M (list Fg.Cand) :=
  if (j =? i)%nat then ret cands
  else if decide (key i j ∈ b_seen st) then ret cands
  else
    let* nodeA := defined (nds !! i) in
    let* nodeB := defined (nds !! j) in
    let dx := Fg.x nodeA - Fg.x nodeB in
    let dy := Fg.y nodeA - Fg.y nodeB in
    let dist := JS.hypot dx dy in
    if JS.ltb maxDist dist || JS.eqb dist 0 then ret cands
    else if deg_ge (b_degrees st) j (cap_of cfg flags j) then ret cands
    else
      let* u := random in
      let weight := 1 / JS.pow dist (12 / 10) * (1 + u * (8 / 100)) in
      ret (cands ++ [Fg.mkCand j dist weight]).

(** One iteration of the greedy loop, lines 530-540. *)
Definition link_step (cfg : Config) (flags : list bool) (i : nat)
    (st : BuildSt) (entry : Fg.Cand) : BuildSt :=
  let j := Fg.j entry in
  if decide (key i j ∈ b_seen st) then st
  else if deg_ge (b_degrees st) i (cap_of cfg flags i)
          || deg_ge (b_degrees st) j (cap_of cfg flags j) then st
  else
    {| b_links := b_links st ++ [Fg.mkLink i j (Fg.dist entry)];
       b_seen := {[key i j]} ∪ b_seen st;
       b_degrees := deg_incr (deg_incr (b_degrees st) i) j |}.

(** The body of [for (const i of indices)], lines 506-541. *)
Definition visit (cfg : Config) (nds : list Fg.Node) (flags : list bool)
    (maxDist : R) (st : BuildSt) (i : nat) : M BuildSt :=
  if deg_ge (b_degrees st) i (cap_of cfg flags i) then ret st
  else
    let* cands :=
      foldM (candidate_step cfg nds flags maxDist st i)
            (seq 0 (length nds)) [] in
    match cands with
    | [] => ret st
    | _ :: _ => ret (fold_left (link_step cfg flags i)
                               (sort_desc Fg.weight cands) st)
    end.

Definition build_links (cfg : Config) (nds : list Fg.Node)
    (flags : list bool) (maxDist : R) : M (list Fg.Link) :=
  let n := length nds in
  let* indices := shuffleArray (seq 0 n) in
  let* st := foldM (visit cfg nds flags maxDist) indices
                   (mkBuildSt [] ∅ (replicate n 0%Z)) in
  ret (b_links st).

(** Lines 545-552: is the link at [idx] incident to a moving node? *)
Definition is_dynamic (lks : list Fg.Link) (flags : list bool)
    (idx : nat) : bool :=
  match lks !! idx with
  | Some L =>
      default false (flags !! Fg.ai L) || default false (flags !! Fg.bi L)
  | None => false
  end.

Definition set_links (e : Engine) (lks : list Fg.Link)
    (dyn sta : list nat) : Engine :=
  mkEngine (width e) (height e) (_resizePrevW e) (_resizePrevH e)
    (nodes e) (bgNodes e) lks dyn sta (bgLinks e) (movingFlags e)
    (nodeMax e) (bgNodeMax e) (linkDistanceMax e) (bgLinkDistanceMax e)
    (pulseMaxActive e) (store e) (pulsePool e) (pulses e) (pulsesLen e)
    (_lastPulseSpawn e) (_globalOffsetX e) (_globalOffsetY e)
    (_bgOffsetX e) (_bgOffsetY e) (_loopStart e) (_startPhase e).

(** [_buildLinks], lines 497-553. *)
Definition _buildLinks (cfg : Config) (e : Engine) : M Engine :=
  let* lks :=
    build_links cfg (nodes e) (movingFlags e) (linkDistanceMax e) in
  let idxs := seq 0 (length lks) in
  ret (set_links e lks
         (filter (fun idx => is_dynamic lks (movingFlags e) idx = true) idxs)
         (filter (fun idx => is_dynamic lks (movingFlags e) idx = false) idxs)).

(** The degree cap of the background graph, line 557. *)
Definition bg_degree_cap (cfg : Config) : Z :=
  Z.max 1 (Z.min (BG_LINK_MAX_DEGREE cfg) (MAX_LINKS_STATIC cfg)).

(** One iteration of the inner candidate loop, lines 563-571. *)
Definition bg_candidate_step (nds : list Bg.Node) (maxDist : R) (i : nat)
    (edges : list Bg.Edge) (j : nat) : M (list Bg.Edge) :=
  let* a := defined (nds !! i) in
  let* b := defined (nds !! j) in
  let dx := Bg.x a - Bg.x b in
  let dy := Bg.y a - Bg.y b in
  let dist := JS.hypot dx dy in
  if JS.ltb maxDist dist || JS.eqb dist 0 then ret edges
  else
    let* u := random in
    let weight := 1 / JS.pow dist (12 / 10) * (1 + u * (5 / 100)) in
    ret (edges ++ [Bg.mkEdge i j weight]).

(** One iteration of the greedy loop, lines 575-579. *)
Definition bg_link_step (degreeCap : Z) (st : list Bg.Edge * list Z)
    (edge : Bg.Edge) : list Bg.Edge * list Z :=
  let '(out, deg) := st in
  if deg_ge deg (Bg.ai edge) degreeCap || deg_ge deg (Bg.bi edge) degreeCap
  then st
  else (out ++ [edge], deg_incr (deg_incr deg (Bg.ai edge)) (Bg.bi edge)).

Definition build_bg_links (cfg : Config) (nds : list Bg.Node)
    (maxDist : R) : M (list Bg.Edge) :=
  let m := length nds in
  let* edges :=
    foldM (fun edges i =>
             foldM (bg_candidate_step nds maxDist i)
                   (seq (i + 1) (m - (i + 1))) edges)
          (seq 0 m) [] in
  ret (fst (fold_left (bg_link_step (bg_degree_cap cfg))
                      (sort_desc Bg.weight edges)
                      ([], replicate m 0%Z))).

Definition set_bgLinks (e : Engine) (edges : list Bg.Edge) : Engine :=
  mkEngine (width e) (height e) (_resizePrevW e) (_resizePrevH e)
    (nodes e) (bgNodes e) (links e) (dynamicLinks e) (staticLinks e) edges
    (movingFlags e)
    (nodeMax e) (bgNodeMax e) (linkDistanceMax e) (bgLinkDistanceMax e)
    (pulseMaxActive e) (store e) (pulsePool e) (pulses e) (pulsesLen e)
    (_lastPulseSpawn e) (_globalOffsetX e) (_globalOffsetY e)
    (_bgOffsetX e) (_bgOffsetY e) (_loopStart e) (_startPhase e).

(** [_buildBgLinks], lines 555-580. *)
Definition _buildBgLinks (cfg : Config) (e : Engine) : M Engine :=
  let* edges := build_bg_links cfg (bgNodes e) (bgLinkDistanceMax e) in
  ret (set_bgLinks e edges).


(** ** Layout, lines 342-351 and 434-495 *)

Definition TAU : R := PI * 2.

Definition set_size (e : Engine) (w h : R) : Engine :=
  mkEngine w h w h
    (nodes e) (bgNodes e) (links e) (dynamicLinks e) (staticLinks e)
    (bgLinks e) (movingFlags e)
    (nodeMax e) (bgNodeMax e) (linkDistanceMax e) (bgLinkDistanceMax e)
    (pulseMaxActive e) (store e) (pulsePool e) (pulses e) (pulsesLen e)
    (_lastPulseSpawn e) (_globalOffsetX e) (_globalOffsetY e)
    (_bgOffsetX e) (_bgOffsetY e) (_loopStart e) (_startPhase e).

Definition set_layout (e : Engine)
    (nMax bgMax linkMax pulseMax bgLinkMax : R) : Engine :=
  mkEngine (width e) (height e) (_resizePrevW e) (_resizePrevH e)
    (nodes e) (bgNodes e) (links e) (dynamicLinks e) (staticLinks e)
    (bgLinks e) (movingFlags e)
    nMax bgMax linkMax bgLinkMax pulseMax
    (store e) (pulsePool e) (pulses e) (pulsesLen e)
    (_lastPulseSpawn e) (_globalOffsetX e) (_globalOffsetY e)
    (_bgOffsetX e) (_bgOffsetY e) (_loopStart e) (_startPhase e).

Definition set_population (e : Engine) (nds : list Fg.Node)
    (bgs : list Bg.Node) (flags : list bool) : Engine :=
  mkEngine (width e) (height e) (_resizePrevW e) (_resizePrevH e)
    nds bgs (links e) (dynamicLinks e) (staticLinks e) (bgLinks e) flags
    (nodeMax e) (bgNodeMax e) (linkDistanceMax e) (bgLinkDistanceMax e)
    (pulseMaxActive e) (store e) (pulsePool e) (pulses e) (pulsesLen e)
    (_lastPulseSpawn e) (_globalOffsetX e) (_globalOffsetY e)
    (_bgOffsetX e) (_bgOffsetY e) (_loopStart e) (_startPhase e).

Definition set_motion (e : Engine) (nds : list Fg.Node)
    (gx gy bx byy : R) : Engine :=
  mkEngine (width e) (height e) (_resizePrevW e) (_resizePrevH e)
    nds (bgNodes e) (links e) (dynamicLinks e) (staticLinks e) (bgLinks e)
    (movingFlags e)
    (nodeMax e) (bgNodeMax e) (linkDistanceMax e) (bgLinkDistanceMax e)
    (pulseMaxActive e) (store e) (pulsePool e) (pulses e) (pulsesLen e)
    (_lastPulseSpawn e) gx gy bx byy (_loopStart e) (_startPhase e).

Definition set_pulses (e : Engine) (st : list Pulse) (pool : ObjectPool)
    (ps : list (option nat)) (len : nat) (lastSpawn : R) : Engine :=
  mkEngine (width e) (height e) (_resizePrevW e) (_resizePrevH e)
    (nodes e) (bgNodes e) (links e) (dynamicLinks e) (staticLinks e)
    (bgLinks e) (movingFlags e)
    (nodeMax e) (bgNodeMax e) (linkDistanceMax e) (bgLinkDistanceMax e)
    (pulseMaxActive e) st pool ps len lastSpawn
    (_globalOffsetX e) (_globalOffsetY e)
    (_bgOffsetX e) (_bgOffsetY e) (_loopStart e) (_startPhase e).

(** [this.pulseMaxActive] as [_applyResponsiveScaling] computes it. *)
Definition scaled_pulse_cap (cfg : Config) (w h : R) : R :=
  let area := Rmax 1 (w * h) in
  let kL := sqrt (area / (BASE_WIDTH cfg * BASE_HEIGHT cfg)) in
  JS.clamp (IZR (JS.round (BASE_PULSE_MAX_ACTIVE cfg * kL))) 1
           (IZR (PULSE_MAX_ACTIVE cfg)).

(** [this.nodeMax] as [_applyResponsiveScaling] computes it. *)
Definition scaled_node_max (cfg : Config) (w h : R) : R :=
  let kA := Rmax 1 (w * h) / (BASE_WIDTH cfg * BASE_HEIGHT cfg) in
  JS.clamp (IZR (JS.round (BASE_NODE_COUNT cfg * kA))) 16 (NODE_COUNT cfg).

(** [_applyResponsiveScaling], lines 342-351. *)
Definition _applyResponsiveScaling (cfg : Config) (e : Engine)
    (w h : R) : Engine :=
  let area := Rmax 1 (w * h) in
  let kA := area / (BASE_WIDTH cfg * BASE_HEIGHT cfg) in
  let kL := sqrt kA in
  set_layout e
    (JS.clamp (IZR (JS.round (BASE_NODE_COUNT cfg * kA))) 16 (NODE_COUNT cfg))
    (JS.clamp (IZR (JS.round (BASE_BG_NODE_COUNT cfg * kA))) 12
              (BG_NODE_COUNT cfg))
    (Rmax 80 (IZR (JS.round (BASE_MAX_LINK_DISTANCE cfg * kL))))
    (scaled_pulse_cap cfg w h)
    (Rmax 60 (IZR (JS.round (BG_LINK_MAX_DISTANCE cfg * kL)))).

(** [_getTargetCounts], lines 441-449: the pair [(nodeCount, bgCount)]. *)
Definition _getTargetCounts (cfg : Config) (e : Engine) : Z * Z :=
  let scale :=
    if JS.ltb (Rmin (width e) (height e)) 900 then MOBILE_SCALE cfg else 1 in
  (Z.max 16 (JS.round (nodeMax e * scale)),
   Z.max 12 (JS.round (bgNodeMax e * scale))).

(** [_bandForZ], lines 434-439; [None] is [undefined], the last element of
    an empty list of bands. *)
Definition _bandForZ (cfg : Config) (z : R) : option Band :=
  match List.find (fun b => JS.leb (zMin b) z && JS.ltb z (zMax b))
                  (PARALLAX_BANDS cfg) with
  | Some b => Some b
  | None => last (PARALLAX_BANDS cfg)
  end.

(** [pts[i % pts.length] || { x: random * width, y: random * height }]. *)
Definition base_point (pts : list Poisson.Point) (i : nat) (w h : R)
    : M Poisson.Point :=
  match pts !! (i mod length pts)%nat with
  | Some p => ret p
  | None =>
      let* u1 := random in
      let* u2 := random in
      ret (Poisson.mkPoint (u1 * w) (u2 * h))
  end.

(** The body of the first loop of [_setupNodesEven], lines 462-480. *)
Definition setup_node (cfg : Config) (w h spacing : R)
    (pts : list Poisson.Point)
    (acc : list Fg.Node * list bool) (i : nat)
    : M (list Fg.Node * list bool) :=
  let* basePt := base_point pts i w h in
  let* u1 := random in
  let jitterR := spacing * (2 / 10) * u1 in
  let* u2 := random in
  let jitterA := u2 * PI * 2 in
  let px := JS.clamp (Poisson.x basePt + cos jitterA * jitterR) 0 w in
  let py := JS.clamp (Poisson.y basePt + sin jitterA * jitterR) 0 h in
  let* z := random in
  let band := _bandForZ cfg z in
  let* seed :=
    if RANDOMIZE_NODE_PHASES cfg
    then let* u := random in
         ret (u * JS.or_else (STARTING_PHASE_RANDOMIZER cfg) 0 * PI * 2)
    else ret 0 in
  let* b := defined band in
  ret (acc.1 ++ [Fg.mkNode i px py z px py seed], acc.2 ++ [move b]).

(** The body of the second loop, lines 487-494. *)
Definition setup_bg_node (w h bgSpacing : R) (bgPts : list Poisson.Point)
    (acc : list Bg.Node) (i : nat) : M (list Bg.Node) :=
  let* base := base_point bgPts i w h in
  let* u1 := random in
  let jitterR := bgSpacing * (25 / 100) * u1 in
  let* u2 := random in
  let jitterA := u2 * PI * 2 in
  let bx := JS.clamp (Poisson.x base + cos jitterA * jitterR) 0 w in
  let byy := JS.clamp (Poisson.y base + sin jitterA * jitterR) 0 h in
  let* u3 := random in
  ret (acc ++ [Bg.mkNode bx byy (85 / 100 + u3 * (15 / 100))]).

(** [_setupNodesEven], lines 451-495; [fuel] bounds each run of the
    sampler.  Lines 459-460 and 486 set the lengths of the three arrays,
    which raises a [RangeError] for a count that is no array length. *)
Definition _setupNodesEven (cfg : Config) (fuel : nat) (e : Engine)
    : M Engine :=
  let '(nodeCount, bgCount) := _getTargetCounts cfg e in
  let w := width e in
  let h := height e in
  let area := w * h in
  let spacing := sqrt (area / IZR nodeCount) in
  let r := Rmax 18 (spacing * (55 / 100)) in
  let* pts := Poisson.poisson w h r 30 fuel in
  let* _ := array_length nodeCount in
  let* fg := foldM (setup_node cfg w h spacing pts)
                   (seq 0 (Z.to_nat nodeCount)) ([], []) in
  let bgSpacing := sqrt (area / IZR bgCount) in
  let rbg := Rmax 24 (bgSpacing * (6 / 10)) in
  let* bgPts := Poisson.poisson w h rbg 30 fuel in
  let* _ := array_length bgCount in
  let* bgs := foldM (setup_bg_node w h bgSpacing bgPts)
                    (seq 0 (Z.to_nat bgCount)) [] in
  ret (set_population e fg.1 bgs fg.2).

(** ** Resize, lines 353-404 *)

(** The proportional reflow of lines 384-392. *)
Definition scale_node (sx sy : R) (n : Fg.Node) : Fg.Node :=
  Fg.mkNode (Fg.id n) (Fg.x n * sx) (Fg.y n * sy) (Fg.z n)
            (Fg.ox n * sx) (Fg.oy n * sy) (Fg.seedPhase n).

Definition scale_bg_node (sx sy : R) (b : Bg.Node) : Bg.Node :=
  Bg.mkNode (Bg.x b * sx) (Bg.y b * sy) (Bg.z b).

(** The test of lines 375-379, evaluated once the new layout and size
    (lines 358-364) are in place. *)
Definition needRebuild (cfg : Config) (first : bool) (e : Engine) : bool :=
  let '(nodeCount, bgCount) := _getTargetCounts cfg e in
  first
  || (length (nodes e) =? 0)%nat
  || negb (Z.of_nat (length (nodes e)) =? nodeCount)%Z
  || negb (Z.of_nat (length (bgNodes e)) =? bgCount)%Z.

(** [_resize(first)] when the container measures [w] by [h]. *)
Definition _resize (cfg : Config) (fuel : nat) (first : bool) (w h : R)
    (e : Engine) : M Engine :=
  let prevW := _resizePrevW e in
  let prevH := _resizePrevH e in
  let e1 := set_size (_applyResponsiveScaling cfg e w h) w h in
  if negb (needRebuild cfg first e1) && negb (length (nodes e1) =? 0)%nat then
    let sx := if JS.eqb prevW 0 then 1 else w / prevW in
    let sy := if JS.eqb prevH 0 then 1 else h / prevH in
    let e2 := set_population e1 (map (scale_node sx sy) (nodes e1))
                (map (scale_bg_node sx sy) (bgNodes e1)) (movingFlags e1) in
    let* e3 := _buildLinks cfg e2 in
    _buildBgLinks cfg e3
  else if negb first then
    let* e2 := _setupNodesEven cfg fuel e1 in
    let* e3 := _buildLinks cfg e2 in
    _buildBgLinks cfg e3
  else ret e1.


(** ** The pulse pool, lines 191-211 and 263-269 *)

(** The object [createFn] returns and [resetFn] restores. *)
Definition fresh_pulse : Pulse := mkPulse (-1) 0 false 1.

(** A full pool of [n] objects on an empty store: the objects at
    addresses [0 .. n - 1], all in the pool. *)
Definition pool_of (n : nat) : list Pulse * ObjectPool :=
  (replicate n fresh_pulse, mkPool (Some <$> seq 0 n) n).

(** [new ObjectPool(create, reset, n)], lines 192-198: [new Array(n)],
    which raises a [RangeError] unless [n] is an array length, then [n]
    objects. *)
Definition pool_new (n : nat) : M (list Pulse * ObjectPool) :=
  let* _ := array_length (Z.of_nat n) in
  ret (pool_of n).

(** [get()]: the address of the object handed out ([None] if the slot held
    no object), the store and the pool afterwards.  An empty pool creates
    a new object. *)
Definition pool_get (st : list Pulse) (pool : ObjectPool)
    : option nat * list Pulse * ObjectPool :=
  if (0 <? _len pool)%nat then
    let len' := (_len pool - 1)%nat in
    (mjoin (_pool pool !! len'), st,
     mkPool (JS.array_set (_pool pool) len' None) len')
  else (Some (length st), st ++ [fresh_pulse], pool).

(** [release(obj)]. *)
Definition pool_release (st : list Pulse) (pool : ObjectPool) (obj : nat)
    : list Pulse * ObjectPool :=
  (<[obj := fresh_pulse]> st,
   mkPool (JS.array_set (_pool pool) (_len pool) (Some obj))
          (S (_len pool))).

(** ** The simulation step, lines 729-853 *)

(** The loop angle of lines 733-735, for [LOOP_DURATION_MS <> 0].  At
    [LOOP_DURATION_MS = 0] the source computes [x % 0], which is [NaN] and
    not a real number; the properties that depend on where a moving node
    is assume [LOOP_DURATION_MS cfg <> 0]. *)
Definition baseTheta (cfg : Config) (e : Engine) (now : R) : R :=
  JS.rem (now - _loopStart e) (LOOP_DURATION_MS cfg) / LOOP_DURATION_MS cfg
  * TAU
  + JS.or_else (_startPhase e) 0.

Definition nearTheta (cfg : Config) (e : Engine) (now : R) : R :=
  baseTheta cfg e now * JS.or_else (ELLIPSE_NEAR_CYCLES cfg) 1
  * JS.or_default ELLIPSE_NEAR_DIRECTION 1
  + JS.or_default NEAR_PHASE_OFFSET_TURNS 0 * TAU.

Definition midTheta (cfg : Config) (e : Engine) (now : R) : R :=
  baseTheta cfg e now * JS.or_else (ELLIPSE_MID_CYCLES cfg) 1
  * JS.or_default ELLIPSE_MID_DIRECTION 1
  + JS.or_default MID_PHASE_OFFSET_TURNS 0 * TAU.

Definition minDim (e : Engine) : R := Rmax 1 (Rmin (width e) (height e)).

(** The new position of an orbiting node, lines 786-793 and 796-803:
    [theta] is the band's angle, [phi] its heading, [rx] and [ry] the
    scaled radii. *)
Definition orbit (theta phi rx ry : R) (n : Fg.Node) : Fg.Node :=
  let cosSeed := cos (Fg.seedPhase n) in
  let sinSeed := sin (Fg.seedPhase n) in
  let c := cos theta * cosSeed - sin theta * sinSeed in
  let s := sin theta * cosSeed + cos theta * sinSeed in
  let xOff := rx * c in
  let yOff := ry * s in
  let rotX := cos phi * xOff - sin phi * yOff in
  let rotY := sin phi * xOff + cos phi * yOff in
  Fg.mkNode (Fg.id n) (Fg.ox n + rotX) (Fg.oy n + rotY) (Fg.z n)
            (Fg.ox n) (Fg.oy n) (Fg.seedPhase n).

(** The body of the loop of lines 776-805 for the node at index [i]. *)
Definition move_node (cfg : Config) (e : Engine) (now : R)
    (near mid : Band) (i : nat) (n : Fg.Node) : Fg.Node :=
  if negb (default false (movingFlags e !! i)) then n
  else
    let baseScale := minDim e / 900 in
    if JS.ltb (Fg.z n) (JS.or_else (zMin mid) (35 / 100)) then
      orbit (nearTheta cfg e now) (JS.or_else (headingRad near) 0)
            (JS.or_else (ELLIPSE_RADIUS_NEAR_X cfg) 0 * baseScale)
            (JS.or_else (ELLIPSE_RADIUS_NEAR_Y cfg) 0 * baseScale) n
    else
      orbit (midTheta cfg e now) (JS.or_else (headingRad mid) 0)
            (JS.or_else (ELLIPSE_RADIUS_MID_X cfg) 0 * baseScale)
            (JS.or_else (ELLIPSE_RADIUS_MID_Y cfg) 0 * baseScale) n.

(** Lines 729-805: the drift offsets and the node positions. *)
Definition update_motion (cfg : Config) (now : R) (e : Engine) : M Engine :=
  let theta := baseTheta cfg e now in
  let globalAmp := GLOBAL_DRIFT_RATIO cfg * minDim e in
  let bgMagnitude := BG_DRIFT_RATIO cfg * minDim e in
  let bgPhase := theta * BG_DRIFT_SPEED_MULT cfg + BG_DRIFT_PHASE cfg in
  let bgDirX := cos (JS.or_else (BG_DRIFT_HEADING_RAD cfg) 0) in
  let bgDirY := sin (JS.or_else (BG_DRIFT_HEADING_RAD cfg) 0) in
  let* near := defined (PARALLAX_BANDS cfg !! 0%nat) in
  let* mid := defined (PARALLAX_BANDS cfg !! 1%nat) in
  ret (set_motion e
         (imap (move_node cfg e now near mid) (nodes e))
         (globalAmp * sin theta)
         (globalAmp * cos (theta + 12 / 10))
         (bgDirX * bgMagnitude * sin bgPhase)
         (bgDirY * bgMagnitude * sin bgPhase)).

(** The link a new pulse rides, lines 815-821. *)
Definition pick_link (e : Engine) : M Z :=
  if (0 <? length (dynamicLinks e))%nat then
    let* u := random in
    let* idx :=
      defined (JS.nth_Z (dynamicLinks e)
                 (JS.to_int32 (u * INR (length (dynamicLinks e))))) in
    ret (Z.of_nat idx)
  else if (0 <? length (links e))%nat then
    let* u := random in
    ret (JS.to_int32 (u * INR (length (links e))))
  else ret (-1)%Z.

(** Lines 811-837: spawn a pulse when the interval has passed and the cap
    allows. *)
Definition update_spawn (cfg : Config) (now : R) (e : Engine) : M Engine :=
  if JS.leb (PULSE_SPAWN_EVERY_MS cfg) (now - _lastPulseSpawn e)
     && JS.ltb (INR (pulsesLen e)) (pulseMaxActive e)
  then
    let '(obj, st, pool) := pool_get (store e) (pulsePool e) in
    let* p := defined obj in
    let* li := pick_link e in
    if negb (li =? -1)%Z then
      let* L := defined (JS.nth_Z (links e) li) in
      let* a := defined (nodes e !! Fg.ai L) in
      let* b := defined (nodes e !! Fg.bi L) in
      let dist :=
        Rmax 1 (JS.hypot (Fg.x b - Fg.x a) (Fg.y b - Fg.y a)) in
      ret (set_pulses e (<[p := mkPulse li 0 true dist]> st) pool
             (JS.array_set (pulses e) (pulsesLen e) (Some p))
             (S (pulsesLen e)) now)
    else
      let '(st', pool') := pool_release st pool p in
      ret (set_pulses e st' pool' (pulses e) (pulsesLen e)
             (_lastPulseSpawn e))
  else ret e.

(** The state of the advance loop: the store, the pool, the [pulses] array
    and the write cursor [j]. *)
Record AdvSt := mkAdvSt {
  a_store : list Pulse;
  a_pool : ObjectPool;
  a_pulses : list (option nat);
  a_j : nat
}.

(** [p.t += tInc / p.dist], line 845. *)
Definition advance_pulse (tInc : R) (p : Pulse) : Pulse :=
  mkPulse (linkIndex p) (t p + tInc / dist p) (active p) (dist p).

(** The body of the loop of lines 842-851 at index [i]. *)
Definition advance_step (tInc : R) (s : AdvSt) (i : nat) : M AdvSt :=
  let* addr := defined (mjoin (a_pulses s !! i)) in
  let* p := defined (a_store s !! addr) in
  if negb (active p) then ret s
  else
    let p' := advance_pulse tInc p in
    let st := <[addr := p']> (a_store s) in
    if JS.leb 1 (t p') then
      let '(st', pool') := pool_release st (a_pool s) addr in
      ret (mkAdvSt st' pool' (a_pulses s) (a_j s))
    else
      ret (mkAdvSt st (a_pool s)
             (JS.array_set (a_pulses s) (a_j s) (Some addr)) (S (a_j s))).

(** Lines 839-852. *)
Definition update_advance (cfg : Config) (dt_ms : R) (e : Engine)
    : M Engine :=
  let tInc := PULSE_SPEED cfg * (dt_ms / 1000) in
  let* s := foldM (advance_step tInc) (seq 0 (pulsesLen e))
                  (mkAdvSt (store e) (pulsePool e) (pulses e) 0) in
  ret (set_pulses e (a_store s) (a_pool s) (a_pulses s) (a_j s)
         (_lastPulseSpawn e)).

(** [_update(dt_ms, now)], lines 729-853. *)
Definition _update (cfg : Config) (dt_ms now : R) (e : Engine) : M Engine :=
  let* e1 := update_motion cfg now e in
  let* e2 := update_spawn cfg now e1 in
  update_advance cfg dt_ms e2.

(** ** Construction, lines 214-296 *)

(** The engine before [_resize(true)], lines 236-255; [w] and [h] are the
    size of the container. *)
Definition blank_engine (cfg : Config) (w h : R) : Engine :=
  mkEngine 0 0 (JS.or_else w 1) (JS.or_else h 1)
    [] [] [] [] [] [] []
    (NODE_COUNT cfg) (BG_NODE_COUNT cfg) (MAX_LINK_DISTANCE cfg)
    (BG_LINK_MAX_DISTANCE cfg) (IZR (PULSE_MAX_ACTIVE cfg))
    [] (mkPool [] 0) [] 0 0 0 0 0 0 0 0.

(** Lines 261-282: the pool, the pulse array ([new Array] again, line
    268) and the loop origin. *)
Definition init_simulation (cfg : Config) (now0 : R) (e : Engine)
    : M Engine :=
  let* sp := pool_new (PULSE_POOL_SIZE cfg) in
  let* _ := array_length (Z.of_nat (PULSE_POOL_SIZE cfg)) in
  ret (mkEngine (width e) (height e) (_resizePrevW e) (_resizePrevH e)
         (nodes e) (bgNodes e) (links e) (dynamicLinks e) (staticLinks e)
         (bgLinks e) (movingFlags e)
         (nodeMax e) (bgNodeMax e) (linkDistanceMax e) (bgLinkDistanceMax e)
         (pulseMaxActive e)
         sp.1 sp.2 (replicate (PULSE_POOL_SIZE cfg) None) 0 0 0 0 0 0
         now0 (JS.or_default INITIAL_GLOBAL_PHASE_TURNS 0 * PI * 2)).

(** The constructor for a container measuring [w] by [h] at time [now0]. *)
Definition constructor (cfg : Config) (fuel : nat) (w h now0 : R)
    : M Engine :=
  let* e1 := _resize cfg fuel true w h (blank_engine cfg w h) in
  let* e2 := init_simulation cfg now0 e1 in
  let* _lastTheta := random in
  let* e3 := _setupNodesEven cfg fuel e2 in
  let* e4 := _buildLinks cfg e3 in
  _buildBgLinks cfg e4.

(** ** Executions *)

(** What happens to a running engine: a simulation tick or a resize of
    the container. *)
Inductive Event : Type :=
  | Tick (now : R)
  | Resize (w h : R).

(** [this._dt_ms], line 295: the fixed step every tick is run with. *)
Definition _dt_ms (cfg : Config) : R := 1000 / UPDATE_HZ cfg.

Definition step (cfg : Config) (fuel : nat) (ev : Event) (e : Engine)
    : M Engine :=
  match ev with
  | Tick now => _update cfg (_dt_ms cfg) now e
  | Resize w h => _resize cfg fuel false w h e
  end.

Definition run (cfg : Config) (fuel : nat) (evs : list Event) (e : Engine)
    : M Engine :=
  foldM (fun e ev => step cfg fuel ev e) evs e.


(** ** Vocabulary of the graph properties *)

(** The number of edges of [l] that touch node [v]. *)
Definition incident (v : nat) (l : list (nat * nat)) : nat :=
  length (filter (fun p => p.1 = v \/ p.2 = v) l).

Definition fg_pairs (lks : list Fg.Link) : list (nat * nat) :=
  map (fun L => (Fg.ai L, Fg.bi L)) lks.

Definition bg_pairs (edges : list Bg.Edge) : list (nat * nat) :=
  map (fun E => (Bg.ai E, Bg.bi E)) edges.

(** The degree array holds the incident-edge count of every node. *)
Definition degs_track (deg : list Z) (l : list (nat * nat)) (n : nat) : Prop :=
  length deg = n /\
  forall v, (v < n)%nat -> deg !! v = Some (Z.of_nat (incident v l)).

(** Both degree caps fit a cell of the [Int16Array]. *)
Definition caps_ok (cfg : Config) : Prop :=
  (0 <= MAX_LINKS_DYNAMIC cfg <= 32767)%Z /\
  (0 <= MAX_LINKS_STATIC cfg <= 32767)%Z /\
  (BG_LINK_MAX_DEGREE cfg <= 32767)%Z.


(** A foreground link joins two distinct nodes and caches their distance,
    which is within the limit. *)
Definition link_ok (nds : list Fg.Node) (maxDist : R) (L : Fg.Link) : Prop :=
  Fg.ai L <> Fg.bi L /\
  exists a b, nds !! Fg.ai L = Some a /\ nds !! Fg.bi L = Some b /\
    Fg.d L = JS.hypot (Fg.x a - Fg.x b) (Fg.y a - Fg.y b) /\
    Fg.d L <= maxDist.

Definition cand_ok (nds : list Fg.Node) (maxDist : R) (i : nat)
    (c : Fg.Cand) : Prop :=
  link_ok nds maxDist (Fg.mkLink i (Fg.j c) (Fg.dist c)).

Definition link_key (L : Fg.Link) : nat * nat := key (Fg.ai L) (Fg.bi L).

(** The invariants of the outer loop of [_buildLinks]: on the links
    themselves, and on the degree array. *)
Definition fg_edges_inv (nds : list Fg.Node) (maxDist : R)
    (st : BuildSt) : Prop :=
  Forall (link_ok nds maxDist) (b_links st) /\
  (forall L, In L (b_links st) -> link_key L ∈ b_seen st) /\
  NoDup (map link_key (b_links st)).

Definition fg_deg_inv (cfg : Config) (nds : list Fg.Node)
    (flags : list bool) (st : BuildSt) : Prop :=
  degs_track (b_degrees st) (fg_pairs (b_links st)) (length nds) /\
  (forall v, (Z.of_nat (incident v (fg_pairs (b_links st)))
              <= cap_of cfg flags v)%Z).

(** A background edge joins two nodes in index order whose distance is
    within the limit. *)
Definition bg_edge_ok (nds : list Bg.Node) (maxDist : R) (E : Bg.Edge) : Prop :=
  (Bg.ai E < Bg.bi E)%nat /\
  exists a b, nds !! Bg.ai E = Some a /\ nds !! Bg.bi E = Some b /\
    JS.hypot (Bg.x a - Bg.x b) (Bg.y a - Bg.y b) <= maxDist.

(** The pairs [(i, j)], [i < j < m], in the order the nested loops of
    [_buildBgLinks] meet them. *)
Definition all_pairs (m : nat) : list (nat * nat) :=
  seq 0 m ≫= (fun i => pair i <$> seq (i + 1) (m - (i + 1))).

(** The invariant of the greedy loop of [_buildBgLinks]. *)
Definition bg_inv (cfg : Config) (nds : list Bg.Node) (maxDist : R)
    (st : list Bg.Edge * list Z) : Prop :=
  Forall (bg_edge_ok nds maxDist) st.1 /\
  degs_track st.2 (bg_pairs st.1) (length nds) /\
  (forall v, (Z.of_nat (incident v (bg_pairs st.1)) <= bg_degree_cap cfg)%Z).

(** ** A running engine used in examples

    The shipped configuration in a 2160 x 1350 container: 100 foreground
    nodes, all in the far (static) band, in two columns 600 px apart; 60
    background nodes; one link between nodes 0 and 1; the pool of 12
    pulses untouched. *)

Definition demo_node (k : nat) : Fg.Node :=
  Fg.mkNode k (INR (k mod 2) * 600) (INR (k / 2) * 10) (8 / 10)
            (INR (k mod 2) * 600) (INR (k / 2) * 10) 0.

Definition demo_bg_node (k : nat) : Bg.Node :=
  Bg.mkNode (INR k * 20) 0 (9 / 10).

(** The same engine with a pool of [n] pulses. *)
Definition demo_engine_n (n : nat) : Engine :=
  mkEngine 2160 1350 2160 1350
    (map demo_node (seq 0 100)) (map demo_bg_node (seq 0 60))
    [Fg.mkLink 0 1 600] [] [0%nat] [] (replicate 100 false)
    100 60 750 600 2
    (replicate n fresh_pulse) (mkPool (Some <$> seq 0 n) n)
    (replicate n None) 0 0 0 0 0 0 0 0.

Definition demo_engine : Engine := demo_engine_n 12.

(** [cfg] with [PULSE_POOL_SIZE] set to [n]. *)
Definition with_pool_size (cfg : Config) (n : nat) : Config :=
  mkConfig (UPDATE_HZ cfg) (BASE_WIDTH cfg) (BASE_HEIGHT cfg)
    (BASE_NODE_COUNT cfg) (BASE_BG_NODE_COUNT cfg)
    (BASE_MAX_LINK_DISTANCE cfg) (BASE_PULSE_MAX_ACTIVE cfg)
    (NODE_COUNT cfg) (BG_NODE_COUNT cfg) (MOBILE_SCALE cfg)
    (MAX_LINK_DISTANCE cfg) (MAX_LINKS_DYNAMIC cfg) (MAX_LINKS_STATIC cfg)
    (BG_LINK_MAX_DEGREE cfg) (BG_LINK_MAX_DISTANCE cfg) (PARALLAX_BANDS cfg)
    (PULSE_MAX_ACTIVE cfg) n (PULSE_SPEED cfg) (PULSE_SPAWN_EVERY_MS cfg)
    (LOOP_DURATION_MS cfg) (ELLIPSE_NEAR_CYCLES cfg) (ELLIPSE_MID_CYCLES cfg)
    (ELLIPSE_RADIUS_NEAR_X cfg) (ELLIPSE_RADIUS_NEAR_Y cfg)
    (ELLIPSE_RADIUS_MID_X cfg) (ELLIPSE_RADIUS_MID_Y cfg)
    (RANDOMIZE_NODE_PHASES cfg) (STARTING_PHASE_RANDOMIZER cfg)
    (GLOBAL_DRIFT_RATIO cfg) (BG_DRIFT_RATIO cfg) (BG_DRIFT_SPEED_MULT cfg)
    (BG_DRIFT_HEADING_DEG cfg) (BG_DRIFT_PHASE cfg).

(** ** Vocabulary of the motion properties *)

(** Two states of one engine between layouts: same viewport, loop origin
    and flags, and node for node the same identity, origin, depth and seed
    phase, and the same position where the node is static.  The positions
    of moving nodes are free. *)
Definition same_orbits (e e' : Engine) : Prop :=
  width e = width e' /\ height e = height e' /\
  _loopStart e = _loopStart e' /\ _startPhase e = _startPhase e' /\
  movingFlags e = movingFlags e' /\
  length (nodes e) = length (nodes e') /\
  forall i n n', nodes e !! i = Some n -> nodes e' !! i = Some n' ->
    Fg.id n = Fg.id n' /\ Fg.ox n = Fg.ox n' /\ Fg.oy n = Fg.oy n' /\
    Fg.z n = Fg.z n' /\ Fg.seedPhase n = Fg.seedPhase n' /\
    (default false (movingFlags e !! i) = false ->
     Fg.x n = Fg.x n' /\ Fg.y n = Fg.y n').

(** The part of the engine the pulse scheduler leaves alone. *)
Definition same_scene (e e' : Engine) : Prop :=
  width e' = width e /\ height e' = height e /\
  _resizePrevW e' = _resizePrevW e /\ _resizePrevH e' = _resizePrevH e /\
  nodes e' = nodes e /\ bgNodes e' = bgNodes e /\ links e' = links e /\
  dynamicLinks e' = dynamicLinks e /\ staticLinks e' = staticLinks e /\
  bgLinks e' = bgLinks e /\ movingFlags e' = movingFlags e /\
  linkDistanceMax e' = linkDistanceMax e /\
  pulseMaxActive e' = pulseMaxActive e /\
  _loopStart e' = _loopStart e /\ _startPhase e' = _startPhase e /\
  nodeMax e' = nodeMax e /\ bgNodeMax e' = bgNodeMax e /\
  bgLinkDistanceMax e' = bgLinkDistanceMax e.

(** The population has the size the current layout asks for, as it does
    after every [_setupNodesEven]. *)
Definition population_consistent (cfg : Config) (e : Engine) : Prop :=
  _getTargetCounts cfg e
  = (Z.of_nat (length (nodes e)), Z.of_nat (length (bgNodes e))).

(** ** Vocabulary of the pulse properties *)

(** The part of the engine only the pulse scheduler writes. *)
Definition same_pulses (e e' : Engine) : Prop :=
  store e' = store e /\ pulsePool e' = pulsePool e /\
  pulses e' = pulses e /\ pulsesLen e' = pulsesLen e /\
  _lastPulseSpawn e' = _lastPulseSpawn e.

(** What the constructor leaves behind, as far as the properties below
    need it: an untouched pool of [PULSE_POOL_SIZE] pulses, no live pulse,
    the pulse cap and the node cap of the current viewport, a population
    of the target size, and links between existing nodes, no pair twice. *)
Definition constructed (cfg : Config) (e : Engine) : Prop :=
  pulsesLen e = 0%nat /\
  (store e, pulsePool e) = pool_of (PULSE_POOL_SIZE cfg) /\
  pulses e = replicate (PULSE_POOL_SIZE cfg) None /\
  _lastPulseSpawn e = 0 /\
  pulseMaxActive e = scaled_pulse_cap cfg (width e) (height e) /\
  population_consistent cfg e /\
  Forall (link_ok (nodes e) (linkDistanceMax e)) (links e) /\
  dynamicLinks e =
    filter (fun idx => is_dynamic (links e) (movingFlags e) idx = true)
           (seq 0 (length (links e))) /\
  NoDup (map link_key (links e)) /\
  nodeMax e = scaled_node_max cfg (width e) (height e).

(** The configurations the pulse scheduler is analysed for: at least two
    parallax bands, a node cap between the floor of 16 and 46340 (so that
    the number of links fits [| 0]), and a mobile scale of at most 1. *)
Definition config_ok (cfg : Config) : Prop :=
  (2 <= length (PARALLAX_BANDS cfg))%nat /\
  16 <= NODE_COUNT cfg <= 46340 /\
  MOBILE_SCALE cfg <= 1.

(** The states of a running engine: what the constructor leaves, followed
    by any sequence of ticks and resizes that return. *)
Inductive reachable (cfg : Config) : Engine -> Prop :=
  | reach_init (e : Engine) :
      constructed cfg e -> reachable cfg e
  | reach_step (e e' : Engine) (fuel : nat) (ev : Event) (g g' : Rng) :
      reachable cfg e -> step cfg fuel ev e g = Ok (e', g') ->
      reachable cfg e'.


(** The pulse bookkeeping is sound: [L] lists the addresses of the live
    pulses, in the order of the first [pulsesLen] cells of [pulses]; [F]
    lists the addresses in the pool, bottom first.  No address occurs
    twice, every address is in the store, live pulses are active and have
    [t < 1], and every pulse of the store has [dist >= 1]. *)
Definition pulse_state (e : Engine) (L F : list nat) : Prop :=
  take (pulsesLen e) (pulses e) = Some <$> L /\
  length L = pulsesLen e /\
  take (_len (pulsePool e)) (_pool (pulsePool e)) = Some <$> F /\
  length F = _len (pulsePool e) /\
  NoDup (L ++ F) /\
  (forall a, a ∈ L ++ F -> (a < length (store e))%nat) /\
  (forall a, a ∈ L ->
     exists p, store e !! a = Some p /\ active p = true /\ t p < 1) /\
  Forall (fun p => 1 <= dist p) (store e).

(** The pulse object at address [a] is live: one of the first [pulsesLen]
    cells of [pulses] holds it. *)
Definition live (e : Engine) (a : nat) : Prop :=
  exists i, (i < pulsesLen e)%nat /\ pulses e !! i = Some (Some a).

(** The pulse object at address [a] is in the pool. *)
Definition pooled (e : Engine) (a : nat) : Prop :=
  exists i, (i < _len (pulsePool e))%nat /\
            _pool (pulsePool e) !! i = Some (Some a).

(** The links and the configuration let a tick run: two bands exist, link
    indices and endpoints are in range, and the arrays are short enough
    for [| 0]. *)
Definition scene_ok (cfg : Config) (e : Engine) : Prop :=
  (2 <= length (PARALLAX_BANDS cfg))%nat /\
  (Z.of_nat (length (links e)) < 2 ^ 31)%Z /\
  (Z.of_nat (length (dynamicLinks e)) < 2 ^ 31)%Z /\
  (forall idx, idx ∈ dynamicLinks e -> (idx < length (links e))%nat) /\
  (forall L, L ∈ links e ->
     (Fg.ai L < length (nodes e))%nat /\ (Fg.bi L < length (nodes e))%nat).

(** Does the pulse at address [a] reach the end of its link in a tick
    that advances by [tInc] pixels? *)
Definition arrives (tInc : R) (st : list Pulse) (a : nat) : bool :=
  match st !! a with
  | Some p => JS.leb 1 (t p + tInc / dist p)
  | None => false
  end.


(** The scene of [demo_engine_n]: everything but the pulses and the clock
    of the last spawn. *)
Definition static_demo (e : Engine) : Prop :=
  nodes e = map demo_node (seq 0 100) /\
  bgNodes e = map demo_bg_node (seq 0 60) /\
  links e = [Fg.mkLink 0 1 600] /\ dynamicLinks e = [] /\
  movingFlags e = replicate 100 false /\
  width e = 2160 /\ height e = 1350 /\
  _resizePrevW e = 2160 /\ _resizePrevH e = 1350 /\
  nodeMax e = 100 /\ bgNodeMax e = 60 /\ pulseMaxActive e = 2.


(** [tInc / p.dist], line 845, for the fixed step of the loop: how far a
    tick moves pulse [p] along its link, as a fraction of the link. *)
Definition pulse_step (cfg : Config) (p : Pulse) : R :=
  PULSE_SPEED cfg * (_dt_ms cfg / 1000) / dist p.

(** The example engine with every node moving. *)
Definition demo_moving : Engine :=
  set_population demo_engine (nodes demo_engine) (bgNodes demo_engine)
    (replicate 100 true).


(** ** Vocabulary of the further properties *)

(** A foreground node as [_setupNodesEven] lays it out at index [i] in a
    viewport of [w] by [h]: it carries its index, rests on its origin
    inside the viewport and has a depth in [0, 1). *)
Definition laid_out (w h : R) (i : nat) (n : Fg.Node) : Prop :=
  Fg.id n = i /\ Fg.ox n = Fg.x n /\ Fg.oy n = Fg.y n /\
  0 <= Fg.x n <= w /\ 0 <= Fg.y n <= h /\ 0 <= Fg.z n < 1.

(** A background node as [_setupNodesEven] lays it out. *)
Definition bg_laid_out (w h : R) (b : Bg.Node) : Prop :=
  0 <= Bg.x b <= w /\ 0 <= Bg.y b <= h /\ 85 / 100 <= Bg.z b < 1.

(** The largest of the four ellipse radii of the configuration. *)
Definition max_radius (cfg : Config) : R :=
  Rmax (Rmax (Rabs (JS.or_else (ELLIPSE_RADIUS_NEAR_X cfg) 0))
             (Rabs (JS.or_else (ELLIPSE_RADIUS_NEAR_Y cfg) 0)))
       (Rmax (Rabs (JS.or_else (ELLIPSE_RADIUS_MID_X cfg) 0))
             (Rabs (JS.or_else (ELLIPSE_RADIUS_MID_Y cfg) 0))).

(** The pair of background nodes [(i, j)] passes the test of line 567:
    the two nodes are at most [maxDist] apart and not on the same spot. *)
Definition bg_close (nds : list Bg.Node) (maxDist : R) (i j : nat) : Prop :=
  exists a b, nds !! i = Some a /\ nds !! j = Some b /\
    JS.hypot (Bg.x a - Bg.x b) (Bg.y a - Bg.y b) <= maxDist /\
    JS.hypot (Bg.x a - Bg.x b) (Bg.y a - Bg.y b) <> 0.

(** The pair [(i, j)] is settled by the background edges [out]: it is one
    of them, or one of its endpoints has reached the degree cap. *)
Definition bg_settled (cfg : Config) (out : list Bg.Edge) (i j : nat)
    : Prop :=
  (i, j) ∈ bg_pairs out \/
  (bg_degree_cap cfg <= Z.of_nat (incident i (bg_pairs out)))%Z \/
  (bg_degree_cap cfg <= Z.of_nat (incident j (bg_pairs out)))%Z.


(** ** Drawing, lines 582-597 and 855-944

    The constants of [CONFIG] only the drawing code and the frame loop
    read are kept in a record of their own.  The two sprites are canvases
    [2 * NODE_RADIUS_BASE] and [2 * PULSE_RADIUS] pixels wide (lines 410
    and 423), whole numbers in the shipped configuration; the widths are
    used as the source sets them. *)

Record Visuals := mkVisuals {
  RENDER_FPS_CAP : R;
  NODE_RADIUS_BASE : R;
  NODE_NEAR_SCALE : R;
  NODE_FAR_SCALE : R;
  BRIGHTNESS_NEAR : R;
  BRIGHTNESS_FAR : R;
  PULSE_RADIUS : R;
  LINE_ALPHA_MIN : R;
  LINE_ALPHA_MAX : R;
  LINE_WIDTH_NEAR : R;
  LINE_WIDTH_FAR : R;
  DYNAMIC_LINE_PUNCH : bool;
  PUNCH_THROUGH_RADIUS_SCALE : R;
  CULL_MARGIN : R
}.

(** The values the source ships. *)
Definition VISUALS : Visuals := {|
  RENDER_FPS_CAP := 30;
  NODE_RADIUS_BASE := 12;
  NODE_NEAR_SCALE := 1;
  NODE_FAR_SCALE := 16 / 10;
  BRIGHTNESS_NEAR := 8 / 10;
  BRIGHTNESS_FAR := 15 / 100;
  PULSE_RADIUS := 4;
  LINE_ALPHA_MIN := 3 / 10;
  LINE_ALPHA_MAX := 8 / 100;
  LINE_WIDTH_NEAR := 15 / 10;
  LINE_WIDTH_FAR := 3;
  DYNAMIC_LINE_PUNCH := true;
  PUNCH_THROUGH_RADIUS_SCALE := 9 / 10;
  CULL_MARGIN := 24
|}.

Definition _nodeScaleForZ (vis : Visuals) (z : R) : R :=
  JS.lerp (NODE_NEAR_SCALE vis) (NODE_FAR_SCALE vis) z.

Definition _nodeAlphaForZ (vis : Visuals) (z : R) : R :=
  JS.lerp (BRIGHTNESS_NEAR vis) (BRIGHTNESS_FAR vis) z.

Definition _lineWidthForZ (vis : Visuals) (z : R) : R :=
  JS.lerp (LINE_WIDTH_NEAR vis) (LINE_WIDTH_FAR vis) z.

(** [_lineAlphaForDist], lines 592-596. *)
Definition _lineAlphaForDist (vis : Visuals) (e : Engine) (dist : R) : R :=
  let maxDist := Rmax 1 (linkDistanceMax e) in
  let t := Rmin 1 (Rmax 0 (dist / maxDist)) in
  JS.lerp (LINE_ALPHA_MIN vis) (LINE_ALPHA_MAX vis) t.

(** What [_render] puts on the dynamic canvas, in drawing order. *)
Inductive Draw : Type :=
  | DrawLine (ax ay bx byy width alphaA alphaB : R)
  | DrawPunch (x y radius : R)
  | DrawPulse (x y w h : R)
  | DrawNode (x y size alpha : R).

(** One frame: the CSS translations of the background and static layers,
    and the drawing commands of the dynamic layer. *)
Record Frame := mkFrame {
  bgShift : R * R;
  staticShift : R * R;
  drawn : list Draw
}.

(** The culling test of lines 895, 914 and 928. *)
Definition culled (vis : Visuals) (e : Engine) (x y : R) : bool :=
  JS.ltb x (- CULL_MARGIN vis) || JS.ltb (width e + CULL_MARGIN vis) x
  || JS.ltb y (- CULL_MARGIN vis) || JS.ltb (height e + CULL_MARGIN vis) y.

(** The body of the loop over [dynamicLinks], lines 869-894. *)
Definition render_link (vis : Visuals) (e : Engine) (cmds : list Draw)
    (idx : nat) : M (list Draw) :=
  let* L := defined (links e !! idx) in
  let* a := defined (nodes e !! Fg.ai L) in
  let ax := Fg.x a + _globalOffsetX e in
  let ay := Fg.y a + _globalOffsetY e in
  let* b := defined (nodes e !! Fg.bi L) in
  let bx := Fg.x b + _globalOffsetX e in
  let byy := Fg.y b + _globalOffsetY e in
  if JS.ltb (Rmax ax bx) (- CULL_MARGIN vis)
     || JS.ltb (width e + CULL_MARGIN vis) (Rmin ax bx)
     || JS.ltb (Rmax ay byy) (- CULL_MARGIN vis)
     || JS.ltb (height e + CULL_MARGIN vis) (Rmin ay byy)
  then ret cmds
  else
    let dist := Rmax 1 (JS.hypot (bx - ax) (byy - ay)) in
    let zAvg := (Fg.z a + Fg.z b) * (5 / 10) in
    let alphaDist := _lineAlphaForDist vis e dist in
    ret (cmds ++ [DrawLine ax ay bx byy (_lineWidthForZ vis zAvg)
                    (_nodeAlphaForZ vis (Fg.z a) * alphaDist)
                    (_nodeAlphaForZ vis (Fg.z b) * alphaDist)]).

(** The body of the punch-through loop, lines 900-909. *)
Definition render_punch (vis : Visuals) (e : Engine) (i : nat)
    (n : Fg.Node) : list Draw :=
  if negb (default false (movingFlags e !! i)) then []
  else
    let x := Fg.x n + _globalOffsetX e in
    let y := Fg.y n + _globalOffsetY e in
    if culled vis e x y then []
    else [DrawPunch x y (NODE_RADIUS_BASE vis * _nodeScaleForZ vis (Fg.z n)
                         * PUNCH_THROUGH_RADIUS_SCALE vis)].

(** The body of the pulse loop, lines 916-930. *)
Definition render_pulse (vis : Visuals) (e : Engine) (cmds : list Draw)
    (i : nat) : M (list Draw) :=
  let* addr := defined (mjoin (pulses e !! i)) in
  let* p := defined (store e !! addr) in
  let* L := defined (JS.nth_Z (links e) (linkIndex p)) in
  let* a := defined (nodes e !! Fg.ai L) in
  let ax := Fg.x a + _globalOffsetX e in
  let ay := Fg.y a + _globalOffsetY e in
  let* b := defined (nodes e !! Fg.bi L) in
  let bx := Fg.x b + _globalOffsetX e in
  let byy := Fg.y b + _globalOffsetY e in
  let x := ax + (bx - ax) * t p in
  let y := ay + (byy - ay) * t p in
  if culled vis e x y then ret cmds
  else
    let w := PULSE_RADIUS vis * 2 in
    ret (cmds ++ [DrawPulse (x - w / 2) (y - w / 2) w w]).

(** The body of the last loop with [_drawNode] inlined, lines 933-941 and
    599-609. *)
Definition render_node (vis : Visuals) (e : Engine) (i : nat)
    (n : Fg.Node) : list Draw :=
  if negb (default false (movingFlags e !! i)) then []
  else
    let drawX := Fg.x n + _globalOffsetX e in
    let drawY := Fg.y n + _globalOffsetY e in
    if culled vis e drawX drawY then []
    else
      let size := NODE_RADIUS_BASE vis * 2 * _nodeScaleForZ vis (Fg.z n) in
      [DrawNode (drawX - size / 2) (drawY - size / 2) size
                (_nodeAlphaForZ vis (Fg.z n))].

(** [_render], lines 855-944. *)
Definition _render (vis : Visuals) (e : Engine) : M Frame :=
  let* lines := foldM (render_link vis e) (dynamicLinks e) [] in
  let punches :=
    if DYNAMIC_LINE_PUNCH vis
    then mjoin (imap (render_punch vis e) (nodes e)) else [] in
  let* ps := foldM (render_pulse vis e) (seq 0 (pulsesLen e)) [] in
  let nds := mjoin (imap (render_node vis e) (nodes e)) in
  ret (mkFrame (_globalOffsetX e + _bgOffsetX e,
                _globalOffsetY e + _bgOffsetY e)
               (_globalOffsetX e, _globalOffsetY e)
               (lines ++ punches ++ ps ++ nds)).

(** ** The frame loop, lines 695-727 *)

(** The fields of the engine only the frame loop uses. *)
Record LoopSt := mkLoop { _running : bool; _prev : R; _lag : R }.

(** [this._minFrameMs], line 296. *)
Definition _minFrameMs (vis : Visuals) : R := 1000 / RENDER_FPS_CAP vis.

(** [start()] when [performance.now()] is [now]. *)
Definition start (now : R) (ls : LoopSt) : LoopSt :=
  if _running ls then ls else mkLoop true now 0.

(** [stop()]. *)
Definition stop (ls : LoopSt) : LoopSt := mkLoop false (_prev ls) (_lag ls).

(** The [while (this._lag >= dt && steps < 2)] loop of lines 720-724;
    [budget] is [2 - steps]. *)
Fixpoint sim_steps (cfg : Config) (budget : nat) (now lag : R) (e : Engine)
    : M (R * Engine) :=
  match budget with
  | O => ret (lag, e)
  | S budget' =>
      if JS.leb (_dt_ms cfg) lag then
        let* e' := _update cfg (_dt_ms cfg) now e in
        sim_steps cfg budget' now (lag - _dt_ms cfg) e'
      else ret (lag, e)
  end.

(** [_loop(now)]: the loop state, the engine and, when the frame was
    rendered, what was drawn. *)
Definition _loop (cfg : Config) (vis : Visuals) (now : R) (ls : LoopSt)
    (e : Engine) : M (LoopSt * Engine * option Frame) :=
  if negb (_running ls) then ret (ls, e, None)
  else
    let frameElapsed := now - _prev ls in
    if JS.ltb frameElapsed (_minFrameMs vis) then ret (ls, e, None)
    else
      let* r := sim_steps cfg 2 now (_lag ls + frameElapsed) e in
      let* f := _render vis r.2 in
      ret (mkLoop (_running ls) now r.1, r.2, Some f).

(** The frames at the times [nows], one after the other. *)
Definition frames (cfg : Config) (vis : Visuals) (nows : list R)
    (ls : LoopSt) (e : Engine) : M (LoopSt * Engine) :=
  foldM (fun s now =>
           let* r := _loop cfg vis now s.1 s.2 in ret (r.1.1, r.1.2))
        nows (ls, e).

(** Every live pulse rides a link that exists. *)
Definition links_valid (e : Engine) (L : list nat) : Prop :=
  forall a, a ∈ L ->
    exists p Lk, store e !! a = Some p /\
                 JS.nth_Z (links e) (linkIndex p) = Some Lk.

(** The pair of foreground nodes [(i, j)] passes the tests of lines 513
    and 520 when node [i] is visited: two different nodes, at most
    [maxDist] apart and not on the same spot. *)
Definition fg_close (nds : list Fg.Node) (maxDist : R) (i j : nat) : Prop :=
  i <> j /\
  exists a b, nds !! i = Some a /\ nds !! j = Some b /\
    JS.hypot (Fg.x a - Fg.x b) (Fg.y a - Fg.y b) <= maxDist /\
    JS.hypot (Fg.x a - Fg.x b) (Fg.y a - Fg.y b) <> 0.

(** The pair [(i, j)] is settled by the links [lks]: a link joins the two
    nodes, or one of them has reached its degree cap. *)
Definition fg_settled (cfg : Config) (flags : list bool)
    (lks : list Fg.Link) (i j : nat) : Prop :=
  key i j ∈ map link_key lks \/
  (cap_of cfg flags i <= Z.of_nat (incident i (fg_pairs lks)))%Z \/
  (cap_of cfg flags j <= Z.of_nat (incident j (fg_pairs lks)))%Z.

(** The invariant of [_buildLinks] behind maximality: the invariants of
    the links and of the degree array, and every key of [seen] is the key
    of a link. *)
Definition fg_full_inv (cfg : Config) (nds : list Fg.Node)
    (flags : list bool) (maxDist : R) (st : BuildSt) : Prop :=
  fg_edges_inv nds maxDist st /\ fg_deg_inv cfg nds flags st /\
  forall k, k ∈ b_seen st -> k ∈ map link_key (b_links st).

(** The two ends of a background edge are not on the same spot. *)
Definition bg_apart (nds : list Bg.Node) (E : Bg.Edge) : Prop :=
  exists a b, nds !! Bg.ai E = Some a /\ nds !! Bg.bi E = Some b /\
    JS.hypot (Bg.x a - Bg.x b) (Bg.y a - Bg.y b) <> 0.

(** The point [(x, y)] passes the culling test of [_render]: it lies in
    the viewport widened by [CULL_MARGIN] on every side. *)
Definition in_view (vis : Visuals) (e : Engine) (x y : R) : Prop :=
  - CULL_MARGIN vis <= x <= width e + CULL_MARGIN vis /\
  - CULL_MARGIN vis <= y <= height e + CULL_MARGIN vis.

(** A drawing command that touches the widened viewport: a punch-through
    circle, a pulse sprite or a node sprite centred in it, or a line whose
    bounding box meets it. *)
Definition draw_in_view (vis : Visuals) (e : Engine) (c : Draw) : Prop :=
  match c with
  | DrawLine ax ay bx byy _ _ _ =>
      - CULL_MARGIN vis <= Rmax ax bx /\
      Rmin ax bx <= width e + CULL_MARGIN vis /\
      - CULL_MARGIN vis <= Rmax ay byy /\
      Rmin ay byy <= height e + CULL_MARGIN vis
  | DrawPunch x y _ => in_view vis e x y
  | DrawPulse x y w h => in_view vis e (x + w / 2) (y + h / 2)
  | DrawNode x y size _ => in_view vis e (x + size / 2) (y + size / 2)
  end.

(** The previous size [_resize] divides by is the current size: line 357
    and 358 record what lines 362 and 363 store. *)
Definition prev_size_ok (e : Engine) : Prop :=
  _resizePrevW e = width e /\ _resizePrevH e = height e.

(** A state with a previous size of zero: the container was hidden when
    the engine measured it last.  Sixteen moving nodes orbit the origin
    they were all clamped to, twelve background nodes rest on it. *)
Definition hidden_node (k : nat) : Fg.Node :=
  Fg.mkNode k (1 / 100) 0 (2 / 10) 0 0 0.

Definition hidden_engine : Engine :=
  mkEngine 0 0 0 0
    (map hidden_node (seq 0 16)) (replicate 12 (Bg.mkNode 0 0 (9 / 10)))
    [] [] [] [] (replicate 16 true)
    16 12 80 60 1
    (replicate 12 fresh_pulse) (mkPool (Some <$> seq 0 12) 12)
    (replicate 12 None) 0 0 0 0 0 0 0 0.

(** The example engine in the middle of its animation: every node moves,
    the one link is dynamic, and the one pulse of a pool of one is
    half-way along it. *)
Definition demo_drawing : Engine :=
  mkEngine 2160 1350 2160 1350
    (map demo_node (seq 0 100)) (map demo_bg_node (seq 0 60))
    [Fg.mkLink 0 1 600] [0%nat] [] [] (replicate 100 true)
    100 60 750 600 2
    [mkPulse 0 (1 / 2) true 600] (mkPool [None] 0)
    [Some 0%nat] 1 1000 0 0 0 0 0 0.

(** * Properties *)

(** ** Numerics *)

Lemma ltb_true (a b : R) : JS.ltb a b = true <-> a < b.
Proof. unfold JS.ltb. destruct (Rlt_dec a b); split; intros; try easy. Qed.

Lemma ltb_false (a b : R) : JS.ltb a b = false <-> b <= a.
Proof.
  unfold JS.ltb. destruct (Rlt_dec a b); split; intros; try easy; lra.
Qed.

Lemma leb_true (a b : R) : JS.leb a b = true <-> a <= b.
Proof. unfold JS.leb. destruct (Rle_dec a b); split; intros; try easy. Qed.

Lemma leb_false (a b : R) : JS.leb a b = false <-> b < a.
Proof.
  unfold JS.leb. destruct (Rle_dec a b); split; intros; try easy; lra.
Qed.

Lemma eqb_true (a b : R) : JS.eqb a b = true <-> a = b.
Proof. unfold JS.eqb. destruct (Req_dec_T a b); split; intros; try easy. Qed.

Lemma eqb_false (a b : R) : JS.eqb a b = false <-> a <> b.
Proof. unfold JS.eqb. destruct (Req_dec_T a b); split; intros; try easy. Qed.

Lemma wrap32_small (z : Z) : (0 <= z < 2 ^ 31)%Z -> JS.wrap32 z = z.
Proof.
  intros H. unfold JS.wrap32. rewrite Z.mod_small; lia.
Qed.

Lemma trunc_nonneg (x : R) : 0 <= x -> JS.trunc x = Zfloor x.
Proof.
  intros H. unfold JS.trunc.
  destruct (JS.ltb x 0) eqn:E; [apply ltb_true in E; lra | reflexivity].
Qed.

(** [(Math.random() * n) | 0] is an index below [n]. *)
Lemma random_index (u : unit_draw) (n : nat) :
  (0 < n)%nat -> (Z.of_nat n < 2 ^ 31)%Z ->
  (0 <= JS.to_int32 (u * INR n) < Z.of_nat n)%Z.
Proof.
  intros Hn Hsmall. destruct u as [u [Hu0 Hu1]]. simpl.
  assert (Hn' : 0 < INR n) by (apply lt_0_INR; exact Hn).
  assert (Hx0 : 0 <= u * INR n) by (apply Rmult_le_pos; lra).
  assert (Hx1 : u * INR n < INR n) by nra.
  unfold JS.to_int32. rewrite trunc_nonneg by exact Hx0.
  pose proof (Zfloor_bound (u * INR n)) as [Hl Hu].
  assert (H0 : (0 <= Zfloor (u * INR n))%Z) by (apply (Zfloor_lub 0); exact Hx0).
  assert (H1 : (Zfloor (u * INR n) < Z.of_nat n)%Z).
  { apply lt_IZR. rewrite <- INR_IZR_INZ. lra. }
  rewrite wrap32_small by lia. lia.
Qed.

(** ** The monad *)

Lemma bind_Ok {A B : Type} (m : M A) (f : A -> M B) g b g' :
  bind m f g = Ok (b, g') ->
  exists a g1, m g = Ok (a, g1) /\ f a g1 = Ok (b, g').
Proof.
  unfold bind. destruct (m g) as [[a g1]| |]; intros H; try discriminate.
  exists a, g1. split; [reflexivity | exact H].
Qed.

Lemma bind_random {B : Type} (f : R -> M B) (g : Rng) :
  bind random f g = f (draw_val (g 0%nat)) (fun n => g (S n)).
Proof. reflexivity. Qed.

Lemma bind_ret {A B : Type} (a : A) (f : A -> M B) (g : Rng) :
  bind (ret a) f g = f a g.
Proof. reflexivity. Qed.

Lemma bind_defined {A B : Type} (o : option A) (a : A) (f : A -> M B) g :
  o = Some a -> bind (defined o) f g = f a g.
Proof. intros ->. reflexivity. Qed.

Lemma bind_assoc {A B C : Type} (m : M A) (f : A -> M B) (k : B -> M C) g :
  bind (bind m f) k g = bind m (fun a => bind (f a) k) g.
Proof. unfold bind. destruct (m g) as [[a g1]| |]; reflexivity. Qed.

Lemma bind_eq {A B : Type} (m : M A) (f : A -> M B) g a g1 :
  m g = Ok (a, g1) -> bind m f g = f a g1.
Proof. unfold bind. intros ->. reflexivity. Qed.

Lemma ret_Ok {A : Type} (a b : A) g g' : ret a g = Ok (b, g') -> b = a /\ g' = g.
Proof. unfold ret. intros H. inversion H. split; reflexivity. Qed.

Lemma defined_Ok {A : Type} (o : option A) a g g' :
  defined o g = Ok (a, g') -> o = Some a /\ g' = g.
Proof.
  destruct o as [v|]; simpl; intros H; [|discriminate].
  apply ret_Ok in H. destruct H as [-> ->]. split; reflexivity.
Qed.

Lemma array_length_Ok (n : Z) (u : unit) g g' :
  array_length n g = Ok (u, g') -> (0 <= n < 2 ^ 32)%Z /\ g' = g.
Proof.
  unfold array_length. destruct (_ && _) eqn:E; [|discriminate].
  intros H. apply ret_Ok in H as [_ ->].
  apply andb_true_iff in E as [E1 E2].
  apply Z.leb_le in E1. apply Z.ltb_lt in E2. split; [lia|reflexivity].
Qed.

Lemma array_length_fits (n : Z) g :
  (0 <= n < 2 ^ 32)%Z -> array_length n g = Ok (tt, g).
Proof.
  intros H. unfold array_length.
  destruct (Z.leb_spec 0 n); [|lia].
  destruct (Z.ltb_spec n (2 ^ 32)); [reflexivity|lia].
Qed.

(** ** Poisson-disc sampling *)

Section PoissonFacts.
  Import Poisson.
  Variables (width height r : R).
  Hypothesis width_pos : 0 < width.
  Hypothesis height_pos : 0 < height.
  Hypothesis r_pos : 0 < r.

Local Abbreviation cell := (Poisson.cell r).
Local Abbreviation gridW := (Poisson.gridW width r).
Local Abbreviation gridH := (Poisson.gridH height r).
Local Abbreviation gridIndex := (Poisson.gridIndex width r).

Definition in_region (p : Point) : Prop :=
  0 <= p.(x) < width /\ 0 <= p.(y) < height.

Definition dist2 (p q : Point) : R :=
  (p.(x) - q.(x)) * (p.(x) - q.(x)) + (p.(y) - q.(y)) * (p.(y) - q.(y)).

Definition spaced (l : list Point) : Prop :=
  forall i j p q, i <> j -> l !! i = Some p -> l !! j = Some q ->
    r * r <= dist2 p q.

Definition sampler_inv (st : St) : Prop :=
  (forall p, In p (samples st) -> in_region p) /\
  (forall p, In p (samples st) ->
     grid st !! gridIndex p.(x) p.(y) = Some p) /\
  spaced (samples st).

Lemma cell_pos : 0 < cell.
Proof.
  unfold Poisson.cell. apply Rdiv_lt_0_compat; [exact r_pos|].
  apply sqrt_lt_R0. lra.
Qed.

Lemma cell_sqr : cell * cell = r * r / 2.
Proof.
  unfold Poisson.cell.
  assert (Hs : sqrt 2 * sqrt 2 = 2) by (apply sqrt_sqrt; lra).
  assert (Hn : sqrt 2 <> 0).
  { intros E. rewrite E in Hs. lra. }
  replace (r / sqrt 2 * (r / sqrt 2)) with (r * r / (sqrt 2 * sqrt 2))
    by (field; exact Hn).
  rewrite Hs. reflexivity.
Qed.

(** A coordinate lies in the cell its floor names. *)
Lemma cell_bounds (a : R) :
  cell * IZR (Zfloor (a / cell)) <= a < cell * (IZR (Zfloor (a / cell)) + 1).
Proof.
  pose proof cell_pos as Hc.
  pose proof (Zfloor_bound (a / cell)) as [Hl Hu].
  assert (E : a = cell * (a / cell)) by (field; lra).
  split.
  - rewrite E at 2. apply Rmult_le_compat_l; lra.
  - rewrite E at 1. apply Rmult_lt_compat_l; lra.
Qed.

Lemma same_cell_close (a b : R) :
  Zfloor (a / cell) = Zfloor (b / cell) -> (a - b) * (a - b) < cell * cell.
Proof.
  intros E. pose proof cell_pos as Hc.
  pose proof (cell_bounds a) as Ha. pose proof (cell_bounds b) as Hb.
  rewrite E in Ha. nra.
Qed.

Lemma far_cell_far (a b : R) :
  (Zfloor (a / cell) + 3 <= Zfloor (b / cell))%Z ->
  2 * (cell * cell) < (a - b) * (a - b).
Proof.
  intros Hz. pose proof cell_pos as Hc.
  pose proof (cell_bounds a) as Ha. pose proof (cell_bounds b) as Hb.
  apply IZR_le in Hz. rewrite plus_IZR in Hz.
  assert (Hd : 2 * cell < b - a) by nra.
  nra.
Qed.

Lemma cell_in_grid_x (a : R) :
  0 <= a < width -> (0 <= Zfloor (a / cell) < gridW)%Z.
Proof.
  intros [H0 H1]. pose proof cell_pos as Hc.
  split.
  - apply (Zfloor_lub 0). unfold Rdiv.
    apply Rmult_le_pos; [lra | apply Rlt_le, Rinv_0_lt_compat; lra].
  - unfold Poisson.gridW.
    pose proof (Zfloor_bound (a / cell)) as [Hl _].
    pose proof (Zceil_bound (width / cell)) as [_ Hu].
    assert (Hlt : a / cell < width / cell).
    { unfold Rdiv. apply Rmult_lt_compat_r; [apply Rinv_0_lt_compat|]; lra. }
    apply lt_IZR. lra.
Qed.

Lemma cell_in_grid_y (b : R) :
  0 <= b < height -> (0 <= Zfloor (b / cell) < gridH)%Z.
Proof.
  intros [H0 H1]. pose proof cell_pos as Hc.
  split.
  - apply (Zfloor_lub 0). unfold Rdiv.
    apply Rmult_le_pos; [lra | apply Rlt_le, Rinv_0_lt_compat; lra].
  - unfold Poisson.gridH.
    pose proof (Zfloor_bound (b / cell)) as [Hl _].
    pose proof (Zceil_bound (height / cell)) as [_ Hu].
    assert (Hlt : b / cell < height / cell).
    { unfold Rdiv. apply Rmult_lt_compat_r; [apply Rinv_0_lt_compat|]; lra. }
    apply lt_IZR. lra.
Qed.

Lemma zrange_In (lo hi i : Z) :
  In i (Poisson.zrange lo hi) <-> (lo <= i <= hi)%Z.
Proof.
  unfold Poisson.zrange. rewrite in_map_iff. split.
  - intros [n [<- Hn]]. apply in_seq in Hn. lia.
  - intros H. exists (Z.to_nat (i - lo)). split; [lia|].
    apply in_seq. lia.
Qed.

(** What a successful [farEnough] has checked. *)
Lemma farEnough_spec (g : gmap Z Point) (a b : R) (i j : Z) (s : Point) :
  Poisson.farEnough width height r g a b = true ->
  (0 <= i < gridW)%Z -> (0 <= j < gridH)%Z ->
  (Zfloor (a / cell) - 2 <= i <= Zfloor (a / cell) + 2)%Z ->
  (Zfloor (b / cell) - 2 <= j <= Zfloor (b / cell) + 2)%Z ->
  g !! (j * gridW + i)%Z = Some s ->
  r * r <= (s.(x) - a) * (s.(x) - a) + (s.(y) - b) * (s.(y) - b).
Proof.
  unfold Poisson.farEnough. intros Hf Hi Hj Hai Hbj Hs.
  rewrite forallb_forall in Hf.
  specialize (Hf j). rewrite zrange_In in Hf.
  assert (Hj' : (Z.max 0 (Zfloor (b / cell) - 2) <= j
                 <= Z.min (gridH - 1) (Zfloor (b / cell) + 2))%Z) by lia.
  specialize (Hf Hj'). rewrite forallb_forall in Hf.
  specialize (Hf i). rewrite zrange_In in Hf.
  assert (Hi' : (Z.max 0 (Zfloor (a / cell) - 2) <= i
                 <= Z.min (gridW - 1) (Zfloor (a / cell) + 2))%Z) by lia.
  specialize (Hf Hi'). rewrite Hs in Hf.
  apply negb_true_iff, ltb_false in Hf. exact Hf.
Qed.

Lemma gridIndex_inj (a b a' b' : R) :
  0 <= a < width -> 0 <= a' < width ->
  gridIndex a b = gridIndex a' b' ->
  Zfloor (a / cell) = Zfloor (a' / cell) /\
  Zfloor (b / cell) = Zfloor (b' / cell).
Proof.
  intros Ha Ha' E. unfold Poisson.gridIndex in E.
  apply cell_in_grid_x in Ha, Ha'.
  set (i := Zfloor (a / cell)) in *. set (i' := Zfloor (a' / cell)) in *.
  set (j := Zfloor (b / cell)) in *. set (j' := Zfloor (b' / cell)) in *.
  destruct (Z.lt_trichotomy j j') as [Hlt|[Heq|Hgt]].
  - exfalso. assert ((j + 1) * gridW <= j' * gridW)%Z by nia. lia.
  - split; [lia|exact Heq].
  - exfalso. assert ((j' + 1) * gridW <= j * gridW)%Z by nia. lia.
Qed.

(** A candidate that passed both tests is at least [r] away from every
    sample placed so far. *)
Lemma accepted_far (st : St) (a b : R) (p : Point) :
  sampler_inv st ->
  Poisson.inBounds width height a b = true ->
  Poisson.farEnough width height r (grid st) a b = true ->
  In p (samples st) ->
  r * r <= dist2 p (mkPoint a b).
Proof.
  intros (Hreg & Hgrid & _) Hin Hfar Hp.
  unfold dist2. simpl.
  pose proof (Hreg p Hp) as [Hpx Hpy].
  pose proof (Hgrid p Hp) as Hcell. unfold Poisson.gridIndex in Hcell.
  pose proof (cell_in_grid_x _ Hpx) as Hi.
  pose proof (cell_in_grid_y _ Hpy) as Hj.
  pose proof cell_sqr as Hc2.
  assert (Hsx : 0 <= (x p - a) * (x p - a)) by exact (Rle_0_sqr _).
  assert (Hsy : 0 <= (y p - b) * (y p - b)) by exact (Rle_0_sqr _).
  destruct (Z_le_gt_dec (Zfloor (x p / cell) + 3) (Zfloor (a / cell)))
    as [H1|H1].
  { pose proof (far_cell_far _ _ H1). lra. }
  destruct (Z_le_gt_dec (Zfloor (a / cell) + 3) (Zfloor (x p / cell)))
    as [H2|H2].
  { pose proof (far_cell_far _ _ H2) as F.
    replace ((a - x p) * (a - x p)) with ((x p - a) * (x p - a)) in F by ring.
    lra. }
  destruct (Z_le_gt_dec (Zfloor (y p / cell) + 3) (Zfloor (b / cell)))
    as [H3|H3].
  { pose proof (far_cell_far _ _ H3). lra. }
  destruct (Z_le_gt_dec (Zfloor (b / cell) + 3) (Zfloor (y p / cell)))
    as [H4|H4].
  { pose proof (far_cell_far _ _ H4) as F.
    replace ((b - y p) * (b - y p)) with ((y p - b) * (y p - b)) in F by ring.
    lra. }
  apply (farEnough_spec (grid st) a b _ _ p Hfar Hi Hj); [lia|lia|exact Hcell].
Qed.

Lemma inBounds_spec (a b : R) :
  Poisson.inBounds width height a b = true -> in_region (mkPoint a b).
Proof.
  unfold Poisson.inBounds, in_region. simpl. intros H.
  apply andb_true_iff in H as [H Hy2].
  apply andb_true_iff in H as [H Hy1].
  apply andb_true_iff in H as [Hx1 Hx2].
  apply leb_true in Hx1, Hy1. apply ltb_true in Hx2, Hy2. lra.
Qed.

Lemma spaced_snoc (l : list Point) (s : Point) :
  spaced l -> (forall p, In p l -> r * r <= dist2 p s) -> spaced (l ++ [s]).
Proof.
  intros Hl Hs i j p q Hij Hp Hq.
  assert (Hsym : forall u v, dist2 u v = dist2 v u)
    by (intros; unfold dist2; ring).
  destruct (Nat.lt_ge_cases i (length l)) as [Hi|Hi];
    destruct (Nat.lt_ge_cases j (length l)) as [Hj|Hj].
  - rewrite lookup_app_l in Hp, Hq by assumption. eauto.
  - rewrite lookup_app_l in Hp by assumption.
    rewrite lookup_app_r in Hq by assumption.
    apply list_lookup_singleton_Some in Hq as [_ <-].
    apply Hs. apply list_elem_of_In, list_elem_of_lookup. eauto.
  - rewrite lookup_app_l in Hq by assumption.
    rewrite lookup_app_r in Hp by assumption.
    apply list_lookup_singleton_Some in Hp as [_ <-].
    rewrite Hsym. apply Hs. apply list_elem_of_In, list_elem_of_lookup. eauto.
  - rewrite lookup_app_r in Hp, Hq by assumption.
    apply list_lookup_singleton_Some in Hp as [Hp _].
    apply list_lookup_singleton_Some in Hq as [Hq _]. lia.
Qed.

Lemma addSample_inv (st : St) (a b : R) :
  sampler_inv st ->
  Poisson.inBounds width height a b = true ->
  Poisson.farEnough width height r (grid st) a b = true ->
  sampler_inv (Poisson.addSample width r st a b).
Proof.
  intros Hinv Hin Hfar.
  pose proof (fun p => accepted_far st a b p Hinv Hin Hfar) as Hacc.
  pose proof (inBounds_spec a b Hin) as Hnew.
  destruct Hinv as (Hreg & Hgrid & Hsp).
  unfold Poisson.addSample. split; [|split]; simpl.
  - intros p Hp. apply in_app_or in Hp as [Hp|[<-|[]]]; auto.
  - intros p Hp. apply in_app_or in Hp as [Hp|[<-|[]]].
    + rewrite lookup_insert_ne; [auto|].
      intros E. symmetry in E.
      destruct (Hreg p Hp) as [Hpx _]. destruct Hnew as [Hax _].
      simpl in Hax.
      apply (gridIndex_inj _ _ _ _ Hpx Hax) in E as [Ex Ey].
      pose proof (same_cell_close _ _ Ex). pose proof (same_cell_close _ _ Ey).
      pose proof (Hacc p Hp) as Hd. unfold dist2 in Hd. simpl in Hd.
      pose proof cell_sqr. lra.
    + simpl. apply lookup_insert_eq.
  - apply spaced_snoc; assumption.
Qed.

Lemma farEnough_empty (a b : R) :
  Poisson.farEnough width height r ∅ a b = true.
Proof.
  unfold Poisson.farEnough.
  apply forallb_forall. intros j _. apply forallb_forall. intros i _.
  rewrite lookup_empty. reflexivity.
Qed.

Lemma first_sample_inv :
  sampler_inv (Poisson.addSample width r (mkSt ∅ [] []) (width / 2) (height / 2)).
Proof.
  apply addSample_inv.
  - split; [|split]; simpl.
    + intros p [].
    + intros p [].
    + intros i j p q _ Hp. rewrite lookup_nil in Hp. discriminate.
  - unfold Poisson.inBounds.
    repeat (apply andb_true_iff; split);
      first [apply leb_true | apply ltb_true]; lra.
  - apply farEnough_empty.
Qed.

Section Loop.
  Variable k : nat.

(** [attempts] neither throws nor runs out of fuel, and a placed
    candidate passed both tests. *)
Lemma attempts_total (n : nat) (s : Point) (st : St) g :
  exists o g', Poisson.attempts width height r n s st g = Ok (o, g') /\
    match o with
    | Some st' => exists a b,
        st' = Poisson.addSample width r st a b /\
        Poisson.inBounds width height a b = true /\
        Poisson.farEnough width height r (grid st) a b = true
    | None => True
    end.
Proof.
  revert g. induction n as [|n IH]; intros g; simpl.
  - exists None, g. split; [reflexivity|exact I].
  - unfold bind at 1. simpl. unfold bind at 1. simpl.
    destruct (_ && _) eqn:Hok.
    + eexists _, _. split; [reflexivity|].
      apply andb_true_iff in Hok as [Hin Hfar]. eauto.
    + apply IH.
Qed.

Lemma attempts_inv (n : nat) (s : Point) (st : St) g o g' :
  Poisson.attempts width height r n s st g = Ok (o, g') ->
  sampler_inv st ->
  match o with
  | Some st' => sampler_inv st'
  | None => True
  end.
Proof.
  intros H Hinv.
  destruct (attempts_total n s st g) as (o' & g2 & E & Ho).
  rewrite E in H. inversion H; subst o' g2.
  destruct o as [st'|]; [|exact I].
  destruct Ho as (a & b & -> & Hin & Hfar).
  apply addSample_inv; assumption.
Qed.

Lemma loop_spaced (fuel : nat) (st : St) g l g' :
  Poisson.loop width height r k fuel st g = Ok (l, g') ->
  sampler_inv st -> spaced l.
Proof.
  revert st g. induction fuel as [|fuel IH]; intros st g H Hinv;
    simpl in H; destruct (active st) eqn:Hact.
  - apply ret_Ok in H as [-> _]. apply Hinv.
  - discriminate.
  - apply ret_Ok in H as [-> _]. apply Hinv.
  - apply bind_Ok in H as (u & g1 & _ & H).
    apply bind_Ok in H as (s & g2 & _ & H).
    apply bind_Ok in H as (o & g3 & Ha & H).
    apply attempts_inv in Ha; [|exact Hinv].
    destruct o as [st'|].
    + eapply IH; eassumption.
    + eapply IH; [eassumption|]. exact Hinv.
Qed.
(** Each cell holds at most one sample. *)
Lemma samples_bounded (st : St) :
  sampler_inv st ->
  (length (samples st) <= Z.to_nat (gridW * gridH))%nat.
Proof.
  intros (Hreg & Hgrid & Hsp).
  set (f := fun p : Point => gridIndex p.(x) p.(y)).
  assert (Hnd : NoDup (f <$> samples st)).
  { apply NoDup_alt. intros i j c Hi Hj.
    apply list_lookup_fmap_Some in Hi as (p & -> & Hp).
    apply list_lookup_fmap_Some in Hj as (q & Hc & Hq).
    destruct (Nat.eq_dec i j) as [|Hne]; [assumption|exfalso].
    pose proof (Hsp i j p q Hne Hp Hq) as Hd.
    assert (Hpin : In p (samples st))
      by (apply list_elem_of_In, list_elem_of_lookup; eauto).
    assert (Hqin : In q (samples st))
      by (apply list_elem_of_In, list_elem_of_lookup; eauto).
    pose proof (Hgrid p Hpin) as Gp. pose proof (Hgrid q Hqin) as Gq.
    unfold f in Hc. rewrite Hc, Gq in Gp. inversion Gp; subst q.
    unfold dist2 in Hd. nra. }
  assert (Hsub : forall c, c ∈ f <$> samples st ->
            c ∈ Poisson.zrange 0 (gridW * gridH - 1)).
  { intros c Hc. apply list_elem_of_fmap in Hc as (p & -> & Hp).
    apply list_elem_of_In in Hp. destruct (Hreg p Hp) as [Hx Hy].
    apply cell_in_grid_x in Hx. apply cell_in_grid_y in Hy.
    apply list_elem_of_In, zrange_In. unfold f, Poisson.gridIndex. nia. }
  pose proof (submseteq_length _ _ (NoDup_submseteq _ _ Hnd Hsub)) as Hlen.
  rewrite length_fmap in Hlen. unfold Poisson.zrange in Hlen.
  rewrite length_map, length_seq in Hlen. lia.
Qed.

Definition potential (st : St) : nat :=
  (2 * (Z.to_nat (gridW * gridH) - length (samples st))
   + length (active st))%nat.

(** The loop ends: every iteration places a sample in a free cell or
    retires a frontier point. *)
Lemma loop_total (fuel : nat) (st : St) g :
  (gridW * gridH < 2 ^ 31)%Z ->
  sampler_inv st ->
  (length (active st) <= length (samples st))%nat ->
  (potential st <= fuel)%nat ->
  exists l g', Poisson.loop width height r k fuel st g = Ok (l, g').
Proof.
  intros Hsmall. revert st g.
  induction fuel as [|fuel IH]; intros st g Hinv Hact Hpot.
  - unfold potential in Hpot.
    destruct (active st) eqn:E; simpl in *; [|lia].
    rewrite E. eexists _, _. reflexivity.
  - pose proof (samples_bounded st Hinv) as Hb.
    assert (Hlen : (Z.of_nat (length (active st)) < 2 ^ 31)%Z) by lia.
    unfold potential in Hpot.
    cbn [Poisson.loop]. destruct (active st) as [|s0 rest] eqn:E.
    { eexists _, _. reflexivity. }
    rewrite <- E in *. rewrite bind_random.
    set (u := g 0%nat).
    assert (Hidx : (0 <= JS.to_int32 (u * INR (length (active st)))
                    < Z.of_nat (length (active st)))%Z).
    { apply random_index; [rewrite E; simpl; lia|exact Hlen]. }
    set (idx := JS.to_int32 (u * INR (length (active st)))) in *.
    destruct (lookup_lt_is_Some_2 (active st) (Z.to_nat idx)) as [s Hs];
      [lia|].
    assert (Hs' : JS.nth_Z (active st) idx = Some s).
    { unfold JS.nth_Z. destruct (Z.ltb_spec idx 0); [lia|exact Hs]. }
    rewrite (bind_defined _ s) by exact Hs'.
    destruct (attempts_total k s st (fun n => g (S n)))
      as (o & g3 & Ha & Ho).
    rewrite (bind_eq _ _ _ _ _ Ha). destruct o as [st'|].
    + destruct Ho as (a & b & -> & Hin & Hfar).
      pose proof (addSample_inv st a b Hinv Hin Hfar) as Hinv'.
      pose proof (samples_bounded _ Hinv') as Hb'.
      apply IH; [exact Hinv'| |].
      * simpl. rewrite !length_app. simpl. lia.
      * unfold potential. simpl in *.
        rewrite !length_app in *. simpl in *. lia.
    + apply IH.
      * exact Hinv.
      * simpl. rewrite length_delete by eauto. rewrite E in *.
        simpl in *. lia.
      * unfold potential. simpl.
        rewrite length_delete by eauto. rewrite E in *. simpl in *. lia.
Qed.
End Loop.

(** With fuel for two iterations per grid cell the sampler returns. *)
Lemma poisson_total (k : nat) (g : Rng) :
  (gridW * gridH < 2 ^ 31)%Z ->
  exists pts g',
    Poisson.poisson width height r k (2 * Z.to_nat (gridW * gridH)) g
    = Ok (pts, g').
Proof.
  intros Hsmall. unfold Poisson.poisson.
  pose proof first_sample_inv as Hinv.
  pose proof (samples_bounded _ Hinv) as Hb. simpl in Hb.
  destruct (_ && _) eqn:Hrange.
  - apply loop_total; [exact Hsmall|exact Hinv|simpl; lia|].
    unfold potential. simpl. lia.
  - apply andb_false_iff in Hrange as [H|H].
    + apply Z.leb_gt in H. lia.
    + apply Z.ltb_ge in H. lia.
Qed.

Lemma spaced_hypot (l : list Point) :
  spaced l ->
  forall i j p q, i <> j -> l !! i = Some p -> l !! j = Some q ->
    r <= JS.hypot (p.(x) - q.(x)) (p.(y) - q.(y)).
Proof.
  intros Hl i j p q Hij Hp Hq.
  specialize (Hl i j p q Hij Hp Hq). unfold dist2 in Hl. unfold JS.hypot.
  rewrite <- (sqrt_square r) by lra.
  apply sqrt_le_1_alt. exact Hl.
Qed.
End PoissonFacts.

(** C5.  Whatever the random draws, any two distinct points of the list
    that [poisson] returns for a region of positive width and height and a
    minimum distance [r > 0] are at Euclidean distance at least [r]: the
    rejection test over the clamped 5 x 5 block of cells of side
    [r / sqrt 2] separates a candidate from every sample placed so far. *)
Theorem poisson_min_spacing (width height r : R) (k fuel : nat)
    (g g' : Rng) (pts : list Poisson.Point) :
  0 < width -> 0 < height -> 0 < r ->
  Poisson.poisson width height r k fuel g = Ok (pts, g') ->
  forall i j p q, i <> j -> pts !! i = Some p -> pts !! j = Some q ->
    r <= JS.hypot (Poisson.x p - Poisson.x q) (Poisson.y p - Poisson.y q).
Proof.
  intros Hw Hh Hr Hrun. unfold Poisson.poisson in Hrun.
  destruct (_ && _) in Hrun; [|discriminate].
  apply (spaced_hypot r Hr).
  eapply loop_spaced; try eassumption.
  apply first_sample_inv; assumption.
Qed.

Lemma sample_grid_small :
  (Poisson.gridW 5 2 * Poisson.gridH 1 2 < 2 ^ 31)%Z.
Proof.
  assert (Hs : 1 <= sqrt 2 <= 2).
  { split.
    - rewrite <- sqrt_1 at 1. apply sqrt_le_1_alt. lra.
    - rewrite <- (sqrt_square 2) at 2 by lra. apply sqrt_le_1_alt. lra. }
  assert (Hc : Poisson.cell 2 = 2 / sqrt 2) by reflexivity.
  assert (Hcell : 1 <= Poisson.cell 2 <= 2).
  { rewrite Hc. split.
    - apply (Rmult_le_reg_r (sqrt 2)); [lra|].
      unfold Rdiv. rewrite Rmult_assoc, Rinv_l by lra. lra.
    - apply (Rmult_le_reg_r (sqrt 2)); [lra|].
      unfold Rdiv. rewrite Rmult_assoc, Rinv_l by lra. lra. }
  assert (Hdiv : forall a, 0 <= a -> 0 <= a / Poisson.cell 2 <= a).
  { intros a Ha. split.
    - unfold Rdiv. apply Rmult_le_pos; [lra|].
      apply Rlt_le, Rinv_0_lt_compat. lra.
    - apply (Rmult_le_reg_r (Poisson.cell 2)); [lra|].
      unfold Rdiv. rewrite Rmult_assoc, Rinv_l by lra. nra. }
  assert (HW : (0 <= Poisson.gridW 5 2 <= 5)%Z).
  { unfold Poisson.gridW. destruct (Hdiv 5) as [H0 H5]; [lra|].
    pose proof (Zceil_bound (5 / Poisson.cell 2)) as [Hl Hu].
    split; [apply le_IZR; lra|].
    apply Z.lt_succ_r, lt_IZR. rewrite succ_IZR. lra. }
  assert (HH : (0 <= Poisson.gridH 1 2 <= 1)%Z).
  { unfold Poisson.gridH. destruct (Hdiv 1) as [H0 H1]; [lra|].
    pose proof (Zceil_bound (1 / Poisson.cell 2)) as [Hl Hu].
    split; [apply le_IZR; lra|].
    apply Z.lt_succ_r, lt_IZR. rewrite succ_IZR. lra. }
  nia.
Qed.

Lemma poisson_min_spacing_witness :
  exists pts g',
    Poisson.poisson 5 1 2 30
      (2 * Z.to_nat (Poisson.gridW 5 2 * Poisson.gridH 1 2)) zero_rng
    = Ok (pts, g') /\
    forall i j p q, i <> j -> pts !! i = Some p -> pts !! j = Some q ->
      2 <= JS.hypot (Poisson.x p - Poisson.x q) (Poisson.y p - Poisson.y q).
Proof.
  destruct (poisson_total 5 1 2 ltac:(lra) ltac:(lra) ltac:(lra) 30 zero_rng
              sample_grid_small) as (pts & g' & E).
  exists pts, g'. split; [exact E|].
  apply (poisson_min_spacing 5 1 2 30
           (2 * Z.to_nat (Poisson.gridW 5 2 * Poisson.gridH 1 2))
           zero_rng g' pts); [lra|lra|lra|exact E].
Defined.

(** ** Loops in the monad *)

Lemma foldM_inv {A S : Type} (f : S -> A -> M S) (P : S -> Prop)
    (l : list A) :
  (forall s a g s' g', In a l -> P s -> f s a g = Ok (s', g') -> P s') ->
  forall s g s' g', P s -> foldM f l s g = Ok (s', g') -> P s'.
Proof.
  induction l as [|a l IH]; intros Hstep s g s' g' Hs H; simpl in H.
  - apply ret_Ok in H as [-> _]. exact Hs.
  - apply bind_Ok in H as (s1 & g1 & H1 & H).
    eapply IH; [| |exact H].
    + intros. eapply Hstep; [right|..]; eassumption.
    + eapply Hstep; [left; reflexivity|exact Hs|exact H1].
Qed.

Lemma foldM_total {A S : Type} (f : S -> A -> M S) (P : S -> Prop)
    (l : list A) :
  (forall s a g, In a l -> P s -> exists s' g', f s a g = Ok (s', g') /\ P s') ->
  forall s g, P s -> exists s' g', foldM f l s g = Ok (s', g') /\ P s'.
Proof.
  induction l as [|a l IH]; intros Hstep s g Hs; simpl.
  - exists s, g. split; [reflexivity|exact Hs].
  - destruct (Hstep s a g) as (s1 & g1 & E & Hs1); [left; reflexivity|exact Hs|].
    rewrite (bind_eq _ _ _ _ _ E).
    apply IH; [|exact Hs1].
    intros. apply Hstep; [right|]; assumption.
Qed.

Lemma fold_left_inv {A S : Type} (f : S -> A -> S) (P : S -> Prop)
    (l : list A) :
  (forall s a, In a l -> P s -> P (f s a)) ->
  forall s, P s -> P (fold_left f l s).
Proof.
  induction l as [|a l IH]; intros Hstep s Hs; simpl; [exact Hs|].
  apply IH.
  - intros. apply Hstep; [right|]; assumption.
  - apply Hstep; [left; reflexivity|exact Hs].
Qed.

(** ** Sorting *)

Lemma insert_desc_perm {A : Type} (w : A -> R) (c : A) (l : list A) :
  Permutation (c :: l) (insert_desc w c l).
Proof.
  induction l as [|h tl IH]; simpl; [reflexivity|].
  destruct (JS.leb (w h) (w c)); [reflexivity|].
  rewrite perm_swap. apply perm_skip. exact IH.
Qed.

Lemma sort_desc_perm {A : Type} (w : A -> R) (l : list A) :
  Permutation l (sort_desc w l).
Proof.
  induction l as [|c l IH]; simpl; [reflexivity|].
  rewrite <- insert_desc_perm. apply perm_skip. exact IH.
Qed.

Lemma sort_desc_In {A : Type} (w : A -> R) (l : list A) (c : A) :
  In c (sort_desc w l) -> In c l.
Proof.
  intros H. eapply Permutation_in; [symmetry; apply sort_desc_perm|exact H].
Qed.

(** ** Degree counting *)

Lemma incident_nil (v : nat) : incident v [] = 0%nat.
Proof. reflexivity. Qed.

Lemma incident_snoc (v a b : nat) (l : list (nat * nat)) :
  incident v (l ++ [(a, b)]) =
  (incident v l + if decide (a = v \/ b = v) then 1 else 0)%nat.
Proof.
  unfold incident. rewrite filter_app, length_app. f_equal.
  rewrite filter_cons, filter_nil. simpl.
  destruct (decide (a = v \/ b = v)); reflexivity.
Qed.

Lemma wrap16_small (z : Z) : (- 2 ^ 15 <= z < 2 ^ 15)%Z -> JS.wrap16 z = z.
Proof.
  intros H. unfold JS.wrap16. rewrite Z.mod_small; lia.
Qed.

Lemma deg_ge_false (deg : list Z) (i : nat) (cap c : Z) :
  deg !! i = Some c -> deg_ge deg i cap = false -> (c < cap)%Z.
Proof.
  unfold deg_ge. intros ->. apply Z.leb_gt.
Qed.

Lemma deg_incr_lookup (deg : list Z) (i v : nat) (c : Z) :
  deg !! i = Some c -> (0 <= c < 32767)%Z ->
  deg_incr deg i !! v =
  if decide (i = v) then Some (c + 1)%Z else deg !! v.
Proof.
  intros Hi Hc. unfold deg_incr. rewrite Hi.
  rewrite wrap16_small by lia.
  destruct (decide (i = v)) as [<-|Hne].
  - apply list_lookup_insert_eq. eapply lookup_lt_Some. exact Hi.
  - apply list_lookup_insert_ne. exact Hne.
Qed.

Lemma deg_incr_length (deg : list Z) (i : nat) :
  length (deg_incr deg i) = length deg.
Proof.
  unfold deg_incr. destruct (deg !! i); [apply length_insert|reflexivity].
Qed.

(** Recording a new edge between two distinct nodes whose counts are
    below their caps keeps the degree array equal to the incident-edge
    counts. *)
Lemma degs_track_step (deg : list Z) (l : list (nat * nat)) (n a b : nat)
    (capa capb : Z) :
  degs_track deg l n -> (a < n)%nat -> (b < n)%nat -> a <> b ->
  (capa <= 32767)%Z -> (capb <= 32767)%Z ->
  deg_ge deg a capa = false -> deg_ge deg b capb = false ->
  degs_track (deg_incr (deg_incr deg a) b) (l ++ [(a, b)]) n /\
  (Z.of_nat (incident a (l ++ [(a, b)])) <= capa)%Z /\
  (Z.of_nat (incident b (l ++ [(a, b)])) <= capb)%Z.
Proof.
  intros [Hlen Htr] Ha Hb Hab Hca Hcb Hga Hgb.
  pose proof (Htr a Ha) as Da. pose proof (Htr b Hb) as Db.
  pose proof (deg_ge_false _ _ _ _ Da Hga) as La.
  pose proof (deg_ge_false _ _ _ _ Db Hgb) as Lb.
  assert (Db' : deg_incr deg a !! b = Some (Z.of_nat (incident b l))).
  { rewrite (deg_incr_lookup deg a b _ Da) by lia.
    destruct (decide (a = b)); [contradiction|exact Db]. }
  split; [split|split].
  - rewrite !deg_incr_length. exact Hlen.
  - intros v Hv. rewrite incident_snoc.
    rewrite (deg_incr_lookup _ b v _ Db') by lia.
    destruct (decide (b = v)) as [<-|Hbv].
    + destruct (decide (a = b \/ b = b)) as [_|N]; [|tauto].
      f_equal. lia.
    + rewrite (deg_incr_lookup deg a v _ Da) by lia.
      destruct (decide (a = v)) as [<-|Hav].
      * destruct (decide (a = a \/ b = a)) as [_|N]; [|tauto].
        f_equal. lia.
      * destruct (decide (a = v \/ b = v)) as [[|]|_]; [contradiction..|].
        rewrite Htr by exact Hv. f_equal. lia.
  - rewrite incident_snoc.
    destruct (decide (a = a \/ b = a)) as [_|N]; [lia|tauto].
  - rewrite incident_snoc.
    destruct (decide (a = b \/ b = b)) as [_|N]; [lia|tauto].
Qed.

(** ** The foreground graph *)

Section ForegroundEdges.
Variables (cfg : Config) (nds : list Fg.Node) (flags : list bool) (maxDist : R).

Lemma candidate_step_ok (st : BuildSt) (i : nat) (cands : list Fg.Cand)
    (j : nat) g cands' g' :
  Forall (cand_ok nds maxDist i) cands ->
  candidate_step cfg nds flags maxDist st i cands j g = Ok (cands', g') ->
  Forall (cand_ok nds maxDist i) cands'.
Proof.
  intros Hc H. unfold candidate_step in H.
  destruct (Nat.eqb_spec j i) as [|Hji].
  { apply ret_Ok in H as [-> _]. exact Hc. }
  destruct (decide _).
  { apply ret_Ok in H as [-> _]. exact Hc. }
  apply bind_Ok in H as (a & g1 & Ha & H). apply defined_Ok in Ha as [Ha _].
  apply bind_Ok in H as (b & g2 & Hb & H). apply defined_Ok in Hb as [Hb _].
  destruct (_ || _) eqn:Hfar in H.
  { apply ret_Ok in H as [-> _]. exact Hc. }
  destruct (deg_ge _ _ _) in H.
  { apply ret_Ok in H as [-> _]. exact Hc. }
  apply bind_Ok in H as (u & g3 & _ & H).
  apply ret_Ok in H as [-> _].
  apply Forall_app. split; [exact Hc|].
  constructor; [|constructor].
  apply orb_false_iff in Hfar as [Hfar _]. apply ltb_false in Hfar.
  split; simpl; [congruence|].
  exists a, b. repeat split; assumption.
Qed.

Lemma link_step_edges (i : nat) (st : BuildSt) (entry : Fg.Cand) :
  cand_ok nds maxDist i entry ->
  fg_edges_inv nds maxDist st ->
  fg_edges_inv nds maxDist (link_step cfg flags i st entry).
Proof.
  intros Hc Hinv. unfold link_step.
  destruct (decide _) as [|Hfresh]; [exact Hinv|].
  destruct (_ || _); [exact Hinv|].
  destruct Hinv as (Hok & Hseen & Hnd).
  unfold fg_edges_inv. simpl. rewrite !map_app. simpl.
  split; [|split].
  - apply Forall_app. split; [exact Hok|]. constructor; [exact Hc|constructor].
  - intros L HL. apply in_app_or in HL as [HL|[<-|[]]].
    + apply elem_of_union_r. apply Hseen. exact HL.
    + apply elem_of_union_l, elem_of_singleton. reflexivity.
  - apply NoDup_app. split; [exact Hnd|]. split.
    + intros k Hk Hk'. apply list_elem_of_singleton in Hk'. subst k.
      apply list_elem_of_In, in_map_iff in Hk as (L & HL & HLin).
      assert (E : link_key L = key i (Fg.j entry)) by exact HL.
      apply Hfresh. rewrite <- E. apply Hseen. exact HLin.
    + apply NoDup_singleton.
Qed.

Hypothesis Hcaps : caps_ok cfg.

Lemma cap_of_bounds (v : nat) : (0 <= cap_of cfg flags v <= 32767)%Z.
Proof.
  destruct Hcaps as (Hd & Hs & _). unfold cap_of.
  destruct (default false (flags !! v)); assumption.
Qed.

Lemma link_step_deg (i : nat) (st : BuildSt) (entry : Fg.Cand) :
  cand_ok nds maxDist i entry ->
  fg_deg_inv cfg nds flags st ->
  fg_deg_inv cfg nds flags (link_step cfg flags i st entry).
Proof.
  intros Hc Hinv. unfold link_step.
  destruct (decide _) as [|Hfresh]; [exact Hinv|].
  destruct (_ || _) eqn:Hfull; [exact Hinv|].
  apply orb_false_iff in Hfull as [Hi Hj].
  destruct Hinv as (Htr & Hcap).
  pose proof Hc as (Hne & a & b & Ha & Hb & _). simpl in Hne, Ha, Hb.
  apply lookup_lt_Some in Ha, Hb.
  destruct (degs_track_step _ _ _ i (Fg.j entry) _ _ Htr Ha Hb Hne
              (proj2 (cap_of_bounds i)) (proj2 (cap_of_bounds (Fg.j entry)))
              Hi Hj) as (Htr' & Hci & Hcj).
  unfold fg_deg_inv. simpl. unfold fg_pairs in *.
  rewrite !map_app. simpl.
  split; [exact Htr'|].
  intros v. rewrite incident_snoc.
  destruct (decide (i = v \/ Fg.j entry = v)) as [[<-|<-]|_].
  - rewrite incident_snoc in Hci.
    destruct (decide (i = i \/ Fg.j entry = i)) as [_|N]; [exact Hci|tauto].
  - rewrite incident_snoc in Hcj.
    destruct (decide (i = Fg.j entry \/ Fg.j entry = Fg.j entry))
      as [_|N]; [exact Hcj|tauto].
  - rewrite Nat.add_0_r. apply Hcap.
Qed.
End ForegroundEdges.

Section ForegroundGraph.
Variables (cfg : Config) (nds : list Fg.Node) (flags : list bool) (maxDist : R).

(** An invariant that every accepted candidate preserves holds of the
    links [build_links] returns. *)
Lemma build_links_ind (P : BuildSt -> Prop) g lks g' :
  (forall i st entry, cand_ok nds maxDist i entry -> P st ->
     P (link_step cfg flags i st entry)) ->
  P (mkBuildSt [] ∅ (replicate (length nds) 0%Z)) ->
  build_links cfg nds flags maxDist g = Ok (lks, g') ->
  exists st, lks = b_links st /\ P st.
Proof.
  intros Hstep Hinit H. unfold build_links in H.
  apply bind_Ok in H as (indices & g1 & _ & H).
  apply bind_Ok in H as (st & g2 & Hst & H).
  apply ret_Ok in H as [-> _].
  exists st. split; [reflexivity|].
  eapply (foldM_inv _ P); [|exact Hinit|exact Hst].
  intros s i g0 s' g0' _ Hs Hv. unfold visit in Hv.
  destruct (deg_ge _ _ _) in Hv.
  { apply ret_Ok in Hv as [-> _]. exact Hs. }
  apply bind_Ok in Hv as (cands & g3 & Hcands & Hv).
  assert (Hok : Forall (cand_ok nds maxDist i) cands).
  { eapply (foldM_inv _ (Forall (cand_ok nds maxDist i)));
      [|constructor|exact Hcands].
    intros c a g4 c' g4' _ Hc Hcs. eapply candidate_step_ok; eassumption. }
  destruct cands as [|c cands].
  { apply ret_Ok in Hv as [-> _]. exact Hs. }
  apply ret_Ok in Hv as [-> _].
  apply fold_left_inv; [|exact Hs].
  intros s1 en He Hs1. apply Hstep; [|exact Hs1].
  apply sort_desc_In in He. rewrite Forall_forall in Hok.
  apply Hok. apply list_elem_of_In. exact He.
Qed.

Lemma build_links_edges g lks g' :
  build_links cfg nds flags maxDist g = Ok (lks, g') ->
  Forall (link_ok nds maxDist) lks /\ NoDup (map link_key lks).
Proof.
  intros H.
  apply (build_links_ind (fg_edges_inv nds maxDist)) in H
    as (st & -> & Hok & _ & Hnd).
  - split; assumption.
  - intros. apply link_step_edges; assumption.
  - split; [constructor|]. split; [intros L []|constructor].
Qed.

Lemma build_links_deg g lks g' :
  caps_ok cfg ->
  build_links cfg nds flags maxDist g = Ok (lks, g') ->
  forall v, (Z.of_nat (incident v (fg_pairs lks)) <= cap_of cfg flags v)%Z.
Proof.
  intros Hcaps H.
  apply (build_links_ind (fg_deg_inv cfg nds flags)) in H
    as (st & -> & _ & Hcap).
  - exact Hcap.
  - intros. eapply link_step_deg; eassumption.
  - split; [split|]; simpl.
    + apply length_replicate.
    + intros v Hv. rewrite lookup_replicate_2 by exact Hv. reflexivity.
    + intros v. rewrite incident_nil. apply cap_of_bounds. exact Hcaps.
Qed.
End ForegroundGraph.

(** ** The background graph *)

Section BackgroundGraph.
Variables (cfg : Config) (nds : list Bg.Node) (maxDist : R).

Lemma bg_candidate_step_ok (i j : nat) (edges : list Bg.Edge) g edges' g' :
  (i < j)%nat ->
  bg_candidate_step nds maxDist i edges j g = Ok (edges', g') ->
  exists es, edges' = edges ++ es /\
    bg_pairs es `sublist_of` [(i, j)] /\
    Forall (bg_edge_ok nds maxDist) es.
Proof.
  intros Hij H. unfold bg_candidate_step in H.
  apply bind_Ok in H as (a & g1 & Ha & H). apply defined_Ok in Ha as [Ha _].
  apply bind_Ok in H as (b & g2 & Hb & H). apply defined_Ok in Hb as [Hb _].
  destruct (_ || _) eqn:Hfar in H.
  { apply ret_Ok in H as [-> _]. exists []. rewrite app_nil_r.
    split; [reflexivity|]. split; [apply sublist_nil_l|constructor]. }
  apply bind_Ok in H as (u & g3 & _ & H).
  apply ret_Ok in H as [-> _].
  eexists [_]. split; [reflexivity|]. split; [reflexivity|].
  constructor; [|constructor].
  apply orb_false_iff in Hfar as [Hfar _]. apply ltb_false in Hfar.
  split; simpl; [exact Hij|]. exists a, b. repeat split; assumption.
Qed.

Lemma bg_inner_ok (i : nat) (js : list nat) :
  Forall (fun j => (i < j)%nat) js ->
  forall edges g edges' g',
  foldM (bg_candidate_step nds maxDist i) js edges g = Ok (edges', g') ->
  exists es, edges' = edges ++ es /\
    bg_pairs es `sublist_of` (pair i <$> js) /\
    Forall (bg_edge_ok nds maxDist) es.
Proof.
  induction js as [|j js IH]; intros Hjs edges g edges' g' H; simpl in H.
  - apply ret_Ok in H as [-> _]. exists []. rewrite app_nil_r.
    split; [reflexivity|]. split; [apply sublist_nil_l|constructor].
  - apply Forall_cons in Hjs as [Hj Hjs].
    apply bind_Ok in H as (e1 & g1 & H1 & H).
    apply bg_candidate_step_ok in H1 as (es1 & -> & Hs1 & Hok1); [|exact Hj].
    apply IH in H as (es2 & -> & Hs2 & Hok2); [|exact Hjs].
    exists (es1 ++ es2). rewrite app_assoc. split; [reflexivity|]. split.
    + unfold bg_pairs. rewrite map_app.
      change (pair i <$> j :: js) with ([(i, j)] ++ (pair i <$> js)).
      apply sublist_app; assumption.
    + apply Forall_app. split; assumption.
Qed.

Lemma bg_outer_ok (m : nat) (ixs : list nat) :
  forall edges g edges' g',
  foldM (fun edges i =>
           foldM (bg_candidate_step nds maxDist i)
                 (seq (i + 1) (m - (i + 1))) edges) ixs edges g
  = Ok (edges', g') ->
  exists es, edges' = edges ++ es /\
    bg_pairs es `sublist_of`
      (ixs ≫= (fun i => pair i <$> seq (i + 1) (m - (i + 1)))) /\
    Forall (bg_edge_ok nds maxDist) es.
Proof.
  induction ixs as [|i ixs IH]; intros edges g edges' g' H; simpl in H.
  - apply ret_Ok in H as [-> _]. exists []. rewrite app_nil_r.
    split; [reflexivity|]. split; [apply sublist_nil_l|constructor].
  - apply bind_Ok in H as (e1 & g1 & H1 & H).
    apply bg_inner_ok in H1 as (es1 & -> & Hs1 & Hok1).
    2:{ apply Forall_forall. intros j Hj.
        apply list_elem_of_In, in_seq in Hj. lia. }
    apply IH in H as (es2 & -> & Hs2 & Hok2).
    exists (es1 ++ es2). rewrite app_assoc. split; [reflexivity|]. split.
    + unfold bg_pairs. rewrite map_app. rewrite bind_cons.
      apply sublist_app; assumption.
    + apply Forall_app. split; assumption.
Qed.

Lemma all_pairs_NoDup (m : nat) : NoDup (all_pairs m).
Proof.
  unfold all_pairs. apply NoDup_bind.
  - intros i1 i2 p _ _ H1 H2.
    apply list_elem_of_fmap in H1 as (j1 & -> & _).
    apply list_elem_of_fmap in H2 as (j2 & E & _). congruence.
  - intros i _. apply NoDup_fmap; [|apply NoDup_seq].
    intros j1 j2 E. congruence.
  - apply NoDup_seq.
Qed.

Lemma bg_greedy_sublist (cap : Z) (l : list Bg.Edge) :
  forall out deg, exists es,
    (fold_left (bg_link_step cap) l (out, deg)).1 = out ++ es /\
    es `sublist_of` l.
Proof.
  induction l as [|e l IH]; intros out deg; simpl.
  - exists []. rewrite app_nil_r. split; [reflexivity|constructor].
  - destruct (_ || _).
    + destruct (IH out deg) as (es & E & Hs).
      exists es. split; [exact E|]. apply sublist_cons. exact Hs.
    + destruct (IH (out ++ [e]) (deg_incr (deg_incr deg (Bg.ai e)) (Bg.bi e)))
        as (es & E & Hs).
      exists (e :: es). rewrite E, <- app_assoc. split; [reflexivity|].
      apply sublist_skip. exact Hs.
Qed.

Lemma build_bg_links_edges g edges g' :
  build_bg_links cfg nds maxDist g = Ok (edges, g') ->
  Forall (bg_edge_ok nds maxDist) edges /\ NoDup (bg_pairs edges).
Proof.
  intros H. unfold build_bg_links in H.
  apply bind_Ok in H as (cands & g1 & Hc & H).
  apply ret_Ok in H as [-> _].
  apply bg_outer_ok in Hc as (es & E & Hsub & Hok). simpl in E. subst es.
  fold (all_pairs (length nds)) in Hsub.
  destruct (bg_greedy_sublist (bg_degree_cap cfg) (sort_desc Bg.weight cands)
              [] (replicate (length nds) 0%Z)) as (es & E & Hs).
  rewrite E. simpl. split.
  - apply Forall_forall. intros e He. rewrite Forall_forall in Hok.
    apply Hok. apply list_elem_of_In.
    eapply sort_desc_In, list_elem_of_In, elem_of_sublist; eassumption.
  - assert (Hnd : NoDup (bg_pairs cands)).
    { eapply sublist_NoDup; [apply all_pairs_NoDup|exact Hsub]. }
    assert (Hnd' : NoDup (bg_pairs (sort_desc Bg.weight cands))).
    { eapply NoDup_Permutation_proper; [|exact Hnd].
      unfold bg_pairs. apply Permutation_map. symmetry. apply sort_desc_perm. }
    eapply sublist_NoDup; [exact Hnd'|].
    unfold bg_pairs. apply (fmap_sublist (fun E0 => (Bg.ai E0, Bg.bi E0))).
    exact Hs.
Qed.

Hypothesis Hcaps : caps_ok cfg.

Lemma bg_degree_cap_bounds : (1 <= bg_degree_cap cfg <= 32767)%Z.
Proof.
  destruct Hcaps as (_ & _ & Hb). unfold bg_degree_cap. lia.
Qed.

Lemma bg_link_step_inv (st : list Bg.Edge * list Z) (edge : Bg.Edge) :
  bg_edge_ok nds maxDist edge ->
  bg_inv cfg nds maxDist st ->
  bg_inv cfg nds maxDist (bg_link_step (bg_degree_cap cfg) st edge).
Proof.
  intros Hc Hinv. destruct st as [out deg]. unfold bg_link_step.
  destruct (_ || _) eqn:Hfull; [exact Hinv|].
  apply orb_false_iff in Hfull as [Hi Hj].
  destruct Hinv as (Hok & Htr & Hcap). simpl in Hok, Htr, Hcap.
  pose proof Hc as (Hlt & a & b & Ha & Hb & _).
  apply lookup_lt_Some in Ha, Hb.
  assert (Hne : Bg.ai edge <> Bg.bi edge) by lia.
  destruct (degs_track_step _ _ _ _ _ _ _ Htr Ha Hb Hne
              (proj2 bg_degree_cap_bounds) (proj2 bg_degree_cap_bounds)
              Hi Hj) as (Htr' & Hci & Hcj).
  unfold bg_inv. simpl. unfold bg_pairs in *.
  rewrite !map_app. simpl.
  split; [|split].
  - apply Forall_app. split; [exact Hok|]. constructor; [exact Hc|constructor].
  - exact Htr'.
  - intros v. rewrite incident_snoc.
    destruct (decide (Bg.ai edge = v \/ Bg.bi edge = v)) as [[<-|<-]|_].
    + rewrite incident_snoc in Hci.
      destruct (decide (Bg.ai edge = Bg.ai edge \/ Bg.bi edge = Bg.ai edge))
        as [_|N]; [exact Hci|tauto].
    + rewrite incident_snoc in Hcj.
      destruct (decide (Bg.ai edge = Bg.bi edge \/ Bg.bi edge = Bg.bi edge))
        as [_|N]; [exact Hcj|tauto].
    + rewrite Nat.add_0_r. apply Hcap.
Qed.

Lemma build_bg_links_inv g edges g' :
  build_bg_links cfg nds maxDist g = Ok (edges, g') ->
  forall v, (Z.of_nat (incident v (bg_pairs edges)) <= bg_degree_cap cfg)%Z.
Proof.
  intros H. unfold build_bg_links in H.
  apply bind_Ok in H as (cands & g1 & Hc & H).
  apply ret_Ok in H as [-> _].
  apply bg_outer_ok in Hc as (es & E & Hsub & Hok). simpl in E. subst es.
  assert (Hsorted : Forall (bg_edge_ok nds maxDist) (sort_desc Bg.weight cands)).
  { apply Forall_forall. intros e He. rewrite Forall_forall in Hok.
    apply Hok. apply list_elem_of_In. apply list_elem_of_In in He.
    eapply sort_desc_In. exact He. }
  assert (Hinv : bg_inv cfg nds maxDist
            (fold_left (bg_link_step (bg_degree_cap cfg))
               (sort_desc Bg.weight cands) ([], replicate (length nds) 0%Z))).
  { apply fold_left_inv.
    - intros s e He Hs. apply bg_link_step_inv; [|exact Hs].
      rewrite Forall_forall in Hsorted. apply Hsorted, list_elem_of_In, He.
    - split; [constructor|]. split; [split|]; simpl.
      + apply length_replicate.
      + intros v Hv. rewrite lookup_replicate_2 by exact Hv. reflexivity.
      + intros v. rewrite incident_nil. pose proof bg_degree_cap_bounds. lia. }
  apply Hinv.
Qed.
End BackgroundGraph.

(** ** The graph builders return *)

Lemma nth_Z_nat {A : Type} (l : list A) (i : Z) :
  (0 <= i)%Z -> JS.nth_Z l i = l !! Z.to_nat i.
Proof.
  intros H. unfold JS.nth_Z. destruct (Z.ltb_spec i 0); [lia|reflexivity].
Qed.

Lemma shuffle_from_total (i : nat) :
  forall (arr : list nat) (g : Rng),
  (i <= length arr - 1)%nat -> (Z.of_nat (length arr) < 2 ^ 31)%Z ->
  exists arr' g', shuffle_from i arr g = Ok (arr', g') /\
    length arr' = length arr /\ (forall v, v ∈ arr' -> v ∈ arr).
Proof.
  induction i as [|i IH]; intros arr g Hi Hlen; cbn [shuffle_from].
  - exists arr, g. split; [reflexivity|]. split; [reflexivity|auto].
  - rewrite bind_random. set (u := g 0%nat).
    assert (Hj : (0 <= JS.to_int32 (u * INR (S i + 1)) < Z.of_nat (S i + 1))%Z).
    { apply random_index; lia. }
    set (j := JS.to_int32 (u * INR (S i + 1))) in *.
    destruct (lookup_lt_is_Some_2 arr (S i)) as [a Ha]; [lia|].
    destruct (lookup_lt_is_Some_2 arr (Z.to_nat j)) as [b Hb]; [lia|].
    unfold swap. rewrite bind_assoc, (bind_defined _ a) by exact Ha.
    rewrite bind_assoc, (bind_defined _ b)
      by (rewrite nth_Z_nat by lia; exact Hb).
    rewrite bind_ret.
    destruct (IH (<[Z.to_nat j := a]> (<[S i := b]> arr)) (fun n => g (S n)))
      as (arr' & g' & E & Hl & Hin).
    { rewrite !length_insert. lia. }
    { rewrite !length_insert. exact Hlen. }
    exists arr', g'. split; [exact E|].
    rewrite !length_insert in Hl. split; [exact Hl|].
    intros v Hv. apply Hin in Hv.
    apply list_elem_of_lookup in Hv as [k Hk].
    apply list_lookup_insert_Some in Hk as [(_ & <- & _)|[_ Hk]].
    { apply list_elem_of_lookup. eauto. }
    apply list_lookup_insert_Some in Hk as [(_ & <- & _)|[_ Hk]];
      apply list_elem_of_lookup; eauto.
Qed.

Lemma visit_total (cfg : Config) (nds : list Fg.Node) (flags : list bool)
    (maxDist : R) (st : BuildSt) (i : nat) (g : Rng) :
  (i < length nds)%nat ->
  exists st' g', visit cfg nds flags maxDist st i g = Ok (st', g').
Proof.
  intros Hi. unfold visit.
  destruct (deg_ge _ _ _); [eexists _, _; reflexivity|].
  destruct (foldM_total (candidate_step cfg nds flags maxDist st i)
              (fun _ => True) (seq 0 (length nds))) with (s := @nil Fg.Cand)
              (g := g) as (cands & g1 & E & _).
  - intros s j g0 Hj _. apply in_seq in Hj.
    unfold candidate_step.
    destruct (j =? i)%nat; [eexists _, _; split; [reflexivity|exact I]|].
    destruct (decide _); [eexists _, _; split; [reflexivity|exact I]|].
    destruct (lookup_lt_is_Some_2 nds i Hi) as [a Ha].
    destruct (lookup_lt_is_Some_2 nds j) as [b Hb]; [lia|].
    rewrite (bind_defined _ a) by exact Ha.
    rewrite (bind_defined _ b) by exact Hb.
    destruct (_ || _); [eexists _, _; split; [reflexivity|exact I]|].
    destruct (deg_ge _ _ _); eexists _, _; split; try reflexivity; exact I.
  - exact I.
  - rewrite (bind_eq _ _ _ _ _ E).
    destruct cands; eexists _, _; reflexivity.
Qed.

Lemma build_links_total (cfg : Config) (nds : list Fg.Node)
    (flags : list bool) (maxDist : R) (g : Rng) :
  (Z.of_nat (length nds) < 2 ^ 31)%Z ->
  exists lks g', build_links cfg nds flags maxDist g = Ok (lks, g').
Proof.
  intros Hlen. unfold build_links, shuffleArray.
  destruct (shuffle_from_total (length (seq 0 (length nds)) - 1)
              (seq 0 (length nds)) g) as (indices & g1 & E & _ & Hin).
  { lia. }
  { rewrite length_seq. exact Hlen. }
  rewrite (bind_eq _ _ _ _ _ E).
  destruct (foldM_total (visit cfg nds flags maxDist) (fun _ => True) indices)
    with (s := mkBuildSt [] ∅ (replicate (length nds) 0%Z)) (g := g1)
    as (st & g2 & Est & _).
  - intros s i g0 Hi _.
    apply list_elem_of_In, Hin, list_elem_of_In, in_seq in Hi.
    destruct (visit_total cfg nds flags maxDist s i g0) as (s' & g' & Ev);
      [lia|].
    exists s', g'. split; [exact Ev|exact I].
  - exact I.
  - rewrite (bind_eq _ _ _ _ _ Est). eexists _, _. reflexivity.
Qed.

Lemma build_bg_links_total (cfg : Config) (nds : list Bg.Node)
    (maxDist : R) (g : Rng) :
  exists edges g', build_bg_links cfg nds maxDist g = Ok (edges, g').
Proof.
  unfold build_bg_links.
  destruct (foldM_total
              (fun edges i =>
                 foldM (bg_candidate_step nds maxDist i)
                       (seq (i + 1) (length nds - (i + 1))) edges)
              (fun _ => True) (seq 0 (length nds)))
    with (s := @nil Bg.Edge) (g := g) as (cands & g1 & E & _).
  - intros s i g0 Hi _. apply in_seq in Hi.
    apply foldM_total; [|exact I].
    intros s1 j g1 Hj _. apply in_seq in Hj.
    unfold bg_candidate_step.
    destruct (lookup_lt_is_Some_2 nds i) as [a Ha]; [lia|].
    destruct (lookup_lt_is_Some_2 nds j) as [b Hb]; [lia|].
    rewrite (bind_defined _ a) by exact Ha.
    rewrite (bind_defined _ b) by exact Hb.
    destruct (_ || _); eexists _, _; split; try reflexivity; exact I.
  - exact I.
  - rewrite (bind_eq _ _ _ _ _ E). eexists _, _. reflexivity.
Qed.

(** ** The graph invariants of the engine *)

Lemma buildLinks_Ok (cfg : Config) (e e' : Engine) g g' :
  _buildLinks cfg e g = Ok (e', g') ->
  exists lks g1,
    build_links cfg (nodes e) (movingFlags e) (linkDistanceMax e) g
      = Ok (lks, g1) /\
    nodes e' = nodes e /\ movingFlags e' = movingFlags e /\
    linkDistanceMax e' = linkDistanceMax e /\ links e' = lks /\
    dynamicLinks e' =
      filter (fun idx => is_dynamic lks (movingFlags e) idx = true)
             (seq 0 (length lks)) /\
    pulsesLen e' = pulsesLen e /\ pulseMaxActive e' = pulseMaxActive e.
Proof.
  intros H. unfold _buildLinks in H.
  apply bind_Ok in H as (lks & g1 & Hb & H).
  apply ret_Ok in H as [-> _].
  exists lks, g1. simpl. repeat split; try reflexivity. exact Hb.
Qed.

Lemma buildBgLinks_Ok (cfg : Config) (e e' : Engine) g g' :
  _buildBgLinks cfg e g = Ok (e', g') ->
  exists edges g1,
    build_bg_links cfg (bgNodes e) (bgLinkDistanceMax e) g = Ok (edges, g1) /\
    e' = set_bgLinks e edges.
Proof.
  intros H. unfold _buildBgLinks in H.
  apply bind_Ok in H as (edges & g1 & Hb & H).
  apply ret_Ok in H as [-> _].
  exists edges, g1. split; [exact Hb|reflexivity].
Qed.

(** C2.  For a configuration whose caps fit the degree array, after
    [_buildLinks] every node whose movement flag is set is incident to at
    most [MAX_LINKS_DYNAMIC] links and every other node to at most
    [MAX_LINKS_STATIC] links, and after [_buildBgLinks] every background
    node is incident to at most
    [max 1 (min BG_LINK_MAX_DEGREE MAX_LINKS_STATIC)] edges, whatever the
    node population and the random draws. *)
Theorem degree_cap (cfg : Config) (e e' : Engine) (g g' : Rng) :
  caps_ok cfg ->
  (_buildLinks cfg e g = Ok (e', g') ->
   forall v,
     (movingFlags e' !! v = Some true ->
      (Z.of_nat (incident v (fg_pairs (links e')))
       <= MAX_LINKS_DYNAMIC cfg)%Z) /\
     (movingFlags e' !! v <> Some true ->
      (Z.of_nat (incident v (fg_pairs (links e')))
       <= MAX_LINKS_STATIC cfg)%Z)) /\
  (_buildBgLinks cfg e g = Ok (e', g') ->
   forall v, (Z.of_nat (incident v (bg_pairs (bgLinks e')))
              <= Z.max 1 (Z.min (BG_LINK_MAX_DEGREE cfg)
                                (MAX_LINKS_STATIC cfg)))%Z).
Proof.
  intros Hcaps. split; intros H.
  - apply buildLinks_Ok in H
      as (lks & g1 & Hb & _ & Hf & _ & Hl & _).
    rewrite Hl, Hf. intros v.
    pose proof (build_links_deg cfg _ _ _ _ _ _ Hcaps Hb v) as Hv.
    unfold cap_of in Hv.
    destruct (movingFlags e !! v) as [[|]|]; cbn [default] in Hv.
    + split; [intros _; exact Hv|intros N; contradiction].
    + split; [discriminate|intros _; exact Hv].
    + split; [discriminate|intros _; exact Hv].
  - apply buildBgLinks_Ok in H as (edges & g1 & Hb & ->).
    intros v.
    pose proof (build_bg_links_inv cfg _ _ Hcaps _ _ _ Hb) as Hinv.
    exact (Hinv v).
Qed.

Lemma buildLinks_total (cfg : Config) (e : Engine) (g : Rng) :
  (Z.of_nat (length (nodes e)) < 2 ^ 31)%Z ->
  exists e' g', _buildLinks cfg e g = Ok (e', g').
Proof.
  intros Hlen. unfold _buildLinks.
  destruct (build_links_total cfg (nodes e) (movingFlags e)
              (linkDistanceMax e) g Hlen) as (lks & g1 & E).
  rewrite (bind_eq _ _ _ _ _ E). eexists _, _. reflexivity.
Qed.

Lemma buildBgLinks_total (cfg : Config) (e : Engine) (g : Rng) :
  exists e' g', _buildBgLinks cfg e g = Ok (e', g').
Proof.
  unfold _buildBgLinks.
  destruct (build_bg_links_total cfg (bgNodes e) (bgLinkDistanceMax e) g)
    as (edges & g1 & E).
  rewrite (bind_eq _ _ _ _ _ E). eexists _, _. reflexivity.
Qed.

Lemma caps_ok_CONFIG : caps_ok CONFIG.
Proof. unfold caps_ok. simpl. lia. Qed.

Lemma demo_nodes_small : (Z.of_nat (length (nodes demo_engine)) < 2 ^ 31)%Z.
Proof.
  change (nodes demo_engine) with (map demo_node (seq 0 100)).
  rewrite length_map, length_seq. lia.
Qed.

Lemma degree_cap_witness :
  exists e1 g1 e2 g2 e3 g3,
    (_buildLinks CONFIG demo_engine zero_rng = Ok (e1, g1) /\
     forall v, (Z.of_nat (incident v (fg_pairs (links e1))) <= 5)%Z) /\
    (_buildBgLinks CONFIG demo_engine zero_rng = Ok (e2, g2) /\
     forall v, (Z.of_nat (incident v (bg_pairs (bgLinks e2))) <= 4)%Z) /\
    (_buildLinks CONFIG demo_moving zero_rng = Ok (e3, g3) /\
     forall v, (v < 100)%nat ->
       (Z.of_nat (incident v (fg_pairs (links e3))) <= 6)%Z).
Proof.
  destruct (buildLinks_total CONFIG demo_engine zero_rng demo_nodes_small)
    as (e1 & g1 & E1).
  destruct (buildBgLinks_total CONFIG demo_engine zero_rng) as (e2 & g2 & E2).
  destruct (buildLinks_total CONFIG demo_moving zero_rng demo_nodes_small)
    as (e3 & g3 & E3).
  exists e1, g1, e2, g2, e3, g3.
  split; [|split]; (split; [assumption|]).
  - intros v.
    apply (proj1 (degree_cap CONFIG demo_engine e1 zero_rng g1
                    caps_ok_CONFIG) E1 v).
    pose proof (buildLinks_Ok _ _ _ _ _ E1) as (_ & _ & _ & _ & Hf & _).
    rewrite Hf. change (movingFlags demo_engine) with (replicate 100 false).
    intros Hv. apply lookup_replicate in Hv as [Hv _]. discriminate.
  - apply (proj2 (degree_cap CONFIG demo_engine e2 zero_rng g2
                    caps_ok_CONFIG) E2).
  - intros v Hv.
    apply (proj1 (degree_cap CONFIG demo_moving e3 zero_rng g3
                    caps_ok_CONFIG) E3 v).
    pose proof (buildLinks_Ok _ _ _ _ _ E3) as (_ & _ & _ & _ & Hf & _).
    rewrite Hf. change (movingFlags demo_moving) with (replicate 100 true).
    apply lookup_replicate. split; [reflexivity|exact Hv].
Defined.

Lemma key_min_max (a b : nat) : key a b = (Nat.min a b, Nat.max a b).
Proof.
  unfold key. destruct (Nat.ltb_spec a b).
  - rewrite Nat.min_l, Nat.max_r by lia. reflexivity.
  - rewrite Nat.min_r, Nat.max_l by lia. reflexivity.
Qed.

(** C6.  Whatever the node population and the random draws, the links
    [_buildLinks] produces and the edges [_buildBgLinks] produces contain
    no unordered pair of node indices twice (the pairs
    [(min ai bi, max ai bi)] are all different) and no edge from a node to
    itself. *)
Theorem no_duplicate_or_self_edges (cfg : Config) (e e' : Engine)
    (g g' : Rng) :
  (_buildLinks cfg e g = Ok (e', g') ->
   NoDup ((fun L => (Nat.min (Fg.ai L) (Fg.bi L),
                     Nat.max (Fg.ai L) (Fg.bi L))) <$> links e') /\
   Forall (fun L => Fg.ai L <> Fg.bi L) (links e')) /\
  (_buildBgLinks cfg e g = Ok (e', g') ->
   NoDup ((fun E => (Nat.min (Bg.ai E) (Bg.bi E),
                     Nat.max (Bg.ai E) (Bg.bi E))) <$> bgLinks e') /\
   Forall (fun E => Bg.ai E <> Bg.bi E) (bgLinks e')).
Proof.
  split; intros H.
  - apply buildLinks_Ok in H as (lks & g1 & Hb & _ & _ & _ & Hl & _).
    apply build_links_edges in Hb as [Hok Hnd]. rewrite Hl. split.
    + erewrite list_fmap_ext; [exact Hnd|].
      intros i L _. symmetry. apply key_min_max.
    + eapply Forall_impl; [exact Hok|].
      intros L [Hne _]. exact Hne.
  - apply buildBgLinks_Ok in H as (edges & g1 & Hb & ->).
    apply build_bg_links_edges in Hb as [Hok Hnd]. simpl.
    assert (Hord : Forall (fun E => (Bg.ai E < Bg.bi E)%nat) edges).
    { eapply Forall_impl; [exact Hok|]. intros E0 [Hlt _]. exact Hlt. }
    split.
    + unfold bg_pairs in Hnd.
      erewrite (Forall_fmap_ext_1 _ (fun E => (Bg.ai E, Bg.bi E)));
        [exact Hnd|].
      eapply Forall_impl; [exact Hord|].
      intros E0 Hlt. cbn beta in Hlt.
      rewrite Nat.min_l, Nat.max_r by lia. reflexivity.
    + eapply Forall_impl; [exact Hord|]. intros E0 Hlt. cbn beta in Hlt. lia.
Qed.

Lemma no_duplicate_or_self_edges_witness :
  exists e1 g1 e2 g2,
    (_buildLinks CONFIG demo_engine zero_rng = Ok (e1, g1) /\
     NoDup ((fun L => (Nat.min (Fg.ai L) (Fg.bi L),
                       Nat.max (Fg.ai L) (Fg.bi L))) <$> links e1) /\
     Forall (fun L => Fg.ai L <> Fg.bi L) (links e1)) /\
    (_buildBgLinks CONFIG demo_engine zero_rng = Ok (e2, g2) /\
     NoDup ((fun E => (Nat.min (Bg.ai E) (Bg.bi E),
                       Nat.max (Bg.ai E) (Bg.bi E))) <$> bgLinks e2) /\
     Forall (fun E => Bg.ai E <> Bg.bi E) (bgLinks e2)).
Proof.
  destruct (buildLinks_total CONFIG demo_engine zero_rng demo_nodes_small)
    as (e1 & g1 & E1).
  destruct (buildBgLinks_total CONFIG demo_engine zero_rng) as (e2 & g2 & E2).
  exists e1, g1, e2, g2. split; (split; [assumption|]).
  - apply (proj1 (no_duplicate_or_self_edges CONFIG demo_engine e1
                    zero_rng g1) E1).
  - apply (proj2 (no_duplicate_or_self_edges CONFIG demo_engine e2
                    zero_rng g2) E2).
Defined.

(** C7.  Whatever the node population and the random draws, every link
    of [_buildLinks] joins two nodes whose distance at construction time,
    the one cached in the link, is at most [linkDistanceMax], and every
    edge of [_buildBgLinks] joins two background nodes whose distance is at
    most [bgLinkDistanceMax]. *)
Theorem edge_length_bound (cfg : Config) (e e' : Engine) (g g' : Rng) :
  (_buildLinks cfg e g = Ok (e', g') ->
   Forall (fun L => exists a b,
             nodes e' !! Fg.ai L = Some a /\ nodes e' !! Fg.bi L = Some b /\
             Fg.d L = JS.hypot (Fg.x a - Fg.x b) (Fg.y a - Fg.y b) /\
             Fg.d L <= linkDistanceMax e')
          (links e')) /\
  (_buildBgLinks cfg e g = Ok (e', g') ->
   Forall (fun E => exists a b,
             bgNodes e' !! Bg.ai E = Some a /\ bgNodes e' !! Bg.bi E = Some b /\
             JS.hypot (Bg.x a - Bg.x b) (Bg.y a - Bg.y b)
             <= bgLinkDistanceMax e')
          (bgLinks e')).
Proof.
  split; intros H.
  - apply buildLinks_Ok in H as (lks & g1 & Hb & Hn & _ & Hm & Hl & _).
    apply build_links_edges in Hb as [Hok _]. rewrite Hl, Hn, Hm.
    eapply Forall_impl; [exact Hok|]. intros L [_ HL]. exact HL.
  - apply buildBgLinks_Ok in H as (edges & g1 & Hb & ->).
    apply build_bg_links_edges in Hb as [Hok _]. simpl.
    eapply Forall_impl; [exact Hok|]. intros E0 [_ HE]. exact HE.
Qed.

Lemma edge_length_bound_witness :
  exists e1 g1 e2 g2,
    (_buildLinks CONFIG demo_engine zero_rng = Ok (e1, g1) /\
     Forall (fun L => exists a b,
               nodes e1 !! Fg.ai L = Some a /\ nodes e1 !! Fg.bi L = Some b /\
               Fg.d L = JS.hypot (Fg.x a - Fg.x b) (Fg.y a - Fg.y b) /\
               Fg.d L <= linkDistanceMax e1)
            (links e1)) /\
    (_buildBgLinks CONFIG demo_engine zero_rng = Ok (e2, g2) /\
     Forall (fun E => exists a b,
               bgNodes e2 !! Bg.ai E = Some a /\
               bgNodes e2 !! Bg.bi E = Some b /\
               JS.hypot (Bg.x a - Bg.x b) (Bg.y a - Bg.y b)
               <= bgLinkDistanceMax e2)
            (bgLinks e2)).
Proof.
  destruct (buildLinks_total CONFIG demo_engine zero_rng demo_nodes_small)
    as (e1 & g1 & E1).
  destruct (buildBgLinks_total CONFIG demo_engine zero_rng) as (e2 & g2 & E2).
  exists e1, g1, e2, g2. split; (split; [assumption|]).
  - apply (proj1 (edge_length_bound CONFIG demo_engine e1 zero_rng g1) E1).
  - apply (proj2 (edge_length_bound CONFIG demo_engine e2 zero_rng g2) E2).
Defined.

(** ** The simulation step: what it leaves alone *)

Lemma same_scene_refl (e : Engine) : same_scene e e.
Proof. repeat split. Qed.

Lemma same_scene_trans (e1 e2 e3 : Engine) :
  same_scene e1 e2 -> same_scene e2 e3 -> same_scene e1 e3.
Proof.
  unfold same_scene. intros H1 H2.
  destruct H1 as (?&?&?&?&?&?&?&?&?&?&?&?&?&?&?&?&?&?).
  destruct H2 as (?&?&?&?&?&?&?&?&?&?&?&?&?&?&?&?&?&?).
  repeat split; congruence.
Qed.

Lemma update_spawn_scene (cfg : Config) (now : R) (e e' : Engine) g g' :
  update_spawn cfg now e g = Ok (e', g') -> same_scene e e'.
Proof.
  unfold update_spawn. intros H.
  destruct (_ && _) in H.
  2:{ apply ret_Ok in H as [-> _]. apply same_scene_refl. }
  destruct (pool_get _ _) as [[obj st] pool] in H.
  apply bind_Ok in H as (p & g1 & _ & H).
  apply bind_Ok in H as (li & g2 & _ & H).
  destruct (negb _) in H.
  - apply bind_Ok in H as (L & g3 & _ & H).
    apply bind_Ok in H as (a & g4 & _ & H).
    apply bind_Ok in H as (b & g5 & _ & H).
    apply ret_Ok in H as [-> _]. repeat split.
  - destruct (pool_release _ _ _) in H.
    apply ret_Ok in H as [-> _]. repeat split.
Qed.

Lemma update_advance_scene (cfg : Config) (dt : R) (e e' : Engine) g g' :
  update_advance cfg dt e g = Ok (e', g') -> same_scene e e'.
Proof.
  unfold update_advance. intros H.
  apply bind_Ok in H as (s & g1 & _ & H).
  apply ret_Ok in H as [-> _]. repeat split.
Qed.

(** The nodes after [_update] are the nodes before, each passed through
    [move_node]. *)
Lemma update_nodes (cfg : Config) (dt now : R) (e e' : Engine) g g' :
  _update cfg dt now e g = Ok (e', g') ->
  exists near mid,
    PARALLAX_BANDS cfg !! 0%nat = Some near /\
    PARALLAX_BANDS cfg !! 1%nat = Some mid /\
    nodes e' = imap (move_node cfg e now near mid) (nodes e) /\
    movingFlags e' = movingFlags e /\
    width e' = width e /\ height e' = height e /\
    _loopStart e' = _loopStart e /\ _startPhase e' = _startPhase e.
Proof.
  unfold _update. intros H.
  apply bind_Ok in H as (e1 & g1 & Hm & H).
  apply bind_Ok in H as (e2 & g2 & Hs & Ha).
  apply update_spawn_scene in Hs. apply update_advance_scene in Ha.
  pose proof (same_scene_trans _ _ _ Hs Ha)
    as (Hw&Hh&_&_&Hn&_&_&_&_&_&Hf&_&_&Hl&Hp&_).
  unfold update_motion in Hm.
  apply bind_Ok in Hm as (near & g3 & Hnear & Hm).
  apply bind_Ok in Hm as (mid & g4 & Hmid & Hm).
  apply defined_Ok in Hnear as [Hnear _]. apply defined_Ok in Hmid as [Hmid _].
  apply ret_Ok in Hm as [-> _]. simpl in *.
  exists near, mid. repeat split; assumption.
Qed.

Lemma move_node_static (cfg : Config) (e : Engine) (now : R)
    (near mid : Band) (i : nat) (n : Fg.Node) :
  default false (movingFlags e !! i) = false ->
  move_node cfg e now near mid i n = n.
Proof. unfold move_node. intros ->. reflexivity. Qed.

Lemma move_node_frame (cfg : Config) (e : Engine) (now : R)
    (near mid : Band) (i : nat) (n : Fg.Node) :
  let n' := move_node cfg e now near mid i n in
  Fg.id n' = Fg.id n /\ Fg.ox n' = Fg.ox n /\ Fg.oy n' = Fg.oy n /\
  Fg.z n' = Fg.z n /\ Fg.seedPhase n' = Fg.seedPhase n.
Proof.
  unfold move_node.
  destruct (negb _); [repeat split|].
  destruct (JS.ltb _ _); repeat split.
Qed.

(** C8.  One call of [_update] keeps the number of nodes and the movement
    flags, changes no node's identity, origin [(ox, oy)], depth [z] or seed
    phase, and leaves every node whose movement flag is off exactly as it
    was, so a static node that sits on its origin stays on it. *)
Theorem update_frame (cfg : Config) (dt_ms now : R) (e e' : Engine)
    (g g' : Rng) :
  _update cfg dt_ms now e g = Ok (e', g') ->
  length (nodes e') = length (nodes e) /\
  movingFlags e' = movingFlags e /\
  forall i n, nodes e !! i = Some n ->
    exists n', nodes e' !! i = Some n' /\
      Fg.id n' = Fg.id n /\ Fg.ox n' = Fg.ox n /\ Fg.oy n' = Fg.oy n /\
      Fg.z n' = Fg.z n /\ Fg.seedPhase n' = Fg.seedPhase n /\
      (default false (movingFlags e !! i) = false ->
       Fg.x n' = Fg.x n /\ Fg.y n' = Fg.y n /\
       (Fg.x n = Fg.ox n -> Fg.y n = Fg.oy n ->
        Fg.x n' = Fg.ox n' /\ Fg.y n' = Fg.oy n')).
Proof.
  intros H.
  apply update_nodes in H as (near & mid & _ & _ & Hn & Hf & _).
  rewrite Hn. split; [apply length_imap|]. split; [exact Hf|].
  intros i n Hi.
  exists (move_node cfg e now near mid i n).
  split; [rewrite list_lookup_imap, Hi; reflexivity|].
  pose proof (move_node_frame cfg e now near mid i n) as (H1&H2&H3&H4&H5).
  repeat (split; [assumption|]).
  intros Hs. rewrite (move_node_static cfg e now near mid i n Hs).
  repeat split; assumption.
Qed.

(** ** The loop angle is periodic *)

Lemma cos_period_Z (x : R) (k : Z) : cos (x + 2 * IZR k * PI) = cos x.
Proof.
  destruct (Z_le_gt_dec 0 k) as [Hk|Hk].
  - rewrite <- (Z2Nat.id k) by exact Hk. rewrite <- INR_IZR_INZ.
    apply cos_period.
  - rewrite <- (cos_period (x + 2 * IZR k * PI) (Z.to_nat (- k))).
    f_equal. rewrite INR_IZR_INZ, Z2Nat.id by lia. rewrite opp_IZR. ring.
Qed.

Lemma sin_period_Z (x : R) (k : Z) : sin (x + 2 * IZR k * PI) = sin x.
Proof.
  destruct (Z_le_gt_dec 0 k) as [Hk|Hk].
  - rewrite <- (Z2Nat.id k) by exact Hk. rewrite <- INR_IZR_INZ.
    apply sin_period.
  - rewrite <- (sin_period (x + 2 * IZR k * PI) (Z.to_nat (- k))).
    f_equal. rewrite INR_IZR_INZ, Z2Nat.id by lia. rewrite opp_IZR. ring.
Qed.

(** Adding one period to the dividend moves [%] by a whole number of
    periods: none, or one when the dividend changes sign. *)
Lemma rem_shift (a b : R) :
  exists m : Z, JS.rem (a + b) b = JS.rem a b + b * IZR m.
Proof.
  exists (1 - JS.trunc ((a + b) / b) + JS.trunc (a / b))%Z.
  unfold JS.rem. rewrite plus_IZR, minus_IZR. ring.
Qed.

Lemma baseTheta_shift (cfg : Config) (e e' : Engine) (now : R) :
  LOOP_DURATION_MS cfg <> 0 ->
  _loopStart e = _loopStart e' -> _startPhase e = _startPhase e' ->
  exists m : Z,
    baseTheta cfg e' (now + LOOP_DURATION_MS cfg)
    = baseTheta cfg e now + 2 * IZR m * PI.
Proof.
  intros Hloop Hs Hp.
  destruct (rem_shift (now - _loopStart e) (LOOP_DURATION_MS cfg)) as [m Hm].
  exists m. unfold baseTheta, TAU. rewrite <- Hs, <- Hp.
  replace (now + LOOP_DURATION_MS cfg - _loopStart e)
    with (now - _loopStart e + LOOP_DURATION_MS cfg) by ring.
  rewrite Hm. field. exact Hloop.
Qed.

Lemma or_else_integer (c : R) :
  (exists k : Z, c = IZR k) -> exists k : Z, JS.or_else c 1 = IZR k.
Proof.
  intros [k ->]. unfold JS.or_else.
  destruct (JS.eqb (IZR k) 0); [exists 1%Z|exists k]; reflexivity.
Qed.

Lemma orbit_ext (theta theta' phi rx ry : R) (n n' : Fg.Node) :
  cos theta = cos theta' -> sin theta = sin theta' ->
  Fg.id n = Fg.id n' -> Fg.ox n = Fg.ox n' -> Fg.oy n = Fg.oy n' ->
  Fg.z n = Fg.z n' -> Fg.seedPhase n = Fg.seedPhase n' ->
  orbit theta phi rx ry n = orbit theta' phi rx ry n'.
Proof.
  intros Hc Hs Hid Hox Hoy Hz Hseed. unfold orbit.
  rewrite Hc, Hs, Hid, Hox, Hoy, Hz, Hseed. reflexivity.
Qed.

Section SeamlessLoop.
Variable cfg : Config.
Hypothesis Hloop : LOOP_DURATION_MS cfg <> 0.
Hypothesis Hnear : exists k : Z, ELLIPSE_NEAR_CYCLES cfg = IZR k.
Hypothesis Hmid : exists k : Z, ELLIPSE_MID_CYCLES cfg = IZR k.

Lemma nearTheta_period (e e' : Engine) (now : R) :
  _loopStart e = _loopStart e' -> _startPhase e = _startPhase e' ->
  cos (nearTheta cfg e' (now + LOOP_DURATION_MS cfg)) = cos (nearTheta cfg e now)
  /\ sin (nearTheta cfg e' (now + LOOP_DURATION_MS cfg))
     = sin (nearTheta cfg e now).
Proof.
  intros Hs Hp.
  destruct (baseTheta_shift cfg e e' now Hloop Hs Hp) as [m Hm].
  destruct (or_else_integer _ Hnear) as [k Hk].
  unfold nearTheta. rewrite Hm, Hk. simpl.
  replace ((baseTheta cfg e now + 2 * IZR m * PI) * IZR k * 1 + 0 * TAU)
    with (baseTheta cfg e now * IZR k * 1 + 0 * TAU + 2 * IZR (m * k) * PI)
    by (rewrite mult_IZR; ring).
  split; [apply cos_period_Z|apply sin_period_Z].
Qed.

Lemma midTheta_period (e e' : Engine) (now : R) :
  _loopStart e = _loopStart e' -> _startPhase e = _startPhase e' ->
  cos (midTheta cfg e' (now + LOOP_DURATION_MS cfg)) = cos (midTheta cfg e now)
  /\ sin (midTheta cfg e' (now + LOOP_DURATION_MS cfg))
     = sin (midTheta cfg e now).
Proof.
  intros Hs Hp.
  destruct (baseTheta_shift cfg e e' now Hloop Hs Hp) as [m Hm].
  destruct (or_else_integer _ Hmid) as [k Hk].
  unfold midTheta. rewrite Hm, Hk. simpl.
  replace ((baseTheta cfg e now + 2 * IZR m * PI) * IZR k * 1 + 0 * TAU)
    with (baseTheta cfg e now * IZR k * 1 + 0 * TAU + 2 * IZR (m * k) * PI)
    by (rewrite mult_IZR; ring).
  split; [apply cos_period_Z|apply sin_period_Z].
Qed.

Lemma move_node_period (e e' : Engine) (now : R) (near mid : Band)
    (i : nat) (n n' : Fg.Node) :
  same_orbits e e' ->
  nodes e !! i = Some n -> nodes e' !! i = Some n' ->
  move_node cfg e' (now + LOOP_DURATION_MS cfg) near mid i n'
  = move_node cfg e now near mid i n.
Proof.
  intros (Hw & Hh & Hs & Hp & Hf & _ & Hn) Hi Hi'.
  destruct (Hn i n n' Hi Hi') as (Hid & Hox & Hoy & Hz & Hseed & Hstat).
  unfold move_node. rewrite <- Hf.
  destruct (default false (movingFlags e !! i)) eqn:Hflag; simpl.
  - unfold minDim. rewrite <- Hw, <- Hh, <- Hz.
    destruct (nearTheta_period e e' now Hs Hp) as [Hc1 Hs1].
    destruct (midTheta_period e e' now Hs Hp) as [Hc2 Hs2].
    destruct (JS.ltb _ _); symmetry; apply orbit_ext; auto.
  - destruct (Hstat eq_refl) as [Hx Hy].
    destruct n, n'. simpl in *. congruence.
Qed.
End SeamlessLoop.

(** C1.  For a configuration with a non-zero loop duration whose two cycle
    counts are integers, the node positions [_update] computes at time
    [now + LOOP_DURATION_MS] are exactly those it computes at time [now]:
    from any two states [e], [e'] of the engine that agree on the viewport,
    the loop origin, the flags and the per-node constants (and on the
    resting place of static nodes), whatever positions the moving nodes
    had before the call.  So the positions are a function of the loop
    angle and of per-node constants, with period one loop. *)
Theorem seamless_loop (cfg : Config) (dt dt' now : R) (e e' r r' : Engine)
    (g g' gr gr' : Rng) :
  LOOP_DURATION_MS cfg <> 0 ->
  (exists k : Z, ELLIPSE_NEAR_CYCLES cfg = IZR k) ->
  (exists k : Z, ELLIPSE_MID_CYCLES cfg = IZR k) ->
  same_orbits e e' ->
  _update cfg dt now e g = Ok (r, gr) ->
  _update cfg dt' (now + LOOP_DURATION_MS cfg) e' g' = Ok (r', gr') ->
  nodes r' = nodes r.
Proof.
  intros Hloop Hnear Hmid Hsame H H'.
  apply update_nodes in H as (near & mid & Hb0 & Hb1 & Hn & _).
  apply update_nodes in H' as (near' & mid' & Hb0' & Hb1' & Hn' & _).
  rewrite Hb0 in Hb0'. rewrite Hb1 in Hb1'.
  inversion Hb0'; inversion Hb1'; subst near' mid'.
  rewrite Hn, Hn'. apply list_eq. intros i.
  rewrite !list_lookup_imap.
  pose proof Hsame as (_ & _ & _ & _ & _ & Hlen & _).
  destruct (nodes e !! i) as [n|] eqn:Hi;
    destruct (nodes e' !! i) as [n'|] eqn:Hi'; simpl.
  - f_equal. eapply move_node_period; eassumption.
  - apply lookup_lt_Some in Hi. apply lookup_ge_None in Hi'. lia.
  - apply lookup_lt_Some in Hi'. apply lookup_ge_None in Hi. lia.
  - reflexivity.
Qed.

(** ** Resize *)

Lemma targets_ge (cfg : Config) (e : Engine) :
  (16 <= (_getTargetCounts cfg e).1)%Z /\ (12 <= (_getTargetCounts cfg e).2)%Z.
Proof. unfold _getTargetCounts. simpl. lia. Qed.

(** The rescaling branch of [_resize], lines 381-394: taken when the
    population already has the size the new layout asks for. *)
Lemma resize_rescale (cfg : Config) (fuel : nat) (w h : R)
    (e e' : Engine) (g g' : Rng) :
  population_consistent cfg e ->
  _getTargetCounts cfg (set_size (_applyResponsiveScaling cfg e w h) w h)
  = _getTargetCounts cfg e ->
  _resize cfg fuel false w h e g = Ok (e', g') ->
  let sx := if JS.eqb (_resizePrevW e) 0 then 1 else w / _resizePrevW e in
  let sy := if JS.eqb (_resizePrevH e) 0 then 1 else h / _resizePrevH e in
  nodes e' = map (scale_node sx sy) (nodes e) /\
  bgNodes e' = map (scale_bg_node sx sy) (bgNodes e) /\
  movingFlags e' = movingFlags e /\
  exists e2 g2,
    _buildLinks cfg
      (set_population (set_size (_applyResponsiveScaling cfg e w h) w h)
         (map (scale_node sx sy) (nodes e))
         (map (scale_bg_node sx sy) (bgNodes e)) (movingFlags e)) g
    = Ok (e2, g2) /\
    _buildBgLinks cfg e2 g2 = Ok (e', g').
Proof.
  intros Hcons Hsame H sx sy.
  unfold _resize in H.
  set (e1 := set_size (_applyResponsiveScaling cfg e w h) w h) in *.
  assert (Hn1 : nodes e1 = nodes e) by reflexivity.
  assert (Hb1 : bgNodes e1 = bgNodes e) by reflexivity.
  assert (Hf1 : movingFlags e1 = movingFlags e) by reflexivity.
  pose proof (targets_ge cfg e) as [H16 H12].
  unfold population_consistent in Hcons.
  assert (Hneed : needRebuild cfg false e1 = false).
  { unfold needRebuild. rewrite Hsame, Hcons, Hn1, Hb1.
    rewrite Hcons in H16. simpl in H16.
    rewrite !Z.eqb_refl. simpl.
    destruct (Nat.eqb_spec (length (nodes e)) 0); [lia|reflexivity]. }
  rewrite Hneed, Hn1, Hb1, Hf1 in H.
  rewrite Hcons in H16. simpl in H16.
  destruct (Nat.eqb_spec (length (nodes e)) 0) as [|_]; [lia|].
  cbn [negb andb] in H. fold sx sy in H.
  apply bind_Ok in H as (e2 & g2 & Hl & Hbg).
  pose proof Hl as Hl'.
  apply buildLinks_Ok in Hl' as (lks & g3 & _ & Hn2 & Hf2 & _).
  pose proof Hbg as Hbg'.
  apply buildBgLinks_Ok in Hbg' as (edges & g4 & _ & ->).
  cbn [nodes bgNodes movingFlags set_bgLinks]. rewrite Hn2, Hf2.
  cbn [nodes movingFlags set_population].
  split; [reflexivity|]. split.
  - unfold _buildLinks in Hl.
    apply bind_Ok in Hl as (l0 & g5 & _ & Hl).
    apply ret_Ok in Hl as [-> _]. reflexivity.
  - split; [reflexivity|]. exists e2, g2. split; assumption.
Qed.

(** ** Counting loops *)

Lemma foldM_seq_inv {St : Type} (f : St -> nat -> M St) (P : nat -> St -> Prop)
    (len : nat) :
  forall lo s g s' g',
  (forall i s g s' g', (lo <= i < lo + len)%nat ->
     P i s -> f s i g = Ok (s', g') -> P (S i) s') ->
  P lo s -> foldM f (seq lo len) s g = Ok (s', g') -> P (lo + len)%nat s'.
Proof.
  induction len as [|len IH]; intros lo s g s' g' Hstep Hs H; simpl in H.
  - apply ret_Ok in H as [-> _]. rewrite Nat.add_0_r. exact Hs.
  - apply bind_Ok in H as (s1 & g1 & H1 & H).
    replace (lo + S len)%nat with (S lo + len)%nat by lia.
    eapply IH; [| |exact H].
    + intros i s0 g0 s0' g0' Hi. apply Hstep. lia.
    + eapply Hstep; [|exact Hs|exact H1]. lia.
Qed.

Lemma foldM_seq_total {St : Type} (f : St -> nat -> M St) (P : nat -> St -> Prop)
    (len : nat) :
  forall lo s g,
  (forall i s g, (lo <= i < lo + len)%nat -> P i s ->
     exists s' g', f s i g = Ok (s', g') /\ P (S i) s') ->
  P lo s ->
  exists s' g', foldM f (seq lo len) s g = Ok (s', g') /\ P (lo + len)%nat s'.
Proof.
  induction len as [|len IH]; intros lo s g Hstep Hs; simpl.
  - exists s, g. rewrite Nat.add_0_r. split; [reflexivity|exact Hs].
  - destruct (Hstep lo s g) as (s1 & g1 & E & Hs1); [lia|exact Hs|].
    rewrite (bind_eq _ _ _ _ _ E).
    replace (lo + S len)%nat with (S lo + len)%nat by lia.
    apply IH; [|exact Hs1].
    intros i s0 g0 Hi. apply Hstep. lia.
Qed.

(** ** The pulse cap: what each operation does to the counters *)

Lemma same_pulses_refl (e : Engine) : same_pulses e e.
Proof. repeat split. Qed.

Lemma same_pulses_trans (e1 e2 e3 : Engine) :
  same_pulses e1 e2 -> same_pulses e2 e3 -> same_pulses e1 e3.
Proof.
  unfold same_pulses. intros (?&?&?&?&?) (?&?&?&?&?).
  repeat split; congruence.
Qed.


Lemma advance_step_cursor (tInc : R) (s s' : AdvSt) (i : nat) g g' :
  advance_step tInc s i g = Ok (s', g') -> (a_j s' <= S (a_j s))%nat.
Proof.
  unfold advance_step. intros H.
  apply bind_Ok in H as (addr & g1 & _ & H).
  apply bind_Ok in H as (p & g2 & _ & H).
  destruct (negb _) in H.
  { apply ret_Ok in H as [-> _]. lia. }
  destruct (JS.leb _ _) in H.
  - destruct (pool_release _ _ _) in H.
    apply ret_Ok in H as [-> _]. simpl. lia.
  - apply ret_Ok in H as [-> _]. simpl. lia.
Qed.

Lemma update_advance_count (cfg : Config) (dt : R) (e e' : Engine) g g' :
  update_advance cfg dt e g = Ok (e', g') ->
  (pulsesLen e' <= pulsesLen e)%nat.
Proof.
  unfold update_advance. intros H.
  apply bind_Ok in H as (s & g1 & Hf & H).
  apply ret_Ok in H as [-> _]. simpl.
  apply (foldM_seq_inv _ (fun i s => (a_j s <= i)%nat)) in Hf.
  - exact Hf.
  - intros i s0 g0 s0' g0' _ Hi Hs.
    apply advance_step_cursor in Hs. lia.
  - simpl. lia.
Qed.


Lemma buildLinks_pulses (cfg : Config) (e e' : Engine) g g' :
  _buildLinks cfg e g = Ok (e', g') ->
  same_pulses e e' /\ pulseMaxActive e' = pulseMaxActive e /\
  width e' = width e /\ height e' = height e /\
  nodeMax e' = nodeMax e /\ bgNodeMax e' = bgNodeMax e /\
  bgNodes e' = bgNodes e.
Proof.
  unfold _buildLinks. intros H.
  apply bind_Ok in H as (lks & g1 & _ & H).
  apply ret_Ok in H as [-> _]. repeat split.
Qed.

Lemma setupNodesEven_Ok (cfg : Config) (fuel : nat) (e e' : Engine) g g' :
  _setupNodesEven cfg fuel e g = Ok (e', g') ->
  exists nds bgs flags,
    e' = set_population e nds bgs flags /\
    length nds = Z.to_nat (_getTargetCounts cfg e).1 /\
    length bgs = Z.to_nat (_getTargetCounts cfg e).2 /\
    length flags = length nds.
Proof.
  unfold _setupNodesEven. intros H.
  destruct (_getTargetCounts cfg e) as [nodeCount bgCount]. simpl.
  apply bind_Ok in H as (pts & g1 & _ & H).
  apply bind_Ok in H as (tt1 & g1' & _ & H).
  apply bind_Ok in H as (fg & g2 & Hfg & H).
  apply bind_Ok in H as (bgPts & g3 & _ & H).
  apply bind_Ok in H as (tt2 & g3' & _ & H).
  apply bind_Ok in H as (bgs & g4 & Hbg & H).
  apply ret_Ok in H as [-> _].
  exists fg.1, bgs, fg.2. split; [reflexivity|].
  apply (foldM_seq_inv _ (fun i acc =>
           length acc.1 = i /\ length acc.2 = i)) in Hfg.
  - apply (foldM_seq_inv _ (fun i acc => length acc = i)) in Hbg.
    + simpl in Hfg, Hbg. destruct Hfg as [H1 H2].
      repeat split; congruence.
    + intros i acc g0 acc' g0' _ Hi Hs. unfold setup_bg_node in Hs.
      apply bind_Ok in Hs as (b0 & g5 & _ & Hs).
      apply bind_Ok in Hs as (u1 & g6 & _ & Hs).
      apply bind_Ok in Hs as (u2 & g7 & _ & Hs).
      apply bind_Ok in Hs as (u3 & g8 & _ & Hs).
      apply ret_Ok in Hs as [-> _]. rewrite length_app. simpl. lia.
    + reflexivity.
  - intros i acc g0 acc' g0' _ [Hi1 Hi2] Hs. unfold setup_node in Hs.
    apply bind_Ok in Hs as (b0 & g5 & _ & Hs).
    apply bind_Ok in Hs as (u1 & g6 & _ & Hs).
    apply bind_Ok in Hs as (u2 & g7 & _ & Hs).
    apply bind_Ok in Hs as (z0 & g8 & _ & Hs).
    apply bind_Ok in Hs as (sd & g9 & _ & Hs).
    apply bind_Ok in Hs as (b & g10 & _ & Hs).
    apply ret_Ok in Hs as [-> _]. simpl. rewrite !length_app. simpl. lia.
  - split; reflexivity.
Qed.

(** A resize never touches the pulses, and sets the pulse cap of the new
    viewport. *)
Lemma resize_pulses (cfg : Config) (fuel : nat) (first : bool) (w h : R)
    (e e' : Engine) g g' :
  _resize cfg fuel first w h e g = Ok (e', g') ->
  same_pulses e e' /\ pulseMaxActive e' = scaled_pulse_cap cfg w h /\
  width e' = w /\ height e' = h.
Proof.
  unfold _resize. intros H.
  set (e1 := set_size (_applyResponsiveScaling cfg e w h) w h) in *.
  assert (H1 : same_pulses e e1 /\ pulseMaxActive e1 = scaled_pulse_cap cfg w h
               /\ width e1 = w /\ height e1 = h) by (repeat split).
  destruct H1 as (Hp1 & Hc1 & Hw1 & Hh1).
  destruct (_ && _) in H; [|destruct (negb first) in H].
  - apply bind_Ok in H as (e3 & g3 & Hl & Hb).
    apply buildLinks_pulses in Hl as (Hp & Hc & Hw & Hh & _).
    apply buildBgLinks_Ok in Hb as (edges & g4 & _ & ->).
    simpl in *. repeat split; try apply Hp; assumption.
  - apply bind_Ok in H as (e2 & g2 & Hs & H).
    apply bind_Ok in H as (e3 & g3 & Hl & Hb).
    apply setupNodesEven_Ok in Hs as (nds & bgs & flags & -> & _).
    apply buildLinks_pulses in Hl as (Hp & Hc & Hw & Hh & _).
    apply buildBgLinks_Ok in Hb as (edges & g4 & _ & ->).
    simpl in *. repeat split; try apply Hp; assumption.
  - apply ret_Ok in H as [-> _]. repeat split.
Qed.

Lemma clamp_range (v a b : R) : a <= b -> a <= JS.clamp v a b <= b.
Proof.
  intros Hab. unfold JS.clamp.
  destruct (JS.ltb v a) eqn:E1; [lra|].
  destruct (JS.ltb b v) eqn:E2; [lra|].
  apply ltb_false in E1, E2. lra.
Qed.


(** ** What the constructor establishes *)

Lemma targets_ext (cfg : Config) (e e' : Engine) :
  width e' = width e -> height e' = height e ->
  nodeMax e' = nodeMax e -> bgNodeMax e' = bgNodeMax e ->
  _getTargetCounts cfg e' = _getTargetCounts cfg e.
Proof.
  intros Hw Hh Hn Hb. unfold _getTargetCounts. rewrite Hw, Hh, Hn, Hb.
  reflexivity.
Qed.

Lemma setup_build_consistent (cfg : Config) (fuel : nat)
    (e e2 e3 e' : Engine) g g2 g3 g' :
  _setupNodesEven cfg fuel e g = Ok (e2, g2) ->
  _buildLinks cfg e2 g2 = Ok (e3, g3) ->
  _buildBgLinks cfg e3 g3 = Ok (e', g') ->
  same_pulses e e' /\ pulseMaxActive e' = pulseMaxActive e /\
  width e' = width e /\ height e' = height e /\
  population_consistent cfg e' /\
  Forall (link_ok (nodes e') (linkDistanceMax e')) (links e') /\
  dynamicLinks e' =
    filter (fun idx => is_dynamic (links e') (movingFlags e') idx = true)
           (seq 0 (length (links e'))).
Proof.
  intros Hs Hl Hb.
  apply setupNodesEven_Ok in Hs as (nds & bgs & flags & -> & Hn & Hbn & _).
  pose proof (targets_ge cfg e) as [H16 H12].
  pose proof (buildLinks_pulses _ _ _ _ _ Hl)
    as (Hp & Hc & Hw & Hh & Hnm & Hbm & Hbg).
  apply buildLinks_Ok in Hl
    as (lks & g4 & Hbl & Hn3 & Hf3 & Hm3 & Hl3 & Hd3 & _).
  apply buildBgLinks_Ok in Hb as (edges & g5 & _ & ->).
  apply build_links_edges in Hbl as [Hok _].
  assert (Htc : _getTargetCounts cfg (set_bgLinks e3 edges)
                = _getTargetCounts cfg e) by (apply targets_ext; assumption).
  destruct (_getTargetCounts cfg e) as [c1 c2] eqn:Htc0.
  cbn [fst snd] in Hn, Hbn, H16, H12.
  split; [exact Hp|]. split; [exact Hc|].
  split; [exact Hw|]. split; [exact Hh|]. split; [|split].
  - unfold population_consistent. rewrite Htc.
    change (nodes (set_bgLinks e3 edges)) with (nodes e3).
    change (bgNodes (set_bgLinks e3 edges)) with (bgNodes e3).
    rewrite Hn3, Hbg.
    change (nodes (set_population e nds bgs flags)) with nds.
    change (bgNodes (set_population e nds bgs flags)) with bgs.
    rewrite Hn, Hbn. f_equal; lia.
  - change (links (set_bgLinks e3 edges)) with (links e3).
    change (nodes (set_bgLinks e3 edges)) with (nodes e3).
    change (linkDistanceMax (set_bgLinks e3 edges)) with (linkDistanceMax e3).
    rewrite Hl3, Hn3, Hm3. exact Hok.
  - change (dynamicLinks (set_bgLinks e3 edges)) with (dynamicLinks e3).
    change (links (set_bgLinks e3 edges)) with (links e3).
    change (movingFlags (set_bgLinks e3 edges)) with (movingFlags e3).
    rewrite Hd3, Hl3, Hf3. reflexivity.
Qed.

Lemma resize_layout (cfg : Config) (fuel : nat) (first : bool) (w h : R)
    (e e' : Engine) g g' :
  _resize cfg fuel first w h e g = Ok (e', g') ->
  nodeMax e' = scaled_node_max cfg w h.
Proof.
  unfold _resize. intros H.
  set (e1 := set_size (_applyResponsiveScaling cfg e w h) w h) in *.
  assert (H1 : nodeMax e1 = scaled_node_max cfg w h) by reflexivity.
  destruct (_ && _) in H; [|destruct (negb first) in H].
  - apply bind_Ok in H as (e3 & g3 & Hl & Hb).
    apply buildLinks_pulses in Hl as (_ & _ & _ & _ & Hm & _).
    apply buildBgLinks_Ok in Hb as (edges & g4 & _ & ->).
    cbn [nodeMax set_bgLinks]. rewrite Hm. exact H1.
  - apply bind_Ok in H as (e2 & g2 & Hs & H).
    apply bind_Ok in H as (e3 & g3 & Hl & Hb).
    apply setupNodesEven_Ok in Hs as (nds & bgs & flags & -> & _).
    apply buildLinks_pulses in Hl as (_ & _ & _ & _ & Hm & _).
    apply buildBgLinks_Ok in Hb as (edges & g4 & _ & ->).
    cbn [nodeMax set_bgLinks]. rewrite Hm. exact H1.
  - apply ret_Ok in H as [-> _]. exact H1.
Qed.

(** What a run of [_buildLinks] and [_buildBgLinks] leaves. *)
Lemma build_scene (cfg : Config) (e e3 e' : Engine) g g3 g' :
  _buildLinks cfg e g = Ok (e3, g3) ->
  _buildBgLinks cfg e3 g3 = Ok (e', g') ->
  nodes e' = nodes e /\ nodeMax e' = nodeMax e /\
  Forall (link_ok (nodes e') (linkDistanceMax e')) (links e') /\
  NoDup (map link_key (links e')) /\
  dynamicLinks e' =
    filter (fun idx => is_dynamic (links e') (movingFlags e') idx = true)
           (seq 0 (length (links e'))).
Proof.
  intros Hl Hb.
  pose proof (buildLinks_pulses _ _ _ _ _ Hl) as (_ & _ & _ & _ & Hnm & _).
  apply buildLinks_Ok in Hl
    as (lks & g4 & Hbl & Hn3 & Hf3 & Hm3 & Hl3 & Hd3 & _).
  apply buildBgLinks_Ok in Hb as (edges & g5 & _ & ->).
  apply build_links_edges in Hbl as [Hok Hnd].
  change (nodes (set_bgLinks e3 edges)) with (nodes e3).
  change (nodeMax (set_bgLinks e3 edges)) with (nodeMax e3).
  change (links (set_bgLinks e3 edges)) with (links e3).
  change (linkDistanceMax (set_bgLinks e3 edges)) with (linkDistanceMax e3).
  change (dynamicLinks (set_bgLinks e3 edges)) with (dynamicLinks e3).
  change (movingFlags (set_bgLinks e3 edges)) with (movingFlags e3).
  rewrite Hn3, Hl3, Hm3, Hd3, Hf3.
  split; [reflexivity|]. split; [exact Hnm|]. split; [exact Hok|].
  split; [exact Hnd|reflexivity].
Qed.

Lemma setup_build_layout (cfg : Config) (fuel : nat)
    (e e2 e3 e' : Engine) g g2 g3 g' :
  _setupNodesEven cfg fuel e g = Ok (e2, g2) ->
  _buildLinks cfg e2 g2 = Ok (e3, g3) ->
  _buildBgLinks cfg e3 g3 = Ok (e', g') ->
  nodeMax e' = nodeMax e /\ NoDup (map link_key (links e')).
Proof.
  intros Hs Hl Hb.
  apply setupNodesEven_Ok in Hs as (nds & bgs & flags & -> & _).
  destruct (build_scene _ _ _ _ _ _ _ Hl Hb) as (_ & Hm & _ & Hnd & _).
  split; [rewrite Hm; reflexivity|exact Hnd].
Qed.

Lemma init_simulation_Ok (cfg : Config) (now0 : R) (e e' : Engine) g g' :
  init_simulation cfg now0 e g = Ok (e', g') ->
  (Z.of_nat (PULSE_POOL_SIZE cfg) < 2 ^ 32)%Z /\ g' = g /\
  e' = mkEngine (width e) (height e) (_resizePrevW e) (_resizePrevH e)
         (nodes e) (bgNodes e) (links e) (dynamicLinks e) (staticLinks e)
         (bgLinks e) (movingFlags e)
         (nodeMax e) (bgNodeMax e) (linkDistanceMax e) (bgLinkDistanceMax e)
         (pulseMaxActive e)
         (pool_of (PULSE_POOL_SIZE cfg)).1 (pool_of (PULSE_POOL_SIZE cfg)).2
         (replicate (PULSE_POOL_SIZE cfg) None) 0 0 0 0 0 0
         now0 (JS.or_default INITIAL_GLOBAL_PHASE_TURNS 0 * PI * 2).
Proof.
  unfold init_simulation, pool_new. intros H.
  apply bind_Ok in H as (sp & g1 & Hsp & H).
  apply bind_Ok in Hsp as (u1 & g2 & Hfit & Hsp).
  apply array_length_Ok in Hfit as [Hfit ->].
  apply ret_Ok in Hsp as [-> ->].
  apply bind_Ok in H as (u2 & g3 & Hfit2 & H).
  apply array_length_Ok in Hfit2 as [_ ->].
  apply ret_Ok in H as [-> ->].
  split; [lia|]. split; reflexivity.
Qed.

Lemma init_simulation_fits (cfg : Config) (now0 : R) (e : Engine) g :
  (Z.of_nat (PULSE_POOL_SIZE cfg) < 2 ^ 32)%Z ->
  exists e', init_simulation cfg now0 e g = Ok (e', g) /\
    width e' = width e /\ height e' = height e /\
    nodeMax e' = nodeMax e /\ bgNodeMax e' = bgNodeMax e.
Proof.
  intros Hfit. unfold init_simulation, pool_new.
  assert (Hlen : array_length (Z.of_nat (PULSE_POOL_SIZE cfg)) g = Ok (tt, g))
    by (apply array_length_fits; lia).
  eexists. split.
  - rewrite bind_assoc, (bind_eq _ _ _ _ _ Hlen), bind_ret.
    rewrite (bind_eq _ _ _ _ _ Hlen). reflexivity.
  - repeat split; reflexivity.
Qed.

Lemma constructor_constructed (cfg : Config) (fuel : nat) (w h now0 : R)
    (e : Engine) g g' :
  constructor cfg fuel w h now0 g = Ok (e, g') -> constructed cfg e.
Proof.
  unfold constructor. intros H.
  apply bind_Ok in H as (e1 & g1 & Hr & H).
  apply bind_Ok in H as (e2 & g1' & Hinit & H).
  apply init_simulation_Ok in Hinit as (_ & -> & ->).
  apply bind_Ok in H as (u & g2 & _ & H).
  apply bind_Ok in H as (e3 & g3 & Hs & H).
  apply bind_Ok in H as (e4 & g4 & Hl & Hb).
  pose proof (resize_layout _ _ _ _ _ _ _ _ _ Hr) as Hm1.
  apply resize_pulses in Hr as (_ & Hc1 & Hw1 & Hh1).
  pose proof (setup_build_layout _ _ _ _ _ _ _ _ _ _ Hs Hl Hb) as [Hm Hnd].
  destruct (setup_build_consistent _ _ _ _ _ _ _ _ _ _ Hs Hl Hb)
    as ((Hst & Hpool & Hps & Hlen & Hlast) & Hc & Hw & Hh & Hpop & Hok & Hdyn).
  simpl in *.
  unfold constructed.
  split; [exact Hlen|]. split; [rewrite Hst, Hpool; reflexivity|].
  split; [exact Hps|]. split; [exact Hlast|].
  split; [rewrite Hc, Hw, Hh, Hc1, Hw1, Hh1; reflexivity|].
  split; [exact Hpop|]. split; [exact Hok|]. split; [exact Hdyn|].
  split; [exact Hnd|]. rewrite Hm, Hw, Hh, Hm1, Hw1, Hh1. reflexivity.
Qed.

(** ** The pulse cap along an execution *)



(** ** Arrays and the pool *)

Lemma array_set_take_le {A : Type} (l : list (option A)) (i k : nat)
    (v : option A) :
  (k <= i)%nat -> (i <= length l)%nat ->
  take k (JS.array_set l i v) = take k l.
Proof.
  intros Hk Hi. unfold JS.array_set.
  destruct (Nat.ltb_spec i (length l)).
  - apply take_insert_ge. exact Hk.
  - apply take_app_le. lia.
Qed.

Lemma array_set_take_snoc {A : Type} (l : list (option A)) (i : nat)
    (v : option A) :
  (i <= length l)%nat ->
  take (S i) (JS.array_set l i v) = take i l ++ [v].
Proof.
  intros Hi. unfold JS.array_set.
  destruct (Nat.ltb_spec i (length l)) as [Hlt|Hge].
  - rewrite (take_S_r _ _ v) by (apply list_lookup_insert_eq; exact Hlt).
    rewrite take_insert_ge by lia. reflexivity.
  - assert (i = length l) as -> by lia.
    rewrite Nat.sub_diag. simpl.
    rewrite take_app_ge by lia.
    replace (S (length l) - length l)%nat with 1%nat by lia.
    rewrite firstn_all. reflexivity.
Qed.

Lemma array_set_lookup_gt {A : Type} (l : list (option A)) (i k : nat)
    (v : option A) :
  (i < k)%nat -> (i < length l)%nat ->
  JS.array_set l i v !! k = l !! k.
Proof.
  intros Hk Hi. unfold JS.array_set.
  destruct (Nat.ltb_spec i (length l)); [|lia].
  apply list_lookup_insert_ne. lia.
Qed.

Lemma array_set_length_in {A : Type} (l : list (option A)) (i : nat)
    (v : option A) :
  (i < length l)%nat -> length (JS.array_set l i v) = length l.
Proof.
  intros Hi. unfold JS.array_set.
  destruct (Nat.ltb_spec i (length l)); [|lia]. apply length_insert.
Qed.

Lemma take_fmap_length {A : Type} (l : list (option A)) (n : nat)
    (k : list A) :
  take n l = Some <$> k -> length k = n -> (n <= length l)%nat.
Proof.
  intros H Hk. apply (f_equal length) in H.
  rewrite length_take, length_fmap in H. lia.
Qed.

Lemma take_fmap_lookup {A : Type} (l : list (option A)) (n i : nat)
    (k : list A) (a : A) :
  take n l = Some <$> k -> k !! i = Some a -> l !! i = Some (Some a).
Proof.
  intros H Hi.
  assert (Hlt : (i < n)%nat).
  { apply lookup_lt_Some in Hi. apply (f_equal length) in H.
    rewrite length_take, length_fmap in H. lia. }
  rewrite <- (lookup_take_lt l n i) by exact Hlt.
  rewrite H, list_lookup_fmap, Hi. reflexivity.
Qed.

(** [get()] hands out an address that is neither live nor left in the
    pool; an empty pool makes the store one object longer. *)
Lemma pool_get_spec (st : list Pulse) (P : list (option nat)) (len : nat)
    (L F : list nat) :
  take len P = Some <$> F -> length F = len ->
  NoDup (L ++ F) ->
  (forall a, a ∈ L ++ F -> (a < length st)%nat) ->
  exists a st' P' F',
    pool_get st (mkPool P len) = (Some a, st', mkPool P' (length F')) /\
    take (length F') P' = Some <$> F' /\
    NoDup ((L ++ [a]) ++ F') /\
    (forall b, b ∈ (L ++ [a]) ++ F' -> (b < length st')%nat) /\
    ((len = 0%nat /\ st' = st ++ [fresh_pulse] /\ a = length st /\ F' = F) \/
     ((0 < len)%nat /\ st' = st /\ F = F' ++ [a])).
Proof.
  intros Htake Hlen Hnd Hin. unfold pool_get. simpl.
  destruct (Nat.ltb_spec 0 len) as [Hpos|Hz].
  - destruct (exists_last (l := F)) as (F' & a & ->).
    { intros ->. simpl in Hlen. lia. }
    rewrite length_app in Hlen. simpl in Hlen.
    assert (Hl : (len - 1)%nat = length F') by lia.
    assert (Hget : P !! (len - 1)%nat = Some (Some a)).
    { eapply take_fmap_lookup; [exact Htake|].
      rewrite Hl. apply list_lookup_middle. reflexivity. }
    pose proof (lookup_lt_Some _ _ _ Hget) as HP.
    exists a, st, (JS.array_set P (len - 1) None), F'.
    rewrite Hget. simpl. rewrite Hl. split; [reflexivity|].
    split.
    { rewrite array_set_take_le by lia.
      rewrite <- Hl.
      replace (take (len - 1) P) with (take (len - 1) (take len P))
        by (rewrite take_take; f_equal; lia).
      rewrite Htake, fmap_app, Hl.
      rewrite take_app_length' by (rewrite length_fmap; reflexivity).
      reflexivity. }
    split.
    { eapply NoDup_Permutation_proper; [|exact Hnd].
      rewrite <- !app_assoc. apply Permutation_app_head.
      apply Permutation_app_comm. }
    split.
    { intros b Hb. apply Hin.
      rewrite !elem_of_app in *. rewrite list_elem_of_singleton in *. tauto. }
    right. split; [lia|]. split; reflexivity.
  - assert (len = 0%nat) as -> by lia.
    destruct F; [|discriminate].
    exists (length st), (st ++ [fresh_pulse]), P, []. simpl.
    split; [reflexivity|]. split; [reflexivity|].
    rewrite !app_nil_r in *. split.
    { apply NoDup_app. split; [exact Hnd|]. split; [|apply NoDup_singleton].
      intros b Hb Hb'. apply list_elem_of_singleton in Hb'. subst b.
      apply Hin in Hb. lia. }
    split.
    { intros b Hb. rewrite length_app. simpl.
      apply elem_of_app in Hb as [Hb|Hb].
      - apply Hin in Hb. lia.
      - apply list_elem_of_singleton in Hb. lia. }
    left. repeat split.
Qed.

(** ** Spawning *)

Lemma scene_no_links (cfg : Config) (e : Engine) :
  scene_ok cfg e -> links e = [] -> dynamicLinks e = [].
Proof.
  intros (_ & _ & _ & Hdyn & _) Hl.
  destruct (dynamicLinks e) as [|i l] eqn:E; [reflexivity|].
  specialize (Hdyn i). rewrite Hl in Hdyn. simpl in Hdyn.
  assert (i ∈ i :: l) by (left). specialize (Hdyn H). lia.
Qed.

Lemma pick_link_spec (cfg : Config) (e : Engine) (g : Rng) :
  scene_ok cfg e -> links e <> [] ->
  exists li g' Lk,
    pick_link e g = Ok (Z.of_nat li, g') /\ links e !! li = Some Lk.
Proof.
  intros (_ & Hl & Hd & Hdyn & _) Hne. unfold pick_link.
  destruct (Nat.ltb_spec 0 (length (dynamicLinks e))) as [Hpos|Hz].
  - rewrite bind_random. set (u := g 0%nat).
    pose proof (random_index u _ Hpos Hd) as Hidx.
    set (idx := JS.to_int32 (u * INR (length (dynamicLinks e)))) in *.
    destruct (lookup_lt_is_Some_2 (dynamicLinks e) (Z.to_nat idx)) as [i Hi];
      [lia|].
    rewrite (bind_defined _ i) by (rewrite nth_Z_nat by lia; exact Hi).
    assert (Hin : i ∈ dynamicLinks e) by (apply list_elem_of_lookup; eauto).
    destruct (lookup_lt_is_Some_2 (links e) i (Hdyn i Hin)) as [Lk HLk].
    exists i, (fun n => g (S n)), Lk. split; [reflexivity|exact HLk].
  - assert (Hpos : (0 < length (links e))%nat).
    { destruct (links e); [contradiction|simpl; lia]. }
    destruct (Nat.ltb_spec 0 (length (links e))); [|lia].
    rewrite bind_random. set (u := g 0%nat).
    pose proof (random_index u _ Hpos Hl) as Hidx.
    set (idx := JS.to_int32 (u * INR (length (links e)))) in *.
    destruct (lookup_lt_is_Some_2 (links e) (Z.to_nat idx)) as [Lk HLk];
      [lia|].
    exists (Z.to_nat idx), (fun n => g (S n)), Lk.
    rewrite Z2Nat.id by lia. split; [reflexivity|exact HLk].
Qed.

Lemma Forall_dist_fresh (st : list Pulse) :
  Forall (fun p => 1 <= dist p) st ->
  Forall (fun p => 1 <= dist p) (st ++ [fresh_pulse]).
Proof.
  intros H. apply Forall_app. split; [exact H|].
  constructor; [simpl; lra|constructor].
Qed.

(** A due spawn with a link to ride starts a pulse: the scheduler takes an
    address [a] from the pool, or creates the object when the pool is
    empty, and appends it to the live pulses. *)
Lemma spawn_fire (cfg : Config) (now : R) (e : Engine) (L F : list nat) g :
  pulse_state e L F -> scene_ok cfg e ->
  JS.leb (PULSE_SPAWN_EVERY_MS cfg) (now - _lastPulseSpawn e)
  && JS.ltb (INR (pulsesLen e)) (pulseMaxActive e) = true ->
  links e <> [] ->
  exists e' g' a F' li Lk na nb,
    update_spawn cfg now e g = Ok (e', g') /\
    same_scene e e' /\
    pulse_state e' (L ++ [a]) F' /\
    (forall b, b ∈ L -> store e' !! b = store e !! b) /\
    links e !! li = Some Lk /\
    nodes e !! Fg.ai Lk = Some na /\ nodes e !! Fg.bi Lk = Some nb /\
    store e' !! a
    = Some (mkPulse (Z.of_nat li) 0 true
              (Rmax 1 (JS.hypot (Fg.x nb - Fg.x na) (Fg.y nb - Fg.y na)))) /\
    _lastPulseSpawn e' = now /\
    ((_len (pulsePool e) = 0%nat /\ a = length (store e) /\
      length (store e') = S (length (store e)) /\ F' = F) \/
     ((0 < _len (pulsePool e))%nat /\ length (store e') = length (store e) /\
      F = F' ++ [a])).
Proof.
  intros (Hlive & HlenL & Hfree & HlenF & Hnd & Hin & Hact & Hdist)
         Hscene Hdue Hlinks.
  unfold update_spawn. rewrite Hdue.
  destruct (pulsePool e) as [P len] eqn:Epool. simpl in Hfree, HlenF.
  destruct (pool_get_spec (store e) P len L F Hfree HlenF Hnd Hin)
    as (a & st' & P' & F' & Hget & Hfree' & Hnd' & Hin' & Hcase).
  rewrite Hget.
  destruct (pick_link_spec cfg e g Hscene Hlinks) as (li & g1 & Lk & Hpick & HLk).
  cbv beta iota zeta.
  rewrite (bind_defined _ a) by reflexivity.
  rewrite (bind_eq _ _ _ _ _ Hpick).
  destruct (Z.eqb_spec (Z.of_nat li) (-1)) as [|_]; [lia|]. simpl.
  rewrite (bind_defined _ Lk) by (rewrite nth_Z_nat by lia;
                                   rewrite Nat2Z.id; exact HLk).
  pose proof Hscene as (_ & _ & _ & _ & Hends).
  destruct (Hends Lk) as [Ha Hb]; [apply list_elem_of_lookup; eauto|].
  destruct (lookup_lt_is_Some_2 _ _ Ha) as [na Hna].
  destruct (lookup_lt_is_Some_2 _ _ Hb) as [nb Hnb].
  rewrite (bind_defined _ na) by exact Hna.
  rewrite (bind_defined _ nb) by exact Hnb.
  set (new := mkPulse (Z.of_nat li) 0 true
                (Rmax 1 (JS.hypot (Fg.x nb - Fg.x na) (Fg.y nb - Fg.y na)))).
  assert (Ha' : (a < length st')%nat).
  { apply Hin'. rewrite !elem_of_app, list_elem_of_singleton. tauto. }
  assert (HaL : a ∉ L).
  { intros HaL. rewrite <- app_assoc in Hnd'.
    apply NoDup_app in Hnd' as (_ & Hdisj & _).
    apply (Hdisj a HaL). rewrite elem_of_app, list_elem_of_singleton. tauto. }
  assert (Hst : forall b, (b < length (store e))%nat -> st' !! b = store e !! b).
  { intros b Hb'. destruct Hcase as [(_ & -> & _)|(_ & -> & _)];
      [apply lookup_app_l; exact Hb'|reflexivity]. }
  assert (HL : forall b, b ∈ L -> <[a := new]> st' !! b = store e !! b).
  { intros b HbL. rewrite list_lookup_insert_ne by (intros ->; contradiction).
    apply Hst, Hin. rewrite elem_of_app. tauto. }
  pose proof (take_fmap_length _ _ _ Hlive HlenL) as Hcap.
  eexists _, g1, a, F', li, Lk, na, nb.
  split; [reflexivity|]. split; [repeat split|].
  split; [|split; [exact HL|]].
  - unfold pulse_state. simpl.
    split; [rewrite array_set_take_snoc by exact Hcap;
            rewrite Hlive, fmap_app; reflexivity|].
    split; [rewrite length_app; simpl; lia|].
    split; [exact Hfree'|]. split; [reflexivity|].
    split; [exact Hnd'|].
    split; [intros b Hb'; rewrite length_insert; apply Hin'; exact Hb'|].
    split.
    + intros b Hb'. apply elem_of_app in Hb' as [Hb'|Hb'].
      * rewrite (HL b Hb'). apply Hact. exact Hb'.
      * apply list_elem_of_singleton in Hb'. subst b.
        exists new. split; [apply list_lookup_insert_eq; exact Ha'|].
        split; [reflexivity|simpl; lra].
    + apply Forall_insert.
      * destruct Hcase as [(_ & -> & _)|(_ & -> & _)];
          [apply Forall_dist_fresh|]; exact Hdist.
      * simpl. apply Rmax_l.
  - split; [exact HLk|]. split; [exact Hna|]. split; [exact Hnb|].
    split; [simpl; apply list_lookup_insert_eq; exact Ha'|].
    split; [reflexivity|].
    simpl. rewrite length_insert.
    destruct Hcase as [(Hz & -> & -> & ->)|(Hpos & -> & ->)].
    + left. rewrite length_app. simpl. repeat split; lia.
    + right. repeat split. exact Hpos.
Qed.

(** A due spawn without any link puts the object straight back. *)
Lemma spawn_nolinks (cfg : Config) (now : R) (e : Engine) (L F : list nat) g :
  pulse_state e L F -> scene_ok cfg e ->
  JS.leb (PULSE_SPAWN_EVERY_MS cfg) (now - _lastPulseSpawn e)
  && JS.ltb (INR (pulsesLen e)) (pulseMaxActive e) = true ->
  links e = [] ->
  exists e' F',
    update_spawn cfg now e g = Ok (e', g) /\
    same_scene e e' /\ pulse_state e' L F' /\
    (forall b, b ∈ L -> store e' !! b = store e !! b).
Proof.
  intros (Hlive & HlenL & Hfree & HlenF & Hnd & Hin & Hact & Hdist)
         Hscene Hdue Hlinks.
  unfold update_spawn. rewrite Hdue.
  destruct (pulsePool e) as [P len] eqn:Epool. simpl in Hfree, HlenF.
  destruct (pool_get_spec (store e) P len L F Hfree HlenF Hnd Hin)
    as (a & st' & P' & F' & Hget & Hfree' & Hnd' & Hin' & Hcase).
  rewrite Hget. cbv beta iota zeta.
  rewrite (bind_defined _ a) by reflexivity.
  unfold pick_link. rewrite (scene_no_links cfg e Hscene Hlinks), Hlinks.
  simpl. rewrite bind_ret. simpl.
  assert (Ha' : (a < length st')%nat).
  { apply Hin'. rewrite !elem_of_app, list_elem_of_singleton. tauto. }
  assert (HaL : a ∉ L).
  { intros HaL. rewrite <- app_assoc in Hnd'.
    apply NoDup_app in Hnd' as (_ & Hdisj & _).
    apply (Hdisj a HaL). rewrite elem_of_app, list_elem_of_singleton. tauto. }
  assert (Hst : forall b, (b < length (store e))%nat -> st' !! b = store e !! b).
  { intros b Hb'. destruct Hcase as [(_ & -> & _)|(_ & -> & _)];
      [apply lookup_app_l; exact Hb'|reflexivity]. }
  assert (HL : forall b, b ∈ L -> <[a := fresh_pulse]> st' !! b = store e !! b).
  { intros b HbL. rewrite list_lookup_insert_ne by (intros ->; contradiction).
    apply Hst, Hin. rewrite elem_of_app. tauto. }
  assert (HP' : (length F' <= length P')%nat).
  { eapply take_fmap_length; [exact Hfree'|reflexivity]. }
  eexists _, (F' ++ [a]). split; [reflexivity|].
  split; [repeat split|]. split; [|exact HL].
  unfold pulse_state. simpl.
  split; [exact Hlive|]. split; [exact HlenL|].
  split; [rewrite array_set_take_snoc by exact HP';
          rewrite Hfree', fmap_app; reflexivity|].
  split; [rewrite length_app; simpl; lia|].
  split.
  { eapply NoDup_Permutation_proper; [|exact Hnd'].
    rewrite <- !app_assoc. apply Permutation_app_head.
    apply Permutation_app_comm. }
  split.
  { intros b Hb'. rewrite length_insert. apply Hin'.
    rewrite !elem_of_app in *. tauto. }
  split.
  - intros b Hb'. rewrite (HL b Hb'). apply Hact. exact Hb'.
  - apply Forall_insert; [|simpl; lra].
    destruct Hcase as [(_ & -> & _)|(_ & -> & _)];
      [apply Forall_dist_fresh|]; exact Hdist.
Qed.

(** Spawning never throws on a sound state, keeps it sound, leaves the
    live pulses alone and appends at most one, which starts at [t = 0]. *)
Lemma spawn_wf (cfg : Config) (now : R) (e : Engine) (L F : list nat) g :
  pulse_state e L F -> scene_ok cfg e ->
  exists e' g' L' F',
    update_spawn cfg now e g = Ok (e', g') /\
    same_scene e e' /\ pulse_state e' L' F' /\
    (forall b, b ∈ L -> store e' !! b = store e !! b) /\
    (L' = L \/
     exists a p, L' = L ++ [a] /\ store e' !! a = Some p /\ t p = 0).
Proof.
  intros Hst Hscene.
  destruct (JS.leb (PULSE_SPAWN_EVERY_MS cfg) (now - _lastPulseSpawn e)
            && JS.ltb (INR (pulsesLen e)) (pulseMaxActive e)) eqn:Hdue.
  - destruct (links e) as [|L0 lks] eqn:Hlinks.
    + destruct (spawn_nolinks cfg now e L F g Hst Hscene Hdue Hlinks)
        as (e' & F' & H1 & H2 & H3 & H4).
      exists e', g, L, F'. repeat (split; [assumption|]). left. reflexivity.
    + destruct (spawn_fire cfg now e L F g Hst Hscene Hdue)
        as (e' & g' & a & F' & li & Lk & na & nb & H1 & H2 & H3 & H4 & _ & _
            & _ & H5 & _).
      { rewrite Hlinks. discriminate. }
      exists e', g', (L ++ [a]), F'. repeat (split; [assumption|]).
      right. eexists a, _. split; [reflexivity|]. split; [exact H5|reflexivity].
  - exists e, g, L, F. unfold update_spawn. rewrite Hdue.
    split; [reflexivity|]. split; [apply same_scene_refl|].
    split; [exact Hst|]. split; [reflexivity|left; reflexivity].
Qed.

(** ** Advancing *)

Section AdvanceLoop.
Variables (tInc : R) (S0 : list Pulse) (A0 : list (option nat))
          (L F : list nat).
Hypothesis HA0 : take (length L) A0 = Some <$> L.
Hypothesis HndL : NoDup L.
Hypothesis HinL : forall a, a ∈ L -> exists p, S0 !! a = Some p /\ active p = true.

Definition kept (i : nat) : list nat :=
  filter (fun a => ~ arrives tInc S0 a = true) (take i L).

Definition gone (i : nat) : list nat :=
  filter (fun a => arrives tInc S0 a = true) (take i L).

(** The state of the advance loop before iteration [i]. *)
Definition adv_inv (i : nat) (s : AdvSt) : Prop :=
  a_j s = length (kept i) /\
  take (a_j s) (a_pulses s) = Some <$> kept i /\
  length (a_pulses s) = length A0 /\
  (forall k a, (i <= k)%nat -> L !! k = Some a ->
     a_pulses s !! k = Some (Some a)) /\
  _len (a_pool s) = length (F ++ gone i) /\
  take (_len (a_pool s)) (_pool (a_pool s)) = Some <$> (F ++ gone i) /\
  length (a_store s) = length S0 /\
  (forall a, a ∈ take i L ->
     a_store s !! a = if arrives tInc S0 a then Some fresh_pulse
                      else advance_pulse tInc <$> S0 !! a) /\
  (forall a, a ∉ take i L -> a_store s !! a = S0 !! a).

Lemma kept_le (i : nat) : (length (kept i) <= i)%nat.
Proof.
  unfold kept. etransitivity; [apply length_filter|].
  rewrite length_take. lia.
Qed.

Lemma not_in_take (i : nat) (a : nat) : L !! i = Some a -> a ∉ take i L.
Proof.
  intros Hi Hin. apply list_elem_of_lookup in Hin as [k Hk].
  assert (Hlt : (k < i)%nat).
  { apply lookup_lt_Some in Hk. rewrite length_take in Hk. lia. }
  rewrite lookup_take_lt in Hk by exact Hlt.
  pose proof (proj1 (NoDup_alt L) HndL k i a Hk Hi). lia.
Qed.

Lemma advance_step_inv (i : nat) (s : AdvSt) g :
  (i < length L)%nat -> adv_inv i s ->
  exists s', advance_step tInc s i g = Ok (s', g) /\ adv_inv (S i) s'.
Proof.
  intros Hi (Hj & Htk & HlenA & Hrest & Hlen & Hpool & HlenS & Hdone & Htodo).
  destruct (lookup_lt_is_Some_2 L i Hi) as [a Ha].
  pose proof (not_in_take i a Ha) as Hnotin.
  destruct (HinL a) as (p & Hp & Hact);
    [apply list_elem_of_lookup; eauto|].
  pose proof (take_S_r L i a Ha) as HtakeS.
  assert (HAlen : (length L <= length A0)%nat).
  { eapply take_fmap_length; [exact HA0|reflexivity]. }
  assert (Hal : (a < length S0)%nat) by (eapply lookup_lt_Some; exact Hp).
  unfold advance_step.
  rewrite (bind_defined _ a) by (rewrite (Hrest i a) by (lia || exact Ha);
                                 reflexivity).
  rewrite (bind_defined _ p) by (rewrite Htodo by exact Hnotin; exact Hp).
  rewrite Hact. simpl negb. cbv iota.
  assert (Harr : JS.leb 1 (t (advance_pulse tInc p)) = arrives tInc S0 a).
  { unfold arrives. rewrite Hp. reflexivity. }
  rewrite Harr.
  assert (Hstore : forall st b,
            length st = length S0 ->
            (forall c, c ∈ take i L ->
               st !! c = if arrives tInc S0 c then Some fresh_pulse
                         else advance_pulse tInc <$> S0 !! c) ->
            (forall c, c ∉ take i L -> st !! c = S0 !! c) ->
            forall v, b = a ->
            (forall c, c ∈ take (S i) L -> c <> a ->
               <[b := v]> st !! c = if arrives tInc S0 c then Some fresh_pulse
                         else advance_pulse tInc <$> S0 !! c) /\
            (forall c, c ∉ take (S i) L -> <[b := v]> st !! c = S0 !! c)).
  { intros st b Hl Hd Ht v ->. split.
    - intros c Hc Hne. rewrite HtakeS in Hc.
      apply elem_of_app in Hc as [Hc|Hc];
        [|apply list_elem_of_singleton in Hc; contradiction].
      rewrite list_lookup_insert_ne by congruence. apply Hd. exact Hc.
    - intros c Hc. rewrite HtakeS in Hc.
      rewrite elem_of_app, list_elem_of_singleton in Hc.
      rewrite list_lookup_insert_ne by (intros ->; tauto).
      apply Ht. tauto. }
  destruct (arrives tInc S0 a) eqn:Earr.
  - (* the pulse arrives and is released *)
    unfold pool_release. cbv beta iota zeta.
    eexists. split; [reflexivity|].
    assert (Hk : kept (S i) = kept i).
    { unfold kept. rewrite HtakeS, filter_app, filter_cons_False, filter_nil.
      - apply app_nil_r.
      - intros N. apply N. exact Earr. }
    assert (Hg : gone (S i) = gone i ++ [a]).
    { unfold gone. rewrite HtakeS, filter_app, filter_cons_True by exact Earr.
      reflexivity. }
    assert (HPlen : (_len (a_pool s) <= length (_pool (a_pool s)))%nat).
    { eapply take_fmap_length; [exact Hpool|symmetry; exact Hlen]. }
    unfold adv_inv. simpl. rewrite Hk, Hg.
    split; [exact Hj|]. split; [exact Htk|]. split; [exact HlenA|].
    split; [intros k b Hk' Hb; apply Hrest; [lia|exact Hb]|].
    split; [rewrite app_assoc, length_app; simpl; lia|].
    split.
    { rewrite array_set_take_snoc by exact HPlen.
      rewrite Hpool, app_assoc, (fmap_app _ (F ++ gone i)). reflexivity. }
    rewrite list_insert_insert_eq.
    split; [rewrite length_insert; exact HlenS|].
    destruct (Hstore (a_store s) a HlenS Hdone Htodo fresh_pulse eq_refl)
      as [H1 H2].
    split; [|exact H2].
    intros c Hc. destruct (decide (c = a)) as [->|Hne].
    + rewrite Earr. apply list_lookup_insert_eq. lia.
    + apply H1; assumption.
  - (* the pulse stays *)
    eexists. split; [reflexivity|].
    assert (Hk : kept (S i) = kept i ++ [a]).
    { unfold kept. rewrite HtakeS, filter_app, filter_cons_True.
      - reflexivity.
      - rewrite Earr. discriminate. }
    assert (Hg : gone (S i) = gone i).
    { unfold gone. rewrite HtakeS, filter_app, filter_cons_False, filter_nil.
      - apply app_nil_r.
      - rewrite Earr. discriminate. }
    pose proof (kept_le i) as Hki.
    assert (Hjlt : (a_j s < length (a_pulses s))%nat) by lia.
    unfold adv_inv. simpl. rewrite Hk, Hg.
    split; [rewrite length_app; simpl; lia|].
    split.
    { rewrite array_set_take_snoc by lia.
      rewrite Htk, fmap_app. reflexivity. }
    split; [rewrite array_set_length_in by exact Hjlt; exact HlenA|].
    split.
    { intros k b Hk' Hb. rewrite array_set_lookup_gt by lia.
      apply Hrest; [lia|exact Hb]. }
    split; [exact Hlen|]. split; [exact Hpool|].
    split; [rewrite length_insert; exact HlenS|].
    destruct (Hstore (a_store s) a HlenS Hdone Htodo
                (advance_pulse tInc p) eq_refl) as [H1 H2].
    split; [|exact H2].
    intros c Hc. destruct (decide (c = a)) as [->|Hne].
    + rewrite Earr, Hp. apply list_lookup_insert_eq. lia.
    + apply H1; assumption.
Qed.
End AdvanceLoop.

Lemma advance_step_rng (tInc : R) (s s' : AdvSt) (i : nat) g g' :
  advance_step tInc s i g = Ok (s', g') -> g' = g.
Proof.
  unfold advance_step. intros H1.
  apply bind_Ok in H1 as (a & g3 & Ha & H1).
  apply defined_Ok in Ha as [_ ->].
  apply bind_Ok in H1 as (p & g4 & Hp & H1).
  apply defined_Ok in Hp as [_ ->].
  destruct (negb _) in H1; [apply ret_Ok in H1; tauto|].
  destruct (JS.leb _ _) in H1.
  - destruct (pool_release _ _ _) in H1. apply ret_Ok in H1. tauto.
  - apply ret_Ok in H1. tauto.
Qed.

Lemma advance_fold_rng (tInc : R) (l : list nat) :
  forall s g s' g',
  foldM (advance_step tInc) l s g = Ok (s', g') -> g' = g.
Proof.
  induction l as [|i l IH]; intros s g s' g' H; simpl in H.
  - apply ret_Ok in H as [_ ->]. reflexivity.
  - apply bind_Ok in H as (s1 & g1 & H1 & H).
    apply IH in H. apply advance_step_rng in H1. congruence.
Qed.

(** The advance loop on a sound state: it never throws, draws nothing,
    keeps in order the live pulses that have not arrived, each advanced by
    [tInc / dist], and returns the others to the pool, reset. *)
Lemma advance_spec (cfg : Config) (dt : R) (e : Engine) (L F : list nat) g :
  pulse_state e L F ->
  let tInc := PULSE_SPEED cfg * (dt / 1000) in
  exists e',
    update_advance cfg dt e g = Ok (e', g) /\
    same_scene e e' /\ _lastPulseSpawn e' = _lastPulseSpawn e /\
    pulse_state e'
      (filter (fun a => ~ arrives tInc (store e) a = true) L)
      (F ++ filter (fun a => arrives tInc (store e) a = true) L) /\
    length (store e') = length (store e) /\
    (forall a, a ∈ L ->
       store e' !! a = if arrives tInc (store e) a then Some fresh_pulse
                       else advance_pulse tInc <$> store e !! a) /\
    (forall a, a ∉ L -> store e' !! a = store e !! a).
Proof.
  intros (Hlive & HlenL & Hfree & HlenF & Hnd & Hin & Hact & Hdist) tInc.
  assert (HndL : NoDup L) by (apply NoDup_app in Hnd; tauto).
  assert (Hact' : forall a, a ∈ L ->
            exists p, store e !! a = Some p /\ active p = true).
  { intros a Ha. destruct (Hact a Ha) as (p & Hp & Hpa & _). eauto. }
  rewrite <- HlenL in Hlive.
  unfold update_advance. fold tInc.
  destruct (foldM_seq_total (advance_step tInc)
              (fun i s => adv_inv tInc (store e) (pulses e) L F i s
                          /\ (i <= length L)%nat)
              (pulsesLen e) 0
              (mkAdvSt (store e) (pulsePool e) (pulses e) 0) g)
    as (s & g1 & Hrun & Hinv & _).
  - intros i s0 g0 Hi [Hinv0 _].
    destruct (advance_step_inv tInc (store e) (pulses e) L F Hlive HndL Hact'
                i s0 g0) as (s1 & Hs1 & Hinv1); [lia|exact Hinv0|].
    exists s1, g0. split; [exact Hs1|]. split; [exact Hinv1|lia].
  - split; [|lia]. unfold adv_inv, kept, gone. simpl.
    rewrite app_nil_r.
    split; [reflexivity|]. split; [reflexivity|]. split; [reflexivity|].
    split.
    { intros k a _ Hk. eapply take_fmap_lookup; [exact Hlive|exact Hk]. }
    split; [symmetry; exact HlenF|]. split; [exact Hfree|].
    split; [reflexivity|].
    split; [intros a Ha; apply elem_of_nil in Ha; contradiction|reflexivity].
  - assert (Hg : g1 = g) by (eapply advance_fold_rng; exact Hrun).
    subst g1. rewrite (bind_eq _ _ _ _ _ Hrun).
    simpl in Hinv. rewrite <- HlenL in Hinv.
    destruct Hinv as (Hj & Htk & HlenA & _ & Hlen & Hpool & HlenS & Hdone & Htodo).
    unfold kept, gone in *. rewrite firstn_all in *.
    set (K := filter (fun a => ~ arrives tInc (store e) a = true) L) in *.
    set (G := filter (fun a => arrives tInc (store e) a = true) L) in *.
    assert (Hperm : K ++ F ++ G ≡ₚ L ++ F).
    { rewrite (Permutation_app_comm F G), app_assoc.
      apply Permutation_app_tail. unfold K, G.
      rewrite Permutation_app_comm. apply filter_app_complement. }
    eexists. split; [reflexivity|]. split; [repeat split|].
    split; [reflexivity|]. split; [|split; [exact HlenS|split; assumption]].
    unfold pulse_state. simpl.
    split; [exact Htk|]. split; [symmetry; exact Hj|].
    split; [exact Hpool|]. split; [symmetry; exact Hlen|].
    split; [eapply NoDup_Permutation_proper; [exact Hperm|exact Hnd]|].
    split.
    { intros a Ha. rewrite HlenS. apply Hin. rewrite <- Hperm. exact Ha. }
    split.
    { intros a Ha. apply list_elem_of_filter in Ha as [Harr HaL].
      destruct (Hact a HaL) as (p & Hp & Hpa & _).
      exists (advance_pulse tInc p). rewrite Hdone by exact HaL.
      destruct (arrives tInc (store e) a) eqn:Earr; [contradiction|].
      rewrite Hp. split; [reflexivity|]. split; [exact Hpa|].
      unfold arrives in Earr. rewrite Hp in Earr.
      apply leb_false in Earr. exact Earr. }
    apply Forall_lookup. intros a p Hp.
    rewrite Forall_lookup in Hdist.
    destruct (decide (a ∈ L)) as [HaL|HaL].
    + rewrite Hdone in Hp by exact HaL.
      destruct (arrives tInc (store e) a).
      * inversion Hp. simpl. lra.
      * destruct (store e !! a) as [p0|] eqn:Hp0; [|discriminate].
        inversion Hp. simpl. eapply Hdist. exact Hp0.
    + rewrite Htodo in Hp by exact HaL. eapply Hdist. exact Hp.
Qed.

(** ** A whole tick on a sound state *)

Lemma update_motion_total (cfg : Config) (now : R) (e : Engine) g :
  (2 <= length (PARALLAX_BANDS cfg))%nat ->
  exists e1,
    update_motion cfg now e g = Ok (e1, g) /\
    same_pulses e e1 /\ pulseMaxActive e1 = pulseMaxActive e /\
    links e1 = links e /\ dynamicLinks e1 = dynamicLinks e /\
    movingFlags e1 = movingFlags e /\
    length (nodes e1) = length (nodes e) /\
    (forall i n, nodes e !! i = Some n ->
       default false (movingFlags e !! i) = false ->
       nodes e1 !! i = Some n).
Proof.
  intros Hb. unfold update_motion.
  destruct (lookup_lt_is_Some_2 (PARALLAX_BANDS cfg) 0) as [near Hn]; [lia|].
  destruct (lookup_lt_is_Some_2 (PARALLAX_BANDS cfg) 1) as [mid Hm]; [lia|].
  rewrite (bind_defined _ near) by exact Hn.
  rewrite (bind_defined _ mid) by exact Hm.
  eexists. split; [reflexivity|]. simpl.
  split; [repeat split|]. repeat (split; [reflexivity|]).
  split; [apply length_imap|].
  intros i n Hi Hs. rewrite list_lookup_imap, Hi. simpl.
  rewrite move_node_static by exact Hs. reflexivity.
Qed.

Lemma pulse_state_ext (e e' : Engine) (L F : list nat) :
  same_pulses e e' -> pulse_state e L F -> pulse_state e' L F.
Proof.
  intros (Hs & Hp & Ha & Hl & _). unfold pulse_state.
  rewrite Hs, Hp, Ha, Hl. tauto.
Qed.

Lemma scene_ok_ext (cfg : Config) (e e' : Engine) :
  links e' = links e -> dynamicLinks e' = dynamicLinks e ->
  length (nodes e') = length (nodes e) ->
  scene_ok cfg e -> scene_ok cfg e'.
Proof.
  intros Hl Hd Hn. unfold scene_ok. rewrite Hl, Hd, Hn. tauto.
Qed.

(** One tick on a sound state returns a sound state.  Every pulse that
    was live either arrives ([t + tInc / dist >= 1]) and is back in the
    pool, reset, or stays live with [t] advanced by [tInc / dist]. *)
Lemma update_wf (cfg : Config) (dt now : R) (e : Engine) (L F : list nat) g :
  pulse_state e L F -> scene_ok cfg e ->
  let tInc := PULSE_SPEED cfg * (dt / 1000) in
  exists e' g' L' F',
    _update cfg dt now e g = Ok (e', g') /\
    pulse_state e' L' F' /\ scene_ok cfg e' /\
    forall a, a ∈ L ->
      if arrives tInc (store e) a
      then store e' !! a = Some fresh_pulse /\ a ∈ F' /\ a ∉ L'
      else store e' !! a = advance_pulse tInc <$> store e !! a /\ a ∈ L'.
Proof.
  intros Hst Hscene tInc. unfold _update.
  destruct (update_motion_total cfg now e g (proj1 Hscene))
    as (e1 & Hm & Hp1 & _ & Hl1 & Hd1 & _ & Hn1 & _).
  rewrite (bind_eq _ _ _ _ _ Hm).
  pose proof (pulse_state_ext _ _ _ _ Hp1 Hst) as Hst1.
  pose proof (scene_ok_ext cfg e e1 Hl1 Hd1 Hn1 Hscene) as Hsc1.
  destruct (spawn_wf cfg now e1 L F g Hst1 Hsc1)
    as (e2 & g2 & L2 & F2 & Hs & Hsame & Hst2 & Hkeep & HL2).
  rewrite (bind_eq _ _ _ _ _ Hs).
  destruct (advance_spec cfg dt e2 L2 F2 g2 Hst2)
    as (e3 & Ha & Hsame3 & _ & Hst3 & _ & Hdone & _).
  fold tInc in Ha, Hst3, Hdone.
  eexists e3, g2, _, _. split; [exact Ha|]. split; [exact Hst3|].
  split.
  { destruct Hsame as (_&_&_&_&Hn2&_&Hl2&Hd2&_).
    destruct Hsame3 as (_&_&_&_&Hn3&_&Hl3&Hd3&_).
    apply (scene_ok_ext cfg e1 e3); [congruence|congruence|congruence|].
    exact Hsc1. }
  intros a Ha'.
  assert (HaL2 : a ∈ L2).
  { destruct HL2 as [->|(b & p & -> & _)]; [exact Ha'|].
    apply elem_of_app. left. exact Ha'. }
  assert (Hsa : store e2 !! a = store e !! a).
  { rewrite Hkeep by exact Ha'. destruct Hp1 as (-> & _). reflexivity. }
  assert (Harr : arrives tInc (store e2) a = arrives tInc (store e) a).
  { unfold arrives. rewrite Hsa. reflexivity. }
  specialize (Hdone a HaL2). rewrite Harr, Hsa in Hdone.
  destruct (arrives tInc (store e) a) eqn:E.
  - split; [exact Hdone|]. split.
    + apply elem_of_app. right. apply list_elem_of_filter.
      split; [rewrite Harr; reflexivity|exact HaL2].
    + intros Hin. apply list_elem_of_filter in Hin as [Hn _].
      apply Hn. rewrite Harr. reflexivity.
  - split; [exact Hdone|]. apply list_elem_of_filter.
    split; [rewrite Harr; discriminate|exact HaL2].
Qed.

(** ** Every pulse object has [dist >= 1], always *)

Lemma pool_get_store_ok (st st' : list Pulse) (pool pool' : ObjectPool) o :
  pool_get st pool = (o, st', pool') ->
  Forall (fun p => 1 <= dist p) st -> Forall (fun p => 1 <= dist p) st'.
Proof.
  unfold pool_get. intros H Hst.
  destruct (0 <? _len pool)%nat; inversion H; subst.
  - exact Hst.
  - apply Forall_dist_fresh. exact Hst.
Qed.

Lemma update_spawn_store_ok (cfg : Config) (now : R) (e e' : Engine) g g' :
  update_spawn cfg now e g = Ok (e', g') ->
  Forall (fun p => 1 <= dist p) (store e) ->
  Forall (fun p => 1 <= dist p) (store e').
Proof.
  unfold update_spawn. intros H Hst.
  destruct (_ && _) in H.
  2:{ apply ret_Ok in H as [-> _]. exact Hst. }
  destruct (pool_get _ _) as [[obj st] pool] eqn:Hget in H.
  apply pool_get_store_ok in Hget; [|exact Hst].
  apply bind_Ok in H as (p & g1 & _ & H).
  apply bind_Ok in H as (li & g2 & _ & H).
  destruct (negb _) in H.
  - apply bind_Ok in H as (L & g3 & _ & H).
    apply bind_Ok in H as (a & g4 & _ & H).
    apply bind_Ok in H as (b & g5 & _ & H).
    apply ret_Ok in H as [-> _]. simpl.
    apply Forall_insert; [exact Hget|simpl; apply Rmax_l].
  - unfold pool_release in H. apply ret_Ok in H as [-> _]. simpl.
    apply Forall_insert; [exact Hget|simpl; lra].
Qed.

Lemma update_advance_store_ok (cfg : Config) (dt : R) (e e' : Engine) g g' :
  update_advance cfg dt e g = Ok (e', g') ->
  Forall (fun p => 1 <= dist p) (store e) ->
  Forall (fun p => 1 <= dist p) (store e').
Proof.
  unfold update_advance. intros H Hst.
  apply bind_Ok in H as (s & g1 & Hf & H).
  apply ret_Ok in H as [-> _]. simpl.
  eapply (foldM_inv _ (fun s => Forall (fun p => 1 <= dist p) (a_store s)));
    [| |exact Hf]; [|exact Hst].
  intros s0 i g0 s1 g2 _ Hs0 Hstep. unfold advance_step in Hstep.
  apply bind_Ok in Hstep as (a & g3 & _ & Hstep).
  apply bind_Ok in Hstep as (p & g4 & Hp & Hstep).
  apply defined_Ok in Hp as [Hp _].
  destruct (negb _) in Hstep.
  { apply ret_Ok in Hstep as [-> _]. exact Hs0. }
  assert (Hd : 1 <= dist p).
  { rewrite Forall_lookup in Hs0. eapply Hs0. exact Hp. }
  destruct (JS.leb _ _) in Hstep.
  - unfold pool_release in Hstep. apply ret_Ok in Hstep as [-> _]. simpl.
    apply Forall_insert; [|simpl; lra].
    apply Forall_insert; [exact Hs0|exact Hd].
  - apply ret_Ok in Hstep as [-> _]. simpl.
    apply Forall_insert; [exact Hs0|exact Hd].
Qed.

Lemma reachable_store_ok (cfg : Config) (e : Engine) :
  reachable cfg e -> Forall (fun p => 1 <= dist p) (store e).
Proof.
  intros Hr. induction Hr as [e Hc|e e' fuel ev g g' Hr IH Hstep].
  - destruct Hc as (_ & Hpool & _). unfold pool_of in Hpool.
    inversion Hpool as [[Hs Hp]]. rewrite Hs.
    apply Forall_replicate. simpl. lra.
  - destruct ev as [now|w h]; simpl in Hstep.
    + unfold _update in Hstep.
      apply bind_Ok in Hstep as (e1 & g1 & Hm & Hstep).
      apply bind_Ok in Hstep as (e2 & g2 & Hs & Ha).
      eapply update_advance_store_ok; [exact Ha|].
      eapply update_spawn_store_ok; [exact Hs|].
      unfold update_motion in Hm.
      apply bind_Ok in Hm as (near & g3 & _ & Hm).
      apply bind_Ok in Hm as (mid & g4 & _ & Hm).
      apply ret_Ok in Hm as [-> _]. exact IH.
    + apply resize_pulses in Hstep as ((Hs & _) & _). rewrite Hs. exact IH.
Qed.

(** ** Every live pulse is released in the end *)

Lemma run_ticks_cons (cfg : Config) (fuel : nat) (now : R) (nows : list R)
    (e : Engine) g :
  run cfg fuel (Tick <$> (now :: nows)) e g
  = bind (_update cfg (_dt_ms cfg) now e)
         (run cfg fuel (Tick <$> nows)) g.
Proof. reflexivity. Qed.

Lemma eventually_released (cfg : Config) (fuel : nat) (nows : list R) :
  let tInc := PULSE_SPEED cfg * (_dt_ms cfg / 1000) in
  forall (e : Engine) (L F : list nat) (a : nat) (p : Pulse) g,
  pulse_state e L F -> scene_ok cfg e ->
  a ∈ L -> store e !! a = Some p ->
  1 - t p <= INR (length nows) * (tInc / dist p) ->
  exists k e' g' L' F',
    (k <= length nows)%nat /\
    run cfg fuel (Tick <$> take k nows) e g = Ok (e', g') /\
    pulse_state e' L' F' /\ a ∈ F' /\ (a ∉ L') /\
    store e' !! a = Some fresh_pulse.
Proof.
  intros tInc.
  induction nows as [|now nows IH]; intros e L F a p g Hst Hsc Ha Hp Hbound.
  - exfalso. simpl in Hbound.
    destruct Hst as (_ & _ & _ & _ & _ & _ & Hact & _).
    destruct (Hact a Ha) as (p0 & Hp0 & _ & Ht).
    rewrite Hp in Hp0. inversion Hp0; subst p0. lra.
  - destruct (update_wf cfg (_dt_ms cfg) now e L F g Hst Hsc)
      as (e1 & g1 & L1 & F1 & Hup & Hst1 & Hsc1 & Hall).
    fold tInc in Hall. specialize (Hall a Ha).
    destruct (arrives tInc (store e) a) eqn:Earr.
    + destruct Hall as (Hfresh & HaF & HaL).
      exists 1%nat, e1, g1, L1, F1.
      split; [simpl; lia|]. split.
      { change (take 1 (now :: nows)) with (now :: take 0 nows).
        rewrite take_0, run_ticks_cons, (bind_eq _ _ _ _ _ Hup).
        reflexivity. }
      split; [exact Hst1|]. split; [exact HaF|].
      split; [exact HaL|exact Hfresh].
    + destruct Hall as (Hadv & HaL1). rewrite Hp in Hadv. simpl in Hadv.
      destruct (IH e1 L1 F1 a (advance_pulse tInc p) g1 Hst1 Hsc1 HaL1 Hadv)
        as (k & e2 & g2 & L2 & F2 & Hk & Hrun & Hst2 & Hres).
      { simpl. change (length (now :: nows)) with (S (length nows)) in Hbound.
        rewrite S_INR in Hbound. lra. }
      exists (S k), e2, g2, L2, F2.
      split; [simpl; lia|]. split; [|split; assumption].
      rewrite firstn_cons, run_ticks_cons, (bind_eq _ _ _ _ _ Hup).
      exact Hrun.
Qed.

(** ** Evaluating the layout at concrete sizes *)

Lemma round_eq (x : R) (k : Z) :
  IZR k <= x + / 2 < IZR k + 1 -> JS.round x = k.
Proof. intros H. unfold JS.round. apply Zfloor_eq. exact H. Qed.

Lemma clamp_mid (v a b : R) : a <= v -> v <= b -> JS.clamp v a b = v.
Proof.
  intros Ha Hb. unfold JS.clamp.
  destruct (JS.ltb v a) eqn:E1; [apply ltb_true in E1; lra|].
  destruct (JS.ltb b v) eqn:E2; [apply ltb_true in E2; lra|reflexivity].
Qed.

Lemma clamp_hi (v a b : R) : a <= v -> b < v -> JS.clamp v a b = b.
Proof.
  intros Ha Hb. unfold JS.clamp.
  destruct (JS.ltb v a) eqn:E1; [apply ltb_true in E1; lra|].
  destruct (JS.ltb b v) eqn:E2; [reflexivity|apply ltb_false in E2; lra].
Qed.

Lemma sqrt_val (x y : R) : 0 <= y -> y * y = x -> sqrt x = y.
Proof. intros Hy <-. apply sqrt_square. exact Hy. Qed.

Lemma hypot_axis (a : R) : 0 <= a -> JS.hypot a 0 = a.
Proof.
  intros Ha. unfold JS.hypot. apply sqrt_val; [exact Ha|ring].
Qed.

Lemma hypot_neg_axis (a : R) : 0 <= a -> JS.hypot (- a) 0 = a.
Proof.
  intros Ha. unfold JS.hypot. apply sqrt_val; [exact Ha|ring].
Qed.

Section DemoLayout.
Variable n : nat.
Let cfg := with_pool_size CONFIG n.

Lemma demo_kL_large :
  sqrt (Rmax 1 (2160 * 1350) / (BASE_WIDTH cfg * BASE_HEIGHT cfg)) = 3 / 2.
Proof.
  simpl. rewrite Rmax_right by lra. apply sqrt_val; [lra|field].
Qed.

Lemma demo_kL_small :
  sqrt (Rmax 1 (1728 * 1080) / (BASE_WIDTH cfg * BASE_HEIGHT cfg)) = 6 / 5.
Proof.
  simpl. rewrite Rmax_right by lra. apply sqrt_val; [lra|field].
Qed.

Lemma demo_cap_large : scaled_pulse_cap cfg 2160 1350 = 2.
Proof.
  unfold scaled_pulse_cap. rewrite demo_kL_large. simpl.
  rewrite (round_eq _ 2) by lra. apply clamp_mid; lra.
Qed.

Lemma demo_node_max_large : scaled_node_max cfg 2160 1350 = 100.
Proof.
  unfold scaled_node_max. simpl. rewrite Rmax_right by lra.
  rewrite (round_eq _ 158) by lra. apply clamp_hi; lra.
Qed.

Lemma demo_cap_small : scaled_pulse_cap cfg 1728 1080 = 1.
Proof.
  unfold scaled_pulse_cap. rewrite demo_kL_small. simpl.
  rewrite (round_eq _ 1) by lra. apply clamp_mid; lra.
Qed.

(** Both viewports ask for 100 foreground and 60 background nodes. *)
Lemma demo_targets_small (e : Engine) :
  _getTargetCounts cfg
    (set_size (_applyResponsiveScaling cfg e 1728 1080) 1728 1080)
  = (100%Z, 60%Z).
Proof.
  unfold _getTargetCounts, _applyResponsiveScaling. simpl.
  rewrite Rmax_right by lra.
  replace (1728 * 1080 / (1440 * 900)) with (36 / 25) by field.
  rewrite (round_eq (70 * (36 / 25)) 101) by lra.
  rewrite (clamp_hi _ 16 100) by lra.
  rewrite (clamp_hi _ 12 60) by lra.
  unfold Rmin. destruct (Rle_dec 1728 1080); [lra|].
  destruct (JS.ltb 1080 900) eqn:E; [apply ltb_true in E; lra|].
  rewrite (round_eq (100 * 1) 100) by lra.
  rewrite (round_eq (60 * 1) 60) by lra. reflexivity.
Qed.

Lemma demo_targets (e : Engine) :
  width e = 2160 -> height e = 1350 -> nodeMax e = 100 -> bgNodeMax e = 60 ->
  _getTargetCounts cfg e = (100%Z, 60%Z).
Proof.
  intros Hw Hh Hn Hb. unfold _getTargetCounts. rewrite Hw, Hh, Hn, Hb.
  unfold Rmin. destruct (Rle_dec 2160 1350); [lra|].
  destruct (JS.ltb 1350 900) eqn:E; [apply ltb_true in E; lra|].
  rewrite (round_eq (100 * 1) 100) by lra.
  rewrite (round_eq (60 * 1) 60) by lra. reflexivity.
Qed.

Lemma demo_tInc : PULSE_SPEED cfg * (_dt_ms cfg / 1000) = 50 / 3.
Proof. unfold _dt_ms. simpl. field. Qed.
End DemoLayout.

(** ** Ticks of an engine whose nodes are all static *)

Lemma filter_all {A : Type} (P : A -> Prop) `{forall x, Decision (P x)}
    (l : list A) :
  (forall x, x ∈ l -> P x) -> filter P l = l.
Proof.
  induction l as [|x l IH]; intros Hl; [reflexivity|].
  rewrite filter_cons_True by (apply Hl; left).
  f_equal. apply IH. intros y Hy. apply Hl. right. exact Hy.
Qed.

Lemma filter_none {A : Type} (P : A -> Prop) `{forall x, Decision (P x)}
    (l : list A) :
  (forall x, x ∈ l -> ~ P x) -> filter P l = [].
Proof.
  induction l as [|x l IH]; intros Hl; [reflexivity|].
  rewrite filter_cons_False by (apply Hl; left).
  apply IH. intros y Hy. apply Hl. right. exact Hy.
Qed.

Lemma update_motion_static (cfg : Config) (now : R) (e : Engine) g :
  (2 <= length (PARALLAX_BANDS cfg))%nat ->
  (forall i, default false (movingFlags e !! i) = false) ->
  exists e1,
    update_motion cfg now e g = Ok (e1, g) /\
    same_pulses e e1 /\ same_scene e e1.
Proof.
  intros Hb Hstatic. unfold update_motion.
  destruct (lookup_lt_is_Some_2 (PARALLAX_BANDS cfg) 0) as [near Hn]; [lia|].
  destruct (lookup_lt_is_Some_2 (PARALLAX_BANDS cfg) 1) as [mid Hm]; [lia|].
  rewrite (bind_defined _ near) by exact Hn.
  rewrite (bind_defined _ mid) by exact Hm.
  eexists. split; [reflexivity|]. split; [repeat split|].
  assert (Hnodes : imap (move_node cfg e now near mid) (nodes e) = nodes e).
  { apply list_eq. intros i. rewrite list_lookup_imap.
    destruct (nodes e !! i) as [nd|]; [|reflexivity]. simpl.
    rewrite move_node_static by apply Hstatic. reflexivity. }
  unfold same_scene. simpl. rewrite Hnodes. repeat split.
Qed.

(** A tick that spawns while no live pulse arrives: one more live pulse,
    every older one advanced, the new one advanced from [t = 0].  [d0] is
    the length every link has for the scheduler. *)
Lemma static_tick_spawn (cfg : Config) (now d0 : R) (e : Engine)
    (L F : list nat) g :
  let tInc := PULSE_SPEED cfg * (_dt_ms cfg / 1000) in
  pulse_state e L F -> scene_ok cfg e ->
  (forall i, default false (movingFlags e !! i) = false) ->
  JS.leb (PULSE_SPAWN_EVERY_MS cfg) (now - _lastPulseSpawn e)
  && JS.ltb (INR (pulsesLen e)) (pulseMaxActive e) = true ->
  links e <> [] ->
  (forall Lk na nb, Lk ∈ links e ->
     nodes e !! Fg.ai Lk = Some na -> nodes e !! Fg.bi Lk = Some nb ->
     Rmax 1 (JS.hypot (Fg.x nb - Fg.x na) (Fg.y nb - Fg.y na)) = d0) ->
  tInc / d0 < 1 ->
  (forall a, a ∈ L -> arrives tInc (store e) a = false) ->
  exists e' g' a F' p,
    _update cfg (_dt_ms cfg) now e g = Ok (e', g') /\
    same_scene e e' /\
    pulse_state e' (L ++ [a]) F' /\
    _lastPulseSpawn e' = now /\
    (forall b, b ∈ L -> store e' !! b = advance_pulse tInc <$> store e !! b) /\
    store e' !! a = Some p /\ t p = 0 + tInc / d0 /\ dist p = d0 /\
    ((_len (pulsePool e) = 0%nat /\ a = length (store e) /\
      length (store e') = S (length (store e)) /\ F' = F) \/
     ((0 < _len (pulsePool e))%nat /\ length (store e') = length (store e) /\
      F = F' ++ [a])).
Proof.
  intros tInc Hst Hscene Hstatic Hdue Hlinks Hd0 Hslow Hkeep.
  unfold _update.
  destruct (update_motion_static cfg now e g (proj1 Hscene) Hstatic)
    as (e1 & Hm & Hp1 & Hs1).
  rewrite (bind_eq _ _ _ _ _ Hm).
  pose proof (pulse_state_ext _ _ _ _ Hp1 Hst) as Hst1.
  pose proof Hs1 as (_&_&_&_&Hn1&_&Hl1&Hdl1&_&_&_&_&Hc1&_).
  pose proof Hp1 as (Hstore1 & Hpool1 & _ & Hlen1 & Hlast1).
  assert (Hsc1 : scene_ok cfg e1).
  { apply (scene_ok_ext cfg e e1); [exact Hl1|exact Hdl1|congruence|exact Hscene]. }
  destruct (spawn_fire cfg now e1 L F g Hst1 Hsc1)
    as (e2 & g2 & a & F2 & li & Lk & na & nb & Hs & Hsame2 & Hst2 & Hold
        & HLk & Hna & Hnb & Hnew & Hlast2 & Hcase).
  { rewrite Hlast1, Hlen1, Hc1. exact Hdue. }
  { rewrite Hl1. exact Hlinks. }
  rewrite (bind_eq _ _ _ _ _ Hs).
  destruct (advance_spec cfg (_dt_ms cfg) e2 (L ++ [a]) F2 g2 Hst2)
    as (e3 & Ha & Hsame3 & Hlast3 & Hst3 & Hlen3 & Hdone & _).
  fold tInc in Ha, Hst3, Hdone.
  rewrite Hl1, Hn1 in *.
  assert (Hd : Rmax 1 (JS.hypot (Fg.x nb - Fg.x na) (Fg.y nb - Fg.y na)) = d0).
  { apply (Hd0 Lk na nb); [apply list_elem_of_lookup; eauto|assumption..]. }
  rewrite Hd in Hnew.
  assert (Harr : forall b, b ∈ L ++ [a] -> arrives tInc (store e2) b = false).
  { intros b Hb. apply elem_of_app in Hb as [Hb|Hb].
    - unfold arrives. rewrite (Hold b Hb), Hstore1. apply Hkeep. exact Hb.
    - apply list_elem_of_singleton in Hb. subst b.
      unfold arrives. rewrite Hnew. simpl. apply leb_false. lra. }
  assert (Hfilter : filter (fun b => ~ arrives tInc (store e2) b = true)
                      (L ++ [a]) = L ++ [a]).
  { apply filter_all. intros b Hb.
    rewrite (Harr b Hb). discriminate. }
  assert (Hfilter' : filter (fun b => arrives tInc (store e2) b = true)
                      (L ++ [a]) = []).
  { apply filter_none. intros b Hb.
    rewrite (Harr b Hb). discriminate. }
  rewrite Hfilter, Hfilter', app_nil_r in Hst3.
  exists e3, g2, a, F2, (advance_pulse tInc (mkPulse (Z.of_nat li) 0 true d0)).
  split; [exact Ha|].
  split; [eapply same_scene_trans; [exact Hs1|];
          eapply same_scene_trans; eassumption|].
  split; [exact Hst3|]. split; [congruence|].
  split.
  { intros b Hb. rewrite Hdone by (apply elem_of_app; tauto).
    rewrite Harr by (apply elem_of_app; tauto).
    rewrite (Hold b Hb), Hstore1. reflexivity. }
  split.
  { rewrite Hdone by (apply elem_of_app; right; apply list_elem_of_singleton;
                      reflexivity).
    rewrite Harr by (apply elem_of_app; right; apply list_elem_of_singleton;
                     reflexivity).
    rewrite Hnew. reflexivity. }
  split; [reflexivity|]. split; [reflexivity|].
  rewrite Hlen3, <- Hstore1, <- Hpool1. exact Hcase.
Qed.

(** ** The example engine *)

Lemma demo_static (n : nat) : static_demo (demo_engine_n n).
Proof. repeat split. Qed.

Lemma static_demo_ext (e e' : Engine) :
  same_scene e e' -> static_demo e -> static_demo e'.
Proof.
  intros (Hw&Hh&Hpw&Hph&Hn&Hb&Hl&Hd&_&_&Hf&_&Hc&_&_&Hnm&Hbm&_).
  unfold static_demo.
  rewrite Hw, Hh, Hpw, Hph, Hn, Hb, Hl, Hd, Hf, Hc, Hnm, Hbm. tauto.
Qed.

Lemma static_demo_flags (e : Engine) :
  static_demo e -> forall i, default false (movingFlags e !! i) = false.
Proof.
  intros (_&_&_&_&Hf&_) i. rewrite Hf.
  destruct (replicate 100 false !! i) as [b|] eqn:E; [|reflexivity].
  apply lookup_replicate in E as [-> _]. reflexivity.
Qed.

Lemma static_demo_scene (cfg : Config) (e : Engine) :
  (2 <= length (PARALLAX_BANDS cfg))%nat -> static_demo e -> scene_ok cfg e.
Proof.
  intros Hb (Hn&_&Hl&Hd&_). unfold scene_ok. rewrite Hl, Hd, Hn.
  split; [exact Hb|]. split; [simpl; lia|]. split; [simpl; lia|].
  split; [intros idx Hidx; apply elem_of_nil in Hidx; contradiction|].
  intros L HL. apply list_elem_of_singleton in HL. subst L.
  rewrite length_map, length_seq. simpl. lia.
Qed.

Lemma demo_node_lookup (k : nat) :
  (k < 100)%nat -> map demo_node (seq 0 100) !! k = Some (demo_node k).
Proof.
  intros Hk. change (map demo_node (seq 0 100)) with (demo_node <$> seq 0 100).
  rewrite list_lookup_fmap, lookup_seq_lt by exact Hk. reflexivity.
Qed.

(** The one link of the example is 600 px long. *)
Lemma static_demo_links (e : Engine) :
  static_demo e ->
  forall Lk na nb, Lk ∈ links e ->
    nodes e !! Fg.ai Lk = Some na -> nodes e !! Fg.bi Lk = Some nb ->
    Rmax 1 (JS.hypot (Fg.x nb - Fg.x na) (Fg.y nb - Fg.y na)) = 600.
Proof.
  intros (Hn&_&Hl&_) Lk na nb HLk Hna Hnb.
  rewrite Hl in HLk. apply list_elem_of_singleton in HLk. subst Lk.
  rewrite Hn in Hna, Hnb. simpl Fg.ai in Hna. simpl Fg.bi in Hnb.
  rewrite demo_node_lookup in Hna, Hnb by lia.
  inversion Hna; inversion Hnb; subst na nb.
  unfold demo_node. cbn [Fg.x Fg.y].
  replace (INR (1 mod 2) * 600 - INR (0 mod 2) * 600) with 600
    by (simpl; ring).
  replace (INR (1 / 2) * 10 - INR (0 / 2) * 10) with 0 by (simpl; ring).
  rewrite hypot_axis by lra. apply Rmax_right. lra.
Qed.

Lemma demo_pulse_state (n : nat) : pulse_state (demo_engine_n n) [] (seq 0 n).
Proof.
  unfold pulse_state. simpl.
  split; [reflexivity|]. split; [reflexivity|].
  split.
  { rewrite firstn_all2; [reflexivity|].
    rewrite length_fmap, length_seq. lia. }
  split; [apply length_seq|].
  split; [apply NoDup_seq|].
  split.
  { intros a Ha. apply list_elem_of_In, in_seq in Ha.
    rewrite length_replicate. lia. }
  split; [intros a Ha; apply elem_of_nil in Ha; contradiction|].
  apply Forall_replicate. simpl. lra.
Qed.

Lemma demo_constructed (n : nat) :
  constructed (with_pool_size CONFIG n) (demo_engine_n n).
Proof.
  unfold constructed.
  split; [reflexivity|]. split; [reflexivity|]. split; [reflexivity|].
  split; [reflexivity|].
  split; [symmetry; apply (demo_cap_large n)|].
  split; [apply demo_targets; reflexivity|].
  split; [|split; [reflexivity|split;
             [repeat constructor; intros Hin; inversion Hin
             |symmetry; apply (demo_node_max_large n)]]].
  constructor; [|constructor].
  split; [simpl; lia|].
  exists (demo_node 0), (demo_node 1).
  change (nodes (demo_engine_n n)) with (map demo_node (seq 0 100)).
  split; [apply demo_node_lookup; simpl; lia|].
  split; [apply demo_node_lookup; simpl; lia|].
  unfold demo_node. cbn [Fg.x Fg.y Fg.d linkDistanceMax demo_engine_n].
  replace (INR (0 mod 2) * 600 - INR (1 mod 2) * 600) with (Ropp 600)
    by (simpl; ring).
  replace (INR (0 / 2) * 10 - INR (1 / 2) * 10) with 0 by (simpl; ring).
  rewrite hypot_neg_axis by lra. split; lra.
Qed.

(** A spawning tick of the example at time [now]: one more live pulse,
    [1 / 36] along the link, the others [1 / 36] further. *)
Lemma demo_tick (n : nat) (now : R) (e : Engine) (L F : list nat) g :
  let cfg := with_pool_size CONFIG n in
  static_demo e -> pulse_state e L F ->
  1000 <= now - _lastPulseSpawn e -> INR (pulsesLen e) < 2 ->
  (forall a, a ∈ L -> exists p, store e !! a = Some p /\
                           t p + 1 / 36 < 1 /\ dist p = 600) ->
  exists e' g' a F' p,
    _update cfg (_dt_ms cfg) now e g = Ok (e', g') /\
    static_demo e' /\
    pulse_state e' (L ++ [a]) F' /\
    _lastPulseSpawn e' = now /\
    (forall b q, b ∈ L -> store e !! b = Some q ->
       exists q', store e' !! b = Some q' /\ t q' = t q + 1 / 36 /\
                  dist q' = dist q) /\
    store e' !! a = Some p /\ t p = 1 / 36 /\ dist p = 600 /\
    ((_len (pulsePool e) = 0%nat /\ a = length (store e) /\
      length (store e') = S (length (store e)) /\ F' = F) \/
     ((0 < _len (pulsePool e))%nat /\ length (store e') = length (store e) /\
      F = F' ++ [a])).
Proof.
  intros cfg Hdemo Hst Hint Hcap Hlive.
  pose proof (demo_tInc n) as HtInc. fold cfg in HtInc.
  assert (Hbands : (2 <= length (PARALLAX_BANDS cfg))%nat) by (simpl; lia).
  destruct (static_tick_spawn cfg now 600 e L F g Hst
              (static_demo_scene cfg e Hbands Hdemo)
              (static_demo_flags e Hdemo))
    as (e' & g' & a & F' & p & Hup & Hsame & Hst' & Hlast & Hold & Hnew
        & Htp & Hdp & Hcase).
  - apply andb_true_intro. split; [apply leb_true|apply ltb_true].
    + simpl. exact Hint.
    + destruct Hdemo as (_&_&_&_&_&_&_&_&_&_&_&->). exact Hcap.
  - destruct Hdemo as (_&_&->&_). discriminate.
  - apply static_demo_links. exact Hdemo.
  - rewrite HtInc. lra.
  - intros b Hb. destruct (Hlive b Hb) as (q & Hq & Htq & Hdq).
    unfold arrives. rewrite Hq, HtInc, Hdq. apply leb_false. lra.
  - rewrite HtInc in Hold, Htp.
    exists e', g', a, F', p.
    split; [exact Hup|]. split; [eapply static_demo_ext; eassumption|].
    split; [exact Hst'|]. split; [exact Hlast|].
    split.
    { intros b q Hb Hq. destruct (Hlive b Hb) as (q0 & Hq0 & _ & Hdq).
      rewrite Hq in Hq0. inversion Hq0; subst q0.
      exists (advance_pulse (50 / 3) q).
      rewrite (Hold b Hb), Hq. split; [reflexivity|].
      simpl. rewrite Hdq. split; [lra|reflexivity]. }
    split; [exact Hnew|]. split; [rewrite Htp; lra|].
    split; [exact Hdp|exact Hcase].
Qed.

(** ** The pulse cap *)

(** A resize that keeps both target counts takes the rescaling branch and
    returns. *)
Lemma resize_reflow_total (cfg : Config) (fuel : nat) (w h : R) (e : Engine) g :
  population_consistent cfg e ->
  _getTargetCounts cfg (set_size (_applyResponsiveScaling cfg e w h) w h)
  = _getTargetCounts cfg e ->
  (Z.of_nat (length (nodes e)) < 2 ^ 31)%Z ->
  exists e' g', _resize cfg fuel false w h e g = Ok (e', g').
Proof.
  intros Hcons Hsame Hlen. unfold _resize.
  set (e1 := set_size (_applyResponsiveScaling cfg e w h) w h) in *.
  assert (Hn1 : nodes e1 = nodes e) by reflexivity.
  assert (Hb1 : bgNodes e1 = bgNodes e) by reflexivity.
  pose proof (targets_ge cfg e) as [H16 _].
  unfold population_consistent in Hcons.
  rewrite Hcons in H16. cbn [fst] in H16.
  assert (Hneed : needRebuild cfg false e1 = false).
  { unfold needRebuild. rewrite Hsame, Hcons, Hn1, Hb1.
    rewrite !Z.eqb_refl. simpl.
    destruct (Nat.eqb_spec (length (nodes e)) 0); [lia|reflexivity]. }
  rewrite Hneed, Hn1.
  destruct (Nat.eqb_spec (length (nodes e)) 0) as [|_]; [lia|].
  cbn [negb andb].
  match goal with
  | |- exists e' g', bind (_buildLinks cfg ?e2) _ g = _ =>
      destruct (buildLinks_total cfg e2 g) as (e3 & g3 & E3)
  end.
  { cbn [nodes set_population]. rewrite length_map. exact Hlen. }
  rewrite (bind_eq _ _ _ _ _ E3).
  apply buildBgLinks_total.
Qed.

Lemma static_demo_consistent (n : nat) (e : Engine) :
  static_demo e -> population_consistent (with_pool_size CONFIG n) e.
Proof.
  intros (Hn&Hb&_&_&_&Hw&Hh&_&_&Hnm&Hbm&_).
  unfold population_consistent.
  rewrite (demo_targets n e Hw Hh Hnm Hbm), Hn, Hb.
  rewrite !length_map, !length_seq. reflexivity.
Qed.

(** Shrinking the example from 2160 by 1350 to 1728 by 1080 returns, keeps
    the pulses and lowers the cap from 2 to 1. *)
Lemma demo_shrink (n : nat) (fuel : nat) (e : Engine) g :
  static_demo e ->
  exists e' g',
    _resize (with_pool_size CONFIG n) fuel false 1728 1080 e g = Ok (e', g') /\
    same_pulses e e' /\ pulseMaxActive e' = 1.
Proof.
  intros Hdemo.
  pose proof (static_demo_consistent n e Hdemo) as Hcons.
  destruct (resize_reflow_total (with_pool_size CONFIG n) fuel 1728 1080 e g Hcons)
    as (e' & g' & E).
  - rewrite demo_targets_small. symmetry.
    destruct Hdemo as (_&_&_&_&_&Hw&Hh&_&_&Hnm&Hbm&_).
    apply demo_targets; assumption.
  - destruct Hdemo as (-> & _). rewrite length_map, length_seq. simpl. lia.
  - exists e', g'. split; [exact E|].
    apply resize_pulses in E as (Hp & Hc & _).
    split; [exact Hp|]. rewrite Hc. apply demo_cap_small.
Qed.

Lemma pulse_state_count (e : Engine) (L F : list nat) :
  pulse_state e L F ->
  pulsesLen e = length L /\ _len (pulsePool e) = length F.
Proof. intros (_ & H1 & _ & H2 & _). split; congruence. Qed.




(** ** An empty pool *)

(** C4, counterexample.  With a pool of one pulse and a cap of 2, the tick
    at 1000 ms takes the only pooled pulse; at the tick at 2000 ms the pool
    is empty, and the tick spawns a second pulse on a newly created
    object. *)
Lemma spawn_continues_on_empty_pool :
  exists e1 g1 e2 g2,
    _update (with_pool_size CONFIG 1) (_dt_ms (with_pool_size CONFIG 1)) 1000
      (demo_engine_n 1) zero_rng = Ok (e1, g1) /\
    _len (pulsePool e1) = 0%nat /\ pulsesLen e1 = 1%nat /\
    length (store e1) = 1%nat /\
    JS.leb (PULSE_SPAWN_EVERY_MS (with_pool_size CONFIG 1))
           (2000 - _lastPulseSpawn e1)
    && JS.ltb (INR (pulsesLen e1)) (pulseMaxActive e1) = true /\
    _update (with_pool_size CONFIG 1) (_dt_ms (with_pool_size CONFIG 1)) 2000
      e1 g1 = Ok (e2, g2) /\
    pulsesLen e2 = 2%nat /\ length (store e2) = 2%nat /\
    _lastPulseSpawn e2 = 2000.
Proof.
  destruct (demo_tick 1 1000 (demo_engine_n 1) [] (seq 0 1) zero_rng)
    as (e1 & g1 & a1 & F1 & p1 & Hup1 & Hd1 & Hst1 & Hlast1 & _
        & Hp1 & Htp1 & Hdp1 & Hcase1).
  { apply demo_static. }
  { apply demo_pulse_state. }
  { simpl. lra. }
  { simpl. lra. }
  { intros a Ha. apply elem_of_nil in Ha. contradiction. }
  pose proof (pulse_state_count _ _ _ Hst1) as [Hn1 Hf1]. simpl in Hn1.
  destruct Hcase1 as [(Hz & _)|(_ & Hlen1 & HF)]; [simpl in Hz; lia|].
  assert (HF1 : length F1 = 0%nat).
  { apply (f_equal length) in HF. rewrite length_app in HF. simpl in HF. lia. }
  rewrite HF1 in Hf1.
  destruct (demo_tick 1 2000 e1 [a1] F1 g1)
    as (e2 & g2 & a2 & F2 & p2 & Hup2 & Hd2 & Hst2 & Hlast2 & _
        & _ & _ & _ & Hcase2).
  { exact Hd1. }
  { exact Hst1. }
  { rewrite Hlast1. lra. }
  { rewrite Hn1. simpl. lra. }
  { intros a Ha. apply list_elem_of_singleton in Ha. subst a.
    exists p1. split; [exact Hp1|]. split; [rewrite Htp1; lra|exact Hdp1]. }
  pose proof (pulse_state_count _ _ _ Hst2) as [Hn2 _]. simpl in Hn2.
  destruct Hcase2 as [(_ & _ & Hlen2 & _)|(Hpos & _)]; [|lia].
  exists e1, g1, e2, g2.
  split; [exact Hup1|]. split; [exact Hf1|]. split; [exact Hn1|].
  split; [rewrite Hlen1; reflexivity|].
  split.
  { apply andb_true_intro. split; [apply leb_true|apply ltb_true].
    - rewrite Hlast1. simpl. lra.
    - destruct Hd1 as (_&_&_&_&_&_&_&_&_&_&_&->). rewrite Hn1. simpl. lra. }
  split; [exact Hup2|]. split; [exact Hn2|].
  split; [|exact Hlast2].
  rewrite Hlen2, Hlen1. reflexivity.
Qed.

(** A due spawn on a sound state with an empty pool: [get()] creates a
    new object at the next address of the store, and the pulse is spawned
    on it. *)
Lemma empty_pool_tick (cfg : Config) (now : R) (e : Engine)
    (L F : list nat) (g : Rng) :
  pulse_state e L F -> scene_ok cfg e ->
  _len (pulsePool e) = 0%nat ->
  JS.leb (PULSE_SPAWN_EVERY_MS cfg) (now - _lastPulseSpawn e)
  && JS.ltb (INR (pulsesLen e)) (pulseMaxActive e) = true ->
  links e <> [] ->
  exists e' g' L' F',
    _update cfg (_dt_ms cfg) now e g = Ok (e', g') /\
    pulse_state e' L' F' /\
    length (store e') = S (length (store e)) /\
    length (store e) ∈ L' ++ F' /\
    (pulsesLen e' + _len (pulsePool e') = S (pulsesLen e))%nat /\
    _lastPulseSpawn e' = now.
Proof.
  intros Hst Hscene Hempty Hdue Hlinks. unfold _update.
  destruct (update_motion_total cfg now e g (proj1 Hscene))
    as (e1 & Hm & Hp1 & Hc1 & Hl1 & Hd1 & _ & Hn1 & _).
  rewrite (bind_eq _ _ _ _ _ Hm).
  pose proof (pulse_state_ext _ _ _ _ Hp1 Hst) as Hst1.
  pose proof (scene_ok_ext cfg e e1 Hl1 Hd1 Hn1 Hscene) as Hsc1.
  pose proof Hp1 as (Hstore1 & Hpool1 & _ & Hlen1 & Hlast1).
  destruct (spawn_fire cfg now e1 L F g Hst1 Hsc1)
    as (e2 & g2 & a & F2 & li & Lk & na & nb & Hs & _ & Hst2 & _
        & _ & _ & _ & _ & Hlast2 & Hcase).
  { rewrite Hlast1, Hlen1, Hc1. exact Hdue. }
  { rewrite Hl1. exact Hlinks. }
  rewrite (bind_eq _ _ _ _ _ Hs).
  destruct Hcase as [(_ & Ha & Hlen2 & HF2)|(Hpos & _)];
    [|rewrite Hpool1 in Hpos; lia].
  destruct (advance_spec cfg (_dt_ms cfg) e2 (L ++ [a]) F2 g2 Hst2)
    as (e3 & Hadv & _ & Hlast3 & Hst3 & Hlen3 & _).
  set (arr := fun b : nat =>
         arrives (PULSE_SPEED cfg * (_dt_ms cfg / 1000)) (store e2) b = true)
    in *.
  exists e3, g2, (filter (fun b => ~ arr b) (L ++ [a])),
    (F2 ++ filter arr (L ++ [a])).
  split; [exact Hadv|]. split; [exact Hst3|].
  split; [rewrite Hlen3, Hlen2, Hstore1; reflexivity|].
  assert (Hperm : filter arr (L ++ [a]) ++ filter (fun b => ~ arr b) (L ++ [a])
                  ≡ₚ L ++ [a]).
  { apply filter_app_complement. }
  split.
  { rewrite <- Hstore1, <- Ha.
    assert (Hin : a ∈ filter arr (L ++ [a])
                      ++ filter (fun b => ~ arr b) (L ++ [a])).
    { rewrite Hperm. apply elem_of_app. right.
      apply list_elem_of_singleton. reflexivity. }
    apply elem_of_app in Hin as [Hin|Hin].
    - apply elem_of_app. right. apply elem_of_app. right. exact Hin.
    - apply elem_of_app. left. exact Hin. }
  split; [|congruence].
  pose proof (pulse_state_count _ _ _ Hst3) as [-> ->].
  pose proof (pulse_state_count _ _ _ Hst) as [-> HF].
  rewrite Hempty in HF.
  assert (Hcount : (length (filter (fun b => ~ arr b) (L ++ [a]))
                    + length (F2 ++ filter arr (L ++ [a])) = S (length L))%nat).
  { apply Permutation_length in Hperm.
    rewrite !length_app in Hperm. rewrite length_app, HF2, <- HF.
    simpl in Hperm |- *. lia. }
  exact Hcount.
Qed.

(** ** Pulses advance and are released *)

Lemma enough_ticks (x inc : R) :
  0 < inc -> exists n : nat, x <= INR n * inc.
Proof.
  intros Hinc.
  destruct (Rle_dec x 0) as [Hx|Hx].
  - exists 0%nat. simpl. lra.
  - assert (Hpos : 0 < x / inc).
    { unfold Rdiv. apply Rmult_lt_0_compat; [lra|].
      apply Rinv_0_lt_compat. exact Hinc. }
    destruct (archimed (x / inc)) as [Hup _].
    assert (Hz : (0 < up (x / inc))%Z) by (apply lt_IZR; lra).
    exists (Z.to_nat (up (x / inc))).
    rewrite INR_IZR_INZ, Z2Nat.id by lia.
    replace x with (x / inc * inc) at 1 by (field; lra).
    apply Rmult_le_compat_r; lra.
Qed.

(** A live pulse of a sound state: the increment of a tick is positive,
    a tick returns and either releases the pulse or leaves it live with a
    larger [t], and enough ticks release it. *)
Lemma live_pulse_tick (cfg : Config) (fuel : nat) (e : Engine)
    (L F : list nat) (a : nat) (p : Pulse) (g : Rng) :
  0 < PULSE_SPEED cfg -> 0 < UPDATE_HZ cfg ->
  pulse_state e L F -> scene_ok cfg e ->
  a ∈ L -> store e !! a = Some p ->
  (forall e0, reachable cfg e0 -> Forall (fun q => 1 <= dist q) (store e0)) /\
  1 <= dist p /\ 0 < pulse_step cfg p /\
  (forall now, exists e' g' L' F',
     _update cfg (_dt_ms cfg) now e g = Ok (e', g') /\
     pulse_state e' L' F' /\
     Forall (fun q => 1 <= dist q) (store e') /\
     (1 <= t p + pulse_step cfg p ->
      a ∈ F' /\ (a ∉ L') /\ store e' !! a = Some fresh_pulse) /\
     (t p + pulse_step cfg p < 1 ->
      a ∈ L' /\ exists p', store e' !! a = Some p' /\
        t p' = t p + pulse_step cfg p /\ t p < t p' /\ dist p' = dist p)) /\
  exists n : nat, forall nows : list R, length nows = n ->
    exists k e' g' L' F',
      (k <= n)%nat /\
      run cfg fuel (Tick <$> take k nows) e g = Ok (e', g') /\
      pulse_state e' L' F' /\ a ∈ F' /\ (a ∉ L') /\
      store e' !! a = Some fresh_pulse.
Proof.
  intros Hspeed Hhz Hst Hsc Ha Hp.
  split; [intros e0; apply reachable_store_ok|].
  assert (Hdist : 1 <= dist p).
  { destruct Hst as (_&_&_&_&_&_&_&Hd).
    rewrite Forall_forall in Hd. apply Hd.
    apply list_elem_of_lookup. eauto. }
  assert (Hinc : 0 < pulse_step cfg p).
  { unfold pulse_step, _dt_ms, Rdiv.
    repeat apply Rmult_lt_0_compat; try lra;
      apply Rinv_0_lt_compat; lra. }
  split; [exact Hdist|]. split; [exact Hinc|]. split.
  - intros now.
    destruct (update_wf cfg (_dt_ms cfg) now e L F g Hst Hsc)
      as (e' & g' & L' & F' & Hup & Hst' & _ & Hall).
    exists e', g', L', F'. split; [exact Hup|]. split; [exact Hst'|].
    split; [destruct Hst' as (_&_&_&_&_&_&_&Hd); exact Hd|].
    specialize (Hall a Ha). unfold arrives in Hall. rewrite Hp in Hall.
    fold (pulse_step cfg p) in Hall.
    split.
    + intros Harr. apply leb_true in Harr. rewrite Harr in Hall.
      destruct Hall as (H1 & H2 & H3). auto.
    + intros Harr. apply leb_false in Harr. rewrite Harr in Hall.
      destruct Hall as (H1 & H2). split; [exact H2|].
      exists (advance_pulse (PULSE_SPEED cfg * (_dt_ms cfg / 1000)) p).
      split; [exact H1|]. unfold advance_pulse. cbn [t dist].
      fold (pulse_step cfg p). split; [reflexivity|].
      split; [lra|reflexivity].
  - destruct (enough_ticks (1 - t p) (pulse_step cfg p) Hinc) as (n & Hn).
    exists n. intros nows Hlen.
    destruct (eventually_released cfg fuel nows e L F a p g Hst Hsc Ha Hp)
      as (k & e' & g' & L' & F' & Hk & Hrun).
    + rewrite Hlen. exact Hn.
    + exists k, e', g', L', F'. split; [lia|exact Hrun].
Qed.

(** ** Instances of the motion and resize theorems *)

Lemma same_orbits_refl (e : Engine) : same_orbits e e.
Proof.
  unfold same_orbits. repeat (split; [reflexivity|]).
  intros i n n' H1 H2. rewrite H1 in H2. inversion H2. subst n'.
  repeat split; reflexivity.
Qed.

Lemma demo_moving_sound :
  pulse_state demo_moving [] (seq 0 12) /\ scene_ok CONFIG demo_moving.
Proof.
  split.
  - apply (pulse_state_ext demo_engine); [repeat split|].
    apply demo_pulse_state.
  - apply (scene_ok_ext CONFIG demo_engine); try reflexivity.
    apply static_demo_scene; [simpl; lia|apply demo_static].
Qed.

Lemma seamless_loop_witness :
  exists r r' gr gr',
    _update CONFIG (_dt_ms CONFIG) 5000 demo_moving zero_rng = Ok (r, gr) /\
    _update CONFIG (_dt_ms CONFIG) (5000 + LOOP_DURATION_MS CONFIG)
      demo_moving zero_rng = Ok (r', gr') /\
    nodes r' = nodes r.
Proof.
  destruct demo_moving_sound as [Hst Hsc].
  destruct (update_wf CONFIG (_dt_ms CONFIG) 5000 demo_moving [] (seq 0 12)
              zero_rng Hst Hsc) as (r & gr & _ & _ & Hup & _).
  destruct (update_wf CONFIG (_dt_ms CONFIG) (5000 + LOOP_DURATION_MS CONFIG)
              demo_moving [] (seq 0 12) zero_rng Hst Hsc)
    as (r' & gr' & _ & _ & Hup' & _).
  exists r, r', gr, gr'. split; [exact Hup|]. split; [exact Hup'|].
  apply (seamless_loop CONFIG (_dt_ms CONFIG) (_dt_ms CONFIG) 5000
           demo_moving demo_moving r r' zero_rng zero_rng gr gr').
  - simpl. lra.
  - exists 1%Z. reflexivity.
  - exists 1%Z. reflexivity.
  - apply same_orbits_refl.
  - exact Hup.
  - exact Hup'.
Defined.

Lemma update_frame_witness :
  exists e' g',
    _update CONFIG (_dt_ms CONFIG) 5000 demo_engine zero_rng = Ok (e', g') /\
    length (nodes e') = length (nodes demo_engine) /\
    movingFlags e' = movingFlags demo_engine /\
    forall i n, nodes demo_engine !! i = Some n ->
      exists n', nodes e' !! i = Some n' /\
        Fg.id n' = Fg.id n /\ Fg.ox n' = Fg.ox n /\ Fg.oy n' = Fg.oy n /\
        Fg.z n' = Fg.z n /\ Fg.seedPhase n' = Fg.seedPhase n /\
        (default false (movingFlags demo_engine !! i) = false ->
         Fg.x n' = Fg.x n /\ Fg.y n' = Fg.y n /\
         (Fg.x n = Fg.ox n -> Fg.y n = Fg.oy n ->
          Fg.x n' = Fg.ox n' /\ Fg.y n' = Fg.oy n')).
Proof.
  assert (Hsc : scene_ok CONFIG demo_engine)
    by (apply static_demo_scene; [simpl; lia|apply demo_static]).
  destruct (update_wf CONFIG (_dt_ms CONFIG) 5000 demo_engine [] (seq 0 12)
              zero_rng (demo_pulse_state 12) Hsc)
    as (e' & g' & _ & _ & Hup & _).
  exists e', g'. split; [exact Hup|].
  apply (update_frame CONFIG (_dt_ms CONFIG) 5000 demo_engine e' zero_rng g').
  exact Hup.
Defined.

(** ** Every reachable state is sound *)

Lemma key_range (i j n : nat) :
  (i < n)%nat -> (j < n)%nat -> In (key i j) (list_prod (seq 0 n) (seq 0 n)).
Proof.
  intros Hi Hj. unfold key.
  destruct (i <? j)%nat; apply in_prod; apply in_seq; lia.
Qed.

(** Links between existing nodes, no pair twice, are at most [n * n]. *)
Lemma links_bound (nds : list Fg.Node) (d : R) (lks : list Fg.Link) :
  Forall (link_ok nds d) lks -> NoDup (map link_key lks) ->
  (length lks <= length nds * length nds)%nat.
Proof.
  intros Hok Hnd.
  rewrite <- (length_map link_key lks).
  rewrite <- (length_seq (length nds) 0) at 1 2.
  rewrite <- length_prod.
  apply submseteq_length, NoDup_submseteq; [exact Hnd|].
  intros k Hk. apply list_elem_of_In.
  apply list_elem_of_In, in_map_iff in Hk as (L & <- & HL).
  rewrite Forall_forall in Hok.
  destruct (Hok L) as (_ & a & b & Ha & Hb & _); [apply list_elem_of_In; exact HL|].
  apply lookup_lt_Some in Ha, Hb.
  unfold link_key. apply key_range; assumption.
Qed.

Lemma targets_bound (cfg : Config) (e : Engine) (w h : R) :
  config_ok cfg -> nodeMax e = scaled_node_max cfg w h ->
  ((_getTargetCounts cfg e).1 <= 46340)%Z.
Proof.
  intros (_ & [H16 Hmax] & Hs) Hm.
  unfold _getTargetCounts. cbn [fst]. rewrite Hm.
  pose proof (clamp_range
                (IZR (JS.round (BASE_NODE_COUNT cfg
                   * (Rmax 1 (w * h) / (BASE_WIDTH cfg * BASE_HEIGHT cfg)))))
                16 (NODE_COUNT cfg) H16) as Hc.
  fold (scaled_node_max cfg w h) in Hc.
  apply Z.max_lub; [lia|].
  set (scale := if JS.ltb _ _ then MOBILE_SCALE cfg else 1).
  assert (Hscale : scale <= 1) by (unfold scale; destruct (JS.ltb _ _); lra).
  assert (Hx : scaled_node_max cfg w h * scale <= 46340) by nra.
  unfold JS.round.
  rewrite <- (Zfloor_eq 46340 (46340 + / 2)) by lra.
  apply Zfloor_le. lra.
Qed.

Lemma scene_ok_intro (cfg : Config) (e : Engine) :
  (2 <= length (PARALLAX_BANDS cfg))%nat ->
  Forall (link_ok (nodes e) (linkDistanceMax e)) (links e) ->
  NoDup (map link_key (links e)) ->
  dynamicLinks e =
    filter (fun idx => is_dynamic (links e) (movingFlags e) idx = true)
           (seq 0 (length (links e))) ->
  (Z.of_nat (length (nodes e)) <= 46340)%Z ->
  scene_ok cfg e.
Proof.
  intros Hb Hok Hnd Hdyn Hn.
  pose proof (links_bound _ _ _ Hok Hnd) as Hlen.
  assert (Hl : (Z.of_nat (length (links e)) < 2 ^ 31)%Z).
  { change (2 ^ 31)%Z with 2147483648%Z. nia. }
  unfold scene_ok.
  split; [exact Hb|]. split; [exact Hl|]. split.
  { rewrite Hdyn.
    pose proof (length_filter
                  (fun idx => is_dynamic (links e) (movingFlags e) idx = true)
                  (seq 0 (length (links e)))) as Hf.
    rewrite length_seq in Hf. lia. }
  split.
  { intros idx Hidx. rewrite Hdyn in Hidx.
    apply list_elem_of_filter in Hidx as [_ Hidx].
    apply elem_of_seq in Hidx. lia. }
  intros L HL. rewrite Forall_forall in Hok.
  destruct (Hok L HL) as (_ & a & b & Ha & Hb' & _).
  apply lookup_lt_Some in Ha, Hb'. split; assumption.
Qed.

Lemma constructed_scene_ok (cfg : Config) (e : Engine) :
  config_ok cfg -> constructed cfg e -> scene_ok cfg e.
Proof.
  intros Hcfg (_ & _ & _ & _ & _ & Hpop & Hok & Hdyn & Hnd & Hm).
  apply scene_ok_intro; try assumption; [apply Hcfg|].
  pose proof (targets_bound cfg e _ _ Hcfg Hm) as Ht.
  unfold population_consistent in Hpop. rewrite Hpop in Ht.
  cbn [fst] in Ht. lia.
Qed.

Lemma constructed_pulse_state (cfg : Config) (e : Engine) :
  constructed cfg e -> pulse_state e [] (seq 0 (PULSE_POOL_SIZE cfg)).
Proof.
  intros (Hlen & Hpool & Hps & _).
  unfold pool_of in Hpool. inversion Hpool as [[Hs Hp]].
  unfold pulse_state. rewrite Hlen, Hs, Hp. cbn [_len _pool].
  split; [reflexivity|]. split; [reflexivity|].
  split.
  { rewrite firstn_all2; [reflexivity|].
    rewrite length_fmap, length_seq. lia. }
  split; [apply length_seq|].
  split; [apply NoDup_seq|].
  split.
  { intros a Ha. apply list_elem_of_In, in_seq in Ha.
    rewrite length_replicate. lia. }
  split; [intros a Ha; apply elem_of_nil in Ha; contradiction|].
  apply Forall_replicate. simpl. lra.
Qed.

Lemma resize_scene_ok (cfg : Config) (fuel : nat) (w h : R)
    (e e' : Engine) g g' :
  config_ok cfg ->
  _resize cfg fuel false w h e g = Ok (e', g') -> scene_ok cfg e'.
Proof.
  intros Hcfg H. unfold _resize in H.
  set (e1 := set_size (_applyResponsiveScaling cfg e w h) w h) in *.
  assert (Hm1 : nodeMax e1 = scaled_node_max cfg w h) by reflexivity.
  pose proof (targets_bound cfg e1 w h Hcfg Hm1) as Ht.
  pose proof (targets_ge cfg e1) as [H16 _].
  destruct (negb (needRebuild cfg false e1) && _) eqn:Hcond.
  - apply andb_prop in Hcond as [Hneed _].
    apply negb_true_iff in Hneed. unfold needRebuild in Hneed.
    destruct (_getTargetCounts cfg e1) as [c1 c2]. cbn [fst] in Ht, H16.
    apply orb_false_iff in Hneed as [Hneed _].
    apply orb_false_iff in Hneed as [_ Hneed].
    apply negb_false_iff, Z.eqb_eq in Hneed.
    apply bind_Ok in H as (e3 & g3 & Hl & Hb).
    destruct (build_scene _ _ _ _ _ _ _ Hl Hb) as (Hn & _ & Hok & Hnd & Hdyn).
    apply scene_ok_intro; try assumption; [apply Hcfg|].
    rewrite Hn. cbn [nodes set_population]. rewrite length_map. lia.
  - cbn [negb] in H.
    apply bind_Ok in H as (e2 & g2 & Hs & H).
    apply bind_Ok in H as (e3 & g3 & Hl & Hb).
    destruct (build_scene _ _ _ _ _ _ _ Hl Hb) as (Hn & _ & Hok & Hnd & Hdyn).
    apply setupNodesEven_Ok in Hs as (nds & bgs & flags & -> & Hlen & _).
    apply scene_ok_intro; try assumption; [apply Hcfg|].
    rewrite Hn. cbn [nodes set_population]. rewrite Hlen. lia.
Qed.

(** The pulse bookkeeping is sound in every reachable state, and a tick
    can run there. *)
Lemma reachable_sound (cfg : Config) (e : Engine) :
  config_ok cfg -> reachable cfg e ->
  exists L F, pulse_state e L F /\ scene_ok cfg e.
Proof.
  intros Hcfg Hr. induction Hr as [e Hc|e e' fuel ev g g' Hr IH Hstep].
  - exists [], (seq 0 (PULSE_POOL_SIZE cfg)).
    split; [apply constructed_pulse_state; exact Hc|].
    apply constructed_scene_ok; assumption.
  - destruct IH as (L & F & Hst & Hsc).
    destruct ev as [now|w h]; cbn [step] in Hstep.
    + destruct (update_wf cfg (_dt_ms cfg) now e L F g Hst Hsc)
        as (e2 & g2 & L' & F' & Hup & Hst' & Hsc' & _).
      rewrite Hup in Hstep. inversion Hstep; subst e2 g2.
      exists L', F'. split; assumption.
    + exists L, F. split.
      * apply resize_pulses in Hstep as (Hp & _).
        eapply pulse_state_ext; eassumption.
      * eapply resize_scene_ok; eassumption.
Qed.

Lemma live_spec (e : Engine) (L F : list nat) (a : nat) :
  pulse_state e L F -> (live e a <-> a ∈ L).
Proof.
  intros (Hlive & HlenL & _). unfold live. split.
  - intros (i & Hi & Hp).
    rewrite <- (lookup_take_lt _ (pulsesLen e)) in Hp by exact Hi.
    rewrite Hlive, list_lookup_fmap in Hp.
    destruct (L !! i) as [b|] eqn:E; inversion Hp; subst b.
    eapply list_elem_of_lookup_2. exact E.
  - intros Ha. apply list_elem_of_lookup_1 in Ha as (i & Hi).
    pose proof (lookup_lt_Some _ _ _ Hi) as Hlt. rewrite HlenL in Hlt.
    exists i. split; [exact Hlt|].
    rewrite <- (lookup_take_lt _ (pulsesLen e)) by exact Hlt.
    rewrite Hlive, list_lookup_fmap, Hi. reflexivity.
Qed.

Lemma pooled_spec (e : Engine) (L F : list nat) (a : nat) :
  pulse_state e L F -> (pooled e a <-> a ∈ F).
Proof.
  intros (_ & _ & Hfree & HlenF & _). unfold pooled. split.
  - intros (i & Hi & Hp).
    rewrite <- (lookup_take_lt _ (_len (pulsePool e))) in Hp by exact Hi.
    rewrite Hfree, list_lookup_fmap in Hp.
    destruct (F !! i) as [b|] eqn:E; inversion Hp; subst b.
    eapply list_elem_of_lookup_2. exact E.
  - intros Ha. apply list_elem_of_lookup_1 in Ha as (i & Hi).
    pose proof (lookup_lt_Some _ _ _ Hi) as Hlt. rewrite HlenF in Hlt.
    exists i. split; [exact Hlt|].
    rewrite <- (lookup_take_lt _ (_len (pulsePool e))) by exact Hlt.
    rewrite Hfree, list_lookup_fmap, Hi. reflexivity.
Qed.

Lemma config_ok_CONFIG (n : nat) : config_ok (with_pool_size CONFIG n).
Proof. unfold config_ok. simpl. split; [lia|]. lra. Qed.

(** ** The pulse properties along executions *)

(** C4, as the code has it.  In every reachable state of a sound
    configuration: when a spawn is due, a link exists and the pool is
    empty, the tick returns, [get()] creates one new pulse object (the store
    grows by exactly one, at the next address), that pulse is spawned
    ([_lastPulseSpawn] becomes [now]) and by the end of the tick it is
    either live or, having arrived at once, in the pool: the live pulses
    and the pooled ones together are one more than the live pulses
    before. *)
Theorem pool_exhaustion_creates (cfg : Config) (now : R) (e : Engine)
    (g : Rng) :
  config_ok cfg -> reachable cfg e ->
  _len (pulsePool e) = 0%nat ->
  JS.leb (PULSE_SPAWN_EVERY_MS cfg) (now - _lastPulseSpawn e)
  && JS.ltb (INR (pulsesLen e)) (pulseMaxActive e) = true ->
  links e <> [] ->
  exists e' g',
    _update cfg (_dt_ms cfg) now e g = Ok (e', g') /\
    length (store e') = S (length (store e)) /\
    (live e' (length (store e)) \/ pooled e' (length (store e))) /\
    (pulsesLen e' + _len (pulsePool e') = S (pulsesLen e))%nat /\
    _lastPulseSpawn e' = now.
Proof.
  intros Hcfg Hr Hempty Hdue Hlinks.
  destruct (reachable_sound cfg e Hcfg Hr) as (L & F & Hst & Hsc).
  destruct (empty_pool_tick cfg now e L F g Hst Hsc Hempty Hdue Hlinks)
    as (e' & g' & L' & F' & Hup & Hst' & Hlen & Hin & Hcount & Hlast).
  exists e', g'. split; [exact Hup|]. split; [exact Hlen|].
  split; [|split; assumption].
  apply elem_of_app in Hin as [Hin|Hin].
  - left. apply (live_spec e' L' F'); assumption.
  - right. apply (pooled_spec e' L' F'); assumption.
Qed.

Lemma pool_exhaustion_creates_witness :
  exists e' g',
    _update (with_pool_size CONFIG 0) (_dt_ms (with_pool_size CONFIG 0)) 1000
      (demo_engine_n 0) zero_rng = Ok (e', g') /\
    length (store e') = S (length (store (demo_engine_n 0))) /\
    (live e' (length (store (demo_engine_n 0)))
     \/ pooled e' (length (store (demo_engine_n 0)))) /\
    (pulsesLen e' + _len (pulsePool e') = S (pulsesLen (demo_engine_n 0)))%nat /\
    _lastPulseSpawn e' = 1000.
Proof.
  apply (pool_exhaustion_creates (with_pool_size CONFIG 0) 1000
           (demo_engine_n 0) zero_rng).
  - apply config_ok_CONFIG.
  - apply reach_init. apply demo_constructed.
  - reflexivity.
  - apply andb_true_intro. split; [apply leb_true|apply ltb_true]; simpl; lra.
  - discriminate.
Defined.

(** C10.  For a configuration with a positive pulse speed and update
    rate and a loop duration other than 0: every pulse object of every reachable state has [dist >= 1]; and
    for a live pulse [p] of a reachable state, the increment [tInc / dist]
    of a tick is positive and well defined, a tick returns, and it either
    releases the pulse to the pool (when [t + tInc / dist >= 1]) or leaves
    it live with a strictly larger [t] and the same [dist]; and there is a
    number of ticks within which the pulse is released, whatever the frame
    times. *)
Theorem pulse_advance_safety (cfg : Config) (fuel : nat) (e : Engine)
    (a : nat) (p : Pulse) (g : Rng) :
  0 < PULSE_SPEED cfg -> 0 < UPDATE_HZ cfg ->
  LOOP_DURATION_MS cfg <> 0 -> config_ok cfg ->
  reachable cfg e -> live e a -> store e !! a = Some p ->
  (forall e0, reachable cfg e0 -> Forall (fun q => 1 <= dist q) (store e0)) /\
  1 <= dist p /\ 0 < pulse_step cfg p /\
  (forall now, exists e' g',
     _update cfg (_dt_ms cfg) now e g = Ok (e', g') /\
     (1 <= t p + pulse_step cfg p ->
      pooled e' a /\ ~ live e' a /\ store e' !! a = Some fresh_pulse) /\
     (t p + pulse_step cfg p < 1 ->
      live e' a /\ exists p', store e' !! a = Some p' /\
        t p' = t p + pulse_step cfg p /\ t p < t p' /\ dist p' = dist p)) /\
  exists n : nat, forall nows : list R, length nows = n ->
    exists k e' g',
      (k <= n)%nat /\
      run cfg fuel (Tick <$> take k nows) e g = Ok (e', g') /\
      pooled e' a /\ ~ live e' a /\ store e' !! a = Some fresh_pulse.
Proof.
  intros Hspeed Hhz _ Hcfg Hr Hlive Hp.
  destruct (reachable_sound cfg e Hcfg Hr) as (L & F & Hst & Hsc).
  apply (live_spec e L F a Hst) in Hlive.
  destruct (live_pulse_tick cfg fuel e L F a p g Hspeed Hhz Hst Hsc Hlive Hp)
    as (Hall & Hdist & Hinc & Htick & n & Hrel).
  split; [exact Hall|]. split; [exact Hdist|]. split; [exact Hinc|]. split.
  - intros now.
    destruct (Htick now) as (e' & g' & L' & F' & Hup & Hst' & _ & Harr & Hadv).
    exists e', g'. split; [exact Hup|]. split.
    + intros H1. destruct (Harr H1) as (HF & HL & Hs).
      split; [apply (pooled_spec e' L' F'); assumption|].
      split; [|exact Hs].
      intros Hl. apply HL. apply (live_spec e' L' F'); assumption.
    + intros H1. destruct (Hadv H1) as (HL & Hp').
      split; [apply (live_spec e' L' F'); assumption|exact Hp'].
  - exists n. intros nows Hlen.
    destruct (Hrel nows Hlen)
      as (k & e' & g' & L' & F' & Hk & Hrun & Hst' & HF & HL & Hs).
    exists k, e', g'. split; [exact Hk|]. split; [exact Hrun|].
    split; [apply (pooled_spec e' L' F'); assumption|].
    split; [|exact Hs].
    intros Hl. apply HL. apply (live_spec e' L' F'); assumption.
Qed.

Lemma pulse_advance_safety_witness :
  exists (e : Engine) (a : nat) (p : Pulse) (g : Rng),
    reachable CONFIG e /\ live e a /\ store e !! a = Some p /\
    (forall e0, reachable CONFIG e0 ->
       Forall (fun q => 1 <= dist q) (store e0)) /\
    1 <= dist p /\ 0 < pulse_step CONFIG p /\
    (forall now, exists e' g',
       _update CONFIG (_dt_ms CONFIG) now e g = Ok (e', g') /\
       (1 <= t p + pulse_step CONFIG p ->
        pooled e' a /\ ~ live e' a /\ store e' !! a = Some fresh_pulse) /\
       (t p + pulse_step CONFIG p < 1 ->
        live e' a /\ exists p', store e' !! a = Some p' /\
          t p' = t p + pulse_step CONFIG p /\ t p < t p' /\
          dist p' = dist p)) /\
    exists n : nat, forall nows : list R, length nows = n ->
      exists k e' g',
        (k <= n)%nat /\
        run CONFIG 0 (Tick <$> take k nows) e g = Ok (e', g') /\
        pooled e' a /\ ~ live e' a /\ store e' !! a = Some fresh_pulse.
Proof.
  pose proof (demo_tick 12 1000 demo_engine [] (seq 0 12) zero_rng) as H1.
  cbv zeta in H1. change (with_pool_size CONFIG 12) with CONFIG in H1.
  destruct H1 as (e1 & g1 & a1 & F1 & p1 & Hup & _ & Hst1 & _ & _ & Hp1 & _).
  - apply demo_static.
  - apply demo_pulse_state.
  - simpl. lra.
  - simpl. lra.
  - intros a Ha. apply elem_of_nil in Ha. contradiction.
  - assert (Hr : reachable CONFIG e1).
    { apply (reach_step CONFIG demo_engine e1 0 (Tick 1000) zero_rng g1);
        [|exact Hup].
      apply reach_init. exact (demo_constructed 12). }
    assert (Hl : live e1 a1).
    { apply (live_spec e1 ([] ++ [a1]) F1 a1 Hst1).
      apply list_elem_of_singleton. reflexivity. }
    exists e1, a1, p1, g1.
    split; [exact Hr|]. split; [exact Hl|]. split; [exact Hp1|].
    apply (pulse_advance_safety CONFIG 0 e1 a1 p1 g1).
    + simpl. lra.
    + simpl. lra.
    + simpl. lra.
    + exact (config_ok_CONFIG 12).
    + exact Hr.
    + exact Hl.
    + exact Hp1.
Defined.

(** ** The population along executions *)

Lemma update_layout (cfg : Config) (dt now : R) (e e' : Engine) g g' :
  _update cfg dt now e g = Ok (e', g') ->
  width e' = width e /\ height e' = height e /\
  nodeMax e' = nodeMax e /\ bgNodeMax e' = bgNodeMax e /\
  bgNodes e' = bgNodes e /\ length (nodes e') = length (nodes e).
Proof.
  unfold _update. intros H.
  apply bind_Ok in H as (e1 & g1 & Hm & H).
  apply bind_Ok in H as (e2 & g2 & Hs & Ha).
  apply update_spawn_scene in Hs. apply update_advance_scene in Ha.
  pose proof (same_scene_trans _ _ _ Hs Ha)
    as (Hw&Hh&_&_&Hn&Hb&_&_&_&_&_&_&_&_&_&Hnm&Hbm&_).
  unfold update_motion in Hm.
  apply bind_Ok in Hm as (near & g3 & _ & Hm).
  apply bind_Ok in Hm as (mid & g4 & _ & Hm).
  apply ret_Ok in Hm as [-> _].
  rewrite Hw, Hh, Hnm, Hbm, Hb, Hn. cbn [width height nodeMax bgNodeMax
    bgNodes nodes set_motion].
  rewrite length_imap. repeat split.
Qed.

(** In every reachable state the population has the size the layout asks
    for. *)
Lemma reachable_population_consistent (cfg : Config) (e : Engine) :
  reachable cfg e -> population_consistent cfg e.
Proof.
  intros Hr. induction Hr as [e Hc|e e' fuel ev g g' Hr IH Hstep].
  - apply Hc.
  - destruct ev as [now|w h]; cbn [step] in Hstep.
    + apply update_layout in Hstep as (Hw & Hh & Hnm & Hbm & Hb & Hn).
      unfold population_consistent in *.
      rewrite (targets_ext cfg e e' Hw Hh Hnm Hbm), Hb, Hn. exact IH.
    + unfold _resize in Hstep.
      set (e1 := set_size (_applyResponsiveScaling cfg e w h) w h) in *.
      destruct (negb (needRebuild cfg false e1) && _) eqn:Hcond.
      * apply andb_prop in Hcond as [Hneed _].
        apply negb_true_iff in Hneed. unfold needRebuild in Hneed.
        destruct (_getTargetCounts cfg e1) as [c1 c2] eqn:Ht.
        apply orb_false_iff in Hneed as [Hneed Hbg].
        apply orb_false_iff in Hneed as [_ Hneed].
        apply negb_false_iff, Z.eqb_eq in Hneed.
        apply negb_false_iff, Z.eqb_eq in Hbg.
        apply bind_Ok in Hstep as (e3 & g3 & Hl & Hb).
        pose proof (buildLinks_pulses _ _ _ _ _ Hl)
          as (_ & _ & Hw & Hh & Hnm & Hbm & Hbn).
        apply buildLinks_Ok in Hl as (lks & g4 & _ & Hn3 & _).
        apply buildBgLinks_Ok in Hb as (edges & g5 & _ & ->).
        unfold population_consistent.
        rewrite (targets_ext cfg e1 (set_bgLinks e3 edges)) by assumption.
        rewrite Ht.
        change (nodes (set_bgLinks e3 edges)) with (nodes e3).
        change (bgNodes (set_bgLinks e3 edges)) with (bgNodes e3).
        rewrite Hn3, Hbn. cbn [nodes bgNodes set_population].
        rewrite !length_map, <- Hneed, <- Hbg. reflexivity.
      * cbn [negb] in Hstep.
        apply bind_Ok in Hstep as (e2 & g2 & Hs & Hstep).
        apply bind_Ok in Hstep as (e3 & g3 & Hl & Hb).
        apply (setup_build_consistent _ _ _ _ _ _ _ _ _ _ Hs Hl Hb).
Qed.

(** * Further properties of the code *)

(** ** The sampler: termination, bounds and size *)

Lemma loop_final (width height r : R) (k fuel : nat) (st : Poisson.St)
    g l g' :
  0 < r ->
  Poisson.loop width height r k fuel st g = Ok (l, g') ->
  sampler_inv width height r st ->
  exists st', sampler_inv width height r st' /\ l = Poisson.samples st' /\
    exists rest, Poisson.samples st' = Poisson.samples st ++ rest.
Proof.
  intros Hr. revert st g. induction fuel as [|fuel IH]; intros st g H Hinv;
    simpl in H; destruct (Poisson.active st) eqn:Hact.
  - apply ret_Ok in H as [-> _]. exists st. split; [exact Hinv|].
    split; [reflexivity|]. exists []. rewrite app_nil_r. reflexivity.
  - discriminate.
  - apply ret_Ok in H as [-> _]. exists st. split; [exact Hinv|].
    split; [reflexivity|]. exists []. rewrite app_nil_r. reflexivity.
  - apply bind_Ok in H as (u & g1 & _ & H).
    apply bind_Ok in H as (s & g2 & _ & H).
    apply bind_Ok in H as (o & g3 & Ha & H).
    pose proof (attempts_inv width height r Hr _ _ _ _ _ _ Ha Hinv) as Hinv'.
    destruct (attempts_total width height r k s st g2) as (o' & g4 & E & Ho).
    rewrite E in Ha. inversion Ha; subst o' g4.
    destruct o as [st'|].
    + destruct Ho as (a & b & Hst' & _).
      destruct (IH st' g3 H Hinv') as (st2 & Hinv2 & Hl & rest & Hrest).
      exists st2. split; [exact Hinv2|]. split; [exact Hl|].
      exists (Poisson.mkPoint a b :: rest).
      rewrite Hrest, Hst'. simpl. rewrite <- app_assoc. reflexivity.
    + destruct (IH _ g3 H Hinv) as (st2 & Hinv2 & Hl & rest & Hrest).
      exists st2. split; [exact Hinv2|]. split; [exact Hl|].
      exists rest. exact Hrest.
Qed.

(** X1.  The sampler terminates: on a region of positive size with a
    positive spacing whose grid has fewer than [2 ^ 31] cells, [poisson]
    returns, without exception, as soon as the [while] loop is allowed
    twice as many iterations as the grid has cells. *)
Theorem poisson_terminates (width height r : R) (k fuel : nat) (g : Rng) :
  0 < width -> 0 < height -> 0 < r ->
  (Poisson.gridW width r * Poisson.gridH height r < 2 ^ 31)%Z ->
  (2 * Z.to_nat (Poisson.gridW width r * Poisson.gridH height r) <= fuel)%nat ->
  exists pts g', Poisson.poisson width height r k fuel g = Ok (pts, g').
Proof.
  intros Hw Hh Hr Hsmall Hfuel. unfold Poisson.poisson.
  pose proof (first_sample_inv width height r Hw Hh Hr) as Hinv.
  pose proof (samples_bounded width height r Hr _ Hinv) as Hb. simpl in Hb.
  destruct (_ && _) eqn:Hrange.
  - apply loop_total; [exact Hr|exact Hsmall|exact Hinv|simpl; lia|].
    unfold potential. simpl. lia.
  - apply andb_false_iff in Hrange as [H|H].
    + apply Z.leb_gt in H. lia.
    + apply Z.ltb_ge in H. lia.
Qed.

Lemma poisson_terminates_witness :
  exists pts g',
    Poisson.poisson 5 1 2 30
      (2 * Z.to_nat (Poisson.gridW 5 2 * Poisson.gridH 1 2)) zero_rng
    = Ok (pts, g').
Proof.
  apply (poisson_terminates 5 1 2 30 _ zero_rng); try lra.
  - exact sample_grid_small.
  - lia.
Defined.

(** X2.  What the sampler returns: the first point is the centre of the
    region, every point lies in [0, width) x [0, height), and there are
    at most as many points as the grid has cells. *)
Theorem poisson_in_bounds (width height r : R) (k fuel : nat)
    (g g' : Rng) (pts : list Poisson.Point) :
  0 < width -> 0 < height -> 0 < r ->
  Poisson.poisson width height r k fuel g = Ok (pts, g') ->
  (exists rest, pts = Poisson.mkPoint (width / 2) (height / 2) :: rest) /\
  (forall p, p ∈ pts ->
     0 <= Poisson.x p < width /\ 0 <= Poisson.y p < height) /\
  (length pts
   <= Z.to_nat (Poisson.gridW width r * Poisson.gridH height r))%nat.
Proof.
  intros Hw Hh Hr Hrun. unfold Poisson.poisson in Hrun.
  destruct (_ && _) in Hrun; [|discriminate].
  apply (loop_final width height r) in Hrun
    as (st & Hinv & -> & rest & Hrest);
    [|exact Hr|apply first_sample_inv; assumption].
  split; [exists rest; rewrite Hrest; reflexivity|]. split.
  - intros p Hp. destruct Hinv as (Hreg & _).
    apply (Hreg p). apply list_elem_of_In. exact Hp.
  - apply samples_bounded; assumption.
Qed.

Lemma poisson_in_bounds_witness :
  exists pts g',
    Poisson.poisson 5 1 2 30
      (2 * Z.to_nat (Poisson.gridW 5 2 * Poisson.gridH 1 2)) zero_rng
    = Ok (pts, g') /\
    (exists rest, pts = Poisson.mkPoint (5 / 2) (1 / 2) :: rest) /\
    (forall p, p ∈ pts -> 0 <= Poisson.x p < 5 /\ 0 <= Poisson.y p < 1) /\
    (length pts <= Z.to_nat (Poisson.gridW 5 2 * Poisson.gridH 1 2))%nat.
Proof.
  destruct (poisson_total 5 1 2 ltac:(lra) ltac:(lra) ltac:(lra) 30 zero_rng
              sample_grid_small) as (pts & g' & E).
  exists pts, g'. split; [exact E|].
  eapply (poisson_in_bounds 5 1 2 30); [lra|lra|lra|exact E].
Defined.

(** ** The shuffle *)

Lemma insert_head_perm (l : list nat) (j : nat) (x b : nat) :
  l !! j = Some b -> b :: <[j := x]> l ≡ₚ x :: l.
Proof.
  revert j. induction l as [|y l IH]; intros j Hj; [discriminate|].
  destruct j as [|j]; simpl in *.
  - inversion Hj; subst y. apply Permutation_swap.
  - transitivity (y :: b :: <[j := x]> l); [apply Permutation_swap|].
    transitivity (y :: x :: l); [|apply Permutation_swap].
    apply Permutation_skip. apply IH. exact Hj.
Qed.

Lemma swap_perm (arr : list nat) (i j a b : nat) :
  arr !! i = Some a -> arr !! j = Some b ->
  <[j := a]> (<[i := b]> arr) ≡ₚ arr.
Proof.
  revert i j. induction arr as [|x l IH]; intros i j Hi Hj; [discriminate|].
  destruct i as [|i], j as [|j]; simpl in *.
  - inversion Hi; inversion Hj; subst. reflexivity.
  - inversion Hi; subst x. apply insert_head_perm. exact Hj.
  - inversion Hj; subst x. apply insert_head_perm. exact Hi.
  - apply Permutation_skip. apply IH; assumption.
Qed.

Lemma shuffle_from_perm (i : nat) (arr arr' : list nat) g g' :
  shuffle_from i arr g = Ok (arr', g') -> arr' ≡ₚ arr.
Proof.
  revert arr g. induction i as [|i IH]; intros arr g H.
  - apply ret_Ok in H as [-> _]. reflexivity.
  - cbn [shuffle_from] in H.
    apply bind_Ok in H as (u & g1 & _ & H).
    apply bind_Ok in H as (arr1 & g2 & Hs & H).
    apply IH in H. rewrite H.
    unfold swap in Hs.
    apply bind_Ok in Hs as (a & g3 & Ha & Hs).
    apply bind_Ok in Hs as (b & g4 & Hb & Hs).
    apply defined_Ok in Ha as [Ha _]. apply defined_Ok in Hb as [Hb _].
    apply ret_Ok in Hs as [-> _].
    unfold JS.nth_Z in Hb.
    destruct (_ <? 0)%Z; [discriminate|].
    apply swap_perm; assumption.
Qed.

(** X3.  [shuffleArray] on an array shorter than [2 ^ 31] returns, and
    what it returns is a rearrangement of the array: the same elements,
    each as often as before. *)
Theorem shuffleArray_permutation (arr : list nat) (g : Rng) :
  (Z.of_nat (length arr) < 2 ^ 31)%Z ->
  exists arr' g', shuffleArray arr g = Ok (arr', g') /\ arr' ≡ₚ arr.
Proof.
  intros Hlen. unfold shuffleArray.
  destruct (shuffle_from_total (length arr - 1) arr g (le_n _) Hlen)
    as (arr' & g' & E & _).
  exists arr', g'. split; [exact E|].
  eapply shuffle_from_perm. exact E.
Qed.

Lemma shuffleArray_permutation_witness :
  exists arr' g',
    shuffleArray [3; 1; 2]%nat zero_rng = Ok (arr', g') /\
    arr' ≡ₚ [3; 1; 2]%nat.
Proof.
  apply (shuffleArray_permutation [3; 1; 2]%nat zero_rng). simpl. lia.
Defined.

(** ** The pool: release then get, and conservation *)

Lemma array_set_lookup_eq {A : Type} (l : list (option A)) (i : nat)
    (v : option A) :
  JS.array_set l i v !! i = Some v.
Proof.
  unfold JS.array_set. destruct (Nat.ltb_spec i (length l)) as [Hlt|Hge].
  - apply list_lookup_insert_eq. exact Hlt.
  - rewrite lookup_app_r by lia.
    rewrite lookup_app_r by (rewrite length_replicate; lia).
    rewrite length_replicate.
    replace (i - length l - (i - length l))%nat with 0%nat by lia.
    reflexivity.
Qed.

Lemma array_set_lookup_lt {A : Type} (l : list (option A)) (i j : nat)
    (v : option A) :
  (j < i)%nat -> mjoin (JS.array_set l i v !! j) = mjoin (l !! j).
Proof.
  intros Hj. unfold JS.array_set.
  destruct (Nat.ltb_spec i (length l)) as [Hlt|Hge].
  - rewrite list_lookup_insert_ne by lia. reflexivity.
  - destruct (Nat.lt_ge_cases j (length l)) as [Hin|Hout].
    + rewrite lookup_app_l by exact Hin. reflexivity.
    + rewrite lookup_app_r by exact Hout.
      rewrite lookup_app_l by (rewrite length_replicate; lia).
      rewrite (lookup_ge_None_2 l j) by exact Hout.
      destruct (replicate (i - length l) None !! (j - length l)%nat)
        as [o|] eqn:E; [|reflexivity].
      apply lookup_replicate in E as [-> _]. reflexivity.
Qed.

(** X4.  Release then get is a round trip of the pool: [get()] right
    after [release(obj)] hands back the same object, reset to
    [{ linkIndex: -1, t: 0, active: false, dist: 1 }], the pool holds as
    many objects as before the release, and the cells below [_len] read
    as before. *)
Theorem pool_release_get (st : list Pulse) (pool : ObjectPool) (a : nat) :
  (a < length st)%nat ->
  exists st' pool',
    pool_get (pool_release st pool a).1 (pool_release st pool a).2
    = (Some a, st', pool') /\
    st' !! a = Some fresh_pulse /\
    (forall b, b <> a -> st' !! b = st !! b) /\
    _len pool' = _len pool /\
    forall i, (i < _len pool)%nat ->
      mjoin (_pool pool' !! i) = mjoin (_pool pool !! i).
Proof.
  intros Ha. unfold pool_release, pool_get. cbn [fst snd _len _pool].
  replace (S (_len pool) - 1)%nat with (_len pool) by lia.
  rewrite array_set_lookup_eq. cbn [mjoin].
  eexists _, _. split; [reflexivity|].
  split; [apply list_lookup_insert_eq; exact Ha|].
  split; [intros b Hb; apply list_lookup_insert_ne; congruence|].
  split; [reflexivity|].
  intros i Hi. cbn [_pool].
  rewrite !array_set_lookup_lt by exact Hi. reflexivity.
Qed.

Lemma pool_release_get_witness :
  exists st' pool',
    pool_get (pool_release (store demo_engine) (pulsePool demo_engine) 3).1
             (pool_release (store demo_engine) (pulsePool demo_engine) 3).2
    = (Some 3%nat, st', pool') /\
    st' !! 3%nat = Some fresh_pulse /\
    (forall b, b <> 3%nat -> st' !! b = store demo_engine !! b) /\
    _len pool' = _len (pulsePool demo_engine) /\
    forall i, (i < _len (pulsePool demo_engine))%nat ->
      mjoin (_pool pool' !! i) = mjoin (_pool (pulsePool demo_engine) !! i).
Proof.
  apply (pool_release_get (store demo_engine) (pulsePool demo_engine) 3).
  simpl. lia.
Defined.

Lemma update_spawn_conserved (cfg : Config) (now : R) (e e' : Engine) g g' :
  update_spawn cfg now e g = Ok (e', g') ->
  (pulsesLen e + _len (pulsePool e) = length (store e))%nat ->
  (pulsesLen e' + _len (pulsePool e') = length (store e'))%nat.
Proof.
  unfold update_spawn. intros H Hc.
  destruct (_ && _) in H.
  2:{ apply ret_Ok in H as [-> _]. exact Hc. }
  unfold pool_get in H.
  destruct (Nat.ltb_spec 0 (_len (pulsePool e))) as [Hpos|Hzero].
  - apply bind_Ok in H as (p & g1 & _ & H).
    apply bind_Ok in H as (li & g2 & _ & H).
    destruct (negb _) in H.
    + apply bind_Ok in H as (L & g3 & _ & H).
      apply bind_Ok in H as (a & g4 & _ & H).
      apply bind_Ok in H as (b & g5 & _ & H).
      apply ret_Ok in H as [-> _].
      cbn [pulsesLen pulsePool store set_pulses _len].
      rewrite length_insert. lia.
    + unfold pool_release in H. apply ret_Ok in H as [-> _].
      cbn [pulsesLen pulsePool store set_pulses _len].
      rewrite length_insert. lia.
  - apply bind_Ok in H as (p & g1 & _ & H).
    apply bind_Ok in H as (li & g2 & _ & H).
    destruct (negb _) in H.
    + apply bind_Ok in H as (L & g3 & _ & H).
      apply bind_Ok in H as (a & g4 & _ & H).
      apply bind_Ok in H as (b & g5 & _ & H).
      apply ret_Ok in H as [-> _].
      cbn [pulsesLen pulsePool store set_pulses _len].
      rewrite length_insert, length_app. simpl. lia.
    + unfold pool_release in H. apply ret_Ok in H as [-> _].
      cbn [pulsesLen pulsePool store set_pulses _len].
      rewrite length_insert, length_app. simpl. lia.
Qed.

Lemma tick_conserved (cfg : Config) (now : R) (e e' : Engine)
    (L F : list nat) g g' :
  pulse_state e L F -> scene_ok cfg e ->
  (pulsesLen e + _len (pulsePool e) = length (store e))%nat ->
  _update cfg (_dt_ms cfg) now e g = Ok (e', g') ->
  (pulsesLen e' + _len (pulsePool e') = length (store e'))%nat.
Proof.
  intros Hst Hsc Hc H. unfold _update in H.
  destruct (update_motion_total cfg now e g (proj1 Hsc))
    as (e1 & Hm & Hp1 & _ & Hl1 & Hd1 & _ & Hn1 & _).
  rewrite (bind_eq _ _ _ _ _ Hm) in H.
  pose proof (pulse_state_ext _ _ _ _ Hp1 Hst) as Hst1.
  pose proof (scene_ok_ext cfg e e1 Hl1 Hd1 Hn1 Hsc) as Hsc1.
  destruct Hp1 as (Hs1 & Hq1 & _ & Hlen1 & _).
  destruct (spawn_wf cfg now e1 L F g Hst1 Hsc1)
    as (e2 & g2 & L2 & F2 & Hs & _ & Hst2 & _).
  rewrite (bind_eq _ _ _ _ _ Hs) in H.
  apply update_spawn_conserved in Hs; [|rewrite Hs1, Hq1, Hlen1; exact Hc].
  destruct (advance_spec cfg (_dt_ms cfg) e2 L2 F2 g2 Hst2)
    as (e3 & Ha & _ & _ & Hst3 & Hlen3 & _).
  rewrite Ha in H. inversion H; subst e3 g2.
  pose proof (pulse_state_count _ _ _ Hst3) as [-> ->].
  pose proof (pulse_state_count _ _ _ Hst2) as [Hp2 Hf2].
  rewrite Hlen3, <- Hs, Hp2, Hf2, length_app.
  set (arr := fun a : nat =>
         arrives (PULSE_SPEED cfg * (_dt_ms cfg / 1000)) (store e2) a = true).
  pose proof (filter_app_complement arr L2) as Hperm.
  apply Permutation_length in Hperm. rewrite length_app in Hperm.
  fold arr. 
  change (length (filter (fun a => ~ arrives _ (store e2) a = true) L2))
    with (length (filter (fun a => ~ arr a) L2)).
  lia.
Qed.

Lemma reachable_conserved (cfg : Config) (e : Engine) :
  config_ok cfg -> reachable cfg e ->
  (pulsesLen e + _len (pulsePool e) = length (store e))%nat.
Proof.
  intros Hcfg Hr. induction Hr as [e Hc|e e' fuel ev g g' Hr IH Hstep].
  - destruct Hc as (Hlen & Hpool & _). unfold pool_of in Hpool.
    inversion Hpool as [[Hs Hp]]. rewrite Hlen, Hs, Hp. simpl.
    rewrite length_replicate. reflexivity.
  - destruct (reachable_sound cfg e Hcfg Hr) as (L & F & Hst & Hsc).
    destruct ev as [now|w h]; cbn [step] in Hstep.
    + eapply tick_conserved; eassumption.
    + apply resize_pulses in Hstep as ((Hs & Hp & _ & Hl & _) & _).
      rewrite Hs, Hp, Hl. exact IH.
Qed.

(** X5.  Pool conservation.  In every reachable state every pulse object
    ever created is either live or in the pool, never both: the live
    pulses and the pooled ones together number exactly the objects of the
    store, each address below the size of the store is live or pooled, and
    no address is both.  So no pulse leaks and none is released twice. *)
Theorem pool_conservation (cfg : Config) (e : Engine) :
  config_ok cfg -> reachable cfg e ->
  (pulsesLen e + _len (pulsePool e) = length (store e))%nat /\
  (forall a, live e a \/ pooled e a <-> (a < length (store e))%nat) /\
  (forall a, live e a -> ~ pooled e a).
Proof.
  intros Hcfg Hr.
  pose proof (reachable_conserved cfg e Hcfg Hr) as Hc.
  destruct (reachable_sound cfg e Hcfg Hr) as (L & F & Hst & _).
  pose proof (pulse_state_count _ _ _ Hst) as [HL HF].
  pose proof Hst as (_ & _ & _ & _ & Hnd & Hin & _).
  split; [exact Hc|].
  assert (Hperm : L ++ F ≡ₚ seq 0 (length (store e))).
  { apply submseteq_length_Permutation.
    - apply NoDup_submseteq; [exact Hnd|].
      intros a Ha. apply elem_of_seq. specialize (Hin a Ha). lia.
    - rewrite length_seq, length_app. lia. }
  split.
  - intros a. rewrite (live_spec e L F a Hst), (pooled_spec e L F a Hst).
    rewrite <- elem_of_app, Hperm, elem_of_seq. lia.
  - intros a Hl Hp.
    apply (live_spec e L F a Hst) in Hl. apply (pooled_spec e L F a Hst) in Hp.
    apply NoDup_app in Hnd as (_ & Hdisj & _). exact (Hdisj a Hl Hp).
Qed.

Lemma pool_conservation_witness :
  (pulsesLen demo_engine + _len (pulsePool demo_engine)
   = length (store demo_engine))%nat /\
  (forall a, live demo_engine a \/ pooled demo_engine a
             <-> (a < length (store demo_engine))%nat) /\
  (forall a, live demo_engine a -> ~ pooled demo_engine a).
Proof.
  apply (pool_conservation CONFIG demo_engine).
  - exact (config_ok_CONFIG 12).
  - apply reach_init. exact (demo_constructed 12).
Defined.

(** ** Ticks along executions *)

(** X6.  A tick never throws: in every reachable state of a sound
    configuration [_update] returns, whatever the frame time and the
    random draws. *)
Theorem tick_never_throws (cfg : Config) (now : R) (e : Engine) (g : Rng) :
  config_ok cfg -> reachable cfg e ->
  exists e' g', _update cfg (_dt_ms cfg) now e g = Ok (e', g').
Proof.
  intros Hcfg Hr.
  destruct (reachable_sound cfg e Hcfg Hr) as (L & F & Hst & Hsc).
  destruct (update_wf cfg (_dt_ms cfg) now e L F g Hst Hsc)
    as (e' & g' & _ & _ & Hup & _).
  exists e', g'. exact Hup.
Qed.

Lemma tick_never_throws_witness :
  exists e' g', _update CONFIG (_dt_ms CONFIG) 1000 demo_engine zero_rng
                = Ok (e', g').
Proof.
  apply (tick_never_throws CONFIG 1000 demo_engine zero_rng).
  - exact (config_ok_CONFIG 12).
  - apply reach_init. exact (demo_constructed 12).
Defined.

Lemma pick_link_nonempty (e : Engine) (li : Z) (L : Fg.Link) g g' :
  pick_link e g = Ok (li, g') -> JS.nth_Z (links e) li = Some L ->
  links e <> [].
Proof.
  intros _ HL Hnil. rewrite Hnil in HL. unfold JS.nth_Z in HL.
  destruct (li <? 0)%Z; [discriminate|]. rewrite lookup_nil in HL.
  discriminate.
Qed.

(** X7.  Spawning is throttled.  A tick spawns at most one pulse, and
    only when at least [PULSE_SPAWN_EVERY_MS] have passed since the last
    spawn, fewer than [pulseMaxActive] pulses are live and a link exists;
    [_lastPulseSpawn] then becomes the frame time.  Otherwise the clock of
    the last spawn is unchanged and the number of live pulses does not
    grow. *)
Theorem spawn_throttle (cfg : Config) (dt now : R) (e e' : Engine)
    (g g' : Rng) :
  _update cfg dt now e g = Ok (e', g') ->
  (_lastPulseSpawn e' = _lastPulseSpawn e /\
   (pulsesLen e' <= pulsesLen e)%nat) \/
  (_lastPulseSpawn e' = now /\
   PULSE_SPAWN_EVERY_MS cfg <= now - _lastPulseSpawn e /\
   INR (pulsesLen e) < pulseMaxActive e /\
   links e <> [] /\
   (pulsesLen e' <= S (pulsesLen e))%nat).
Proof.
  unfold _update. intros H.
  apply bind_Ok in H as (e1 & g1 & Hm & H).
  apply bind_Ok in H as (e2 & g2 & Hs & Ha).
  assert (H1 : pulsesLen e1 = pulsesLen e /\
               pulseMaxActive e1 = pulseMaxActive e /\
               _lastPulseSpawn e1 = _lastPulseSpawn e /\
               links e1 = links e).
  { unfold update_motion in Hm.
    apply bind_Ok in Hm as (near & g3 & _ & Hm).
    apply bind_Ok in Hm as (mid & g4 & _ & Hm).
    apply ret_Ok in Hm as [-> _]. repeat split. }
  destruct H1 as (Hn1 & Hc1 & Hl1 & Hk1).
  pose proof (update_advance_count _ _ _ _ _ _ Ha) as Hcount.
  assert (Hlast : _lastPulseSpawn e' = _lastPulseSpawn e2).
  { unfold update_advance in Ha.
    apply bind_Ok in Ha as (s & g3 & _ & Ha).
    apply ret_Ok in Ha as [-> _]. reflexivity. }
  unfold update_spawn in Hs.
  destruct (_ && _) eqn:Hdue in Hs.
  2:{ apply ret_Ok in Hs as [-> _]. left. split; [congruence|lia]. }
  apply andb_true_iff in Hdue as [Hint Hcap].
  apply leb_true in Hint. apply ltb_true in Hcap.
  destruct (pool_get _ _) as [[obj st] pool] in Hs.
  apply bind_Ok in Hs as (p & g3 & _ & Hs).
  apply bind_Ok in Hs as (li & g4 & Hpick & Hs).
  destruct (negb _) in Hs.
  - apply bind_Ok in Hs as (L & g5 & HL & Hs).
    apply defined_Ok in HL as [HL _].
    apply bind_Ok in Hs as (a & g6 & _ & Hs).
    apply bind_Ok in Hs as (b & g7 & _ & Hs).
    apply ret_Ok in Hs as [-> _].
    cbn [pulsesLen _lastPulseSpawn set_pulses] in Hcount, Hlast.
    right. split; [exact Hlast|].
    split; [rewrite <- Hl1; exact Hint|].
    split; [rewrite <- Hn1, <- Hc1; exact Hcap|].
    split; [rewrite <- Hk1; eapply pick_link_nonempty; eassumption|lia].
  - destruct (pool_release st pool p) as [st' pool'].
    apply ret_Ok in Hs as [-> _].
    cbn [pulsesLen _lastPulseSpawn set_pulses] in Hcount, Hlast.
    left. split; [congruence|lia].
Qed.

Lemma spawn_throttle_witness :
  exists e' g',
    _update CONFIG (_dt_ms CONFIG) 1000 demo_engine zero_rng = Ok (e', g') /\
    ((_lastPulseSpawn e' = _lastPulseSpawn demo_engine /\
      (pulsesLen e' <= pulsesLen demo_engine)%nat) \/
     (_lastPulseSpawn e' = 1000 /\
      PULSE_SPAWN_EVERY_MS CONFIG <= 1000 - _lastPulseSpawn demo_engine /\
      INR (pulsesLen demo_engine) < pulseMaxActive demo_engine /\
      links demo_engine <> [] /\
      (pulsesLen e' <= S (pulsesLen demo_engine))%nat)).
Proof.
  destruct (update_wf CONFIG (_dt_ms CONFIG) 1000 demo_engine [] (seq 0 12)
              zero_rng (demo_pulse_state 12)
              (static_demo_scene CONFIG demo_engine
                 ltac:(simpl; lia) (demo_static 12)))
    as (e' & g' & _ & _ & Hup & _).
  exists e', g'. split; [exact Hup|].
  apply (spawn_throttle CONFIG (_dt_ms CONFIG) 1000 demo_engine e'
           zero_rng g' Hup).
Defined.

(** ** Resizes along executions *)

(** X8.  After every step of every execution the population has exactly
    the size the current layout asks for: [nodes.length] and
    [bgNodes.length] are the target counts of [_getTargetCounts], so at
    least 16 and 12. *)
Theorem population_matches_targets (cfg : Config) (e : Engine) :
  reachable cfg e ->
  _getTargetCounts cfg e
  = (Z.of_nat (length (nodes e)), Z.of_nat (length (bgNodes e))) /\
  (16 <= length (nodes e))%nat /\ (12 <= length (bgNodes e))%nat.
Proof.
  intros Hr. pose proof (reachable_population_consistent cfg e Hr) as Hp.
  unfold population_consistent in Hp.
  pose proof (targets_ge cfg e) as [H16 H12]. rewrite Hp in H16, H12.
  cbn [fst snd] in H16, H12. split; [exact Hp|]. lia.
Qed.

Lemma population_matches_targets_witness :
  _getTargetCounts CONFIG demo_engine
  = (Z.of_nat (length (nodes demo_engine)),
     Z.of_nat (length (bgNodes demo_engine))) /\
  (16 <= length (nodes demo_engine))%nat /\
  (12 <= length (bgNodes demo_engine))%nat.
Proof.
  apply (population_matches_targets CONFIG demo_engine).
  apply reach_init. exact (demo_constructed 12).
Defined.

(** X9.  A resize leaves the pulse scheduler alone: whichever branch
    [_resize] takes, the pulse objects, the pool, the [pulses] array, the
    number of live pulses and the clock of the last spawn are as before,
    while the viewport becomes the new size and [pulseMaxActive] the cap of
    the new size. *)
Theorem resize_keeps_pulses (cfg : Config) (fuel : nat) (first : bool)
    (w h : R) (e e' : Engine) (g g' : Rng) :
  _resize cfg fuel first w h e g = Ok (e', g') ->
  store e' = store e /\ pulsePool e' = pulsePool e /\
  pulses e' = pulses e /\ pulsesLen e' = pulsesLen e /\
  _lastPulseSpawn e' = _lastPulseSpawn e /\
  width e' = w /\ height e' = h /\
  pulseMaxActive e' = scaled_pulse_cap cfg w h.
Proof.
  intros H.
  apply resize_pulses in H as ((H1 & H2 & H3 & H4 & H5) & Hc & Hw & Hh).
  repeat (split; [assumption|]). exact Hc.
Qed.

Lemma resize_keeps_pulses_witness :
  exists e' g',
    _resize CONFIG 0 false 1728 1080 demo_engine zero_rng = Ok (e', g') /\
    store e' = store demo_engine /\ pulsePool e' = pulsePool demo_engine /\
    pulses e' = pulses demo_engine /\ pulsesLen e' = pulsesLen demo_engine /\
    _lastPulseSpawn e' = _lastPulseSpawn demo_engine /\
    width e' = 1728 /\ height e' = 1080 /\
    pulseMaxActive e' = scaled_pulse_cap CONFIG 1728 1080.
Proof.
  destruct (demo_shrink 12 0 demo_engine zero_rng (demo_static 12))
    as (e' & g' & Hre & _).
  change (with_pool_size CONFIG 12) with CONFIG in Hre.
  exists e', g'. split; [exact Hre|].
  apply (resize_keeps_pulses CONFIG 0 false 1728 1080 demo_engine e'
           zero_rng g' Hre).
Defined.

(** ** The responsive layout *)

Lemma round_le (x y : R) : x <= y -> (JS.round x <= JS.round y)%Z.
Proof. intros H. unfold JS.round. apply Zfloor_le. lra. Qed.

Lemma clamp_le (v v' a b : R) :
  a <= b -> v <= v' -> JS.clamp v a b <= JS.clamp v' a b.
Proof.
  intros Hab Hv. unfold JS.clamp.
  destruct (JS.ltb v a) eqn:E1; destruct (JS.ltb v' a) eqn:E1';
    destruct (JS.ltb b v) eqn:E2; destruct (JS.ltb b v') eqn:E2';
    repeat match goal with
           | H : JS.ltb _ _ = true |- _ => apply ltb_true in H
           | H : JS.ltb _ _ = false |- _ => apply ltb_false in H
           end; lra.
Qed.



(** X11.  The responsive caps are monotone in the area of the container:
    for a configuration with non-negative baseline counts and reaches, a
    positive baseline area and caps above their floors, a container of
    larger area gets a node cap, a background node cap, link reaches and a
    pulse cap that are at least as large. *)
Theorem responsive_scaling_monotone (cfg : Config) (e : Engine)
    (w h w' h' : R) :
  0 < BASE_WIDTH cfg * BASE_HEIGHT cfg ->
  0 <= BASE_NODE_COUNT cfg -> 0 <= BASE_BG_NODE_COUNT cfg ->
  0 <= BASE_MAX_LINK_DISTANCE cfg -> 0 <= BG_LINK_MAX_DISTANCE cfg ->
  0 <= BASE_PULSE_MAX_ACTIVE cfg ->
  16 <= NODE_COUNT cfg -> 12 <= BG_NODE_COUNT cfg ->
  (1 <= PULSE_MAX_ACTIVE cfg)%Z ->
  w * h <= w' * h' ->
  let e1 := _applyResponsiveScaling cfg e w h in
  let e2 := _applyResponsiveScaling cfg e w' h' in
  nodeMax e1 <= nodeMax e2 /\ bgNodeMax e1 <= bgNodeMax e2 /\
  linkDistanceMax e1 <= linkDistanceMax e2 /\
  bgLinkDistanceMax e1 <= bgLinkDistanceMax e2 /\
  pulseMaxActive e1 <= pulseMaxActive e2.
Proof.
  intros Hbase Hn Hb Hl Hbl Hp Hnc Hbc Hpc Harea e1 e2.
  unfold e1, e2, _applyResponsiveScaling, scaled_pulse_cap.
  cbn [nodeMax bgNodeMax linkDistanceMax bgLinkDistanceMax pulseMaxActive
       set_layout].
  set (B := BASE_WIDTH cfg * BASE_HEIGHT cfg) in *.
  assert (Hmax : Rmax 1 (w * h) <= Rmax 1 (w' * h')).
  { apply Rmax_lub; [apply Rmax_l|].
    eapply Rle_trans; [exact Harea|apply Rmax_r]. }
  assert (HkA : Rmax 1 (w * h) / B <= Rmax 1 (w' * h') / B).
  { unfold Rdiv. apply Rmult_le_compat_r; [|exact Hmax].
    apply Rlt_le, Rinv_0_lt_compat. exact Hbase. }
  assert (HkL : sqrt (Rmax 1 (w * h) / B) <= sqrt (Rmax 1 (w' * h') / B))
    by (apply sqrt_le_1_alt; exact HkA).
  assert (Hround : forall c x y, 0 <= c -> x <= y ->
            IZR (JS.round (c * x)) <= IZR (JS.round (c * y))).
  { intros c x y Hc Hxy. apply IZR_le, round_le.
    apply Rmult_le_compat_l; assumption. }
  split; [apply clamp_le; [exact Hnc|apply Hround; assumption]|].
  split; [apply clamp_le; [exact Hbc|apply Hround; assumption]|].
  split.
  { apply Rmax_lub; [apply Rmax_l|].
    eapply Rle_trans; [apply Hround; eassumption|apply Rmax_r]. }
  split.
  { apply Rmax_lub; [apply Rmax_l|].
    eapply Rle_trans; [apply Hround; eassumption|apply Rmax_r]. }
  apply clamp_le; [apply IZR_le; exact Hpc|apply Hround; assumption].
Qed.

Lemma responsive_scaling_monotone_witness :
  nodeMax (_applyResponsiveScaling CONFIG demo_engine 1728 1080)
  <= nodeMax (_applyResponsiveScaling CONFIG demo_engine 2160 1350) /\
  bgNodeMax (_applyResponsiveScaling CONFIG demo_engine 1728 1080)
  <= bgNodeMax (_applyResponsiveScaling CONFIG demo_engine 2160 1350) /\
  linkDistanceMax (_applyResponsiveScaling CONFIG demo_engine 1728 1080)
  <= linkDistanceMax (_applyResponsiveScaling CONFIG demo_engine 2160 1350) /\
  bgLinkDistanceMax (_applyResponsiveScaling CONFIG demo_engine 1728 1080)
  <= bgLinkDistanceMax (_applyResponsiveScaling CONFIG demo_engine 2160 1350) /\
  pulseMaxActive (_applyResponsiveScaling CONFIG demo_engine 1728 1080)
  <= pulseMaxActive (_applyResponsiveScaling CONFIG demo_engine 2160 1350).
Proof.
  apply (responsive_scaling_monotone CONFIG demo_engine 1728 1080 2160 1350);
    simpl; try lra.
  lia.
Defined.

(** ** The population [_setupNodesEven] lays out *)

Lemma random_range (u : R) g g' : random g = Ok (u, g') -> 0 <= u < 1.
Proof.
  unfold random. intros H. inversion H; subst. exact (draw_range (g 0%nat)).
Qed.

Lemma setup_node_laid_out (cfg : Config) (w h spacing : R)
    (pts : list Poisson.Point) (acc acc' : list Fg.Node * list bool)
    (i : nat) g g' :
  0 <= w -> 0 <= h ->
  setup_node cfg w h spacing pts acc i g = Ok (acc', g') ->
  exists n band,
    acc' = (acc.1 ++ [n], acc.2 ++ [move band]) /\
    laid_out w h i n /\ _bandForZ cfg (Fg.z n) = Some band.
Proof.
  intros Hw Hh Hs. unfold setup_node in Hs.
  apply bind_Ok in Hs as (b0 & g5 & _ & Hs).
  apply bind_Ok in Hs as (u1 & g6 & _ & Hs).
  apply bind_Ok in Hs as (u2 & g7 & _ & Hs).
  apply bind_Ok in Hs as (z0 & g8 & Hz & Hs).
  apply bind_Ok in Hs as (sd & g9 & _ & Hs).
  apply bind_Ok in Hs as (b & g10 & Hb & Hs).
  apply defined_Ok in Hb as [Hb _].
  apply ret_Ok in Hs as [-> _].
  eexists _, b. split; [reflexivity|]. split; [|exact Hb].
  unfold laid_out. cbn [Fg.id Fg.ox Fg.oy Fg.x Fg.y Fg.z].
  split; [reflexivity|]. split; [reflexivity|]. split; [reflexivity|].
  split; [apply clamp_range; exact Hw|].
  split; [apply clamp_range; exact Hh|].
  exact (random_range _ _ _ Hz).
Qed.

Lemma setup_bg_node_laid_out (w h bgSpacing : R)
    (bgPts : list Poisson.Point) (acc acc' : list Bg.Node) (i : nat) g g' :
  0 <= w -> 0 <= h ->
  setup_bg_node w h bgSpacing bgPts acc i g = Ok (acc', g') ->
  exists b, acc' = acc ++ [b] /\ bg_laid_out w h b.
Proof.
  intros Hw Hh Hs. unfold setup_bg_node in Hs.
  apply bind_Ok in Hs as (b0 & g5 & _ & Hs).
  apply bind_Ok in Hs as (u1 & g6 & _ & Hs).
  apply bind_Ok in Hs as (u2 & g7 & _ & Hs).
  apply bind_Ok in Hs as (u3 & g8 & Hu3 & Hs).
  apply ret_Ok in Hs as [-> _].
  eexists. split; [reflexivity|].
  unfold bg_laid_out. cbn [Bg.x Bg.y Bg.z].
  split; [apply clamp_range; exact Hw|].
  split; [apply clamp_range; exact Hh|].
  pose proof (random_range _ _ _ Hu3). lra.
Qed.

(** X12.  What [_setupNodesEven] leaves in a viewport of non-negative
    size: exactly the target number of foreground nodes, of movement flags
    and of background nodes; the node at index [i] has [id = i], rests on
    its origin ([ox = x], [oy = y]) inside the viewport, has a depth in
    [0, 1), and its movement flag is the [move] of the band [_bandForZ]
    gives its depth; every background node lies inside the viewport with a
    depth in [0.85, 1).  Links and pulses are not touched. *)
Theorem setupNodesEven_layout (cfg : Config) (fuel : nat) (e e' : Engine)
    (g g' : Rng) :
  0 <= width e -> 0 <= height e ->
  _setupNodesEven cfg fuel e g = Ok (e', g') ->
  Z.of_nat (length (nodes e')) = (_getTargetCounts cfg e).1 /\
  length (movingFlags e') = length (nodes e') /\
  Z.of_nat (length (bgNodes e')) = (_getTargetCounts cfg e).2 /\
  (forall i n, nodes e' !! i = Some n ->
     laid_out (width e) (height e) i n /\
     exists band, _bandForZ cfg (Fg.z n) = Some band /\
                  movingFlags e' !! i = Some (move band)) /\
  (forall i b, bgNodes e' !! i = Some b ->
     bg_laid_out (width e) (height e) b) /\
  links e' = links e /\ bgLinks e' = bgLinks e /\ same_pulses e e'.
Proof.
  intros Hw Hh H.
  pose proof (targets_ge cfg e) as [H16 H12].
  unfold _setupNodesEven in H.
  destruct (_getTargetCounts cfg e) as [nodeCount bgCount].
  cbn [fst snd] in *.
  apply bind_Ok in H as (pts & g1 & _ & H).
  apply bind_Ok in H as (tt1 & g1' & _ & H).
  apply bind_Ok in H as (fg & g2 & Hfg & H).
  apply bind_Ok in H as (bgPts & g3 & _ & H).
  apply bind_Ok in H as (tt2 & g3' & _ & H).
  apply bind_Ok in H as (bgs & g4 & Hbg & H).
  apply ret_Ok in H as [-> _].
  cbn [nodes bgNodes movingFlags links bgLinks set_population].
  apply (foldM_seq_inv _ (fun i acc =>
           length acc.1 = i /\ length acc.2 = i /\
           forall j n, acc.1 !! j = Some n ->
             laid_out (width e) (height e) j n /\
             exists band, _bandForZ cfg (Fg.z n) = Some band /\
                          acc.2 !! j = Some (move band))) in Hfg.
  - apply (foldM_seq_inv _ (fun i acc =>
             length acc = i /\
             forall j b, acc !! j = Some b ->
               bg_laid_out (width e) (height e) b)) in Hbg.
    + cbn [Nat.add] in Hfg, Hbg.
      destruct Hfg as (H1 & H2 & H3). destruct Hbg as (H4 & H5).
      split; [lia|]. split; [congruence|]. split; [lia|].
      split; [exact H3|]. split; [exact H5|]. repeat split.
    + intros i acc g0 acc' g0' _ (Hlen & Hall) Hs.
      apply setup_bg_node_laid_out in Hs as (b & -> & Hb); try assumption.
      split; [rewrite length_app; simpl; lia|].
      intros j b' Hj. apply lookup_app_Some in Hj as [Hj|[_ Hj]].
      * eapply Hall. exact Hj.
      * apply list_lookup_singleton_Some in Hj as [_ <-]. exact Hb.
    + split; [reflexivity|]. intros j b Hj. rewrite lookup_nil in Hj.
      discriminate.
  - intros i acc g0 acc' g0' _ (Hl1 & Hl2 & Hall) Hs.
    apply setup_node_laid_out in Hs as (n & band & -> & Hn & Hband);
      try assumption.
    cbn [fst snd]. rewrite !length_app. simpl.
    split; [lia|]. split; [lia|].
    intros j n' Hj. apply lookup_app_Some in Hj as [Hj|[Hge Hj]].
    + destruct (Hall j n' Hj) as (Hlo & band' & Hb' & Hf').
      split; [exact Hlo|]. exists band'. split; [exact Hb'|].
      apply lookup_app_l_Some. exact Hf'.
    + apply list_lookup_singleton_Some in Hj as [Hj <-].
      assert (j = i) as -> by lia.
      split; [exact Hn|]. exists band. split; [exact Hband|].
      rewrite lookup_app_r by lia.
      replace (i - length acc.2)%nat with 0%nat by lia. reflexivity.
  - cbn [fst snd]. split; [reflexivity|]. split; [reflexivity|].
    intros j n Hj. rewrite lookup_nil in Hj. discriminate.
Qed.

(** ** Orbits *)

Lemma orbit_within (theta phi rx ry M : R) (n : Fg.Node) :
  Rabs rx <= M -> Rabs ry <= M ->
  (Fg.x (orbit theta phi rx ry n) - Fg.ox (orbit theta phi rx ry n)) ^ 2
  + (Fg.y (orbit theta phi rx ry n) - Fg.oy (orbit theta phi rx ry n)) ^ 2
  <= M ^ 2.
Proof.
  intros Hrx Hry. unfold orbit. cbn [Fg.x Fg.y Fg.ox Fg.oy].
  set (cs := cos (Fg.seedPhase n)). set (ss := sin (Fg.seedPhase n)).
  set (c := cos theta * cs - sin theta * ss).
  set (s := sin theta * cs + cos theta * ss).
  pose proof (sin2_cos2 theta) as Ht. pose proof (sin2_cos2 phi) as Hp.
  pose proof (sin2_cos2 (Fg.seedPhase n)) as Hsd.
  unfold Rsqr in Ht, Hp, Hsd. fold cs ss in Hsd.
  assert (Hcs : c * c + s * s = 1).
  { unfold c, s.
    replace ((cos theta * cs - sin theta * ss)
             * (cos theta * cs - sin theta * ss)
             + (sin theta * cs + cos theta * ss)
               * (sin theta * cs + cos theta * ss))
      with ((sin theta * sin theta + cos theta * cos theta)
            * (ss * ss + cs * cs)) by ring.
    rewrite Ht, Hsd. ring. }
  replace ((Fg.ox n + (cos phi * (rx * c) - sin phi * (ry * s)) - Fg.ox n) ^ 2
           + (Fg.oy n + (sin phi * (rx * c) + cos phi * (ry * s)) - Fg.oy n) ^ 2)
    with ((sin phi * sin phi + cos phi * cos phi)
          * (rx * rx * (c * c) + ry * ry * (s * s))) by ring.
  rewrite Hp, Rmult_1_l.
  assert (Hsq : forall a, Rabs a <= M -> a * a <= M * M).
  { intros a Ha. pose proof (Rabs_pos a) as H0.
    pose proof (Rsqr_abs a) as E. unfold Rsqr in E. rewrite E. nra. }
  replace (M ^ 2) with (M * M * (c * c) + M * M * (s * s))
    by (replace (M * M * (c * c) + M * M * (s * s))
          with (M * M * (c * c + s * s)) by ring; rewrite Hcs; ring).
  apply Rplus_le_compat; apply Rmult_le_compat_r;
    first [apply Rle_0_sqr | apply Hsq; assumption].
Qed.

Lemma max_radius_bounds (cfg : Config) (s : R) :
  0 <= s ->
  Rabs (JS.or_else (ELLIPSE_RADIUS_NEAR_X cfg) 0 * s) <= max_radius cfg * s /\
  Rabs (JS.or_else (ELLIPSE_RADIUS_NEAR_Y cfg) 0 * s) <= max_radius cfg * s /\
  Rabs (JS.or_else (ELLIPSE_RADIUS_MID_X cfg) 0 * s) <= max_radius cfg * s /\
  Rabs (JS.or_else (ELLIPSE_RADIUS_MID_Y cfg) 0 * s) <= max_radius cfg * s.
Proof.
  intros Hs. unfold max_radius.
  set (a := Rabs (JS.or_else (ELLIPSE_RADIUS_NEAR_X cfg) 0)).
  set (b := Rabs (JS.or_else (ELLIPSE_RADIUS_NEAR_Y cfg) 0)).
  set (c := Rabs (JS.or_else (ELLIPSE_RADIUS_MID_X cfg) 0)).
  set (d := Rabs (JS.or_else (ELLIPSE_RADIUS_MID_Y cfg) 0)).
  rewrite !Rabs_mult, (Rabs_pos_eq s) by exact Hs. fold a b c d.
  pose proof (Rmax_l (Rmax a b) (Rmax c d)).
  pose proof (Rmax_r (Rmax a b) (Rmax c d)).
  pose proof (Rmax_l a b). pose proof (Rmax_r a b).
  pose proof (Rmax_l c d). pose proof (Rmax_r c d).
  repeat split; apply Rmult_le_compat_r; lra.
Qed.

(** X13.  A moving node never strays from its origin: for a loop
    duration other than 0, after every [_update] the distance between a
    moving node and its origin is at most the largest ellipse radius of
    the configuration scaled by [minDim / 900]. *)
Theorem orbit_bounded (cfg : Config) (dt now : R) (e e' : Engine)
    (g g' : Rng) (i : nat) (n' : Fg.Node) :
  LOOP_DURATION_MS cfg <> 0 ->
  _update cfg dt now e g = Ok (e', g') ->
  nodes e' !! i = Some n' ->
  default false (movingFlags e !! i) = true ->
  (Fg.x n' - Fg.ox n') ^ 2 + (Fg.y n' - Fg.oy n') ^ 2
  <= (max_radius cfg * (minDim e / 900)) ^ 2.
Proof.
  intros _ H Hi Hmove.
  apply update_nodes in H as (near & mid & _ & _ & Hn & _).
  rewrite Hn, list_lookup_imap in Hi.
  destruct (nodes e !! i) as [n|] eqn:En; [|discriminate].
  inversion Hi; subst n'.
  assert (Hs : 0 <= minDim e / 900).
  { unfold minDim. pose proof (Rmax_l 1 (Rmin (width e) (height e))). lra. }
  destruct (max_radius_bounds cfg _ Hs) as (H1 & H2 & H3 & H4).
  unfold move_node. rewrite Hmove. cbn [negb].
  destruct (JS.ltb _ _); apply orbit_within; assumption.
Qed.

Lemma orbit_bounded_witness :
  exists e' g' n',
    _update CONFIG (_dt_ms CONFIG) 5000 demo_moving zero_rng = Ok (e', g') /\
    nodes e' !! 0%nat = Some n' /\
    (Fg.x n' - Fg.ox n') ^ 2 + (Fg.y n' - Fg.oy n') ^ 2
    <= (max_radius CONFIG * (minDim demo_moving / 900)) ^ 2.
Proof.
  destruct demo_moving_sound as [Hst Hsc].
  destruct (update_wf CONFIG (_dt_ms CONFIG) 5000 demo_moving [] (seq 0 12)
              zero_rng Hst Hsc) as (e' & g' & _ & _ & Hup & _).
  pose proof (update_layout CONFIG _ _ _ _ _ _ Hup)
    as (_ & _ & _ & _ & _ & Hlen).
  destruct (nodes e' !! 0%nat) as [n'|] eqn:En.
  - exists e', g', n'. split; [exact Hup|]. split; [exact En|].
    apply (orbit_bounded CONFIG (_dt_ms CONFIG) 5000 demo_moving e'
             zero_rng g' 0 n'); [simpl; lra|exact Hup|exact En|].
    reflexivity.
  - exfalso. apply lookup_ge_None in En.
    rewrite Hlen in En. simpl in En. lia.
Defined.

(** ** Construction and resize return *)

Lemma sqrt2_le_2 : 1 <= sqrt 2 <= 2.
Proof.
  split.
  - rewrite <- sqrt_1 at 1. apply sqrt_le_1_alt. lra.
  - rewrite <- (sqrt_square 2) at 2 by lra. apply sqrt_le_1_alt. lra.
Qed.

(** In a container of at most 100000 pixels a side, a spacing of at least
    18 pixels gives a grid of at most 11112 cells a side. *)
Lemma grid_side_bound (a r : R) :
  0 < a <= 100000 -> 18 <= r ->
  (0 <= Zceil (a / Poisson.cell r) <= 11112)%Z.
Proof.
  intros [Ha0 Ha1] Hr. pose proof sqrt2_le_2 as [Hs1 Hs2].
  assert (Hcell : 9 <= Poisson.cell r).
  { unfold Poisson.cell. apply (Rmult_le_reg_r (sqrt 2)); [lra|].
    unfold Rdiv. rewrite Rmult_assoc, Rinv_l by lra. nra. }
  assert (Hq : 0 <= a / Poisson.cell r <= 11112).
  { split.
    - unfold Rdiv. apply Rmult_le_pos; [lra|].
      apply Rlt_le, Rinv_0_lt_compat. lra.
    - apply (Rmult_le_reg_r (Poisson.cell r)); [lra|].
      unfold Rdiv. rewrite Rmult_assoc, Rinv_l by lra. nra. }
  pose proof (Zceil_bound (a / Poisson.cell r)) as [Hl Hu].
  split; [apply le_IZR; lra|].
  rewrite <- (Zceil_eq 11112 11112) by lra. apply Zceil_le. lra.
Qed.

Lemma sampler_returns (w h r : R) (k fuel : nat) (g : Rng) :
  0 < w <= 100000 -> 0 < h <= 100000 -> 18 <= r ->
  (Z.to_nat 246953088 <= fuel)%nat ->
  exists pts g', Poisson.poisson w h r k fuel g = Ok (pts, g').
Proof.
  intros Hw Hh Hr Hfuel.
  pose proof (grid_side_bound w r Hw Hr) as HW.
  pose proof (grid_side_bound h r Hh Hr) as HH.
  fold (Poisson.gridW w r) in HW. fold (Poisson.gridH h r) in HH.
  apply poisson_terminates; try lra.
  - change (2 ^ 31)%Z with 2147483648%Z. nia.
  - assert ((Poisson.gridW w r * Poisson.gridH h r <= 123476544)%Z) by nia.
    lia.
Qed.

Lemma bandForZ_defined (cfg : Config) (z : R) :
  PARALLAX_BANDS cfg <> [] -> exists b, _bandForZ cfg z = Some b.
Proof.
  intros Hne. unfold _bandForZ.
  destruct (find _ _) as [b|]; [exists b; reflexivity|].
  destruct (PARALLAX_BANDS cfg) as [|b0 bs] using rev_ind; [contradiction|].
  exists b0. apply last_snoc.
Qed.

Lemma setupNodesEven_total (cfg : Config) (fuel : nat) (e : Engine) g :
  PARALLAX_BANDS cfg <> [] ->
  0 < width e <= 100000 -> 0 < height e <= 100000 ->
  (Z.to_nat 246953088 <= fuel)%nat ->
  ((_getTargetCounts cfg e).1 < 2 ^ 32)%Z ->
  ((_getTargetCounts cfg e).2 < 2 ^ 32)%Z ->
  exists e' g', _setupNodesEven cfg fuel e g = Ok (e', g').
Proof.
  intros Hbands Hw Hh Hfuel Hfit1 Hfit2. unfold _setupNodesEven.
  pose proof (targets_ge cfg e) as [H16 H12].
  destruct (_getTargetCounts cfg e) as [nodeCount bgCount].
  cbn [fst snd] in Hfit1, Hfit2, H16, H12.
  destruct (sampler_returns (width e) (height e)
              (Rmax 18 (sqrt (width e * height e / IZR nodeCount) * (55 / 100)))
              30 fuel g Hw Hh (Rmax_l _ _) Hfuel) as (pts & g1 & E1).
  rewrite (bind_eq _ _ _ _ _ E1).
  rewrite (bind_eq _ _ _ _ _ (array_length_fits nodeCount g1
                                ltac:(split; [lia|exact Hfit1]))).
  destruct (foldM_total
              (setup_node cfg (width e) (height e)
                 (sqrt (width e * height e / IZR nodeCount)) pts)
              (fun _ => True) (seq 0 (Z.to_nat nodeCount)))
    with (s := (@nil Fg.Node, @nil bool)) (g := g1)
    as (fg & g2 & E2 & _); [|exact I|].
  { intros acc i g0 _ _. unfold setup_node.
    assert (Hbase : exists p g5, base_point pts i (width e) (height e) g0
                                 = Ok (p, g5)).
    { unfold base_point. destruct (pts !! _); eexists _, _; reflexivity. }
    destruct Hbase as (p & g5 & Ep). rewrite (bind_eq _ _ _ _ _ Ep).
    rewrite !bind_random.
    set (z := draw_val (g5 2%nat)).
    destruct (bandForZ_defined cfg z Hbands) as (b & Hb).
    destruct (RANDOMIZE_NODE_PHASES cfg).
    - rewrite bind_assoc, bind_random, bind_ret.
      fold z. rewrite Hb. eexists _, _. split; [reflexivity|exact I].
    - rewrite bind_ret. fold z. rewrite Hb.
      eexists _, _. split; [reflexivity|exact I]. }
  rewrite (bind_eq _ _ _ _ _ E2).
  destruct (sampler_returns (width e) (height e)
              (Rmax 24 (sqrt (width e * height e / IZR bgCount) * (6 / 10)))
              30 fuel g2 Hw Hh) as (bgPts & g3 & E3); [|exact Hfuel|].
  { pose proof (Rmax_l 24 (sqrt (width e * height e / IZR bgCount) * (6 / 10))).
    lra. }
  rewrite (bind_eq _ _ _ _ _ E3).
  rewrite (bind_eq _ _ _ _ _ (array_length_fits bgCount g3
                                ltac:(split; [lia|exact Hfit2]))).
  destruct (foldM_total
              (setup_bg_node (width e) (height e)
                 (sqrt (width e * height e / IZR bgCount)) bgPts)
              (fun _ => True) (seq 0 (Z.to_nat bgCount)))
    with (s := @nil Bg.Node) (g := g3)
    as (bgs & g4 & E4 & _); [|exact I|].
  { intros acc i g0 _ _. unfold setup_bg_node.
    assert (Hbase : exists p g5, base_point bgPts i (width e) (height e) g0
                                 = Ok (p, g5)).
    { unfold base_point. destruct (bgPts !! _); eexists _, _; reflexivity. }
    destruct Hbase as (p & g5 & Ep). rewrite (bind_eq _ _ _ _ _ Ep).
    rewrite !bind_random. eexists _, _. split; [reflexivity|exact I]. }
  rewrite (bind_eq _ _ _ _ _ E4). eexists _, _. reflexivity.
Qed.

Lemma build_total (cfg : Config) (e : Engine) g :
  (Z.of_nat (length (nodes e)) <= 46340)%Z ->
  exists e3 g3 e' g',
    _buildLinks cfg e g = Ok (e3, g3) /\ _buildBgLinks cfg e3 g3 = Ok (e', g').
Proof.
  intros Hlen.
  destruct (buildLinks_total cfg e g) as (e3 & g3 & E3);
    [change (2 ^ 31)%Z with 2147483648%Z; lia|].
  destruct (buildBgLinks_total cfg e3 g3) as (e' & g' & E').
  exists e3, g3, e', g'. split; assumption.
Qed.

(** The background target count is an array length when the background
    node cap is. *)
Lemma bg_target_fits (cfg : Config) (e : Engine) :
  MOBILE_SCALE cfg <= 1 -> 0 <= bgNodeMax e <= 4294967295 ->
  ((_getTargetCounts cfg e).2 < 2 ^ 32)%Z.
Proof.
  intros Hs [Hb0 Hb1]. unfold _getTargetCounts. cbn [snd].
  change (2 ^ 32)%Z with 4294967296%Z.
  apply Z.max_lub_lt; [lia|].
  set (scale := if JS.ltb _ _ then MOBILE_SCALE cfg else 1).
  assert (Hscale : scale <= 1) by (unfold scale; destruct (JS.ltb _ _); lra).
  assert (Hx : bgNodeMax e * scale <= 4294967295) by nra.
  apply Z.le_lt_trans with 4294967295%Z; [|lia].
  unfold JS.round.
  rewrite <- (Zfloor_eq 4294967295 (4294967295 + / 2)) by lra.
  apply Zfloor_le. lra.
Qed.

(** The background node cap [_applyResponsiveScaling] computes is an array
    length when [BG_NODE_COUNT] is. *)
Lemma scaled_bg_max_fits (v b : R) :
  0 <= b <= 4294967295 -> 0 <= JS.clamp v 12 b <= 4294967295.
Proof.
  intros Hb. unfold JS.clamp.
  destruct (JS.ltb v 12) eqn:E1; [lra|].
  destruct (JS.ltb b v) eqn:E2; [lra|].
  apply ltb_false in E1, E2. lra.
Qed.

Lemma setup_build_total (cfg : Config) (fuel : nat) (e : Engine)
    (w h : R) g :
  config_ok cfg ->
  nodeMax e = scaled_node_max cfg w h ->
  0 <= bgNodeMax e <= 4294967295 ->
  0 < width e <= 100000 -> 0 < height e <= 100000 ->
  (Z.to_nat 246953088 <= fuel)%nat ->
  exists e2 g2 e3 g3 e' g',
    _setupNodesEven cfg fuel e g = Ok (e2, g2) /\
    _buildLinks cfg e2 g2 = Ok (e3, g3) /\
    _buildBgLinks cfg e3 g3 = Ok (e', g').
Proof.
  intros Hcfg Hm Hbg Hw Hh Hfuel.
  assert (Hbands : PARALLAX_BANDS cfg <> []).
  { destruct Hcfg as (Hb & _). destruct (PARALLAX_BANDS cfg); [simpl in Hb; lia|].
    discriminate. }
  pose proof (targets_bound cfg e w h Hcfg Hm) as Ht.
  pose proof (targets_ge cfg e) as [H16 _].
  destruct (setupNodesEven_total cfg fuel e g Hbands Hw Hh Hfuel)
    as (e2 & g2 & E2).
  { change (2 ^ 32)%Z with 4294967296%Z. lia. }
  { apply bg_target_fits; [apply Hcfg|exact Hbg]. }
  pose proof E2 as E2'.
  apply setupNodesEven_Ok in E2' as (nds & bgs & flags & -> & Hn & _).
  destruct (build_total cfg (set_population e nds bgs flags) g2)
    as (e3 & g3 & e' & g' & E3 & E').
  { cbn [nodes set_population]. rewrite Hn. lia. }
  exists (set_population e nds bgs flags), g2, e3, g3, e', g'.
  repeat split; assumption.
Qed.

Lemma constructor_total (cfg : Config) (fuel : nat) (w h now0 : R)
    (g : Rng) :
  config_ok cfg ->
  (Z.of_nat (PULSE_POOL_SIZE cfg) < 2 ^ 32)%Z ->
  0 <= BG_NODE_COUNT cfg <= 4294967295 ->
  0 < w <= 100000 -> 0 < h <= 100000 ->
  (Z.to_nat 246953088 <= fuel)%nat ->
  exists e g', constructor cfg fuel w h now0 g = Ok (e, g').
Proof.
  intros Hcfg Hpool Hbg Hw Hh Hfuel. unfold constructor.
  set (e1 := set_size (_applyResponsiveScaling cfg (blank_engine cfg w h) w h)
               w h).
  assert (Hr : _resize cfg fuel true w h (blank_engine cfg w h) g
               = Ok (e1, g)).
  { unfold _resize. fold e1.
    assert (Hneed : needRebuild cfg true e1 = true).
    { unfold needRebuild. destruct (_getTargetCounts cfg e1). reflexivity. }
    rewrite Hneed. reflexivity. }
  rewrite (bind_eq _ _ _ _ _ Hr).
  destruct (init_simulation_fits cfg now0 e1 g Hpool)
    as (e0 & Hinit & Hw0 & Hh0 & Hm0 & Hb0).
  rewrite (bind_eq _ _ _ _ _ Hinit), bind_random.
  destruct (setup_build_total cfg fuel e0 w h (fun n => g (S n)) Hcfg)
    as (e2 & g2 & e3 & g3 & e' & g' & E2 & E3 & E').
  - rewrite Hm0. reflexivity.
  - rewrite Hb0. apply scaled_bg_max_fits. exact Hbg.
  - rewrite Hw0. exact Hw.
  - rewrite Hh0. exact Hh.
  - exact Hfuel.
  - rewrite (bind_eq _ _ _ _ _ E2), (bind_eq _ _ _ _ _ E3).
    exists e', g'. exact E'.
Qed.





Lemma setupNodesEven_layout_witness :
  exists e' g',
    _setupNodesEven CONFIG (Z.to_nat 246953088) demo_engine zero_rng
    = Ok (e', g') /\
    Z.of_nat (length (nodes e')) = (_getTargetCounts CONFIG demo_engine).1 /\
    length (movingFlags e') = length (nodes e') /\
    Z.of_nat (length (bgNodes e')) = (_getTargetCounts CONFIG demo_engine).2 /\
    (forall i n, nodes e' !! i = Some n ->
       laid_out (width demo_engine) (height demo_engine) i n /\
       exists band, _bandForZ CONFIG (Fg.z n) = Some band /\
                    movingFlags e' !! i = Some (move band)) /\
    (forall i b, bgNodes e' !! i = Some b ->
       bg_laid_out (width demo_engine) (height demo_engine) b) /\
    links e' = links demo_engine /\ bgLinks e' = bgLinks demo_engine /\
    same_pulses demo_engine e'.
Proof.
  assert (Ht : _getTargetCounts CONFIG demo_engine = (100%Z, 60%Z))
    by (apply (demo_targets 12); reflexivity).
  destruct (setupNodesEven_total CONFIG (Z.to_nat 246953088) demo_engine
              zero_rng) as (e' & g' & E).
  - discriminate.
  - simpl. lra.
  - simpl. lra.
  - apply le_n.
  - rewrite Ht. reflexivity.
  - rewrite Ht. reflexivity.
  - exists e', g'. split; [exact E|].
    apply (setupNodesEven_layout CONFIG (Z.to_nat 246953088) demo_engine e'
             zero_rng g'); [simpl; lra|simpl; lra|exact E].
Defined.

(** ** The link index lists *)

Lemma filter_bool_length {A : Type} (f : A -> bool) (l : list A) :
  (length (filter (fun x => f x = true) l)
   + length (filter (fun x => f x = false) l) = length l)%nat.
Proof.
  induction l as [|a l IH]; [reflexivity|].
  rewrite !filter_cons. destruct (f a) eqn:E.
  - destruct (decide (true = true)); [|congruence].
    destruct (decide (true = false)); [congruence|]. simpl. lia.
  - destruct (decide (false = true)); [congruence|].
    destruct (decide (false = false)); [|congruence]. simpl. lia.
Qed.

(** X16.  [_buildLinks] splits the link indices in two: [dynamicLinks]
    lists, in increasing order and once each, exactly the indices of the
    links with a moving endpoint, [staticLinks] exactly those of the links
    whose two endpoints are static; so every link is in one list and in
    one only. *)
Theorem link_lists_partition (cfg : Config) (e e' : Engine) (g g' : Rng) :
  _buildLinks cfg e g = Ok (e', g') ->
  (forall idx, idx ∈ dynamicLinks e' <->
     exists L, links e' !! idx = Some L /\
       (default false (movingFlags e' !! Fg.ai L)
        || default false (movingFlags e' !! Fg.bi L)) = true) /\
  (forall idx, idx ∈ staticLinks e' <->
     exists L, links e' !! idx = Some L /\
       (default false (movingFlags e' !! Fg.ai L)
        || default false (movingFlags e' !! Fg.bi L)) = false) /\
  NoDup (dynamicLinks e') /\ NoDup (staticLinks e') /\
  (length (dynamicLinks e') + length (staticLinks e')
   = length (links e'))%nat.
Proof.
  unfold _buildLinks. intros H.
  apply bind_Ok in H as (lks & g1 & _ & H).
  apply ret_Ok in H as [-> _].
  cbn [dynamicLinks staticLinks links movingFlags set_links].
  split; [|split].
  - intros idx. rewrite list_elem_of_filter, elem_of_seq.
    unfold is_dynamic. split.
    + intros [Hd _]. destruct (lks !! idx) as [L|]; [|discriminate].
      exists L. split; [reflexivity|exact Hd].
    + intros (L & HL & Hd). rewrite HL. split; [exact Hd|].
      apply lookup_lt_Some in HL. lia.
  - intros idx. rewrite list_elem_of_filter, elem_of_seq.
    unfold is_dynamic. split.
    + intros [Hd Hlt].
      destruct (lks !! idx) as [L|] eqn:HL.
      * exists L. split; [reflexivity|exact Hd].
      * apply lookup_ge_None in HL. lia.
    + intros (L & HL & Hd). rewrite HL. split; [exact Hd|].
      apply lookup_lt_Some in HL. lia.
  - split; [apply NoDup_filter, NoDup_seq|].
    split; [apply NoDup_filter, NoDup_seq|].
    rewrite (filter_bool_length
               (fun idx => is_dynamic lks (movingFlags e) idx)).
    apply length_seq.
Qed.

Lemma link_lists_partition_witness :
  exists e' g',
    _buildLinks CONFIG demo_engine zero_rng = Ok (e', g') /\
    (forall idx, idx ∈ dynamicLinks e' <->
       exists L, links e' !! idx = Some L /\
         (default false (movingFlags e' !! Fg.ai L)
          || default false (movingFlags e' !! Fg.bi L)) = true) /\
    (forall idx, idx ∈ staticLinks e' <->
       exists L, links e' !! idx = Some L /\
         (default false (movingFlags e' !! Fg.ai L)
          || default false (movingFlags e' !! Fg.bi L)) = false) /\
    NoDup (dynamicLinks e') /\ NoDup (staticLinks e') /\
    (length (dynamicLinks e') + length (staticLinks e')
     = length (links e'))%nat.
Proof.
  destruct (buildLinks_total CONFIG demo_engine zero_rng demo_nodes_small)
    as (e' & g' & E).
  exists e', g'. split; [exact E|].
  apply (link_lists_partition CONFIG demo_engine e' zero_rng g' E).
Defined.

(** ** The background graph is maximal *)

Section BackgroundMaximal.
Variables (cfg : Config) (nds : list Bg.Node) (maxDist : R).
Hypothesis Hcaps : caps_ok cfg.

Local Abbreviation bg_close := (bg_close nds maxDist).
Local Abbreviation bg_settled := (bg_settled cfg).

Lemma bg_candidate_complete (i j : nat) (edges edges' : list Bg.Edge) g g' :
  bg_candidate_step nds maxDist i edges j g = Ok (edges', g') ->
  bg_close i j -> exists E, E ∈ edges' /\ Bg.ai E = i /\ Bg.bi E = j.
Proof.
  intros H (a & b & Ha & Hb & Hd & Hz). unfold bg_candidate_step in H.
  rewrite Ha, Hb in H. cbn [defined] in H. rewrite !bind_ret in H.
  assert (Hfar : JS.ltb maxDist
                   (JS.hypot (Bg.x a - Bg.x b) (Bg.y a - Bg.y b)) = false)
    by (apply ltb_false; exact Hd).
  assert (Hzero : JS.eqb (JS.hypot (Bg.x a - Bg.x b) (Bg.y a - Bg.y b)) 0
                  = false) by (apply eqb_false; exact Hz).
  rewrite Hfar, Hzero in H. cbn [orb] in H.
  apply bind_Ok in H as (u & g1 & _ & H). apply ret_Ok in H as [-> _].
  eexists. split; [apply elem_of_app; right; apply list_elem_of_singleton;
                   reflexivity|].
  split; reflexivity.
Qed.

Lemma bg_inner_complete (i : nat) (js : list nat) :
  Forall (fun j => (i < j)%nat) js ->
  forall (edges edges' : list Bg.Edge) g g',
  foldM (bg_candidate_step nds maxDist i) js edges g = Ok (edges', g') ->
  (forall E, E ∈ edges -> E ∈ edges') /\
  (forall j, j ∈ js -> bg_close i j ->
     exists E, E ∈ edges' /\ Bg.ai E = i /\ Bg.bi E = j).
Proof.
  induction js as [|j js IH]; intros Hjs edges edges' g g' H.
  - apply ret_Ok in H as [-> _]. split; [auto|].
    intros j Hj. apply elem_of_nil in Hj. contradiction.
  - cbn [foldM] in H. apply bind_Ok in H as (e1 & g1 & Hstep & H).
    apply Forall_cons in Hjs as [Hij Hjs].
    destruct (IH Hjs _ _ _ _ H) as (Hmono & Hall).
    pose proof (bg_candidate_step_ok _ _ _ _ _ _ _ _ Hij Hstep)
      as (es & -> & _).
    split.
    + intros E HE. apply Hmono. apply elem_of_app. left. exact HE.
    + intros j' Hj' Hclose. apply elem_of_cons in Hj' as [->|Hj'].
      * destruct (bg_candidate_complete _ _ _ _ _ _ Hstep Hclose)
          as (E & HE & Hab).
        exists E. split; [apply Hmono; exact HE|exact Hab].
      * apply Hall; assumption.
Qed.

Lemma bg_outer_complete (m : nat) (ixs : list nat) :
  forall (edges edges' : list Bg.Edge) g g',
  foldM (fun edges0 i =>
           foldM (bg_candidate_step nds maxDist i)
                 (seq (i + 1) (m - (i + 1))) edges0)
        ixs edges g = Ok (edges', g') ->
  (forall E, E ∈ edges -> E ∈ edges') /\
  (forall i j, i ∈ ixs -> (i < j < m)%nat -> bg_close i j ->
     exists E, E ∈ edges' /\ Bg.ai E = i /\ Bg.bi E = j).
Proof.
  induction ixs as [|i ixs IH]; intros edges edges' g g' H.
  - apply ret_Ok in H as [-> _]. split; [auto|].
    intros i j Hi. apply elem_of_nil in Hi. contradiction.
  - cbn [foldM] in H. apply bind_Ok in H as (e1 & g1 & Hin & H).
    destruct (IH _ _ _ _ H) as (Hmono & Hall).
    apply bg_inner_complete in Hin as (Hmono1 & Hall1).
    2:{ apply Forall_forall. intros j Hj. apply elem_of_seq in Hj. lia. }
    split.
    + intros E HE. apply Hmono, Hmono1, HE.
    + intros i' j Hi' Hj Hclose. apply elem_of_cons in Hi' as [->|Hi'].
      * destruct (Hall1 j) as (E & HE & Hab); [|exact Hclose|].
        { apply elem_of_seq. lia. }
        exists E. split; [apply Hmono; exact HE|exact Hab].
      * apply Hall; assumption.
Qed.

Lemma incident_app_le (v : nat) (l k : list (nat * nat)) :
  (incident v l <= incident v (l ++ k))%nat.
Proof. unfold incident. rewrite filter_app, length_app. lia. Qed.

Lemma bg_settled_mono (out es : list Bg.Edge) (i j : nat) :
  bg_settled out i j -> bg_settled (out ++ es) i j.
Proof.
  unfold bg_settled, bg_pairs. rewrite map_app.
  intros [H|[H|H]].
  - left. apply elem_of_app. left. exact H.
  - right. left. pose proof (incident_app_le i (bg_pairs out) (bg_pairs es)).
    unfold bg_pairs in *. lia.
  - right. right. pose proof (incident_app_le j (bg_pairs out) (bg_pairs es)).
    unfold bg_pairs in *. lia.
Qed.

Lemma bg_greedy_settles (l : list Bg.Edge) :
  Forall (bg_edge_ok nds maxDist) l ->
  forall st, bg_inv cfg nds maxDist st ->
  forall E, E ∈ l ->
    bg_settled (fold_left (bg_link_step (bg_degree_cap cfg)) l st).1
               (Bg.ai E) (Bg.bi E).
Proof.
  induction l as [|E0 l IH]; intros Hok st Hinv E HE.
  - apply elem_of_nil in HE. contradiction.
  - apply Forall_cons in Hok as [Hok0 Hok].
    cbn [fold_left].
    pose proof (bg_link_step_inv cfg nds maxDist Hcaps st E0 Hok0 Hinv)
      as Hinv1.
    apply elem_of_cons in HE as [->|HE]; [|apply IH; assumption].
    destruct (bg_greedy_sublist (bg_degree_cap cfg) l
                (bg_link_step (bg_degree_cap cfg) st E0).1
                (bg_link_step (bg_degree_cap cfg) st E0).2)
      as (es & Hes & _).
    rewrite <- surjective_pairing in Hes. rewrite Hes.
    apply bg_settled_mono.
    destruct st as [out deg]. unfold bg_link_step.
    destruct Hinv as (_ & (Hlen & Htr) & _). cbn [fst snd] in Hlen, Htr.
    pose proof Hok0 as (Hlt & a & b & Ha & Hb & _).
    apply lookup_lt_Some in Ha, Hb.
    destruct (deg_ge deg (Bg.ai E0) (bg_degree_cap cfg)) eqn:Ei.
    + cbn [orb fst]. right. left.
      unfold deg_ge in Ei. rewrite (Htr _ Ha) in Ei.
      apply Z.leb_le in Ei. exact Ei.
    + destruct (deg_ge deg (Bg.bi E0) (bg_degree_cap cfg)) eqn:Ej.
      * cbn [orb fst]. right. right.
        unfold deg_ge in Ej. rewrite (Htr _ Hb) in Ej.
        apply Z.leb_le in Ej. exact Ej.
      * cbn [orb fst]. left. unfold bg_pairs. rewrite map_app.
        apply elem_of_app. right. apply list_elem_of_singleton. reflexivity.
Qed.

Lemma build_bg_links_maximal g edges g' :
  build_bg_links cfg nds maxDist g = Ok (edges, g') ->
  forall i j, (i < j < length nds)%nat -> bg_close i j ->
    (i, j) ∈ bg_pairs edges \/
    Z.of_nat (incident i (bg_pairs edges)) = bg_degree_cap cfg \/
    Z.of_nat (incident j (bg_pairs edges)) = bg_degree_cap cfg.
Proof.
  intros H i j Hij Hclose.
  pose proof (build_bg_links_inv cfg nds maxDist Hcaps _ _ _ H) as Hcap.
  unfold build_bg_links in H.
  apply bind_Ok in H as (cands & g1 & Hc & H).
  apply ret_Ok in H as [-> _].
  pose proof (bg_outer_complete _ _ _ _ _ _ Hc) as (_ & Hall).
  apply bg_outer_ok in Hc as (es & E & _ & Hok). simpl in E. subst es.
  destruct (Hall i j) as (E & HE & <- & <-); [apply elem_of_seq; lia|lia|
                                               exact Hclose|].
  assert (Hsorted : Forall (bg_edge_ok nds maxDist) (sort_desc Bg.weight cands)).
  { apply Forall_forall. intros e He. rewrite Forall_forall in Hok.
    apply Hok. apply list_elem_of_In. apply list_elem_of_In in He.
    eapply sort_desc_In. exact He. }
  assert (HE' : E ∈ sort_desc Bg.weight cands).
  { apply list_elem_of_In. eapply Permutation_in; [apply sort_desc_perm|].
    apply list_elem_of_In. exact HE. }
  pose proof (bg_greedy_settles _ Hsorted ([], replicate (length nds) 0%Z))
    as Hset.
  destruct (Hset) with (E := E) as [Hin|[Hs|Hs]]; [| exact HE' | | |].
  - split; [constructor|]. split; [split|]; simpl.
    + apply length_replicate.
    + intros v Hv. rewrite lookup_replicate_2 by exact Hv. reflexivity.
    + intros v. rewrite incident_nil.
      pose proof (bg_degree_cap_bounds cfg Hcaps). lia.
  - left. exact Hin.
  - right. left. specialize (Hcap (Bg.ai E)). lia.
  - right. right. specialize (Hcap (Bg.bi E)). lia.
Qed.

End BackgroundMaximal.

(** X17.  The background graph is maximal under the degree cap.  After
    [_buildBgLinks], for a configuration whose caps fit the degree array,
    every pair of background nodes that lie at most [bgLinkDistanceMax]
    apart, and not on the same spot, is joined by an edge unless one of
    the two nodes already has as many edges as the cap allows. *)
Theorem bg_links_maximal (cfg : Config) (e e' : Engine) (g g' : Rng)
    (i j : nat) (a b : Bg.Node) :
  caps_ok cfg ->
  _buildBgLinks cfg e g = Ok (e', g') ->
  (i < j)%nat -> bgNodes e !! i = Some a -> bgNodes e !! j = Some b ->
  JS.hypot (Bg.x a - Bg.x b) (Bg.y a - Bg.y b) <= bgLinkDistanceMax e ->
  JS.hypot (Bg.x a - Bg.x b) (Bg.y a - Bg.y b) <> 0 ->
  (i, j) ∈ bg_pairs (bgLinks e') \/
  Z.of_nat (incident i (bg_pairs (bgLinks e'))) = bg_degree_cap cfg \/
  Z.of_nat (incident j (bg_pairs (bgLinks e'))) = bg_degree_cap cfg.
Proof.
  intros Hcaps H Hij Ha Hb Hd Hz.
  apply buildBgLinks_Ok in H as (edges & g1 & Hbuild & ->).
  cbn [bgLinks set_bgLinks].
  apply (build_bg_links_maximal cfg (bgNodes e) (bgLinkDistanceMax e) Hcaps
           g edges g1 Hbuild).
  - split; [exact Hij|]. apply lookup_lt_Some in Hb. exact Hb.
  - exists a, b. repeat split; assumption.
Qed.

Lemma bg_links_maximal_witness :
  exists e' g',
    _buildBgLinks CONFIG demo_engine zero_rng = Ok (e', g') /\
    ((0%nat, 1%nat) ∈ bg_pairs (bgLinks e') \/
     Z.of_nat (incident 0 (bg_pairs (bgLinks e'))) = bg_degree_cap CONFIG \/
     Z.of_nat (incident 1 (bg_pairs (bgLinks e'))) = bg_degree_cap CONFIG).
Proof.
  destruct (buildBgLinks_total CONFIG demo_engine zero_rng) as (e' & g' & E).
  exists e', g'. split; [exact E|].
  assert (Hd : JS.hypot (Bg.x (demo_bg_node 0) - Bg.x (demo_bg_node 1))
                        (Bg.y (demo_bg_node 0) - Bg.y (demo_bg_node 1)) = 20).
  { unfold demo_bg_node. cbn [Bg.x Bg.y].
    replace (INR 0 * 20 - INR 1 * 20) with (Ropp 20) by (simpl; ring).
    replace (0 - 0) with 0 by ring.
    apply hypot_neg_axis. lra. }
  apply (bg_links_maximal CONFIG demo_engine e' zero_rng g' 0 1
           (demo_bg_node 0) (demo_bg_node 1)).
  - exact caps_ok_CONFIG.
  - exact E.
  - lia.
  - reflexivity.
  - reflexivity.
  - rewrite Hd. simpl. lra.
  - rewrite Hd. lra.
Defined.

(** ** Drawing *)

(** X18.  The opacity of a link, for a configuration whose far opacity
    [LINE_ALPHA_MAX] is at most its near opacity [LINE_ALPHA_MIN]: whatever
    the distance (negative included) and the link reach (zero included),
    [_lineAlphaForDist] lies between the two; it is the near opacity at
    distance 0 or less, the far opacity from the reach [max(1,
    linkDistanceMax)] on, and never grows with the distance. *)
Theorem lineAlpha_range (vis : Visuals) (e : Engine) (d d' : R) :
  LINE_ALPHA_MAX vis <= LINE_ALPHA_MIN vis ->
  LINE_ALPHA_MAX vis <= _lineAlphaForDist vis e d <= LINE_ALPHA_MIN vis /\
  (d <= 0 -> _lineAlphaForDist vis e d = LINE_ALPHA_MIN vis) /\
  (Rmax 1 (linkDistanceMax e) <= d ->
   _lineAlphaForDist vis e d = LINE_ALPHA_MAX vis) /\
  (d <= d' -> _lineAlphaForDist vis e d' <= _lineAlphaForDist vis e d).
Proof.
  intros Hord. unfold _lineAlphaForDist, JS.lerp.
  set (m := Rmax 1 (linkDistanceMax e)).
  assert (Hm : 1 <= m) by apply Rmax_l.
  assert (Ht : forall x, 0 <= Rmin 1 (Rmax 0 (x / m)) <= 1).
  { intros x. split.
    - apply Rmin_glb; [lra|apply Rmax_l].
    - apply Rmin_l. }
  split; [pose proof (Ht d); nra|].
  split.
  { intros Hd.
    assert (Hq : d / m <= 0).
    { unfold Rdiv. rewrite <- (Rmult_0_l (/ m)).
      apply Rmult_le_compat_r; [apply Rlt_le, Rinv_0_lt_compat; lra|exact Hd]. }
    rewrite (Rmax_left 0 (d / m)) by exact Hq.
    rewrite Rmin_right by lra. ring. }
  split.
  { intros Hd.
    assert (Hq : 1 <= d / m).
    { apply (Rmult_le_reg_r m); [lra|].
      unfold Rdiv. rewrite Rmult_assoc, Rinv_l by lra. lra. }
    rewrite (Rmax_right 0 (d / m)) by lra.
    rewrite Rmin_left by exact Hq. ring. }
  intros Hdd.
  assert (Hq : d / m <= d' / m).
  { unfold Rdiv. apply Rmult_le_compat_r;
      [apply Rlt_le, Rinv_0_lt_compat; lra|exact Hdd]. }
  assert (Hmono : Rmin 1 (Rmax 0 (d / m)) <= Rmin 1 (Rmax 0 (d' / m))).
  { apply Rmin_glb; [apply Rmin_l|].
    eapply Rle_trans; [apply Rmin_r|].
    apply Rmax_lub; [apply Rmax_l|].
    eapply Rle_trans; [exact Hq|apply Rmax_r]. }
  nra.
Qed.

Lemma lineAlpha_range_witness :
  LINE_ALPHA_MAX VISUALS <= _lineAlphaForDist VISUALS demo_engine 100
    <= LINE_ALPHA_MIN VISUALS /\
  (100 <= 0 -> _lineAlphaForDist VISUALS demo_engine 100
               = LINE_ALPHA_MIN VISUALS) /\
  (Rmax 1 (linkDistanceMax demo_engine) <= 100 ->
   _lineAlphaForDist VISUALS demo_engine 100 = LINE_ALPHA_MAX VISUALS) /\
  (100 <= 200 -> _lineAlphaForDist VISUALS demo_engine 200
                 <= _lineAlphaForDist VISUALS demo_engine 100).
Proof.
  apply (lineAlpha_range VISUALS demo_engine 100 200). simpl. lra.
Defined.

(** *** Rendering returns *)

Lemma render_rng (vis : Visuals) (e : Engine) (f : Frame) g g' :
  _render vis e g = Ok (f, g') -> g' = g.
Proof.
  assert (Hfold : forall (A : Type) (step : list Draw -> A -> M (list Draw))
                         (l : list A),
            (forall c a g0 c' g0', step c a g0 = Ok (c', g0') -> g0' = g0) ->
            forall c g0 c' g0', foldM step l c g0 = Ok (c', g0') -> g0' = g0).
  { intros A step l Hstep. induction l as [|a l IH]; intros c g0 c' g0' H.
    - apply ret_Ok in H as [_ ->]. reflexivity.
    - cbn [foldM] in H. apply bind_Ok in H as (c1 & g1 & H1 & H).
      apply Hstep in H1. subst g1. eapply IH. exact H. }
  unfold _render. intros H.
  apply bind_Ok in H as (lines & g1 & Hl & H).
  apply bind_Ok in H as (ps & g2 & Hp & H).
  apply ret_Ok in H as [_ ->].
  apply Hfold in Hp.
  2:{ intros c i g0 c' g0' Hs. unfold render_pulse in Hs.
      apply bind_Ok in Hs as (a0 & g3 & H0 & Hs). apply defined_Ok in H0 as [_ ->].
      apply bind_Ok in Hs as (p0 & g4 & H0 & Hs). apply defined_Ok in H0 as [_ ->].
      apply bind_Ok in Hs as (L0 & g5 & H0 & Hs). apply defined_Ok in H0 as [_ ->].
      apply bind_Ok in Hs as (n0 & g6 & H0 & Hs). apply defined_Ok in H0 as [_ ->].
      apply bind_Ok in Hs as (n1 & g7 & H0 & Hs). apply defined_Ok in H0 as [_ ->].
      destruct (culled _ _ _ _); apply ret_Ok in Hs as [_ ->]; reflexivity. }
  apply Hfold in Hl.
  2:{ intros c i g0 c' g0' Hs. unfold render_link in Hs.
      apply bind_Ok in Hs as (L0 & g5 & H0 & Hs). apply defined_Ok in H0 as [_ ->].
      apply bind_Ok in Hs as (n0 & g6 & H0 & Hs). apply defined_Ok in H0 as [_ ->].
      apply bind_Ok in Hs as (n1 & g7 & H0 & Hs). apply defined_Ok in H0 as [_ ->].
      destruct (_ || _); apply ret_Ok in Hs as [_ ->]; reflexivity. }
  congruence.
Qed.

Lemma render_sound (cfg : Config) (vis : Visuals) (e : Engine)
    (L F : list nat) g :
  pulse_state e L F -> scene_ok cfg e -> links_valid e L ->
  exists f, _render vis e g = Ok (f, g).
Proof.
  intros Hst Hsc Hlv.
  pose proof Hsc as (_ & _ & _ & Hdyn & Hend).
  assert (Hnode : forall Lk, Lk ∈ links e ->
            exists a b, nodes e !! Fg.ai Lk = Some a /\
                        nodes e !! Fg.bi Lk = Some b).
  { intros Lk HLk. destruct (Hend Lk HLk) as [Ha Hb].
    apply lookup_lt_is_Some_2 in Ha as [a Ha].
    apply lookup_lt_is_Some_2 in Hb as [b Hb]. eauto. }
  assert (Hex : exists f g', _render vis e g = Ok (f, g')).
  { unfold _render.
    destruct (foldM_total (render_link vis e) (fun _ => True) (dynamicLinks e))
      with (s := @nil Draw) (g := g) as (lines & g1 & E1 & _); [|exact I|].
    { intros c idx g0 Hidx _. unfold render_link.
      apply list_elem_of_In in Hidx. specialize (Hdyn idx Hidx).
      apply lookup_lt_is_Some_2 in Hdyn as [Lk HLk].
      destruct (Hnode Lk) as (a & b & Ha & Hb);
        [eapply list_elem_of_lookup_2; exact HLk|].
      rewrite HLk. cbn [defined]. rewrite bind_ret.
      rewrite Ha. cbn [defined]. rewrite bind_ret.
      rewrite Hb. cbn [defined]. rewrite bind_ret.
      destruct (_ || _); eexists _, _; (split; [reflexivity|exact I]). }
    rewrite (bind_eq _ _ _ _ _ E1).
    destruct (foldM_total (render_pulse vis e) (fun _ => True)
                (seq 0 (pulsesLen e)))
      with (s := @nil Draw) (g := g1) as (ps & g2 & E2 & _); [|exact I|].
    { intros c i g0 Hi _. unfold render_pulse.
      apply in_seq in Hi.
      destruct Hst as (Hlive & HlenL & _).
      destruct (lookup_lt_is_Some_2 L i) as [a Ha]; [lia|].
      assert (Hpi : pulses e !! i = Some (Some a)).
      { rewrite <- (lookup_take_lt _ (pulsesLen e)) by lia.
        rewrite Hlive, list_lookup_fmap, Ha. reflexivity. }
      destruct (Hlv a) as (p & Lk & Hp & HLk);
        [eapply list_elem_of_lookup_2; exact Ha|].
      assert (HLin : Lk ∈ links e).
      { unfold JS.nth_Z in HLk. destruct (_ <? 0)%Z; [discriminate|].
        eapply list_elem_of_lookup_2. exact HLk. }
      destruct (Hnode Lk HLin) as (na & nb & Hna & Hnb).
      rewrite (bind_defined _ a) by (rewrite Hpi; reflexivity).
      rewrite (bind_defined _ p) by exact Hp.
      rewrite (bind_defined _ Lk) by exact HLk.
      rewrite (bind_defined _ na) by exact Hna.
      rewrite (bind_defined _ nb) by exact Hnb.
      destruct (culled _ _ _ _); eexists _, _; (split; [reflexivity|exact I]). }
    rewrite (bind_eq _ _ _ _ _ E2). eexists _, _. reflexivity. }
  destruct Hex as (f & g' & E). exists f.
  pose proof (render_rng _ _ _ _ _ E) as ->. exact E.
Qed.

Lemma spawn_links_valid (cfg : Config) (now : R) (e : Engine)
    (L F : list nat) g :
  pulse_state e L F -> scene_ok cfg e -> links_valid e L ->
  exists e' g' L' F',
    update_spawn cfg now e g = Ok (e', g') /\
    same_scene e e' /\ pulse_state e' L' F' /\ links_valid e' L'.
Proof.
  intros Hst Hscene Hlv.
  destruct (JS.leb (PULSE_SPAWN_EVERY_MS cfg) (now - _lastPulseSpawn e)
            && JS.ltb (INR (pulsesLen e)) (pulseMaxActive e)) eqn:Hdue.
  - destruct (links e) as [|L0 lks] eqn:Hlinks.
    + destruct (spawn_nolinks cfg now e L F g Hst Hscene Hdue Hlinks)
        as (e' & F' & H1 & H2 & H3 & H4).
      exists e', g, L, F'. repeat (split; [assumption|]).
      intros a Ha. destruct (Hlv a Ha) as (p & Lk & Hp & HLk).
      rewrite Hlinks in HLk. unfold JS.nth_Z in HLk.
      destruct (_ <? 0)%Z; [discriminate|]. rewrite lookup_nil in HLk.
      discriminate.
    + destruct (spawn_fire cfg now e L F g Hst Hscene Hdue)
        as (e' & g' & a & F' & li & Lk & na & nb & H1 & H2 & H3 & H4 & HLk & _
            & _ & H5 & _).
      { rewrite Hlinks. discriminate. }
      exists e', g', (L ++ [a]), F'. repeat (split; [assumption|]).
      pose proof H2 as (_&_&_&_&_&_&Hl'&_).
      intros b Hb. apply elem_of_app in Hb as [Hb|Hb].
      * destruct (Hlv b Hb) as (p & Lk' & Hp & HLk').
        exists p, Lk'. rewrite (H4 b Hb), Hl', Hlinks.
        rewrite Hlinks in HLk'. split; assumption.
      * apply list_elem_of_singleton in Hb. subst b.
        eexists _, Lk. split; [exact H5|]. cbn [linkIndex].
        rewrite Hl', nth_Z_nat by lia. rewrite Nat2Z.id, Hlinks.
        rewrite Hlinks in HLk. exact HLk.
  - exists e, g, L, F. unfold update_spawn. rewrite Hdue.
    split; [reflexivity|]. split; [apply same_scene_refl|].
    split; [exact Hst|exact Hlv].
Qed.

Lemma tick_links_valid (cfg : Config) (dt now : R) (e : Engine)
    (L F : list nat) g :
  pulse_state e L F -> scene_ok cfg e -> links_valid e L ->
  exists e' g' L' F',
    _update cfg dt now e g = Ok (e', g') /\
    pulse_state e' L' F' /\ scene_ok cfg e' /\ links_valid e' L'.
Proof.
  intros Hst Hscene Hlv. unfold _update.
  destruct (update_motion_total cfg now e g (proj1 Hscene))
    as (e1 & Hm & Hp1 & _ & Hl1 & Hd1 & _ & Hn1 & _).
  rewrite (bind_eq _ _ _ _ _ Hm).
  pose proof (pulse_state_ext _ _ _ _ Hp1 Hst) as Hst1.
  pose proof (scene_ok_ext cfg e e1 Hl1 Hd1 Hn1 Hscene) as Hsc1.
  assert (Hlv1 : links_valid e1 L).
  { intros a Ha. destruct (Hlv a Ha) as (p & Lk & Hp & HLk).
    exists p, Lk. destruct Hp1 as (-> & _). rewrite Hl1. split; assumption. }
  destruct (spawn_links_valid cfg now e1 L F g Hst1 Hsc1 Hlv1)
    as (e2 & g2 & L2 & F2 & Hs & Hsame & Hst2 & Hlv2).
  rewrite (bind_eq _ _ _ _ _ Hs).
  destruct (advance_spec cfg dt e2 L2 F2 g2 Hst2)
    as (e3 & Ha & Hsame3 & _ & Hst3 & _ & Hdone & _).
  eexists e3, g2, _, _. split; [exact Ha|]. split; [exact Hst3|].
  destruct Hsame as (_&_&_&_&Hn2&_&Hl2&Hd2&_).
  destruct Hsame3 as (_&_&_&_&Hn3&_&Hl3&Hd3&_).
  split.
  { apply (scene_ok_ext cfg e1 e3); [congruence|congruence|congruence|].
    exact Hsc1. }
  intros a Hin. apply list_elem_of_filter in Hin as [Hnarr Hin].
  destruct (Hlv2 a Hin) as (p & Lk & Hp & HLk).
  specialize (Hdone a Hin).
  destruct (arrives _ (store e2) a); [exfalso; apply Hnarr; reflexivity|].
  rewrite Hp in Hdone. cbn [fmap option_fmap option_map] in Hdone.
  eexists _, Lk. split; [exact Hdone|]. cbn [linkIndex advance_pulse].
  rewrite Hl3. exact HLk.
Qed.

Lemma ticks_links_valid (cfg : Config) (fuel : nat) (nows : list R) :
  forall (e : Engine) (L F : list nat) g,
  pulse_state e L F -> scene_ok cfg e -> links_valid e L ->
  exists e' g' L' F',
    run cfg fuel (Tick <$> nows) e g = Ok (e', g') /\
    pulse_state e' L' F' /\ scene_ok cfg e' /\ links_valid e' L'.
Proof.
  induction nows as [|now nows IH]; intros e L F g Hst Hsc Hlv.
  - exists e, g, L, F. split; [reflexivity|].
    split; [exact Hst|]. split; [exact Hsc|exact Hlv].
  - destruct (tick_links_valid cfg (_dt_ms cfg) now e L F g Hst Hsc Hlv)
      as (e1 & g1 & L1 & F1 & Hup & Hst1 & Hsc1 & Hlv1).
    destruct (IH e1 L1 F1 g1 Hst1 Hsc1 Hlv1)
      as (e' & g' & L' & F' & Hrun & H').
    exists e', g', L', F'. split; [|exact H'].
    rewrite run_ticks_cons, (bind_eq _ _ _ _ _ Hup). exact Hrun.
Qed.

(** X19.  Rendering returns as long as no resize has come between: from
    the state the constructor leaves (sound configuration), after any
    number of ticks, the ticks all return and [_render] draws the frame
    without exception; every live pulse still rides a link that exists. *)
Theorem render_after_ticks (cfg : Config) (vis : Visuals) (fuel : nat)
    (nows : list R) (e0 : Engine) (g : Rng) :
  config_ok cfg -> constructed cfg e0 ->
  exists e g' f,
    run cfg fuel (Tick <$> nows) e0 g = Ok (e, g') /\
    _render vis e g' = Ok (f, g').
Proof.
  intros Hcfg Hc.
  destruct (ticks_links_valid cfg fuel nows e0 []
              (seq 0 (PULSE_POOL_SIZE cfg)) g)
    as (e & g' & L & F & Hrun & Hst & Hsc & Hlv).
  - apply constructed_pulse_state. exact Hc.
  - apply constructed_scene_ok; assumption.
  - intros a Ha. apply elem_of_nil in Ha. contradiction.
  - destruct (render_sound cfg vis e L F g' Hst Hsc Hlv) as (f & Hf).
    exists e, g', f. split; assumption.
Qed.

Lemma render_after_ticks_witness :
  exists e g' f,
    run CONFIG 0 (Tick <$> [1000; 2000; 3000]) demo_engine zero_rng
    = Ok (e, g') /\
    _render VISUALS e g' = Ok (f, g').
Proof.
  apply (render_after_ticks CONFIG VISUALS 0 [1000; 2000; 3000] demo_engine
           zero_rng).
  - exact (config_ok_CONFIG 12).
  - exact (demo_constructed 12).
Defined.

(** ** The frame loop *)

Lemma foldM_app {A St : Type} (f : St -> A -> M St) (l1 l2 : list A)
    (s : St) g :
  foldM f (l1 ++ l2) s g = bind (foldM f l1 s) (foldM f l2) g.
Proof.
  revert s g. induction l1 as [|a l1 IH]; intros s g; [reflexivity|].
  cbn [foldM app]. unfold bind.
  destruct (f s a g) as [[s1 g1]| |]; [|reflexivity|reflexivity].
  rewrite IH. reflexivity.
Qed.

Lemma run_app (cfg : Config) (fuel : nat) (l1 l2 : list Event)
    (e e1 e2 : Engine) g g1 g2 :
  run cfg fuel l1 e g = Ok (e1, g1) -> run cfg fuel l2 e1 g1 = Ok (e2, g2) ->
  run cfg fuel (l1 ++ l2) e g = Ok (e2, g2).
Proof.
  unfold run. intros H1 H2. rewrite foldM_app, (bind_eq _ _ _ _ _ H1).
  exact H2.
Qed.

Lemma sim_steps_spec (cfg : Config) (budget : nat) (now : R) :
  forall (lag : R) (e : Engine) g (r : R * Engine) g',
  sim_steps cfg budget now lag e g = Ok (r, g') ->
  exists n : nat,
    (n <= budget)%nat /\
    run cfg 0 (Tick <$> replicate n now) e g = Ok (r.2, g') /\
    r.1 = lag - INR n * _dt_ms cfg /\
    ((n < budget)%nat -> r.1 < _dt_ms cfg) /\
    (0 <= lag -> 0 <= r.1).
Proof.
  induction budget as [|b IH]; intros lag e g r g' H; cbn [sim_steps] in H.
  - apply ret_Ok in H as [-> ->]. exists 0%nat. cbn [fst snd].
    split; [lia|]. split; [reflexivity|]. split; [simpl; ring|].
    split; [lia|auto].
  - destruct (JS.leb (_dt_ms cfg) lag) eqn:Hdue.
    + apply leb_true in Hdue.
      apply bind_Ok in H as (e1 & g1 & Hup & H).
      destruct (IH _ _ _ _ _ H) as (n & Hn & Hrun & Hlag & Hlt & Hpos).
      exists (S n). split; [lia|]. split.
      { change (Tick <$> replicate (S n) now)
          with (Tick <$> (now :: replicate n now)).
        rewrite run_ticks_cons, (bind_eq _ _ _ _ _ Hup). exact Hrun. }
      split; [rewrite Hlag, S_INR; ring|].
      split; [intros Hb; apply Hlt; lia|].
      intros _. apply Hpos. lra.
    + apply leb_false in Hdue. apply ret_Ok in H as [-> ->].
      exists 0%nat. cbn [fst snd].
      split; [lia|]. split; [reflexivity|]. split; [simpl; ring|].
      split; [intros _; exact Hdue|auto].
Qed.

(** X20.  One frame of a running engine.  A frame that does not come too
    early runs at most two simulation steps, all at the frame time, then
    renders; it adds the elapsed time to the lag and takes one step off
    for each step run.  When fewer than two steps ran, less than one step
    of lag is left; the lag stays non-negative. *)
Theorem loop_frame (cfg : Config) (vis : Visuals) (now : R) (ls ls' : LoopSt)
    (e e' : Engine) (fo : option Frame) (g g' : Rng) :
  _running ls = true -> _minFrameMs vis <= now - _prev ls ->
  _loop cfg vis now ls e g = Ok ((ls', e', fo), g') ->
  exists (n : nat) (f : Frame),
    (n <= 2)%nat /\
    run cfg 0 (Tick <$> replicate n now) e g = Ok (e', g') /\
    _render vis e' g' = Ok (f, g') /\ fo = Some f /\
    _running ls' = true /\ _prev ls' = now /\
    _lag ls' = _lag ls + (now - _prev ls) - INR n * _dt_ms cfg /\
    ((n < 2)%nat -> _lag ls' < _dt_ms cfg) /\
    (0 <= _lag ls + (now - _prev ls) -> 0 <= _lag ls').
Proof.
  intros Hrun Hlate H. unfold _loop in H. rewrite Hrun in H. cbn [negb] in H.
  destruct (JS.ltb _ _) eqn:Hearly in H; [apply ltb_true in Hearly; lra|].
  apply bind_Ok in H as (r & g1 & Hsteps & H).
  apply bind_Ok in H as (f & g2 & Hf & H).
  apply ret_Ok in H as [H ->]. inversion H; subst ls' e' fo.
  pose proof (render_rng _ _ _ _ _ Hf) as ->.
  destruct (sim_steps_spec _ _ _ _ _ _ _ _ Hsteps)
    as (n & Hn & Hr & Hlag & Hlt & Hpos).
  exists n, f. cbn [_running _prev _lag].
  repeat (split; [assumption || reflexivity|]). exact Hpos.
Qed.

Lemma sim_steps_total (cfg : Config) (budget : nat) (now : R) :
  forall (lag : R) (e : Engine) (L F : list nat) g,
  pulse_state e L F -> scene_ok cfg e -> links_valid e L ->
  exists r g' L' F',
    sim_steps cfg budget now lag e g = Ok (r, g') /\
    pulse_state r.2 L' F' /\ scene_ok cfg r.2 /\ links_valid r.2 L'.
Proof.
  induction budget as [|b IH]; intros lag e L F g Hst Hsc Hlv;
    cbn [sim_steps].
  - exists (lag, e), g, L, F. split; [reflexivity|].
    split; [exact Hst|]. split; [exact Hsc|exact Hlv].
  - destruct (JS.leb (_dt_ms cfg) lag).
    + destruct (tick_links_valid cfg (_dt_ms cfg) now e L F g Hst Hsc Hlv)
        as (e1 & g1 & L1 & F1 & Hup & Hst1 & Hsc1 & Hlv1).
      rewrite (bind_eq _ _ _ _ _ Hup). apply (IH _ _ L1 F1); assumption.
    + exists (lag, e), g, L, F. split; [reflexivity|].
      split; [exact Hst|]. split; [exact Hsc|exact Hlv].
Qed.

Lemma frame_loop_total (cfg : Config) (vis : Visuals) (now : R) (ls : LoopSt)
    (e : Engine) (L F : list nat) g :
  pulse_state e L F -> scene_ok cfg e -> links_valid e L ->
  exists ls' e' fo g' L' F',
    _loop cfg vis now ls e g = Ok ((ls', e', fo), g') /\
    pulse_state e' L' F' /\ scene_ok cfg e' /\ links_valid e' L'.
Proof.
  intros Hst Hsc Hlv. unfold _loop.
  destruct (negb (_running ls)).
  { exists ls, e, None, g, L, F. split; [reflexivity|].
    split; [exact Hst|]. split; [exact Hsc|exact Hlv]. }
  destruct (JS.ltb _ _).
  { exists ls, e, None, g, L, F. split; [reflexivity|].
    split; [exact Hst|]. split; [exact Hsc|exact Hlv]. }
  destruct (sim_steps_total cfg 2 now (_lag ls + (now - _prev ls)) e L F g
              Hst Hsc Hlv) as (r & g1 & L1 & F1 & Hs & Hst1 & Hsc1 & Hlv1).
  rewrite (bind_eq _ _ _ _ _ Hs).
  destruct (render_sound cfg vis r.2 L1 F1 g1 Hst1 Hsc1 Hlv1) as (f & Hf).
  rewrite (bind_eq _ _ _ _ _ Hf).
  eexists _, _, _, _, L1, F1. split; [reflexivity|].
  split; [exact Hst1|]. split; [exact Hsc1|exact Hlv1].
Qed.

Lemma demo_links_valid (n : nat) : links_valid (demo_engine_n n) [].
Proof. intros a Ha. apply elem_of_nil in Ha. contradiction. Qed.

Lemma loop_frame_witness :
  exists ls' e' fo g',
    _loop CONFIG VISUALS 1000 (mkLoop true 0 0) demo_engine zero_rng
    = Ok ((ls', e', fo), g') /\
    exists (n : nat) (f : Frame),
      (n <= 2)%nat /\
      run CONFIG 0 (Tick <$> replicate n 1000) demo_engine zero_rng
      = Ok (e', g') /\
      _render VISUALS e' g' = Ok (f, g') /\ fo = Some f /\
      _running ls' = true /\ _prev ls' = 1000 /\
      _lag ls' = 0 + (1000 - 0) - INR n * _dt_ms CONFIG /\
      ((n < 2)%nat -> _lag ls' < _dt_ms CONFIG) /\
      (0 <= 0 + (1000 - 0) -> 0 <= _lag ls').
Proof.
  destruct (frame_loop_total CONFIG VISUALS 1000 (mkLoop true 0 0) demo_engine
              [] (seq 0 12) zero_rng (demo_pulse_state 12))
    as (ls' & e' & fo & g' & _ & _ & E & _).
  - apply static_demo_scene; [simpl; lia|apply demo_static].
  - apply demo_links_valid.
  - exists ls', e', fo, g'. split; [exact E|].
    apply (loop_frame CONFIG VISUALS 1000 (mkLoop true 0 0) ls' demo_engine e'
             fo zero_rng g'); [reflexivity| |exact E].
    unfold _minFrameMs. simpl. lra.
Defined.

Lemma frames_total (cfg : Config) (vis : Visuals) (nows : list R) :
  forall (ls : LoopSt) (e : Engine) (L F : list nat) g,
  pulse_state e L F -> scene_ok cfg e -> links_valid e L ->
  exists ls' e' g', frames cfg vis nows ls e g = Ok ((ls', e'), g').
Proof.
  unfold frames.
  induction nows as [|now nows IH]; intros ls e L F g Hst Hsc Hlv.
  - exists ls, e, g. reflexivity.
  - destruct (frame_loop_total cfg vis now ls e L F g Hst Hsc Hlv)
      as (ls1 & e1 & fo & g1 & L1 & F1 & E & Hst1 & Hsc1 & Hlv1).
    cbn [foldM fst snd]. rewrite bind_assoc, (bind_eq _ _ _ _ _ E), bind_ret.
    cbn [fst snd]. apply (IH ls1 e1 L1 F1); assumption.
Qed.

Lemma frames_spec (cfg : Config) (vis : Visuals) (nows : list R) :
  0 < RENDER_FPS_CAP vis ->
  forall (ls ls' : LoopSt) (e e' : Engine) g g',
  frames cfg vis nows ls e g = Ok ((ls', e'), g') ->
  _running ls = true -> 0 <= _lag ls ->
  exists ticks : list R,
    run cfg 0 (Tick <$> ticks) e g = Ok (e', g') /\
    INR (length ticks) * _dt_ms cfg + _lag ls' - _lag ls
    = _prev ls' - _prev ls /\
    0 <= _lag ls' /\ _running ls' = true /\
    (length ticks <= 2 * length nows)%nat /\
    (forall t0, t0 ∈ ticks -> t0 ∈ nows).
Proof.
  intros Hcap.
  assert (Hmin : 0 < _minFrameMs vis).
  { unfold _minFrameMs, Rdiv. apply Rmult_lt_0_compat; [lra|].
    apply Rinv_0_lt_compat. exact Hcap. }
  unfold frames.
  induction nows as [|now nows IH]; intros ls ls' e e' g g' H Hrun Hlag.
  - apply ret_Ok in H as [H ->]. inversion H; subst ls' e'.
    exists []. split; [reflexivity|]. split; [simpl; ring|].
    split; [exact Hlag|]. split; [exact Hrun|]. split; [simpl; lia|].
    intros t0 Ht. apply elem_of_nil in Ht. contradiction.
  - cbn [foldM fst snd] in H.
    apply bind_Ok in H as (s1 & g1 & H1 & H).
    apply bind_Ok in H1 as (r & g2 & Hloop & H1).
    apply ret_Ok in H1 as [-> ->].
    destruct r as [[ls1 e1] fo]. cbn [fst snd] in H.
    destruct (Rlt_dec (now - _prev ls) (_minFrameMs vis)) as [Hearly|Hlate].
    + unfold _loop in Hloop. rewrite Hrun in Hloop. cbn [negb] in Hloop.
      apply ltb_true in Hearly. rewrite Hearly in Hloop.
      apply ret_Ok in Hloop as [Hloop ->]. inversion Hloop; subst ls1 e1 fo.
      destruct (IH _ _ _ _ _ _ H Hrun Hlag)
        as (ticks & Hr & Heq & Hpos & Hrun' & Hlen & Hin).
      exists ticks. split; [exact Hr|]. split; [exact Heq|].
      split; [exact Hpos|]. split; [exact Hrun'|].
      split; [simpl; lia|].
      intros t0 Ht. apply elem_of_cons. right. apply Hin. exact Ht.
    + apply Rnot_lt_le in Hlate.
      destruct (loop_frame cfg vis now ls ls1 e e1 fo g g2 Hrun Hlate Hloop)
        as (n & f & Hn & Hr1 & _ & _ & Hrun1 & Hprev1 & Hlag1 & _ & Hpos1).
      assert (Hlag1' : 0 <= _lag ls1) by (apply Hpos1; lra).
      destruct (IH _ _ _ _ _ _ H Hrun1 Hlag1')
        as (ticks & Hr & Heq & Hpos & Hrun' & Hlen & Hin).
      exists (replicate n now ++ ticks).
      split; [rewrite fmap_app; eapply run_app; eassumption|].
      split.
      { rewrite length_app, length_replicate, plus_INR. rewrite Hprev1 in Heq.
        lra. }
      split; [exact Hpos|]. split; [exact Hrun'|].
      split; [rewrite length_app, length_replicate; simpl; lia|].
      intros t0 Ht. apply elem_of_app in Ht as [Ht|Ht].
      * apply elem_of_replicate in Ht as [-> _]. apply elem_of_cons. left.
        reflexivity.
      * apply elem_of_cons. right. apply Hin. exact Ht.
Qed.

(** X21.  The simulation never runs ahead of real time.  After [stop()]
    and [start()] at time [now0], whatever frames follow (for a positive
    render cap): the engine is where as many ticks took it as the frames
    ran, at most two a frame, each at the time of its frame; the time
    those ticks simulate plus the lag left is exactly the time from
    [now0] to the last frame that was not skipped; and the lag is never
    negative. *)
Theorem frames_real_time (cfg : Config) (vis : Visuals) (nows : list R)
    (now0 : R) (ls0 ls : LoopSt) (e0 e : Engine) (g g' : Rng) :
  0 < RENDER_FPS_CAP vis ->
  frames cfg vis nows (start now0 (stop ls0)) e0 g = Ok ((ls, e), g') ->
  exists ticks : list R,
    run cfg 0 (Tick <$> ticks) e0 g = Ok (e, g') /\
    INR (length ticks) * _dt_ms cfg + _lag ls = _prev ls - now0 /\
    0 <= _lag ls /\
    (length ticks <= 2 * length nows)%nat /\
    (forall t0, t0 ∈ ticks -> t0 ∈ nows).
Proof.
  intros Hcap H.
  destruct (frames_spec cfg vis nows Hcap _ _ _ _ _ _ H)
    as (ticks & Hr & Heq & Hpos & _ & Hlen & Hin);
    [reflexivity|simpl; lra|].
  exists ticks. cbn [start stop _running _prev _lag] in Heq.
  split; [exact Hr|]. split; [lra|]. split; [exact Hpos|].
  split; [exact Hlen|exact Hin].
Qed.

Lemma frames_real_time_witness :
  exists ls e g',
    frames CONFIG VISUALS [16; 50; 5000] (start 0 (stop (mkLoop true 7 9)))
      demo_engine zero_rng = Ok ((ls, e), g') /\
    exists ticks : list R,
      run CONFIG 0 (Tick <$> ticks) demo_engine zero_rng = Ok (e, g') /\
      INR (length ticks) * _dt_ms CONFIG + _lag ls = _prev ls - 0 /\
      0 <= _lag ls /\
      (length ticks <= 2 * length [16; 50; 5000])%nat /\
      (forall t0, t0 ∈ ticks -> t0 ∈ [16; 50; 5000]).
Proof.
  destruct (frames_total CONFIG VISUALS [16; 50; 5000]
              (start 0 (stop (mkLoop true 7 9))) demo_engine [] (seq 0 12)
              zero_rng (demo_pulse_state 12)) as (ls & e & g' & E).
  - apply static_demo_scene; [simpl; lia|apply demo_static].
  - apply demo_links_valid.
  - exists ls, e, g'. split; [exact E|].
    apply (frames_real_time CONFIG VISUALS [16; 50; 5000] 0
             (mkLoop true 7 9) ls demo_engine e zero_rng g'); [|exact E].
    simpl. lra.
Defined.

(** ** The foreground graph is maximal *)

Section ForegroundMaximal.
Variables (cfg : Config) (nds : list Fg.Node) (flags : list bool)
          (maxDist : R).
Hypothesis Hcaps : caps_ok cfg.

Local Abbreviation close := (fg_close nds maxDist).
Local Abbreviation settled := (fg_settled cfg flags).
Local Abbreviation full_inv := (fg_full_inv cfg nds flags maxDist).

Lemma fg_settled_mono (lks es : list Fg.Link) (i j : nat) :
  settled lks i j -> settled (lks ++ es) i j.
Proof.
  unfold fg_settled, fg_pairs. rewrite !map_app.
  intros [H|[H|H]].
  - left. apply elem_of_app. left. exact H.
  - right. left.
    pose proof (incident_app_le i (fg_pairs lks) (fg_pairs es)).
    unfold fg_pairs in *. lia.
  - right. right.
    pose proof (incident_app_le j (fg_pairs lks) (fg_pairs es)).
    unfold fg_pairs in *. lia.
Qed.

Lemma link_step_grows (i : nat) (st : BuildSt) (entry : Fg.Cand) :
  exists es, b_links (link_step cfg flags i st entry) = b_links st ++ es.
Proof.
  unfold link_step. destruct (decide _); [exists []; symmetry; apply app_nil_r|].
  destruct (_ || _); [exists []; symmetry; apply app_nil_r|].
  eexists. reflexivity.
Qed.

Lemma link_fold_grows (i : nat) (l : list Fg.Cand) (st : BuildSt) :
  exists es,
    b_links (fold_left (link_step cfg flags i) l st) = b_links st ++ es.
Proof.
  revert st. induction l as [|c l IH]; intros st.
  - exists []. symmetry. apply app_nil_r.
  - cbn [fold_left]. destruct (IH (link_step cfg flags i st c)) as (es & ->).
    destruct (link_step_grows i st c) as (es0 & ->).
    exists (es0 ++ es). rewrite app_assoc. reflexivity.
Qed.

Lemma link_step_full (i : nat) (st : BuildSt) (entry : Fg.Cand) :
  cand_ok nds maxDist i entry -> full_inv st ->
  full_inv (link_step cfg flags i st entry).
Proof.
  intros Hc (He & Hd & Hs).
  split; [apply link_step_edges; assumption|].
  split; [apply (link_step_deg cfg nds flags maxDist Hcaps); assumption|].
  unfold link_step. destruct (decide _); [exact Hs|].
  destruct (_ || _); [exact Hs|].
  cbn [b_seen b_links]. intros k Hk. rewrite map_app.
  apply elem_of_union in Hk as [Hk|Hk].
  - apply elem_of_singleton in Hk. subst k.
    apply elem_of_app. right. apply list_elem_of_singleton. reflexivity.
  - apply elem_of_app. left. apply Hs. exact Hk.
Qed.

(** Processing a candidate settles its pair. *)
Lemma link_step_settles (i : nat) (st : BuildSt) (entry : Fg.Cand) :
  cand_ok nds maxDist i entry -> full_inv st ->
  settled (b_links (link_step cfg flags i st entry)) i (Fg.j entry).
Proof.
  intros Hc (He & (Htr & _) & Hs).
  destruct Htr as (Hlen & Htr).
  pose proof Hc as (Hne & a & b & Ha & Hb & _). cbn [Fg.ai Fg.bi] in Ha, Hb.
  apply lookup_lt_Some in Ha, Hb.
  unfold link_step. destruct (decide _) as [Hseen|Hfresh].
  { left. apply Hs. exact Hseen. }
  destruct (deg_ge (b_degrees st) i (cap_of cfg flags i)) eqn:Ei.
  { cbn [orb]. right. left. unfold deg_ge in Ei. rewrite (Htr _ Ha) in Ei.
    apply Z.leb_le in Ei. exact Ei. }
  destruct (deg_ge (b_degrees st) (Fg.j entry) (cap_of cfg flags (Fg.j entry)))
    eqn:Ej.
  { cbn [orb]. right. right. unfold deg_ge in Ej. rewrite (Htr _ Hb) in Ej.
    apply Z.leb_le in Ej. exact Ej. }
  cbn [orb b_links]. left. rewrite map_app. apply elem_of_app. right.
  apply list_elem_of_singleton. reflexivity.
Qed.

Lemma link_fold_settles (i : nat) (l : list Fg.Cand) :
  Forall (cand_ok nds maxDist i) l ->
  forall st, full_inv st ->
  full_inv (fold_left (link_step cfg flags i) l st) /\
  forall c, c ∈ l ->
    settled (b_links (fold_left (link_step cfg flags i) l st)) i (Fg.j c).
Proof.
  induction l as [|c0 l IH]; intros Hok st Hinv.
  - split; [exact Hinv|]. intros c Hc. apply elem_of_nil in Hc. contradiction.
  - apply Forall_cons in Hok as [Hok0 Hok]. cbn [fold_left].
    pose proof (link_step_full i st c0 Hok0 Hinv) as Hinv1.
    destruct (IH Hok _ Hinv1) as (Hfinal & Hall).
    split; [exact Hfinal|].
    intros c Hc. apply elem_of_cons in Hc as [->|Hc]; [|apply Hall; exact Hc].
    destruct (link_fold_grows i l (link_step cfg flags i st c0)) as (es & ->).
    apply fg_settled_mono. apply link_step_settles; assumption.
Qed.

(** Every node close to [i] is settled already or becomes a candidate. *)
Lemma candidate_step_complete (st : BuildSt) (i j : nat)
    (cands cands' : list Fg.Cand) g g' :
  full_inv st -> (j < length nds)%nat ->
  candidate_step cfg nds flags maxDist st i cands j g = Ok (cands', g') ->
  (forall c, c ∈ cands -> c ∈ cands') /\
  (close i j ->
   settled (b_links st) i j \/ exists c, c ∈ cands' /\ Fg.j c = j).
Proof.
  intros (_ & ((_ & Htr) & _) & Hs) Hj H. unfold candidate_step in H.
  destruct (Nat.eqb_spec j i) as [->|Hji].
  { apply ret_Ok in H as [-> _]. split; [auto|].
    intros (Hne & _). contradiction. }
  destruct (decide _) as [Hseen|Hfresh].
  { apply ret_Ok in H as [-> _]. split; [auto|].
    intros _. left. left. apply Hs. exact Hseen. }
  apply bind_Ok in H as (a & g1 & Ha & H). apply defined_Ok in Ha as [Ha _].
  apply bind_Ok in H as (b & g2 & Hb & H). apply defined_Ok in Hb as [Hb _].
  destruct (_ || _) eqn:Hfar in H.
  { apply ret_Ok in H as [-> _]. split; [auto|].
    intros (_ & a' & b' & Ha' & Hb' & Hd & Hz).
    rewrite Ha in Ha'. rewrite Hb in Hb'.
    inversion Ha'; inversion Hb'; subst a' b'.
    apply orb_true_iff in Hfar as [Hfar|Hfar].
    - apply ltb_true in Hfar. lra.
    - apply eqb_true in Hfar. contradiction. }
  destruct (deg_ge _ _ _) eqn:Ej in H.
  { apply ret_Ok in H as [-> _]. split; [auto|].
    intros _. left. right. right.
    unfold deg_ge in Ej. rewrite (Htr _ Hj) in Ej.
    apply Z.leb_le in Ej. exact Ej. }
  apply bind_Ok in H as (u & g3 & _ & H).
  apply ret_Ok in H as [-> _]. split.
  - intros c Hc. apply elem_of_app. left. exact Hc.
  - intros _. right. eexists. split.
    + apply elem_of_app. right. apply list_elem_of_singleton. reflexivity.
    + reflexivity.
Qed.

Lemma candidates_complete (st : BuildSt) (i : nat) (js : list nat) :
  full_inv st -> Forall (fun j => (j < length nds)%nat) js ->
  forall (cands cands' : list Fg.Cand) g g',
  foldM (candidate_step cfg nds flags maxDist st i) js cands g
  = Ok (cands', g') ->
  (forall c, c ∈ cands -> c ∈ cands') /\
  (forall j, j ∈ js -> close i j ->
     settled (b_links st) i j \/ exists c, c ∈ cands' /\ Fg.j c = j).
Proof.
  intros Hinv. induction js as [|j js IH]; intros Hjs cands cands' g g' H.
  - apply ret_Ok in H as [-> _]. split; [auto|].
    intros j Hj. apply elem_of_nil in Hj. contradiction.
  - cbn [foldM] in H. apply bind_Ok in H as (c1 & g1 & Hstep & H).
    apply Forall_cons in Hjs as [Hj Hjs].
    destruct (IH Hjs _ _ _ _ H) as (Hmono & Hall).
    destruct (candidate_step_complete _ _ _ _ _ _ _ Hinv Hj Hstep)
      as (Hmono1 & Hone).
    split.
    + intros c Hc. apply Hmono, Hmono1, Hc.
    + intros j' Hj' Hclose. apply elem_of_cons in Hj' as [->|Hj'].
      * destruct (Hone Hclose) as [Hset|(c & Hc & Hcj)]; [left; exact Hset|].
        right. exists c. split; [apply Hmono; exact Hc|exact Hcj].
      * apply Hall; assumption.
Qed.

(** Visiting node [i] settles every pair [(i, j)] of close nodes. *)
Lemma visit_settles (st st' : BuildSt) (i : nat) g g' :
  full_inv st -> (i < length nds)%nat ->
  visit cfg nds flags maxDist st i g = Ok (st', g') ->
  full_inv st' /\
  (exists es, b_links st' = b_links st ++ es) /\
  forall j, (j < length nds)%nat -> close i j -> settled (b_links st') i j.
Proof.
  intros Hinv Hi H. unfold visit in H.
  pose proof Hinv as (_ & ((_ & Htr) & _) & _).
  destruct (deg_ge _ _ _) eqn:Ei in H.
  { apply ret_Ok in H as [-> _]. split; [exact Hinv|].
    split; [exists []; symmetry; apply app_nil_r|].
    intros j _ _. right. left. unfold deg_ge in Ei. rewrite (Htr _ Hi) in Ei.
    apply Z.leb_le in Ei. exact Ei. }
  apply bind_Ok in H as (cands & g1 & Hcands & H).
  assert (Hok : Forall (cand_ok nds maxDist i) cands).
  { eapply (foldM_inv _ (Forall (cand_ok nds maxDist i)));
      [|constructor|exact Hcands].
    intros c a g4 c' g4' _ Hc Hcs. eapply candidate_step_ok; eassumption. }
  destruct (candidates_complete st i (seq 0 (length nds)) Hinv) 
    with (cands := @nil Fg.Cand) (cands' := cands) (g := g) (g' := g1)
    as (_ & Hall); [|exact Hcands|].
  { apply Forall_forall. intros j Hj. apply elem_of_seq in Hj. lia. }
  assert (Hsorted : Forall (cand_ok nds maxDist i) (sort_desc Fg.weight cands)).
  { apply Forall_forall. intros c Hc. rewrite Forall_forall in Hok.
    apply Hok. apply list_elem_of_In. apply list_elem_of_In in Hc.
    eapply sort_desc_In. exact Hc. }
  destruct (link_fold_settles i _ Hsorted st Hinv) as (Hfinal & Hset).
  destruct (link_fold_grows i (sort_desc Fg.weight cands) st) as (es & Hes).
  destruct cands as [|c0 cands'].
  - apply ret_Ok in H as [-> _]. split; [exact Hinv|].
    split; [exists []; symmetry; apply app_nil_r|].
    intros j Hj Hclose.
    destruct (Hall j) as [Hs|(c & Hc & _)];
      [apply elem_of_seq; lia|exact Hclose|exact Hs|].
    apply elem_of_nil in Hc. contradiction.
  - apply ret_Ok in H as [-> _]. split; [exact Hfinal|].
    split; [exists es; exact Hes|].
    intros j Hj Hclose.
    destruct (Hall j) as [Hs|(c & Hc & <-)];
      [apply elem_of_seq; lia|exact Hclose| |].
    + rewrite Hes. apply fg_settled_mono. exact Hs.
    + apply Hset. apply list_elem_of_In.
      eapply Permutation_in; [apply sort_desc_perm|].
      apply list_elem_of_In. exact Hc.
Qed.

Lemma visits_settle (indices : list nat) :
  Forall (fun i => (i < length nds)%nat) indices ->
  forall (st st' : BuildSt) g g',
  full_inv st ->
  foldM (visit cfg nds flags maxDist) indices st g = Ok (st', g') ->
  full_inv st' /\
  (exists es, b_links st' = b_links st ++ es) /\
  forall i j, i ∈ indices -> (j < length nds)%nat -> close i j ->
    settled (b_links st') i j.
Proof.
  induction indices as [|i indices IH]; intros Hix st st' g g' Hinv H.
  - apply ret_Ok in H as [-> _]. split; [exact Hinv|].
    split; [exists []; symmetry; apply app_nil_r|].
    intros i j Hi. apply elem_of_nil in Hi. contradiction.
  - cbn [foldM] in H. apply bind_Ok in H as (st1 & g1 & Hv & H).
    apply Forall_cons in Hix as [Hi Hix].
    destruct (visit_settles _ _ _ _ _ Hinv Hi Hv) as (Hinv1 & (es1 & Hes1) & Hs1).
    destruct (IH Hix _ _ _ _ Hinv1 H) as (Hfinal & (es & Hes) & Hall).
    split; [exact Hfinal|].
    split; [exists (es1 ++ es); rewrite Hes, Hes1, app_assoc; reflexivity|].
    intros i' j Hi' Hj Hclose. apply elem_of_cons in Hi' as [->|Hi'].
    + rewrite Hes. apply fg_settled_mono. apply Hs1; assumption.
    + apply Hall; assumption.
Qed.

Lemma build_links_maximal g lks g' :
  build_links cfg nds flags maxDist g = Ok (lks, g') ->
  forall i j, (j < length nds)%nat -> close i j -> settled lks i j.
Proof.
  intros H i j Hj Hclose. unfold build_links in H.
  apply bind_Ok in H as (indices & g1 & Hsh & H).
  apply bind_Ok in H as (st & g2 & Hst & H).
  apply ret_Ok in H as [-> _].
  assert (Hperm : indices ≡ₚ seq 0 (length nds)).
  { unfold shuffleArray in Hsh. eapply shuffle_from_perm. exact Hsh. }
  destruct (visits_settle indices) with (st := mkBuildSt [] ∅
             (replicate (length nds) 0%Z)) (st' := st) (g := g1) (g' := g2)
    as (_ & _ & Hall); [| |exact Hst|].
  - apply Forall_forall. intros i0 Hi0. rewrite Hperm in Hi0.
    apply elem_of_seq in Hi0. lia.
  - split; [|split].
    + split; [constructor|]. split; [intros L []|constructor].
    + split; [split|]; simpl.
      * apply length_replicate.
      * intros v Hv. rewrite lookup_replicate_2 by exact Hv. reflexivity.
      * intros v. rewrite incident_nil. apply cap_of_bounds. exact Hcaps.
    + intros k Hk. cbn [b_seen] in Hk. apply elem_of_empty in Hk.
      contradiction.
  - apply Hall; [|exact Hj|exact Hclose].
    rewrite Hperm. apply elem_of_seq.
    destruct Hclose as (_ & a & _ & Ha & _). apply lookup_lt_Some in Ha. lia.
Qed.

End ForegroundMaximal.

Lemma key_eq (i j a b : nat) :
  key i j = key a b -> (a = i /\ b = j) \/ (a = j /\ b = i).
Proof.
  unfold key. destruct (i <? j)%nat, (a <? b)%nat; intros H; inversion H;
    subst; tauto.
Qed.

(** X22.  The foreground graph is maximal under the degree caps.  After
    [_buildLinks], for a configuration whose caps fit the degree array,
    every two different nodes that lie at most [linkDistanceMax] apart,
    and not on the same spot, are joined by a link, unless one of the two
    is full: it has exactly [MAX_LINKS_DYNAMIC] links and its movement
    flag is set, or exactly [MAX_LINKS_STATIC] links and its flag is not
    set. *)
Theorem fg_links_maximal (cfg : Config) (e e' : Engine) (g g' : Rng)
    (i j : nat) (a b : Fg.Node) :
  caps_ok cfg ->
  _buildLinks cfg e g = Ok (e', g') ->
  i <> j -> nodes e !! i = Some a -> nodes e !! j = Some b ->
  JS.hypot (Fg.x a - Fg.x b) (Fg.y a - Fg.y b) <= linkDistanceMax e ->
  JS.hypot (Fg.x a - Fg.x b) (Fg.y a - Fg.y b) <> 0 ->
  (exists L, L ∈ links e' /\
     ((Fg.ai L = i /\ Fg.bi L = j) \/ (Fg.ai L = j /\ Fg.bi L = i))) \/
  (exists v, (v = i \/ v = j) /\
     ((movingFlags e !! v = Some true /\
       Z.of_nat (incident v (fg_pairs (links e'))) = MAX_LINKS_DYNAMIC cfg) \/
      (movingFlags e !! v <> Some true /\
       Z.of_nat (incident v (fg_pairs (links e'))) = MAX_LINKS_STATIC cfg))).
Proof.
  intros Hcaps H Hij Ha Hb Hd Hz.
  pose proof (buildLinks_Ok _ _ _ _ _ H)
    as (lks & g1 & Hbuild & _ & _ & _ & Hl & _).
  rewrite Hl.
  pose proof (build_links_deg cfg (nodes e) (movingFlags e)
                (linkDistanceMax e) g lks g1 Hcaps Hbuild) as Hcap.
  assert (Hfull : forall v,
            (cap_of cfg (movingFlags e) v
             <= Z.of_nat (incident v (fg_pairs lks)))%Z ->
            (movingFlags e !! v = Some true /\
             Z.of_nat (incident v (fg_pairs lks)) = MAX_LINKS_DYNAMIC cfg) \/
            (movingFlags e !! v <> Some true /\
             Z.of_nat (incident v (fg_pairs lks)) = MAX_LINKS_STATIC cfg)).
  { intros v Hv. specialize (Hcap v). unfold cap_of in Hv, Hcap.
    destruct (movingFlags e !! v) as [[|]|]; simpl in Hv, Hcap.
    - left. split; [reflexivity|lia].
    - right. split; [discriminate|lia].
    - right. split; [discriminate|lia]. }
  destruct (build_links_maximal cfg (nodes e) (movingFlags e)
              (linkDistanceMax e) Hcaps g lks g1 Hbuild i j)
    as [Hk|[Hs|Hs]].
  - apply lookup_lt_Some in Hb. exact Hb.
  - split; [exact Hij|]. exists a, b. repeat split; assumption.
  - left. apply list_elem_of_In, in_map_iff in Hk as (L & HL & Hin).
    exists L. split; [apply list_elem_of_In; exact Hin|].
    unfold link_key in HL. symmetry in HL. apply key_eq in HL. exact HL.
  - right. exists i. split; [left; reflexivity|]. apply Hfull. exact Hs.
  - right. exists j. split; [right; reflexivity|]. apply Hfull. exact Hs.
Qed.

Lemma fg_links_maximal_witness :
  exists e' g',
    _buildLinks CONFIG demo_engine zero_rng = Ok (e', g') /\
    ((exists L, L ∈ links e' /\
        ((Fg.ai L = 0%nat /\ Fg.bi L = 1%nat) \/
         (Fg.ai L = 1%nat /\ Fg.bi L = 0%nat))) \/
     (exists v, (v = 0%nat \/ v = 1%nat) /\
        Z.of_nat (incident v (fg_pairs (links e'))) = 5%Z)).
Proof.
  destruct (buildLinks_total CONFIG demo_engine zero_rng demo_nodes_small)
    as (e' & g' & E).
  exists e', g'. split; [exact E|].
  assert (Hd : JS.hypot (Fg.x (demo_node 0) - Fg.x (demo_node 1))
                        (Fg.y (demo_node 0) - Fg.y (demo_node 1)) = 600).
  { unfold demo_node. cbn [Fg.x Fg.y].
    replace (INR (0 mod 2) * 600 - INR (1 mod 2) * 600) with (Ropp 600)
      by (simpl; ring).
    replace (INR (0 / 2) * 10 - INR (1 / 2) * 10) with 0 by (simpl; ring).
    apply hypot_neg_axis. lra. }
  destruct (fg_links_maximal CONFIG demo_engine e' zero_rng g' 0 1
              (demo_node 0) (demo_node 1)) as [Hlink|(v & Hv & Hfull)].
  - exact caps_ok_CONFIG.
  - exact E.
  - lia.
  - reflexivity.
  - reflexivity.
  - rewrite Hd. simpl. lra.
  - rewrite Hd. lra.
  - left. exact Hlink.
  - right. exists v. split; [exact Hv|].
    destruct Hfull as [[Hflag _]|[_ Hdeg]]; [|exact Hdeg].
    change (movingFlags demo_engine) with (replicate 100 false) in Hflag.
    apply lookup_replicate in Hflag as [Hflag _]. discriminate.
Defined.

(** ** Links never join two nodes on the same spot *)

Lemma hypot_nonneg (dx dy : R) : 0 <= JS.hypot dx dy.
Proof. unfold JS.hypot. apply sqrt_pos. Qed.

Section Apart.
Variables (cfg : Config).

Lemma candidate_step_apart (nds : list Fg.Node) (flags : list bool)
    (maxDist : R) (st : BuildSt) (i : nat) (cands : list Fg.Cand)
    (j : nat) g cands' g' :
  Forall (fun c => Fg.dist c <> 0) cands ->
  candidate_step cfg nds flags maxDist st i cands j g = Ok (cands', g') ->
  Forall (fun c => Fg.dist c <> 0) cands'.
Proof.
  intros Hc H. unfold candidate_step in H.
  destruct (Nat.eqb_spec j i) as [|Hji].
  { apply ret_Ok in H as [-> _]. exact Hc. }
  destruct (decide _).
  { apply ret_Ok in H as [-> _]. exact Hc. }
  apply bind_Ok in H as (a & g1 & Ha & H). apply defined_Ok in Ha as [Ha _].
  apply bind_Ok in H as (b & g2 & Hb & H). apply defined_Ok in Hb as [Hb _].
  destruct (_ || _) eqn:Hfar in H.
  { apply ret_Ok in H as [-> _]. exact Hc. }
  destruct (deg_ge _ _ _) in H.
  { apply ret_Ok in H as [-> _]. exact Hc. }
  apply bind_Ok in H as (u & g3 & _ & H).
  apply ret_Ok in H as [-> _].
  apply Forall_app. split; [exact Hc|].
  constructor; [|constructor].
  apply orb_false_iff in Hfar as [_ Hz]. apply eqb_false in Hz.
  cbn [Fg.dist]. exact Hz.
Qed.

Lemma link_step_apart (flags : list bool) (i : nat) (st : BuildSt)
    (entry : Fg.Cand) :
  Fg.dist entry <> 0 ->
  Forall (fun L => Fg.d L <> 0) (b_links st) ->
  Forall (fun L => Fg.d L <> 0) (b_links (link_step cfg flags i st entry)).
Proof.
  intros Hc Hinv. unfold link_step.
  destruct (decide _); [exact Hinv|].
  destruct (_ || _); [exact Hinv|].
  cbn [b_links]. apply Forall_app. split; [exact Hinv|].
  constructor; [exact Hc|constructor].
Qed.

Lemma build_links_apart (nds : list Fg.Node) (flags : list bool)
    (maxDist : R) g lks g' :
  build_links cfg nds flags maxDist g = Ok (lks, g') ->
  Forall (fun L => Fg.d L <> 0) lks.
Proof.
  intros H. unfold build_links in H.
  apply bind_Ok in H as (indices & g1 & _ & H).
  apply bind_Ok in H as (st & g2 & Hst & H).
  apply ret_Ok in H as [-> _].
  refine (foldM_inv _ (fun st => Forall (fun L => Fg.d L <> 0) (b_links st))
            indices _ _ _ _ _ _ Hst); [|cbn [b_links]; constructor].
  intros s i g0 s' g0' _ Hs Hv. unfold visit in Hv.
  destruct (deg_ge _ _ _) in Hv.
  { apply ret_Ok in Hv as [-> _]. exact Hs. }
  apply bind_Ok in Hv as (cands & g3 & Hcands & Hv).
  assert (Hok : Forall (fun c => Fg.dist c <> 0) cands).
  { eapply (foldM_inv _ (Forall (fun c => Fg.dist c <> 0)));
      [|constructor|exact Hcands].
    intros c a g4 c' g4' _ Hc Hcs. eapply candidate_step_apart; eassumption. }
  destruct cands as [|c cands].
  { apply ret_Ok in Hv as [-> _]. exact Hs. }
  apply ret_Ok in Hv as [-> _].
  apply (fold_left_inv _
           (fun st => Forall (fun L => Fg.d L <> 0) (b_links st)));
    [|exact Hs].
  intros s1 en He Hs1. apply link_step_apart; [|exact Hs1].
  apply sort_desc_In in He. rewrite Forall_forall in Hok.
  apply Hok. apply list_elem_of_In. exact He.
Qed.

Lemma bg_candidate_step_apart (nds : list Bg.Node) (maxDist : R) (i j : nat)
    (edges : list Bg.Edge) g edges' g' :
  Forall (bg_apart nds) edges ->
  bg_candidate_step nds maxDist i edges j g = Ok (edges', g') ->
  Forall (bg_apart nds) edges'.
Proof.
  intros Hc H. unfold bg_candidate_step in H.
  apply bind_Ok in H as (a & g1 & Ha & H). apply defined_Ok in Ha as [Ha _].
  apply bind_Ok in H as (b & g2 & Hb & H). apply defined_Ok in Hb as [Hb _].
  destruct (_ || _) eqn:Hfar in H.
  { apply ret_Ok in H as [-> _]. exact Hc. }
  apply bind_Ok in H as (u & g3 & _ & H).
  apply ret_Ok in H as [-> _].
  apply Forall_app. split; [exact Hc|].
  constructor; [|constructor].
  apply orb_false_iff in Hfar as [_ Hz]. apply eqb_false in Hz.
  exists a, b. cbn [Bg.ai Bg.bi]. repeat split; assumption.
Qed.

Lemma build_bg_links_apart (nds : list Bg.Node) (maxDist : R) g edges g' :
  build_bg_links cfg nds maxDist g = Ok (edges, g') ->
  Forall (bg_apart nds) edges.
Proof.
  intros H. unfold build_bg_links in H.
  apply bind_Ok in H as (cands & g1 & Hc & H).
  apply ret_Ok in H as [-> _].
  assert (Hok : Forall (bg_apart nds) cands).
  { eapply (foldM_inv _ (Forall (bg_apart nds))); [|constructor|exact Hc].
    intros es i g2 es' g2' _ Hes Hin.
    eapply (foldM_inv _ (Forall (bg_apart nds))); [|exact Hes|exact Hin].
    intros es1 j g3 es1' g3' _ Hes1 Hstep.
    eapply bg_candidate_step_apart; eassumption. }
  destruct (bg_greedy_sublist (bg_degree_cap cfg) (sort_desc Bg.weight cands)
              [] (replicate (length nds) 0%Z)) as (es & E & Hs).
  rewrite E. simpl.
  apply Forall_forall. intros e He. rewrite Forall_forall in Hok.
  apply Hok. apply list_elem_of_In.
  eapply sort_desc_In, list_elem_of_In, elem_of_sublist; eassumption.
Qed.

End Apart.

(** X23.  No link joins two nodes on the same spot.  Whatever the node
    population and the random draws, every link [_buildLinks] produces
    joins two existing nodes whose distance, which the link caches, is
    positive, and every edge [_buildBgLinks] produces joins two existing
    background nodes at a positive distance. *)
Theorem links_have_length (cfg : Config) (e e' : Engine) (g g' : Rng) :
  (_buildLinks cfg e g = Ok (e', g') ->
   forall L, L ∈ links e' ->
     exists a b, nodes e !! Fg.ai L = Some a /\ nodes e !! Fg.bi L = Some b /\
       Fg.d L = JS.hypot (Fg.x a - Fg.x b) (Fg.y a - Fg.y b) /\
       0 < Fg.d L) /\
  (_buildBgLinks cfg e g = Ok (e', g') ->
   forall E, E ∈ bgLinks e' ->
     exists a b, bgNodes e !! Bg.ai E = Some a /\
       bgNodes e !! Bg.bi E = Some b /\
       0 < JS.hypot (Bg.x a - Bg.x b) (Bg.y a - Bg.y b)).
Proof.
  split; intros H.
  - pose proof (buildLinks_Ok _ _ _ _ _ H)
      as (lks & g1 & Hbuild & _ & _ & _ & Hl & _).
    rewrite Hl. intros L HL.
    pose proof (build_links_edges cfg _ _ _ _ _ _ Hbuild) as (Hok & _).
    pose proof (build_links_apart cfg _ _ _ _ _ _ Hbuild) as Hap.
    rewrite Forall_forall in Hok, Hap.
    destruct (Hok L HL) as (_ & a & b & Ha & Hb & Hd & _).
    exists a, b. repeat split; try assumption.
    pose proof (hypot_nonneg (Fg.x a - Fg.x b) (Fg.y a - Fg.y b)).
    specialize (Hap L HL). lra.
  - apply buildBgLinks_Ok in H as (edges & g1 & Hbuild & ->).
    cbn [bgLinks set_bgLinks bgNodes]. intros E HE.
    pose proof (build_bg_links_apart cfg _ _ _ _ _ Hbuild) as Hap.
    rewrite Forall_forall in Hap.
    destruct (Hap E HE) as (a & b & Ha & Hb & Hz).
    exists a, b. repeat split; try assumption.
    pose proof (hypot_nonneg (Bg.x a - Bg.x b) (Bg.y a - Bg.y b)). lra.
Qed.

Lemma links_have_length_witness :
  exists e1 g1 e2 g2,
    (_buildLinks CONFIG demo_engine zero_rng = Ok (e1, g1) /\
     forall L, L ∈ links e1 ->
       exists a b, nodes demo_engine !! Fg.ai L = Some a /\
         nodes demo_engine !! Fg.bi L = Some b /\
         Fg.d L = JS.hypot (Fg.x a - Fg.x b) (Fg.y a - Fg.y b) /\
         0 < Fg.d L) /\
    (_buildBgLinks CONFIG demo_engine zero_rng = Ok (e2, g2) /\
     forall E, E ∈ bgLinks e2 ->
       exists a b, bgNodes demo_engine !! Bg.ai E = Some a /\
         bgNodes demo_engine !! Bg.bi E = Some b /\
         0 < JS.hypot (Bg.x a - Bg.x b) (Bg.y a - Bg.y b)).
Proof.
  destruct (buildLinks_total CONFIG demo_engine zero_rng demo_nodes_small)
    as (e1 & g1 & E1).
  destruct (buildBgLinks_total CONFIG demo_engine zero_rng) as (e2 & g2 & E2).
  exists e1, g1, e2, g2. split; (split; [assumption|]).
  - apply (proj1 (links_have_length CONFIG demo_engine e1 zero_rng g1) E1).
  - apply (proj2 (links_have_length CONFIG demo_engine e2 zero_rng g2) E2).
Defined.

(** ** Culling *)

Lemma culled_false (vis : Visuals) (e : Engine) (x y : R) :
  culled vis e x y = false -> in_view vis e x y.
Proof.
  unfold culled, in_view. intros H.
  apply orb_false_iff in H as [H H4]. apply orb_false_iff in H as [H H3].
  apply orb_false_iff in H as [H1 H2].
  apply ltb_false in H1, H2, H3, H4. lra.
Qed.

Lemma Forall_mjoin_imap {A B : Type} (P : B -> Prop) (l : list A) :
  forall f : nat -> A -> list B,
  (forall i x, Forall P (f i x)) -> Forall P (mjoin (imap f l)).
Proof.
  induction l as [|x l IH]; intros f Hf; [constructor|].
  cbn [imap mjoin list_join]. apply Forall_app. split; [apply Hf|].
  apply IH. intros i y. apply Hf.
Qed.

Lemma render_link_in_view (vis : Visuals) (e : Engine) (cmds : list Draw)
    (idx : nat) g cmds' g' :
  Forall (draw_in_view vis e) cmds ->
  render_link vis e cmds idx g = Ok (cmds', g') ->
  Forall (draw_in_view vis e) cmds'.
Proof.
  intros Hc H. unfold render_link in H.
  apply bind_Ok in H as (L & g1 & _ & H).
  apply bind_Ok in H as (a & g2 & _ & H).
  apply bind_Ok in H as (b & g3 & _ & H).
  destruct (_ || _) eqn:Hcull in H.
  { apply ret_Ok in H as [-> _]. exact Hc. }
  apply ret_Ok in H as [-> _].
  apply Forall_app. split; [exact Hc|]. constructor; [|constructor].
  apply orb_false_iff in Hcull as [Hcull H4].
  apply orb_false_iff in Hcull as [Hcull H3].
  apply orb_false_iff in Hcull as [H1 H2].
  apply ltb_false in H1, H2, H3, H4.
  cbn [draw_in_view]. repeat split; assumption.
Qed.

Lemma render_pulse_in_view (vis : Visuals) (e : Engine) (cmds : list Draw)
    (i : nat) g cmds' g' :
  Forall (draw_in_view vis e) cmds ->
  render_pulse vis e cmds i g = Ok (cmds', g') ->
  Forall (draw_in_view vis e) cmds'.
Proof.
  intros Hc H. unfold render_pulse in H.
  apply bind_Ok in H as (addr & g1 & _ & H).
  apply bind_Ok in H as (p & g2 & _ & H).
  apply bind_Ok in H as (L & g3 & _ & H).
  apply bind_Ok in H as (a & g4 & _ & H).
  apply bind_Ok in H as (b & g5 & _ & H).
  destruct (culled _ _ _ _) eqn:Hcull in H.
  { apply ret_Ok in H as [-> _]. exact Hc. }
  apply ret_Ok in H as [-> _].
  apply Forall_app. split; [exact Hc|]. constructor; [|constructor].
  apply culled_false in Hcull. cbn [draw_in_view].
  unfold in_view in *. lra.
Qed.

Lemma render_punch_in_view (vis : Visuals) (e : Engine) (i : nat)
    (n : Fg.Node) :
  Forall (draw_in_view vis e) (render_punch vis e i n).
Proof.
  unfold render_punch. destruct (negb _); [constructor|].
  destruct (culled _ _ _ _) eqn:Hcull; [constructor|].
  constructor; [|constructor]. apply culled_false in Hcull. exact Hcull.
Qed.

Lemma render_node_in_view (vis : Visuals) (e : Engine) (i : nat)
    (n : Fg.Node) :
  Forall (draw_in_view vis e) (render_node vis e i n).
Proof.
  unfold render_node. destruct (negb _); [constructor|].
  destruct (culled _ _ _ _) eqn:Hcull; [constructor|].
  constructor; [|constructor]. apply culled_false in Hcull.
  cbn [draw_in_view]. unfold in_view in *. lra.
Qed.

(** X24.  [_render] draws nothing that lies wholly outside the viewport
    widened by [CULL_MARGIN]: every punch-through circle, pulse sprite and
    node sprite of a frame is centred inside it, and the bounding box of
    every line meets it.  The layers are shifted by the drift offsets the
    engine holds. *)
Theorem render_culls (vis : Visuals) (e : Engine) (f : Frame) (g g' : Rng) :
  _render vis e g = Ok (f, g') ->
  Forall (draw_in_view vis e) (drawn f) /\
  staticShift f = (_globalOffsetX e, _globalOffsetY e) /\
  bgShift f = (_globalOffsetX e + _bgOffsetX e,
               _globalOffsetY e + _bgOffsetY e).
Proof.
  intros H. unfold _render in H.
  apply bind_Ok in H as (lines & g1 & Hl & H).
  apply bind_Ok in H as (ps & g2 & Hp & H).
  apply ret_Ok in H as [-> _]. cbn [drawn staticShift bgShift].
  split; [|split; reflexivity].
  apply Forall_app. split.
  { refine (foldM_inv _ (Forall (draw_in_view vis e)) _ _ _ _ _ _ _ Hl);
      [|constructor].
    intros c idx g0 c' g0' _ Hc Hs. eapply render_link_in_view; eassumption. }
  apply Forall_app. split.
  { destruct (DYNAMIC_LINE_PUNCH vis); [|constructor].
    apply Forall_mjoin_imap. intros i x. apply render_punch_in_view. }
  apply Forall_app. split.
  { refine (foldM_inv _ (Forall (draw_in_view vis e)) _ _ _ _ _ _ _ Hp);
      [|constructor].
    intros c idx g0 c' g0' _ Hc Hs. eapply render_pulse_in_view; eassumption. }
  apply Forall_mjoin_imap. intros i x. apply render_node_in_view.
Qed.

Lemma render_link_draws (vis : Visuals) (e : Engine) (cmds : list Draw)
    (idx : nat) (L : Fg.Link) (a b : Fg.Node) g :
  links e !! idx = Some L ->
  nodes e !! Fg.ai L = Some a -> nodes e !! Fg.bi L = Some b ->
  draw_in_view vis e
    (DrawLine (Fg.x a + _globalOffsetX e) (Fg.y a + _globalOffsetY e)
              (Fg.x b + _globalOffsetX e) (Fg.y b + _globalOffsetY e)
              0 0 0) ->
  exists w alphaA alphaB,
    render_link vis e cmds idx g
    = Ok (cmds ++ [DrawLine (Fg.x a + _globalOffsetX e)
                            (Fg.y a + _globalOffsetY e)
                            (Fg.x b + _globalOffsetX e)
                            (Fg.y b + _globalOffsetY e) w alphaA alphaB], g).
Proof.
  intros HL Ha Hb (H1 & H2 & H3 & H4). unfold render_link.
  rewrite (bind_defined _ L) by exact HL.
  rewrite (bind_defined _ a) by exact Ha.
  rewrite (bind_defined _ b) by exact Hb.
  rewrite (proj2 (ltb_false _ _) H1), (proj2 (ltb_false _ _) H2),
          (proj2 (ltb_false _ _) H3), (proj2 (ltb_false _ _) H4).
  cbn [orb]. eexists _, _, _. reflexivity.
Qed.

Lemma culled_in_view (vis : Visuals) (e : Engine) (x y : R) :
  in_view vis e x y -> culled vis e x y = false.
Proof.
  intros [[H1 H2] [H3 H4]]. unfold culled.
  rewrite (proj2 (ltb_false _ _) H1), (proj2 (ltb_false _ _) H2),
          (proj2 (ltb_false _ _) H3), (proj2 (ltb_false _ _) H4).
  reflexivity.
Qed.

Lemma render_pulse_draws (vis : Visuals) (e : Engine) (cmds : list Draw)
    (i addr : nat) (p : Pulse) (L : Fg.Link) (a b : Fg.Node) g :
  pulses e !! i = Some (Some addr) -> store e !! addr = Some p ->
  JS.nth_Z (links e) (linkIndex p) = Some L ->
  nodes e !! Fg.ai L = Some a -> nodes e !! Fg.bi L = Some b ->
  let ax := Fg.x a + _globalOffsetX e in
  let ay := Fg.y a + _globalOffsetY e in
  let bx := Fg.x b + _globalOffsetX e in
  let byy := Fg.y b + _globalOffsetY e in
  in_view vis e (ax + (bx - ax) * t p) (ay + (byy - ay) * t p) ->
  render_pulse vis e cmds i g
  = Ok (cmds ++ [DrawPulse (ax + (bx - ax) * t p - PULSE_RADIUS vis * 2 / 2)
                           (ay + (byy - ay) * t p - PULSE_RADIUS vis * 2 / 2)
                           (PULSE_RADIUS vis * 2) (PULSE_RADIUS vis * 2)], g).
Proof.
  intros Hi Hp HL Ha Hb ax ay bx byy Hview. unfold render_pulse.
  rewrite (bind_defined _ addr) by (rewrite Hi; reflexivity).
  rewrite (bind_defined _ p) by exact Hp.
  rewrite (bind_defined _ L) by exact HL.
  rewrite (bind_defined _ a) by exact Ha.
  rewrite (bind_defined _ b) by exact Hb.
  fold ax ay bx byy. rewrite (culled_in_view _ _ _ _ Hview). reflexivity.
Qed.

Lemma demo_drawing_x (k : nat) :
  (k < 2)%nat -> Fg.x (demo_node k) = INR k * 600 /\ Fg.y (demo_node k) = 0.
Proof.
  intros Hk. destruct k as [|[|k]]; [| |lia];
    unfold demo_node; cbn [Fg.x Fg.y Nat.modulo Nat.div]; simpl; lra.
Qed.

Lemma foldM_single {A St : Type} (f : St -> A -> M St) (a : A) (s : St) g :
  foldM f [a] s g = f s a g.
Proof.
  cbn [foldM]. unfold bind. destruct (f s a g) as [[s' g']| |]; reflexivity.
Qed.

Lemma render_culls_witness :
  exists f,
    _render VISUALS demo_drawing zero_rng = Ok (f, zero_rng) /\
    (exists w alphaA alphaB, DrawLine 0 0 600 0 w alphaA alphaB ∈ drawn f) /\
    DrawPulse 296 (-4) 8 8 ∈ drawn f /\
    (exists r, DrawPunch 0 0 r ∈ drawn f) /\
    (exists size alpha,
       DrawNode (0 - size / 2) (0 - size / 2) size alpha ∈ drawn f) /\
    Forall (draw_in_view VISUALS demo_drawing) (drawn f) /\
    staticShift f
    = (_globalOffsetX demo_drawing, _globalOffsetY demo_drawing) /\
    bgShift f = (_globalOffsetX demo_drawing + _bgOffsetX demo_drawing,
                 _globalOffsetY demo_drawing + _bgOffsetY demo_drawing).
Proof.
  set (e := demo_drawing).
  assert (Ha : nodes e !! 0%nat = Some (demo_node 0))
    by (apply demo_node_lookup; lia).
  assert (Hb : nodes e !! 1%nat = Some (demo_node 1))
    by (apply demo_node_lookup; lia).
  destruct (demo_drawing_x 0) as [Hx0 Hy0]; [lia|].
  destruct (demo_drawing_x 1) as [Hx1 Hy1]; [lia|].
  assert (Hgx : _globalOffsetX e = 0) by reflexivity.
  assert (Hgy : _globalOffsetY e = 0) by reflexivity.
  assert (Hw : width e = 2160) by reflexivity.
  assert (Hh : height e = 1350) by reflexivity.
  assert (Hm : CULL_MARGIN VISUALS = 24) by reflexivity.
  destruct (render_link_draws VISUALS e [] 0 (Fg.mkLink 0 1 600)
              (demo_node 0) (demo_node 1) zero_rng eq_refl Ha Hb)
    as (w & alphaA & alphaB & El).
  { cbn [draw_in_view]. rewrite Hx0, Hy0, Hx1, Hy1, Hgx, Hgy, Hw, Hh, Hm.
    unfold Rmax, Rmin. simpl.
    repeat destruct (Rle_dec _ _); lra. }
  pose proof (render_pulse_draws VISUALS e [] 0 0
                (mkPulse 0 (1 / 2) true 600) (Fg.mkLink 0 1 600)
                (demo_node 0) (demo_node 1) zero_rng eq_refl eq_refl eq_refl
                Ha Hb) as Ep.
  cbv zeta in Ep.
  assert (Hview : in_view VISUALS e
            (Fg.x (demo_node 0) + _globalOffsetX e
             + (Fg.x (demo_node 1) + _globalOffsetX e
                - (Fg.x (demo_node 0) + _globalOffsetX e))
               * t (mkPulse 0 (1 / 2) true 600))
            (Fg.y (demo_node 0) + _globalOffsetY e
             + (Fg.y (demo_node 1) + _globalOffsetY e
                - (Fg.y (demo_node 0) + _globalOffsetY e))
               * t (mkPulse 0 (1 / 2) true 600))).
  { unfold in_view. rewrite Hx0, Hy0, Hx1, Hy1, Hgx, Hgy, Hw, Hh, Hm.
    cbn [t]. simpl. lra. }
  specialize (Ep Hview).
  assert (Hnode : exists rest,
            mjoin (imap (render_node VISUALS e) (nodes e))
            = render_node VISUALS e 0 (demo_node 0) ++ rest).
  { change (nodes e) with (map demo_node (0%nat :: seq 1 99)).
    eexists. reflexivity. }
  assert (Hpunch : exists rest,
            mjoin (imap (render_punch VISUALS e) (nodes e))
            = render_punch VISUALS e 0 (demo_node 0) ++ rest).
  { change (nodes e) with (map demo_node (0%nat :: seq 1 99)).
    eexists. reflexivity. }
  assert (Hc0 : culled VISUALS e (Fg.x (demo_node 0) + _globalOffsetX e)
                  (Fg.y (demo_node 0) + _globalOffsetY e) = false).
  { apply culled_in_view. unfold in_view.
    rewrite Hx0, Hy0, Hgx, Hgy, Hw, Hh, Hm. simpl. lra. }
  destruct Hnode as (restN & HrestN). destruct Hpunch as (restP & HrestP).
  assert (HN0 : exists size alpha,
            render_node VISUALS e 0 (demo_node 0)
            = [DrawNode (Fg.x (demo_node 0) + _globalOffsetX e - size / 2)
                        (Fg.y (demo_node 0) + _globalOffsetY e - size / 2)
                        size alpha]).
  { unfold render_node.
    change (default false (movingFlags e !! 0%nat)) with true.
    cbn [negb]. rewrite Hc0. eexists _, _. reflexivity. }
  assert (HP0 : exists r,
            render_punch VISUALS e 0 (demo_node 0)
            = [DrawPunch (Fg.x (demo_node 0) + _globalOffsetX e)
                         (Fg.y (demo_node 0) + _globalOffsetY e) r]).
  { unfold render_punch.
    change (default false (movingFlags e !! 0%nat)) with true.
    cbn [negb]. rewrite Hc0. eexists. reflexivity. }
  destruct HN0 as (size & alpha & HN0). destruct HP0 as (r & HP0).
  match type of El with _ = Ok (_ ++ [?c], _) => set (cl := c) in * end.
  match type of Ep with _ = Ok (_ ++ [?c], _) => set (cp := c) in * end.
  assert (El' : foldM (render_link VISUALS e) (dynamicLinks e) [] zero_rng
                = Ok ([cl], zero_rng)).
  { change (dynamicLinks e) with [0%nat]. rewrite foldM_single. exact El. }
  assert (Ep' : foldM (render_pulse VISUALS e) (seq 0 (pulsesLen e)) []
                  zero_rng = Ok ([cp], zero_rng)).
  { change (seq 0 (pulsesLen e)) with [0%nat]. rewrite foldM_single.
    exact Ep. }
  assert (Hrender : exists f, _render VISUALS e zero_rng = Ok (f, zero_rng) /\
            drawn f = [cl] ++ (if DYNAMIC_LINE_PUNCH VISUALS
                            then mjoin (imap (render_punch VISUALS e) (nodes e))
                            else []) ++ [cp]
                        ++ mjoin (imap (render_node VISUALS e) (nodes e))).
  { eexists. split.
    - unfold _render.
      rewrite (bind_eq _ _ _ _ _ El'), (bind_eq _ _ _ _ _ Ep'). reflexivity.
    - reflexivity. }
  destruct Hrender as (f & Hf & Hdrawn).
  exists f. split; [exact Hf|].
  pose proof (render_culls VISUALS e f zero_rng zero_rng Hf)
    as (Hall & Hss & Hbs).
  assert (Hd : drawn f
               = [cl] ++ ([DrawPunch (Fg.x (demo_node 0) + _globalOffsetX e)
                             (Fg.y (demo_node 0) + _globalOffsetY e) r]
                          ++ restP)
                 ++ [cp]
                 ++ ([DrawNode
                        (Fg.x (demo_node 0) + _globalOffsetX e - size / 2)
                        (Fg.y (demo_node 0) + _globalOffsetY e - size / 2)
                        size alpha] ++ restN)).
  { rewrite Hdrawn. change (DYNAMIC_LINE_PUNCH VISUALS) with true. cbv iota.
    rewrite HrestN, HrestP, HN0, HP0. reflexivity. }
  split.
  { exists w, alphaA, alphaB. rewrite Hd. apply elem_of_app. left.
    apply list_elem_of_singleton. unfold cl.
    rewrite Hx0, Hy0, Hx1, Hy1, Hgx, Hgy. f_equal; simpl; lra. }
  split.
  { rewrite Hd. apply elem_of_app. right. apply elem_of_app. right.
    apply elem_of_app. left. apply list_elem_of_singleton. unfold cp.
    rewrite Hx0, Hy0, Hx1, Hy1, Hgx, Hgy. cbn [t]. f_equal; simpl; lra. }
  split.
  { exists r. rewrite Hd. apply elem_of_app. right. apply elem_of_app. left.
    apply elem_of_app. left. apply list_elem_of_singleton.
    rewrite Hx0, Hy0, Hgx, Hgy. f_equal; simpl; lra. }
  split.
  { exists size, alpha. rewrite Hd.
    apply elem_of_app. right. apply elem_of_app. right.
    apply elem_of_app. right. apply elem_of_app. left.
    apply list_elem_of_singleton.
    rewrite Hx0, Hy0, Hgx, Hgy. f_equal; simpl; lra. }
  split; [exact Hall|]. split; [exact Hss|exact Hbs].
Defined.

(** ** Resize continuity *)

Lemma buildLinks_frame (cfg : Config) (e e' : Engine) g g' :
  _buildLinks cfg e g = Ok (e', g') ->
  _resizePrevW e' = _resizePrevW e /\ _resizePrevH e' = _resizePrevH e /\
  width e' = width e /\ height e' = height e /\
  bgNodeMax e' = bgNodeMax e /\ nodeMax e' = nodeMax e.
Proof.
  unfold _buildLinks. intros H.
  apply bind_Ok in H as (lks & g1 & _ & H).
  apply ret_Ok in H as [-> _]. repeat split.
Qed.

(** What the layout part of any [_resize] leaves: the new size, recorded
    as the previous size of the next resize, and the caps of the new
    size. *)
Lemma resize_frame (cfg : Config) (fuel : nat) (first : bool) (w h : R)
    (e e' : Engine) g g' :
  _resize cfg fuel first w h e g = Ok (e', g') ->
  _resizePrevW e' = w /\ _resizePrevH e' = h /\
  width e' = w /\ height e' = h /\
  bgNodeMax e' = bgNodeMax (_applyResponsiveScaling cfg e w h).
Proof.
  unfold _resize. intros H.
  set (e1 := set_size (_applyResponsiveScaling cfg e w h) w h) in *.
  destruct (_ && _) in H; [|destruct (negb first) in H].
  - apply bind_Ok in H as (e3 & g3 & Hl & Hb).
    apply buildLinks_frame in Hl as (H1 & H2 & H3 & H4 & H5 & _).
    apply buildBgLinks_Ok in Hb as (edges & g4 & _ & ->).
    cbn [_resizePrevW _resizePrevH width height bgNodeMax set_bgLinks].
    rewrite H1, H2, H3, H4, H5. repeat split.
  - apply bind_Ok in H as (e2 & g2 & Hs & H).
    apply bind_Ok in H as (e3 & g3 & Hl & Hb).
    apply setupNodesEven_Ok in Hs as (nds & bgs & flags & -> & _).
    apply buildLinks_frame in Hl as (H1 & H2 & H3 & H4 & H5 & _).
    apply buildBgLinks_Ok in Hb as (edges & g4 & _ & ->).
    cbn [_resizePrevW _resizePrevH width height bgNodeMax set_bgLinks].
    rewrite H1, H2, H3, H4, H5. repeat split.
  - apply ret_Ok in H as [-> _]. repeat split.
Qed.

Lemma update_prev_size (cfg : Config) (dt now : R) (e e' : Engine) g g' :
  _update cfg dt now e g = Ok (e', g') -> prev_size_ok e -> prev_size_ok e'.
Proof.
  unfold _update. intros H [HW HH].
  apply bind_Ok in H as (e1 & g1 & Hm & H).
  apply bind_Ok in H as (e2 & g2 & Hs & Ha).
  apply update_spawn_scene in Hs. apply update_advance_scene in Ha.
  pose proof (same_scene_trans _ _ _ Hs Ha) as (Hw & Hh & Hpw & Hph & _).
  unfold update_motion in Hm.
  apply bind_Ok in Hm as (near & g3 & _ & Hm).
  apply bind_Ok in Hm as (mid & g4 & _ & Hm).
  apply ret_Ok in Hm as [-> _].
  unfold prev_size_ok. rewrite Hw, Hh, Hpw, Hph.
  cbn [width height _resizePrevW _resizePrevH set_motion].
  split; assumption.
Qed.

(** The layout facts the constructor establishes. *)
Lemma constructor_frame (cfg : Config) (fuel : nat) (w h now0 : R)
    (e : Engine) g g' :
  constructor cfg fuel w h now0 g = Ok (e, g') ->
  prev_size_ok e /\ width e = w /\ height e = h /\
  bgNodeMax e
  = bgNodeMax (_applyResponsiveScaling cfg (blank_engine cfg w h) w h).
Proof.
  unfold constructor. intros H.
  apply bind_Ok in H as (e1 & g1 & Hr & H).
  apply bind_Ok in H as (e2 & g1' & Hinit & H).
  apply init_simulation_Ok in Hinit as (_ & -> & ->).
  apply bind_Ok in H as (u & g2 & _ & H).
  apply bind_Ok in H as (e3 & g3 & Hs & H).
  apply bind_Ok in H as (e4 & g4 & Hl & Hb).
  apply resize_frame in Hr as (Hpw & Hph & Hw & Hh & Hbm).
  apply setupNodesEven_Ok in Hs as (nds & bgs & flags & -> & _).
  apply buildLinks_frame in Hl as (H1 & H2 & H3 & H4 & H5 & _).
  apply buildBgLinks_Ok in Hb as (edges & g5 & _ & ->).
  unfold prev_size_ok.
  cbn [_resizePrevW _resizePrevH width height bgNodeMax set_bgLinks].
  rewrite H1, H2, H3, H4, H5.
  cbn [_resizePrevW _resizePrevH width height bgNodeMax set_population].
  rewrite Hpw, Hph, Hw, Hh, Hbm. repeat split.
Qed.

(** Every state of an execution that starts with the constructor is
    reachable, and its recorded previous size is its size. *)
Lemma run_from_start (cfg : Config) (fuel : nat) (evs : list Event) :
  forall (e0 e : Engine) g g',
  reachable cfg e0 -> prev_size_ok e0 ->
  run cfg fuel evs e0 g = Ok (e, g') ->
  reachable cfg e /\ prev_size_ok e.
Proof.
  induction evs as [|ev evs IH]; intros e0 e g g' Hr Hp H.
  - apply ret_Ok in H as [-> _]. split; assumption.
  - unfold run in H. cbn [foldM] in H.
    apply bind_Ok in H as (e1 & g1 & Hstep & H).
    apply (IH e1 e g1 g'); [| |exact H].
    + eapply reach_step; eassumption.
    + destruct ev as [now|w h]; cbn [step] in Hstep.
      * eapply update_prev_size; eassumption.
      * apply resize_frame in Hstep as (Hpw & Hph & Hw & Hh & _).
        unfold prev_size_ok. rewrite Hpw, Hph, Hw, Hh. split; reflexivity.
Qed.

(** C9, as amended.  Take any state [e] of an execution that starts with
    the constructor, and a resize of the container to [w] by [h] that
    leaves both target counts as they were.  Then [_resize] keeps the
    population: the position and the origin of every node, and the
    position of every background node, are multiplied by [sx] in x and by
    [sy] in y, where [sx] is [w] over the previous width [width e] when
    that is not 0, and 1 when it is 0, and [sy] likewise for the heights;
    identity, depth, seed phase and movement flags are kept; and what
    follows is one run of [_buildLinks] and one of [_buildBgLinks] over
    the rescaled nodes. *)
Theorem resize_continuity (cfg : Config) (fuel : nat) (w0 h0 now0 : R)
    (evs : list Event) (w h : R) (e0 e e' : Engine) (g0 g1 g g' : Rng) :
  constructor cfg fuel w0 h0 now0 g0 = Ok (e0, g1) ->
  run cfg fuel evs e0 g1 = Ok (e, g) ->
  _getTargetCounts cfg (set_size (_applyResponsiveScaling cfg e w h) w h)
  = _getTargetCounts cfg e ->
  _resize cfg fuel false w h e g = Ok (e', g') ->
  exists sx sy : R,
    (width e <> 0 -> sx = w / width e) /\ (width e = 0 -> sx = 1) /\
    (height e <> 0 -> sy = h / height e) /\ (height e = 0 -> sy = 1) /\
    length (nodes e') = length (nodes e) /\
    (forall i n, nodes e !! i = Some n ->
       exists n', nodes e' !! i = Some n' /\
         Fg.x n' = Fg.x n * sx /\ Fg.y n' = Fg.y n * sy /\
         Fg.ox n' = Fg.ox n * sx /\ Fg.oy n' = Fg.oy n * sy /\
         Fg.id n' = Fg.id n /\ Fg.z n' = Fg.z n /\
         Fg.seedPhase n' = Fg.seedPhase n) /\
    length (bgNodes e') = length (bgNodes e) /\
    (forall i b, bgNodes e !! i = Some b ->
       exists b', bgNodes e' !! i = Some b' /\
         Bg.x b' = Bg.x b * sx /\ Bg.y b' = Bg.y b * sy /\
         Bg.z b' = Bg.z b) /\
    movingFlags e' = movingFlags e /\
    exists e1 e2 g2,
      nodes e1 = nodes e' /\ bgNodes e1 = bgNodes e' /\
      movingFlags e1 = movingFlags e' /\ links e1 = links e /\
      bgLinks e1 = bgLinks e /\
      _buildLinks cfg e1 g = Ok (e2, g2) /\
      _buildBgLinks cfg e2 g2 = Ok (e', g').
Proof.
  intros Hc Hrun Hsame Hre.
  pose proof (constructor_frame _ _ _ _ _ _ _ _ Hc) as (Hp0 & _).
  apply constructor_constructed in Hc.
  destruct (run_from_start cfg fuel evs e0 e g1 g (reach_init cfg e0 Hc)
              Hp0 Hrun) as (Hr & HpW & HpH).
  pose proof (reachable_population_consistent cfg e Hr) as Hcons.
  pose proof (resize_rescale cfg fuel w h e e' g g' Hcons Hsame Hre) as Hres.
  cbv zeta in Hres. rewrite HpW, HpH in Hres.
  set (sx := if JS.eqb (width e) 0 then 1 else w / width e) in *.
  set (sy := if JS.eqb (height e) 0 then 1 else h / height e) in *.
  destruct Hres as (Hn & Hb & Hf & e2 & g2 & Hl & Hbg).
  exists sx, sy.
  split. { intros Hne. unfold sx.
           destruct (JS.eqb (width e) 0) eqn:E; [|reflexivity].
           apply eqb_true in E. contradiction. }
  split. { intros He. unfold sx.
           destruct (JS.eqb (width e) 0) eqn:E; [reflexivity|].
           apply eqb_false in E. contradiction. }
  split. { intros Hne. unfold sy.
           destruct (JS.eqb (height e) 0) eqn:E; [|reflexivity].
           apply eqb_true in E. contradiction. }
  split. { intros He. unfold sy.
           destruct (JS.eqb (height e) 0) eqn:E; [reflexivity|].
           apply eqb_false in E. contradiction. }
  split; [rewrite Hn; apply length_map|].
  split.
  { intros i n Hi. exists (scale_node sx sy n). split.
    - rewrite Hn. change (map (scale_node sx sy) (nodes e))
        with (scale_node sx sy <$> nodes e).
      rewrite list_lookup_fmap, Hi. reflexivity.
    - repeat split. }
  split; [rewrite Hb; apply length_map|].
  split.
  { intros i b Hi. exists (scale_bg_node sx sy b). split.
    - rewrite Hb. change (map (scale_bg_node sx sy) (bgNodes e))
        with (scale_bg_node sx sy <$> bgNodes e).
      rewrite list_lookup_fmap, Hi. reflexivity.
    - repeat split. }
  split; [exact Hf|].
  eexists _, e2, g2. split; [|split; [|split; [|split; [|split;
    [|split; [exact Hl|exact Hbg]]]]]].
  - rewrite Hn. reflexivity.
  - rewrite Hb. reflexivity.
  - rewrite Hf. reflexivity.
  - reflexivity.
  - reflexivity.
Qed.

(** The hidden engine and the same engine shown at 10 by 10 both ask for
    16 foreground and 12 background nodes. *)
Lemma hidden_targets :
  _getTargetCounts CONFIG hidden_engine = (16%Z, 12%Z).
Proof.
  unfold _getTargetCounts. simpl.
  unfold Rmin. destruct (Rle_dec 0 0); [|lra].
  destruct (JS.ltb 0 900) eqn:E; [|apply ltb_false in E; lra].
  rewrite (round_eq (16 * (9 / 10)) 14) by lra.
  rewrite (round_eq (12 * (9 / 10)) 11) by lra. reflexivity.
Qed.

Lemma clamp_lo (v a b : R) : v < a -> JS.clamp v a b = a.
Proof.
  intros H. unfold JS.clamp.
  destruct (JS.ltb v a) eqn:E; [reflexivity|apply ltb_false in E; lra].
Qed.

Lemma hidden_targets_shown :
  _getTargetCounts CONFIG
    (set_size (_applyResponsiveScaling CONFIG hidden_engine 10 10) 10 10)
  = (16%Z, 12%Z).
Proof.
  unfold _getTargetCounts, _applyResponsiveScaling. simpl.
  rewrite Rmax_right by lra.
  rewrite (round_eq (70 * (10 * 10 / (1440 * 900))) 0) by lra.
  rewrite (clamp_lo 0 16 100) by lra.
  rewrite (clamp_lo 0 12 60) by lra.
  unfold Rmin. destruct (Rle_dec 10 10); [|lra].
  destruct (JS.ltb 10 900) eqn:E; [|apply ltb_false in E; lra].
  rewrite (round_eq (16 * (9 / 10)) 14) by lra.
  rewrite (round_eq (12 * (9 / 10)) 11) by lra. reflexivity.
Qed.

(** C9, counterexample.  A resize from a previous size of zero, as when
    a hidden container is shown: the target counts are unchanged, the
    width goes from 0 to 10,
    and the node that sat at [x = 1 / 100] still does; its position was
    multiplied by 1, not by the ratio of the new width to the previous
    one. *)
Lemma resize_from_zero_size :
  exists e' g' n n',
    _getTargetCounts CONFIG
      (set_size (_applyResponsiveScaling CONFIG hidden_engine 10 10) 10 10)
    = _getTargetCounts CONFIG hidden_engine /\
    _resize CONFIG 0 false 10 10 hidden_engine zero_rng = Ok (e', g') /\
    _resizePrevW hidden_engine = 0 /\ width hidden_engine = 0 /\
    width e' = 10 /\
    nodes hidden_engine !! 0%nat = Some n /\ nodes e' !! 0%nat = Some n' /\
    Fg.x n = 1 / 100 /\ Fg.x n' = 1 / 100 /\
    Fg.x n' <> Fg.x n * (10 / _resizePrevW hidden_engine).
Proof.
  assert (Hsame : _getTargetCounts CONFIG
            (set_size (_applyResponsiveScaling CONFIG hidden_engine 10 10)
               10 10)
          = _getTargetCounts CONFIG hidden_engine).
  { rewrite hidden_targets_shown, hidden_targets. reflexivity. }
  assert (Hcons : population_consistent CONFIG hidden_engine).
  { unfold population_consistent. rewrite hidden_targets. reflexivity. }
  destruct (resize_reflow_total CONFIG 0 10 10 hidden_engine zero_rng
              Hcons Hsame) as (e' & g' & E).
  { change (nodes hidden_engine) with (map hidden_node (seq 0 16)).
    rewrite length_map, length_seq. lia. }
  pose proof (resize_rescale CONFIG 0 10 10 hidden_engine e' zero_rng g'
                Hcons Hsame E) as (Hn & _).
  pose proof (resize_frame _ _ _ _ _ _ _ _ _ E) as (_ & _ & Hw & _).
  change (_resizePrevW hidden_engine) with 0 in Hn.
  change (_resizePrevH hidden_engine) with 0 in Hn.
  destruct (JS.eqb 0 0) eqn:E0; [|apply eqb_false in E0; lra].
  exists e', g', (hidden_node 0), (scale_node 1 1 (hidden_node 0)).
  split; [exact Hsame|]. split; [exact E|].
  split; [reflexivity|]. split; [reflexivity|]. split; [exact Hw|].
  split; [reflexivity|].
  split; [rewrite Hn; reflexivity|].
  split; [reflexivity|].
  split; [cbn [scale_node hidden_node Fg.x]; lra|].
  cbn [scale_node hidden_node Fg.x].
  change (_resizePrevW hidden_engine) with 0.
  unfold Rdiv at 3. rewrite Rinv_0. lra.
Qed.

Lemma demo_bg_max_large (e : Engine) :
  bgNodeMax (_applyResponsiveScaling CONFIG e 2160 1350) = 60.
Proof.
  unfold _applyResponsiveScaling. simpl. rewrite Rmax_right by lra.
  rewrite (round_eq _ 158) by lra. apply clamp_hi; lra.
Qed.

Lemma resize_continuity_witness :
  exists (e0 e' : Engine) (g1 g' : Rng) (sx sy : R),
    constructor CONFIG (Z.to_nat 246953088) 2160 1350 0 zero_rng
    = Ok (e0, g1) /\
    _resize CONFIG (Z.to_nat 246953088) false 1728 1080 e0 g1
    = Ok (e', g') /\
    width e0 = 2160 /\ height e0 = 1350 /\
    sx = 1728 / 2160 /\ sy = 1080 / 1350 /\
    length (nodes e') = length (nodes e0) /\
    (forall i n, nodes e0 !! i = Some n ->
       exists n', nodes e' !! i = Some n' /\
         Fg.x n' = Fg.x n * sx /\ Fg.y n' = Fg.y n * sy /\
         Fg.ox n' = Fg.ox n * sx /\ Fg.oy n' = Fg.oy n * sy /\
         Fg.id n' = Fg.id n /\ Fg.z n' = Fg.z n /\
         Fg.seedPhase n' = Fg.seedPhase n) /\
    length (bgNodes e') = length (bgNodes e0) /\
    (forall i b, bgNodes e0 !! i = Some b ->
       exists b', bgNodes e' !! i = Some b' /\
         Bg.x b' = Bg.x b * sx /\ Bg.y b' = Bg.y b * sy /\
         Bg.z b' = Bg.z b) /\
    movingFlags e' = movingFlags e0.
Proof.
  destruct (constructor_total CONFIG (Z.to_nat 246953088) 2160 1350 0
              zero_rng (config_ok_CONFIG 12)) as (e0 & g1 & Hc);
    [simpl; lia|simpl; lra|lra|lra|apply le_n|].
  pose proof (constructor_frame _ _ _ _ _ _ _ _ Hc) as (_ & Hw & Hh & Hbm).
  rewrite demo_bg_max_large in Hbm.
  pose proof (constructor_constructed _ _ _ _ _ _ _ _ Hc) as Hcd.
  pose proof Hcd as (_ & _ & _ & _ & _ & Hcons & _ & _ & _ & Hnm).
  rewrite Hw, Hh in Hnm.
  change (scaled_node_max CONFIG 2160 1350)
    with (scaled_node_max (with_pool_size CONFIG 12) 2160 1350) in Hnm.
  rewrite (demo_node_max_large 12) in Hnm.
  assert (Ht : _getTargetCounts CONFIG e0 = (100%Z, 60%Z))
    by (apply (demo_targets 12); assumption).
  assert (Hsame : _getTargetCounts CONFIG
            (set_size (_applyResponsiveScaling CONFIG e0 1728 1080) 1728 1080)
          = _getTargetCounts CONFIG e0).
  { rewrite Ht. exact (demo_targets_small 12 e0). }
  destruct (resize_reflow_total CONFIG (Z.to_nat 246953088) 1728 1080 e0 g1
              Hcons Hsame) as (e' & g' & E).
  { unfold population_consistent in Hcons. rewrite Ht in Hcons.
    injection Hcons as H1 H2. change (2 ^ 31)%Z with 2147483648%Z. lia. }
  destruct (resize_continuity CONFIG (Z.to_nat 246953088) 2160 1350 0 []
              1728 1080 e0 e0 e' zero_rng g1 g1 g' Hc eq_refl Hsame E)
    as (sx & sy & Hsx & _ & Hsy & _ & H1 & H2 & H3 & H4 & H5 & _).
  exists e0, e', g1, g', sx, sy.
  split; [exact Hc|]. split; [exact E|].
  split; [exact Hw|]. split; [exact Hh|].
  split; [rewrite <- Hw; apply Hsx; rewrite Hw; lra|].
  split; [rewrite <- Hh; apply Hsy; rewrite Hh; lra|].
  split; [exact H1|]. split; [exact H2|]. split; [exact H3|].
  split; [exact H4|exact H5].
Defined.
